(* ===== verification/_CoqProject ===== *)
-Q . S2P
Prelude.v
Cxx.v
Ordered.v
MySQL.v
LogStream.v
Buffer.v
HttpRequest.v
HttpContext.v
HttpTyping.v
HttpResponse.v
LFUCache.v
LFUHeap.v
LFUOps.v
LFUSpec.v
LFURefine.v
LFUPolicy.v
Timer.v
Calendar.v
Logger.v
LogFile.v
LogUtil.v
AsyncLogging.v
Logging.v
TimerQueue.v
Redis.v
RedisReply.v
RedisSocket.v
RedisClient.v
ResPool.v
Address.v
Sockets.v
Channel.v
Epoll.v
Poll.v
Acceptor.v
EventLoopThread.v
EventLoop.v
TcpServer.v
Tcp.v
TcpProofs.v
HttpServer.v
Reactor.v
Server.v
LoopLife.v
Examples.v
Webbench.v
HttpExample.v
