(* ===== verification/Prelude.v ===== *)
(** * TAlib: a verification development

    TAlib (the sources under [src/]) is a C++ network library in the style of
    muduo: event loops over epoll, TCP connections with buffers, an HTTP server,
    timers, an asynchronous logger, an LFU cache, a Redis client with a pool of
    connections, a pool of MySQL connections, and a load generator.  This library models its core
    and proves what it computes, what it keeps true, and where it goes wrong.
    Paths below are relative to [src/src/] unless they start with [src/].

    ** How the program is put together, and where it is modelled

    A loop (Reactor/EventLoop) waits in a poller for channels, runs their
    callbacks, then the functors other threads queued.  A TcpServer owns an
    Acceptor on the main loop; every accepted descriptor becomes a TcpConnection
    on one of the loops of an EventLoopThreadPool.  A connection reads into a
    Buffer and calls the message callback; HttpServer parses requests out of that
    buffer, calls the HTTP callback and writes the response back through the
    connection.  Loops own a TimerQueue.  The logger formats a line in a fixed
    buffer and hands it to an output function, which may be AsyncLogging.

    - Prelude.v: outcomes of C++ code ([outcome]: a value or a fault), code with
      state ([ST]), machine integers ([u16], [u32], [u64], [s32], [s64]), lists
      indexed by integers, hint databases and tactics.  Cxx.v: the string functions
      of the standard library.  Ordered.v: [std::set] and [std::map] as sorted lists.
    - Buffer.v: common/Buffer.  The vector and two indexes, every operation.
    - HttpRequest.v, HttpContext.v, HttpTyping.v, HttpResponse.v: Http/HttpRequest.h,
      Http/HttpContext, Http/HttpResponse, Http/Mimetype.  The parser is the loop
      over the buffer; HttpTyping.v says what its results always are.
    - HttpServer.v: Http/HttpServer, run by the connection of Tcp.v.
    - LFUCache.v (the code over heaps of nodes), LFUHeap.v and LFUOps.v (shape of
      the heaps, effect of the pointer operations), LFUSpec.v (levels without
      pointers), LFURefine.v (the refinement), LFUPolicy.v (the policy): cache/LFUCache.
    - Timer.v, Calendar.v: common/TimeStamp, common/Atomic.h, Reactor/Timer, the
      calendar of [gmtime_r].  TimerQueue.v: Reactor/TimerQueue, over a heap of
      timers, with callbacks that add and cancel timers.
    - LogStream.v, Logger.v: Logger/LogStream, Logger/Logger.  LogFile.v: Logger/LogFile
      and Logger/FileUtil over a file system of names and inodes.  LogUtil.v:
      Logger/ptr_vector.h and Logger/Thread.  AsyncLogging.v: Logger/AsyncLogging, the
      logging threads and the writing thread interleaved.  Logging.v: Logger/Logger
      with [setAsync] and the functions it writes to, from a log statement to the
      log file.
    - Redis.v, RedisReply.v: the commands, replies and requests of
      Redis/RedisConnect.h over an explicit buffer of C memory.  RedisSocket.v: its
      socket, connecting and closing.  RedisClient.v: the whole object, the two
      together, with [reconnect] and the template.  ResPool.v: Redis/ResPool.h and
      [grasp], the threads of the pool interleaved.
    - MySQL.v: MySQL/pool, the pool and [executeQuery].
    - Address.v: common/Endian.h, Socket/InetAddress and the address functions of
      Socket/SocketHelp, on the bytes of a socket address.  Sockets.v: Socket/Socket
      and the socket calls of Socket/SocketHelp over a kernel with laws.
    - Channel.v: Reactor/Channel and the contract of Reactor/Poller.  Epoll.v:
      Socket/Epoll.  Poll.v: Reactor/Poll.
    - Acceptor.v: Reactor/Acceptor with [accept] of Socket/Socket and Socket/SocketHelp.
    - EventLoop.v: Reactor/EventLoop and Reactor/EventLoopThreadPool, the loop thread
      and the threads that give it work as labelled steps.  EventLoopThread.v:
      Reactor/EventLoopThread.  LoopLife.v: the constructor and destructor of
      EventLoop with the descriptors it owns, the loops of several threads through
      their lives, Reactor/CurrentThread.h, and the timers a loop hands to its queue.  Reactor.v: turns of a loop over the connections of a
      server - poll, callbacks, functors, the end of connections - with many clients.
    - TcpServer.v: Tcp/TcpServer, fed by Acceptor.v.  Tcp.v, TcpProofs.v:
      Tcp/TcpConnection with its channel in the poller, its loop and the loop of the
      server.
    - Server.v: the serving process - TcpServer with its Acceptor and the connections
      of Reactor.v on one loop - from [startListen] on.
    - Webbench.v: src/webbench, the options, the request, the clients and the sums.
    - Examples.v: the handlers of src/example/static_server_example.cpp and
      src/example/tcp_server_example.cpp.  HttpExample.v: the callbacks of
      src/example/http_server_example.cpp.

    A component has a Module with the name of the class; the state is a Record with
    the members' names, an operation a Definition with the function's name.  An
    operation that can assert, dereference or throw returns [outcome]; one that
    changes state takes and returns it, or is in [ST].  Threads are modelled by
    labelled steps: a step is what a thread does between two points where another
    can see it (a locked region, a system call), and theorems hold for every
    sequence of labels.

    ** Interfaces

    - [Poller] and [PollerSpec] (Channel.v): what a channel needs of a poller; Epoll.v
      gives the instance, Poll.v shows the two laws poll breaks.  [Kernel] (Epoll.v):
      the interest list of epoll(7).
    - [Os] and [OsSpec] (Acceptor.v), [SockOs] and [SockOsSpec] (Sockets.v), [LoopOs]
      and [LoopOsSpec] (LoopLife.v), [NetOs] and [NetOsSpec] (RedisSocket.v): the system
      calls on descriptors, with the laws their documentation gives and an instance
      that satisfies them.
    - [Serving] (Server.v): what the process needs of the descriptors of the kernel
      and of the queue of the listening socket.
    - [Cache] and [CacheSpec] (Examples.v): what the static server needs of a cache,
      implemented by LFUCache through LFURefine.v.
    - [ByteSink] (Prelude.v): where a response is written; Buffer.v is one.
    - [Stored] (LFUCache.v): the heap a type of nodes lives in.  [LtbOrder]
      (Ordered.v): the order of a set's keys.

    ** What the theorems show

    - Whole stack: [process_serves] (the process from its start: clients taken in
      order or refused, each answered its own requests, descriptors and connections
      those of the clients that are there), [clients_served] (many clients on one loop
      that connect, send and hang up in any order, each served as if it were alone),
      [keep_alive_session] (one of them: requests in any pieces, one response each, in order, from epoll
      event to bytes on the wire), [redis_session] (the Redis client against a server
      whose answers are cut anyhow), [statements_reach_file] (from a log statement of
      any thread to the log file), [webbench_served] (what the load generator writes is
      what the server answers), [clients_connected] and [server_refines] (from the
      listening socket to connections spread over the loops), [cache_transparent] (the
      static server with its cache against the one without).  The first three are
      about clients whose requests are well formed and leave the connection open, no
      piece with parts of two, and whose answers fit the free space of the send
      buffer, so that one write takes them whole: [partial_send_wedges],
      [bad_client_aborts], [one_message_only] and [broken_pipe_ends_process] show what
      happens to the others.  [redis_session] is about scalar replies.
    - Refinements and equivalences: [buffer_refines_queue], [lfu_refines_levels],
      [lfu_policy], [segmentation_independence], [epoll_watches].
    - Round trips: requests, responses, Redis replies, dates, addresses.
    - Concurrency: [functors_fifo] and [no_lost_wakeup] (the loop), [async_in_order],
      [async_stops] (the logger), [pool_exclusive] (the Redis pool),
      [connections_exclusive] (the MySQL pool), [startLoop_returns] and
      [thread_faults] (the hand-shake and the destructor of a loop's thread).
    - Descriptors and memory: [backlog_drains], [loop_lifetime], [connect_descriptors],
      [readFd_correct], [stream_line], and the freeing of connections, nodes and timers.
    - The load generator: [benchcore_counts] (every request counted once, every
      socket closed but those of refused connections), [bench_totals],
      [build_request_spec]; [bytes_overflow], [negative_clients], [reload_ignored] and
      [broken_line] say where it goes wrong.
    - Well-formedness of what is parsed: [parsed_requests_typed].
    - What goes wrong, each with a witness: [bad_client_aborts], [where_it_listens],
      [partial_send_wedges], [broken_pipe_ends_process], [hangup_after_close_aborts], [cross_thread_send_dangles],
      [idle_stolen], [one_message_only], [stop_loses_lines], [startLoop_hangs],
      [reconnect_keeps_error], [executeQuery_spec], [pool_misuse], [echo_answers], [array_reply_duplicates],
      [lfu_reset_overflows], [epoll_capacity] and others next to the component.

    ** Fuel

    - The parser loops ([HttpContext.parseRequest], [fuel_for]): every iteration but
      the last consumes a line, so one per readable byte and one more suffice;
      [parseRequest_terminates] proves that any larger number gives the same
      result, and says when that is an assertion that fails, and [parseRequest_spins] that from the two states no server calls it in
      no number suffices, as the code loops.
    - Redis: [write_fuel] (a round sends a byte or counts one of 100 empty ones,
      [write_total], [write_loop_out]); the recursion of [parse] takes fuel as an argument, the
      theorems say how much is enough for the reply at hand.
    - [LFUCache.destroy]: one turn per node; [lfu_refines_levels] proves that the
      heap is empty at the end.
    - Webbench.v's [benchcore] and [read_all]: a turn makes a system call, and the
      alarm has gone off after [N] of them; [gather]: a turn reads a line.
    - Decimal and hexadecimal conversion: one turn per digit; the lemmas
      [convert_loop_spec] and [convertHex_loop_spec] prove it.
    - [ResPool.get], [grasp]: a thread may be made to wait as long as others keep
      the pool busy; the fuel is the number of turns and the theorems are about
      every number.
    - LogFile.v's [append_loop]: a turn writes something or gives up.

    ** Not modelled

    - System calls, the C library and libmysqlclient are parameters, with laws where
      a theorem needs them: what the kernel answers is arbitrary otherwise.
      [gmtime_r] and the printf conversions the code uses are defined.
    - Memory orders: an unsynchronised read sees a value some interleaving gives
      ([m_isRunning], [m_quit], [p_loop]).  Allocation never fails, but for the
      timers that callbacks add ([handleRead_fires]).  Addresses are
      numbers that are not used again, so a stale pointer is never mistaken for a
      new object.
    - The [read], [readv] and [write] wrappers of Socket/SocketHelp and [delaySecond],
      the Windows branches, the Condition and scoped_ptr wrappers, common/noncopyable.h,
      common/CallBacks.h, common/S.h (not used): they only forward, declare, or are
      never called.
    - Signals, but for SIGPIPE, which a write to a reset connection raises: its
      default action ends the process (Tcp.v).
    - Several loops that serve at the same time: Reactor.v has the connections of one
      loop; EventLoop.v and Tcp.v have what crosses from one loop to another.
    - [getopt_long], the messages and the two rates in floating point that webbench
      prints.
    - [main] functions and the table [favicon] of src/example; src/www. *)

From stdpp Require Export base tactics numbers list option gmap sets.
From Stdlib Require Export ZArith Lia Ascii.
From Stdlib Require Strings.String.
Export Stdlib.Strings.String.StringSyntax.

#[export] Set Default Goal Selector "!".
#[global] Open Scope Z_scope.

(** ** Outcomes of C++ code

    A call returns a value or ends the process: an [assert] that fails aborts
    (the build files never define NDEBUG), undefined behaviour (a null or
    dangling pointer, an index out of range) has no defined result, an
    exception nobody catches terminates, and so does [exit].
    [FuelExhausted] is the result of a loop of the model that is cut off. *)
Inductive fault := AssertFailure | UndefinedBehaviour | UncaughtException | ProcessExit | FuelExhausted.

Inductive outcome (A : Type) :=
| Ret (a : A)
| Crash (f : fault).
Arguments Ret {A} a.
Arguments Crash {A} f.

#[export] Instance fault_eq_dec : EqDecision fault.
Proof. solve_decision. Defined.

#[export] Instance outcome_ret : MRet outcome := fun A a => Ret a.
#[export] Instance outcome_bind : MBind outcome := fun A B f m =>
  match m with Ret a => f a | Crash e => Crash e end.

(** [assert(b)] *)
Definition cassert (b : bool) : outcome unit :=
  if b then Ret tt else Crash AssertFailure.

(** Dereference of a location that may be missing. *)
Definition deref {A} (o : option A) : outcome A :=
  match o with Some a => Ret a | None => Crash UndefinedBehaviour end.

Definition is_ret {A} (m : outcome A) : bool :=
  match m with Ret _ => true | Crash _ => false end.

Lemma bind_ret_l {A B} (a : A) (f : A -> outcome B) : (Ret a ≫= f) = f a.
Proof. done. Qed.

Lemma bind_crash {A B} e (f : A -> outcome B) : (Crash e ≫= f) = Crash e.
Proof. done. Qed.

Lemma bind_Ret_inv {A B} (m : outcome A) (f : A -> outcome B) b :
  (m ≫= f) = Ret b -> exists a, m = Ret a /\ f a = Ret b.
Proof. destruct m; naive_solver. Qed.

(** Code that reads and writes a state [S]. *)
Definition ST (S A : Type) : Type := S -> outcome (A * S).

#[export] Instance ST_ret S : MRet (ST S) := fun A a s => Ret (a, s).
#[export] Instance ST_bind S : MBind (ST S) := fun A B f m s =>
  match m s with Ret (a, s') => f a s' | Crash e => Crash e end.

Definition gets {S A} (f : S -> A) : ST S A := fun s => Ret (f s, s).
Definition modify {S} (f : S -> S) : ST S unit := fun s => Ret (tt, f s).
Definition crash {S A} (e : fault) : ST S A := fun _ => Crash e.
Definition lift {S A} (m : outcome A) : ST S A := fun s => a ← m; Ret (a, s).

Lemma ST_bind_eq {S A B} (m : ST S A) (f : A -> ST S B) s a s' :
  m s = Ret (a, s') -> (m ≫= f) s = f a s'.
Proof. unfold mbind, ST_bind. by intros ->. Qed.

Lemma ST_bind_crash {S A B} (m : ST S A) (f : A -> ST S B) s e : m s = Crash e -> (m ≫= f) s = Crash e.
Proof. unfold mbind, ST_bind. by intros ->. Qed.

Lemma lift_bind {S A B} (m : outcome A) (f : A -> ST S B) s a : m = Ret a -> (lift m ≫= f) s = f a s.
Proof. unfold mbind, ST_bind, lift. by intros ->. Qed.

Lemma gets_bind {S A B} (g : S -> A) (f : A -> ST S B) s : (gets g ≫= f) s = f (g s) s.
Proof. done. Qed.

Lemma modify_bind {S B} (g : S -> S) (f : unit -> ST S B) s : (modify g ≫= f) s = f tt (g s).
Proof. done. Qed.

Lemma assert_bind {S B} b (f : unit -> ST S B) s : b = true -> (lift (cassert b) ≫= f) s = f tt s.
Proof. by intros ->. Qed.

Lemma assert_fails {S B} b (f : unit -> ST S B) s : b = false -> (lift (cassert b) ≫= f) s = Crash AssertFailure.
Proof. by intros ->. Qed.

(** Code that keeps an invariant when it returns. *)
Definition preserves {S A} (I : S -> Prop) (m : ST S A) : Prop := forall s a s', I s -> m s = Ret (a, s') -> I s'.

Lemma ST_bind_inv {S A B} (m : ST S A) (f : A -> ST S B) s b s2 : (m ≫= f) s = Ret (b, s2) ->
  exists a s1, m s = Ret (a, s1) /\ f a s1 = Ret (b, s2).
Proof. unfold mbind, ST_bind. destruct (m s) as [[a s1]|]; [eauto|done]. Qed.

Section preserves.
Context {S : Type} (I : S -> Prop).

Lemma preserves_ret {A} (a : A) : preserves I (mret a).
Proof. intros s a' s' H [= <- <-]. done. Qed.
Lemma preserves_gets {A} (f : S -> A) : preserves I (gets f).
Proof. intros s a' s' H [= <- <-]. done. Qed.
Lemma preserves_lift {A} (m : outcome A) : preserves I (lift m).
Proof. intros s a' s' H E. unfold lift in E. destruct m; [|done]. by injection E as <- <-. Qed.
Lemma preserves_crash {A} f : preserves I (crash f : ST S A).
Proof. done. Qed.
Lemma preserves_modify f : (forall s, I s -> I (f s)) -> preserves I (modify f).
Proof. intros Hf s a' s' H [= <- <-]. by apply Hf. Qed.
Lemma preserves_bind {A B} (m : ST S A) (f : A -> ST S B) :
  preserves I m -> (forall a, preserves I (f a)) -> preserves I (m ≫= f).
Proof. intros Hm Hf s b s2 H E. apply ST_bind_inv in E as (a & s1 & E1 & E2). eapply Hf; [|done]. by eapply Hm. Qed.
Lemma preserves_if {A} (b : bool) (m1 m2 : ST S A) : preserves I m1 -> preserves I m2 -> preserves I (if b then m1 else m2).
Proof. by destruct b. Qed.
Lemma preserves_decide {A} P `{!Decision P} (m1 m2 : ST S A) :
  preserves I m1 -> preserves I m2 -> preserves I (if decide P then m1 else m2).
Proof. by case_decide. Qed.
End preserves.
Create HintDb preserves.
#[export] Hint Resolve preserves_ret preserves_gets preserves_lift preserves_crash preserves_bind preserves_if
  preserves_decide : preserves.

Lemma cassert_true b : b = true -> cassert b = Ret tt.
Proof. by intros ->. Qed.

(** The bit operators of C++. *)
Declare Scope cxx_scope.
Delimit Scope cxx_scope with cxx.
Infix ".&" := Z.land (at level 40, left associativity) : cxx_scope.
Infix ".|" := Z.lor (at level 50, left associativity) : cxx_scope.
Notation ".~ x" := (Z.lnot x) (at level 35, right associativity) : cxx_scope.

(** ** Characters and strings: a [std::string] or a byte range is a list of
    8-bit characters. *)
Abbreviation bytes := (list ascii).

(** A string literal of the source. *)
Definition lit (s : String.string) : bytes := String.list_ascii_of_string s.
Arguments lit s%_string_scope : simpl never.

#[export] Instance ascii_eq_dec' : EqDecision ascii := ascii_dec.
#[export] Program Instance ascii_countable : Countable ascii :=
  inj_countable' N_of_ascii ascii_of_N _.
Next Obligation. intros c. apply ascii_N_embedding. Qed.

(** The value of a character as an [unsigned char], and back. *)
Definition ord (c : ascii) : Z := Z.of_N (N_of_ascii c).
Definition chr (z : Z) : ascii := ascii_of_N (Z.to_N z).

Lemma ord_range c : 0 <= ord c < 256.
Proof.
  unfold ord. pose proof (N_ascii_bounded c). lia.
Qed.

Lemma chr_ord c : chr (ord c) = c.
Proof. unfold chr, ord. rewrite N2Z.id. apply ascii_N_embedding. Qed.

Lemma ord_chr z : 0 <= z < 256 -> ord (chr z) = z.
Proof.
  intros Hz. unfold ord, chr. rewrite N_ascii_embedding; lia.
Qed.

(** ** Machine integers

    A [w]-bit integer is the integer it denotes; arithmetic wraps with
    [wrapu] (unsigned) or [wraps] (two's complement). *)
Definition wrapu (w z : Z) : Z := z mod 2 ^ w.
Definition wraps (w z : Z) : Z := (z + 2 ^ (w - 1)) mod 2 ^ w - 2 ^ (w - 1).

Definition in_u (w z : Z) : Prop := 0 <= z < 2 ^ w.
Definition in_s (w z : Z) : Prop := - 2 ^ (w - 1) <= z < 2 ^ (w - 1).

Abbreviation u16 := (wrapu 16).
Abbreviation u32 := (wrapu 32).
Abbreviation u64 := (wrapu 64).
Abbreviation s32 := (wraps 32).
Abbreviation s64 := (wraps 64).

Lemma wrapu_small w z : in_u w z -> wrapu w z = z.
Proof. unfold in_u, wrapu. intros. by rewrite Z.mod_small. Qed.

Lemma wraps_small w z : 0 < w -> in_s w z -> wraps w z = z.
Proof.
  unfold in_s, wraps. intros Hw Hz.
  assert (2 ^ w = 2 * 2 ^ (w - 1)) as Hp.
  { rewrite <- Z.pow_succ_r by lia. f_equal. lia. }
  rewrite Z.mod_small; lia.
Qed.

Lemma wrapu_range w z : 0 <= w -> in_u w (wrapu w z).
Proof. intros. unfold in_u, wrapu. apply Z.mod_pos_bound. lia. Qed.

Lemma wrapu_wrapu w z : 0 <= w -> wrapu w (wrapu w z) = wrapu w z.
Proof. intros. by apply wrapu_small, wrapu_range. Qed.

(** Replace [u64 e] and [s32 e] by [e] where [lia] shows [e] in range. *)
Ltac pows := change (2 ^ 64) with 18446744073709551616 in *;
  change (2 ^ 32) with 4294967296 in *;
  change (2 ^ 16) with 65536 in *;
  change (2 ^ (64 - 1)) with 9223372036854775808 in *;
  change (2 ^ (32 - 1)) with 2147483648 in *.
Ltac range_lia := unfold in_u, in_s in *; pows; lia.
(** [unwrap_by t]: remove the wrap-arounds of the goal that [t] shows idle. *)
Ltac unwrap_by t := repeat match goal with
  | |- context [wrapu ?w ?z] => rewrite (wrapu_small w z) by t
  | |- context [wraps ?w ?z] => rewrite (wraps_small w z) by t
  end.
Ltac unwrap := unwrap_by range_lia.

(** Close a closed decidable goal by evaluating its decision. *)
Ltac by_compute := apply (bool_decide_unpack _); vm_compute; exact I.

(** ** Lists indexed by integers *)
Definition zlen {A} (l : list A) : Z := Z.of_nat (length l).
Definition ztake {A} (n : Z) (l : list A) : list A := take (Z.to_nat n) l.
Definition zdrop {A} (n : Z) (l : list A) : list A := drop (Z.to_nat n) l.

(** The elements in positions [i .. j-1]. *)
Definition zslice {A} (i j : Z) (l : list A) : list A := ztake (j - i) (zdrop i l).

(** Copy [d] over positions [i ..] of the array [l]; undefined outside it. *)
Definition write_at {A} (i : Z) (d l : list A) : outcome (list A) :=
  if bool_decide (0 <= i /\ i + zlen d <= zlen l)
  then Ret (ztake i l ++ d ++ zdrop (i + zlen d) l)
  else Crash UndefinedBehaviour.

(** [std::vector::resize]: new places hold the value-initialised element. *)
Definition resize {A} (x : A) (n : Z) (l : list A) : list A :=
  ztake n l ++ replicate (Z.to_nat (n - zlen l)) x.

Section zlist.
Context {A : Type}.
Implicit Types l d : list A.

Lemma zlen_nonneg l : 0 <= zlen l.
Proof. unfold zlen. lia. Qed.
Lemma zlen_app l d : zlen (l ++ d) = zlen l + zlen d.
Proof. unfold zlen. rewrite length_app. lia. Qed.
Lemma zlen_cons x l : zlen (x :: l) = 1 + zlen l.
Proof. unfold zlen. simpl. lia. Qed.
Lemma zlen_nil : zlen (@nil A) = 0.
Proof. done. Qed.
Lemma zlen_zero l : zlen l = 0 -> l = [].
Proof. destruct l; [done|]. rewrite zlen_cons. pose proof (zlen_nonneg l). lia. Qed.
Lemma zlen_ztake n l : 0 <= n <= zlen l -> zlen (ztake n l) = n.
Proof. unfold zlen, ztake. intros. rewrite length_take. lia. Qed.
Lemma zlen_zdrop n l : 0 <= n <= zlen l -> zlen (zdrop n l) = zlen l - n.
Proof. unfold zlen, zdrop. intros. rewrite length_drop. lia. Qed.
Lemma zlen_zslice i j l : 0 <= i <= j -> j <= zlen l -> zlen (zslice i j l) = j - i.
Proof. intros. unfold zslice. rewrite zlen_ztake; [done|]. rewrite zlen_zdrop; lia. Qed.
Lemma zlen_replicate n (x : A) : 0 <= n -> zlen (replicate (Z.to_nat n) x) = n.
Proof. unfold zlen. intros. rewrite length_replicate. lia. Qed.

Lemma ztake_app_exact l d n : zlen l = n -> ztake n (l ++ d) = l.
Proof. unfold zlen, ztake. intros <-. by rewrite Nat2Z.id, take_app_length. Qed.
Lemma zdrop_app_exact l d n : zlen l = n -> zdrop n (l ++ d) = d.
Proof. unfold zlen, zdrop. intros <-. by rewrite Nat2Z.id, drop_app_length. Qed.
Lemma ztake_all n l : zlen l <= n -> ztake n l = l.
Proof. unfold zlen, ztake. intros. apply take_ge. lia. Qed.
Lemma ztake_zdrop n l : ztake n l ++ zdrop n l = l.
Proof. unfold ztake, zdrop. apply take_drop. Qed.
Lemma ztake_0 l : ztake 0 l = [].
Proof. done. Qed.
Lemma zdrop_0 l : zdrop 0 l = l.
Proof. done. Qed.
Lemma zdrop_zdrop i j l : 0 <= i -> 0 <= j -> zdrop i (zdrop j l) = zdrop (j + i) l.
Proof. unfold zdrop. intros. rewrite drop_drop. f_equal. lia. Qed.
Lemma zslice_app_l i j l d : 0 <= i <= j -> j <= zlen l -> zslice i j (l ++ d) = zslice i j l.
Proof.
  unfold zslice, ztake, zdrop, zlen. intros. rewrite drop_app_le by lia.
  rewrite take_app_le; [done|]. rewrite length_drop. lia.
Qed.
Lemma zslice_app_mid l d e : zslice (zlen l) (zlen l + zlen d) (l ++ d ++ e) = d.
Proof.
  unfold zslice. rewrite zdrop_app_exact by done. apply ztake_app_exact. lia.
Qed.
Lemma zslice_nil i j l : j <= i -> zslice i j l = [].
Proof. intros. unfold zslice, ztake. by replace (Z.to_nat (j - i)) with 0%nat by lia. Qed.
Lemma zslice_split i j k l : 0 <= i <= j -> j <= k -> k <= zlen l ->
  zslice i k l = zslice i j l ++ zslice j k l.
Proof.
  unfold zslice, ztake, zdrop, zlen. intros.
  replace (Z.to_nat j) with (Z.to_nat i + Z.to_nat (j - i))%nat by lia.
  rewrite <- drop_drop.
  replace (Z.to_nat (k - i)) with (Z.to_nat (j - i) + Z.to_nat (k - j))%nat by lia.
  by rewrite take_take_drop.
Qed.
Lemma zslice_zslice i j a b l : 0 <= a <= b -> 0 <= i -> i + b <= j ->
  zslice a b (zslice i j l) = zslice (i + a) (i + b) l.
Proof.
  unfold zslice, ztake, zdrop. intros.
  rewrite <- take_drop_commute || rewrite skipn_firstn_comm.
  rewrite drop_drop, take_take. f_equal; [lia|f_equal; lia].
Qed.
Lemma zslice_0 j l : zslice 0 j l = ztake j l.
Proof. unfold zslice. by rewrite Z.sub_0_r. Qed.
Lemma zdrop_zslice l i : 0 <= i <= zlen l -> zdrop i l = zslice i (zlen l) l.
Proof.
  intros. unfold zslice. rewrite ztake_all; [done|].
  by rewrite zlen_zdrop by lia.
Qed.

Lemma write_at_ok i d l : 0 <= i -> i + zlen d <= zlen l ->
  write_at i d l = Ret (ztake i l ++ d ++ zdrop (i + zlen d) l).
Proof. intros. unfold write_at. by rewrite bool_decide_true. Qed.
Lemma write_at_length i d l v : write_at i d l = Ret v -> zlen v = zlen l.
Proof.
  unfold write_at. case_bool_decide as H; [|done]. intros [= <-]. pose proof (zlen_nonneg d).
  rewrite !zlen_app, zlen_ztake, zlen_zdrop by lia. lia.
Qed.
Lemma zlen_resize (x : A) n l : 0 <= n -> zlen (resize x n l) = n.
Proof.
  intros. unfold resize, zlen, ztake. rewrite length_app, length_take, length_replicate.
  unfold zlen. lia.
Qed.
Lemma resize_ge (x : A) n l : zlen l <= n -> resize x n l = l ++ replicate (Z.to_nat (n - zlen l)) x.
Proof. intros. unfold resize. by rewrite ztake_all. Qed.
End zlist.

(** Lengths and non-negative numbers, for [auto] and [autorewrite]. *)
Create HintDb zlen.
#[export] Hint Rewrite @zlen_app @zlen_cons @zlen_nil : zlen.
#[export] Hint Resolve zlen_nonneg ord_range wrapu_range : zlen.
#[export] Hint Extern 2 (_ <= _) => lia : zlen.

Lemma Forall2_impl_in {A B} (R Q : A -> B -> Prop) l k :
  Forall2 R l k -> (forall x y, x ∈ l -> y ∈ k -> R x y -> Q x y) -> Forall2 Q l k.
Proof.
  induction 1 as [|x y l k Hxy H IH]; intros Hi; [done|].
  constructor; [apply Hi; [left|left|done]|apply IH; intros x' y' Hx Hy; apply Hi; by right].
Qed.
Lemma filter_all {A} (P : A -> Prop) `{!forall x, Decision (P x)} (l : list A) : (forall x, x ∈ l -> P x) -> filter P l = l.
Proof.
  induction l as [|x l IH]; intros Hl; [done|]. rewrite filter_cons_True by (apply Hl; by left).
  f_equal. apply IH. intros y Hy. apply Hl. by right.
Qed.
Lemma filter_none {A} (P : A -> Prop) `{!forall x, Decision (P x)} (l : list A) : (forall x, x ∈ l -> ~ P x) -> filter P l = [].
Proof.
  induction l as [|x l IH]; intros Hl; [done|]. rewrite filter_cons_False by (apply Hl; by left).
  apply IH. intros y Hy. apply Hl. by right.
Qed.

(** ** What the producers of output ask of a buffer

    [sink_room b n]: [b] takes [n] more bytes. *)
Class ByteSink (B : Type) := {
  sink_append : B -> bytes -> outcome B;
  sink_content : B -> bytes;
  sink_room : B -> Z -> Prop;
  sink_append_spec : forall b n d, sink_room b n -> zlen d <= n ->
    exists b', sink_append b d = Ret b' /\ sink_content b' = sink_content b ++ d /\ sink_room b' (n - zlen d)
}.

(** [append] of several strings in a row. *)
Fixpoint sink_appends {B} `{ByteSink B} (b : B) (ds : list bytes) : outcome B :=
  match ds with
  | [] => Ret b
  | d :: ds' => b' ← sink_append b d; sink_appends b' ds'
  end.

Lemma sink_appends_spec {B} `{ByteSink B} (b : B) n ds : sink_room b n -> zlen (concat ds) <= n ->
  exists b', sink_appends b ds = Ret b' /\ sink_content b' = sink_content b ++ concat ds
    /\ sink_room b' (n - zlen (concat ds)).
Proof.
  revert b n. induction ds as [|d ds IH]; intros b n Hr Hl; simpl in *.
  - exists b. rewrite app_nil_r. split; [done|]. split; [done|]. by rewrite Z.sub_0_r.
  - rewrite zlen_app in Hl. pose proof (zlen_nonneg (concat ds)).
    destruct (sink_append_spec b n d Hr) as (b1 & -> & Hc1 & Hr1); [lia|]. simpl.
    destruct (IH b1 _ Hr1) as (b2 & -> & Hc2 & Hr2); [lia|].
    exists b2. rewrite Hc2, Hc1, <- app_assoc. do 2 (split; [done|]).
    rewrite zlen_app. by replace (n - (zlen d + zlen (concat ds))) with (n - zlen d - zlen (concat ds)) by lia.
Qed.

Lemma sink_appends_app {B} `{ByteSink B} (b : B) ds es :
  sink_appends b (ds ++ es) = (b' ← sink_appends b ds; sink_appends b' es).
Proof.
  revert b. induction ds as [|d ds IH]; intros b; simpl; [done|].
  destruct (sink_append b d); simpl; [apply IH|done].
Qed.
