(* ===== verification/Cxx.v ===== *)
(** The parts of the C and C++ standard library the program uses on strings:
    [std::find], [std::search], [strstr], [isspace], [atoi], decimal output of
    [snprintf] and of [ostream], and [std::to_string]. *)
From S2P Require Import Prelude.

(** ** Searching *)

(** [std::find] on a range: the position of the first [c], the length of the
    range when there is none. *)
Fixpoint find_pos (c : ascii) (l : bytes) : Z :=
  match l with
  | [] => 0
  | x :: l' => if decide (x = c) then 0 else 1 + find_pos c l'
  end.

Fixpoint is_prefix (p l : bytes) : bool :=
  match p, l with
  | [], _ => true
  | _ :: _, [] => false
  | x :: p', y :: l' => if decide (x = y) then is_prefix p' l' else false
  end.

(** [std::search]: the position of the first occurrence of [p], the length of
    the range when there is none. *)
Fixpoint search_pos (p l : bytes) : Z :=
  if is_prefix p l then 0
  else match l with [] => 0 | _ :: l' => 1 + search_pos p l' end.

Section find.
Context (c : ascii).

Lemma find_pos_range l : 0 <= find_pos c l <= zlen l.
Proof.
  induction l as [|x l IH]; simpl; [done|].
  rewrite zlen_cons. case_decide; lia.
Qed.

Lemma find_pos_app l d : c ∉ l -> find_pos c (l ++ c :: d) = zlen l.
Proof.
  induction l as [|x l IH]; simpl; intros Hc.
  - by rewrite decide_True.
  - rewrite zlen_cons. rewrite decide_False by set_solver.
    rewrite IH by set_solver. lia.
Qed.

Lemma find_pos_none l : c ∉ l -> find_pos c l = zlen l.
Proof.
  induction l as [|x l IH]; simpl; intros Hc; [done|].
  rewrite zlen_cons. rewrite decide_False by set_solver.
  rewrite IH by set_solver. lia.
Qed.

Lemma find_pos_split l : find_pos c l <> zlen l ->
  exists l1 l2, l = l1 ++ c :: l2 /\ c ∉ l1 /\ find_pos c l = zlen l1.
Proof.
  induction l as [|x l IH]; simpl; intros Hne; [done|].
  case_decide as Hx.
  - subst x. exists [], l. split; [done|]. split; [set_solver|done].
  - rewrite zlen_cons in Hne. destruct IH as (l1 & l2 & -> & Hc & Hp); [lia|].
    exists (x :: l1), l2. split; [done|]. split; [set_solver|].
    rewrite zlen_cons. lia.
Qed.
End find.

Lemma is_prefix_spec p l : is_prefix p l = true <-> exists d, l = p ++ d.
Proof.
  revert l. induction p as [|x p IH]; intros l; simpl.
  - split; [by eauto|done].
  - destruct l as [|y l]; [naive_solver|]. case_decide as Hxy.
    + subst y. rewrite IH. split; intros [d Hd]; exists d; congruence.
    + naive_solver.
Qed.

Lemma search_pos_range p l : 0 <= search_pos p l <= zlen l.
Proof.
  induction l as [|x l IH]; cbn [search_pos].
  - by case_match.
  - rewrite zlen_cons. case_match; lia.
Qed.

(** A found occurrence: the characters before it, the pattern, the rest. *)
Lemma search_pos_split p l : p <> [] -> search_pos p l <> zlen l ->
  exists l1 l2, l = l1 ++ p ++ l2 /\ search_pos p l = zlen l1.
Proof.
  intros Hp. induction l as [|x l IH]; cbn [search_pos].
  - case_match; done.
  - case_match eqn:Hpre.
    + intros _. apply is_prefix_spec in Hpre as [d Hd]. by exists [], d.
    + rewrite zlen_cons. intros Hne. destruct IH as (l1 & l2 & -> & Hs); [lia|].
      exists (x :: l1), l2. rewrite zlen_cons. split; [done|lia].
Qed.

(** The carriage return and line feed. *)
Definition CR : ascii := ascii_of_N 13.
Definition LF : ascii := ascii_of_N 10.
Definition CRLF : bytes := [CR; LF].

(** A line without carriage return followed by CRLF is found whole. *)
Lemma search_CRLF_line l d : CR ∉ l -> search_pos CRLF (l ++ CRLF ++ d) = zlen l.
Proof.
  induction l as [|x l IH]; intros Hl; [done|].
  rewrite <- app_comm_cons. cbn [search_pos is_prefix CRLF].
  rewrite decide_False by set_solver.
  fold CRLF. rewrite IH by set_solver. rewrite zlen_cons. lia.
Qed.

Lemma search_CRLF_none l : CR ∉ l -> search_pos CRLF l = zlen l.
Proof.
  induction l as [|x l IH]; intros Hl; [done|].
  cbn [search_pos is_prefix CRLF]. rewrite decide_False by set_solver.
  fold CRLF. rewrite IH by set_solver. rewrite zlen_cons. lia.
Qed.

(** ** Character classes *)

(** [isspace] in the C locale: space, \t, \n, \v, \f, \r. *)
Definition isspace (c : ascii) : bool :=
  bool_decide (ord c = 32 \/ 9 <= ord c <= 13).

Definition isdigit (c : ascii) : bool := bool_decide (48 <= ord c <= 57).

Definition digit_val (c : ascii) : Z := ord c - 48.
Definition digit_chr (d : Z) : ascii := chr (48 + d).

Lemma isdigit_digit_chr d : 0 <= d < 10 -> isdigit (digit_chr d) = true.
Proof. intros. unfold isdigit, digit_chr. rewrite ord_chr by lia. apply bool_decide_true. lia. Qed.

Lemma digit_val_chr d : 0 <= d < 10 -> digit_val (digit_chr d) = d.
Proof. intros. unfold digit_val, digit_chr. rewrite ord_chr; lia. Qed.

(** ** Decimal output *)

(** Decimal digits of [n >= 0], the least significant first; the fuel bounds
    the number of digits. *)
Fixpoint rev_digits (fuel : nat) (n : Z) : bytes :=
  match fuel with
  | O => []
  | S fuel' => digit_chr (n mod 10) :: (if decide (n / 10 = 0) then [] else rev_digits fuel' (n / 10))
  end.

(** Enough fuel for every [n]. *)
Definition digits_fuel (n : Z) : nat := S (Z.to_nat (Z.log2 n)).

Definition udec (n : Z) : bytes := rev (rev_digits (digits_fuel n) n).

(** [%d], [ostream <<] of an int, [std::to_string]. *)
Definition dec (n : Z) : bytes :=
  if decide (n < 0) then "-"%char :: udec (- n) else udec n.

(** [%0wd]: the width counts the sign. *)
Definition pad0 (w : nat) (z : Z) : bytes :=
  let sign := if decide (z < 0) then ["-"%char] else [] in
  let d := udec (Z.abs z) in
  sign ++ replicate (w - length sign - length d) "0"%char ++ d.

(** Value of a string of digits. *)
Fixpoint digits_val (acc : Z) (l : bytes) : Z :=
  match l with
  | [] => acc
  | c :: l' => digits_val (acc * 10 + digit_val c) l'
  end.

(** The longest prefix of digits. *)
Fixpoint digit_prefix (l : bytes) : bytes :=
  match l with
  | c :: l' => if isdigit c then c :: digit_prefix l' else []
  | [] => []
  end.

Fixpoint skip_space (l : bytes) : bytes :=
  match l with
  | c :: l' => if isspace c then skip_space l' else l
  | [] => []
  end.

(** [atoi]: white space, an optional sign, digits. A value outside [int] is
    undefined behaviour in C; glibc converts the [strtol] result. *)
Definition atoi (l : bytes) : Z :=
  match skip_space l with
  | c :: l' =>
      if decide (c = "-"%char) then - digits_val 0 (digit_prefix l')
      else if decide (c = "+"%char) then digits_val 0 (digit_prefix l')
      else digits_val 0 (digit_prefix (c :: l'))
  | [] => 0
  end.

Lemma digits_val_app acc l d : digits_val acc (l ++ d) = digits_val (digits_val acc l) d.
Proof. revert acc. induction l; intros acc; simpl; auto. Qed.

Lemma log2_div10 n : 10 <= n -> Z.log2 (n / 10) < Z.log2 n.
Proof.
  intros Hn. apply Z.log2_lt_pow2.
  - apply Z.div_str_pos. lia.
  - pose proof (Z.log2_spec n ltac:(lia)) as [Hlo Hhi].
    pose proof (Z.log2_nonneg n). rewrite Z.pow_succ_r in Hhi by lia.
    apply Z.div_lt_upper_bound; lia.
Qed.

Lemma rev_digits_val fuel n : 0 <= n -> (Z.to_nat (Z.log2 n) < fuel)%nat ->
  digits_val 0 (rev (rev_digits fuel n)) = n.
Proof.
  revert n. induction fuel as [|fuel IH]; intros n Hn Hf; [lia|].
  cbn [rev_digits]. pose proof (Z.mod_pos_bound n 10 ltac:(lia)).
  pose proof (Z.div_mod n 10 ltac:(lia)).
  simpl. rewrite digits_val_app. simpl. rewrite digit_val_chr by lia.
  case_decide as Hd; simpl; [lia|].
  pose proof (Z.div_pos n 10 ltac:(lia) ltac:(lia)).
  assert (10 <= n). { destruct (decide (n < 10)); [|lia]. rewrite Z.div_small in Hd; lia. }
  pose proof (log2_div10 n ltac:(lia)). pose proof (Z.log2_nonneg (n / 10)).
  rewrite IH by lia. lia.
Qed.

Lemma rev_digits_digits fuel n : Forall (fun c => isdigit c = true) (rev_digits fuel n).
Proof.
  revert n. induction fuel as [|fuel IH]; intros n; cbn [rev_digits]; constructor.
  - apply isdigit_digit_chr. apply Z.mod_pos_bound. lia.
  - case_decide; [constructor|apply IH].
Qed.

Lemma udec_digits n : Forall (fun c => isdigit c = true) (udec n).
Proof. unfold udec. apply Forall_rev, rev_digits_digits. Qed.

Lemma udec_val n : 0 <= n -> digits_val 0 (udec n) = n.
Proof. intros. apply rev_digits_val; [done|]. unfold digits_fuel. lia. Qed.

Lemma udec_nonempty n : udec n <> [].
Proof.
  unfold udec, digits_fuel. cbn [rev_digits]. intros H.
  apply (f_equal length) in H. rewrite length_rev in H. simpl in H. lia.
Qed.

(** The number of digits: below [10^k], at most [k]. *)
Lemma length_rev_digits fuel n k : 0 <= n < 10 ^ Z.of_nat k -> (0 < k)%nat ->
  (length (rev_digits fuel n) <= k)%nat.
Proof.
  revert n k. induction fuel as [|fuel IH]; intros n k Hn Hk; simpl; [lia|].
  case_decide as Hd; simpl; [lia|].
  assert (10 <= n). { destruct (decide (n < 10)); [|lia]. rewrite Z.div_small in Hd; lia. }
  destruct k as [|[|k]]; [lia|lia|].
  assert (length (rev_digits fuel (n / 10)) <= S k)%nat; [|lia].
  apply IH; [|lia]. split; [apply Z.div_pos; lia|].
  apply Z.div_lt_upper_bound; [lia|].
  rewrite <- Z.pow_succ_r by lia. replace (Z.succ (Z.of_nat (S k))) with (Z.of_nat (S (S k))) by lia. lia.
Qed.

Lemma length_udec n k : 0 <= n < 10 ^ Z.of_nat k -> (0 < k)%nat -> (length (udec n) <= k)%nat.
Proof. intros. unfold udec. rewrite length_rev. by apply length_rev_digits. Qed.

Lemma digit_prefix_app l d :
  Forall (fun c => isdigit c = true) l ->
  match d with c :: _ => isdigit c = false | [] => True end ->
  digit_prefix (l ++ d) = l.
Proof.
  intros Hl Hd. induction Hl as [|c l Hc Hl IH]; simpl.
  - destruct d; [done|]. simpl. by rewrite Hd.
  - by rewrite Hc, IH.
Qed.

Lemma isdigit_not_space c : isdigit c = true -> isspace c = false.
Proof.
  unfold isdigit, isspace. rewrite bool_decide_eq_true, bool_decide_eq_false. lia.
Qed.

Lemma isdigit_not_sign c : isdigit c = true -> c <> "-"%char /\ c <> "+"%char /\ c <> CR /\ c <> LF.
Proof.
  unfold isdigit. rewrite bool_decide_eq_true. intros Hc.
  repeat split; intros ->; destruct Hc as [H1 H2]; (by (apply H1; reflexivity)) || (by (apply H2; reflexivity)).
Qed.

(** Printing then [atoi] gives the number back, whatever follows it. *)
Lemma atoi_dec n d :
  match d with c :: _ => isdigit c = false | [] => True end -> atoi (dec n ++ d) = n.
Proof.
  intros Hd. unfold dec. case_decide as Hn.
  - unfold atoi. simpl. rewrite digit_prefix_app by auto using udec_digits.
    rewrite udec_val by lia. lia.
  - pose proof (udec_digits n) as Hdig. pose proof (udec_nonempty n) as Hne.
    pose proof (digit_prefix_app (udec n) d Hdig Hd) as Hp.
    destruct (udec n) as [|c l] eqn:Hu; [done|].
    inversion Hdig as [|? ? Hc Hl]; subst.
    unfold atoi. simpl app. cbn [skip_space]. rewrite (isdigit_not_space c Hc).
    pose proof (isdigit_not_sign c Hc) as (?&?&?&?).
    rewrite !decide_False by done. simpl app in Hp. rewrite Hp.
    rewrite <- Hu. apply udec_val. lia.
Qed.

Lemma udec_inj n m : 0 <= n -> 0 <= m -> udec n = udec m -> n = m.
Proof. intros Hn Hm H. rewrite <- (udec_val n Hn), H. by apply udec_val. Qed.

Lemma dec_inj n m : dec n = dec m -> n = m.
Proof.
  intros H. rewrite <- (atoi_dec n [] I), H. by apply atoi_dec.
Qed.

(** ** C strings in a buffer *)

(** The C string that starts a range: the characters before the first NUL. *)
Definition NUL : ascii := ascii_of_N 0.
Fixpoint cstr (l : bytes) : bytes :=
  match l with
  | c :: l' => if decide (c = NUL) then [] else c :: cstr l'
  | [] => []
  end.

Lemma cstr_id l : NUL ∉ l -> cstr l = l.
Proof.
  induction l as [|c l IH]; intros Hn; simpl; [done|].
  rewrite decide_False by set_solver. by rewrite IH by set_solver.
Qed.

Lemma cstr_app l d : NUL ∉ l -> cstr (l ++ d) = l ++ cstr d.
Proof.
  induction l as [|c l IH]; intros Hn; simpl; [done|].
  rewrite decide_False by set_solver. by rewrite IH by set_solver.
Qed.

Lemma cstr_prefix l : exists d, l = cstr l ++ d.
Proof.
  induction l as [|c l [d IH]]; simpl; [by exists []|].
  case_decide; [by exists (c :: l)|]. exists d. simpl. by f_equal.
Qed.

(** Decimal numbers as text: their length, and no terminator in them. *)
Lemma zlen_udec n k : 0 <= n < 10 ^ Z.of_nat k -> (0 < k)%nat -> zlen (udec n) <= Z.of_nat k.
Proof. intros H Hk. unfold zlen. apply Nat2Z.inj_le. by apply length_udec. Qed.
Lemma udec_no_nul n : NUL ∉ udec n.
Proof. intros Hin. pose proof (udec_digits n) as Hd. rewrite Forall_forall in Hd. by apply Hd in Hin. Qed.

(** [snprintf] into an array of [n] characters: at most [n - 1] of them. *)
Definition snprintf (n : Z) (s : bytes) : bytes := ztake (n - 1) s.

Lemma snprintf_fits n s : zlen s < n -> snprintf n s = s.
Proof. intros. unfold snprintf. apply ztake_all. lia. Qed.
