(* ===== verification/Ordered.v ===== *)
(** Ordered containers: [std::set] and [std::map] as lists sorted by a key,
    in the order in which the source iterates over them. *)
From S2P Require Import Prelude.

(** ** Strict total orders, as the boolean [operator<] of the source *)
Class Ltb (K : Type) := ltb : K -> K -> bool.

Class LtbOrder (K : Type) {L : Ltb K} : Prop := {
  ltb_irrefl : forall a : K, ltb a a = false;
  ltb_trans : forall a b c : K, ltb a b = true -> ltb b c = true -> ltb a c = true;
  ltb_total : forall a b : K, ltb a b = false -> ltb b a = false -> a = b
}.

Lemma ltb_asym {K} `{LtbOrder K} (a b : K) : ltb a b = true -> ltb b a = false.
Proof.
  intros Hab. destruct (ltb b a) eqn:Hba; [|done].
  rewrite <- (ltb_irrefl a). symmetry. by apply (ltb_trans a b a).
Qed.

#[export] Instance Z_ltb : Ltb Z := Z.ltb.
#[export] Instance Z_ltb_order : LtbOrder Z.
Proof. split; unfold ltb, Z_ltb; intros; rewrite ?Z.ltb_lt, ?Z.ltb_ge in *; lia. Qed.

(** [char_traits::lt]: characters compare as unsigned. *)
#[export] Instance ascii_ltb : Ltb ascii := fun a b => ord a <? ord b.
#[export] Instance ascii_ltb_order : LtbOrder ascii.
Proof.
  split; unfold ltb, ascii_ltb; intros; rewrite ?Z.ltb_lt, ?Z.ltb_ge in *; [lia|lia|].
  rewrite <- (chr_ord a), <- (chr_ord b). f_equal. lia.
Qed.

(** [operator<] of [std::pair]. *)
#[export] Instance prod_ltb {A B} `{Ltb A, Ltb B} : Ltb (A * B) := fun x y =>
  ltb x.1 y.1 || (negb (ltb y.1 x.1) && ltb x.2 y.2).
#[export] Instance prod_ltb_order {A B} `{LtbOrder A, LtbOrder B} : LtbOrder (A * B).
Proof.
  split; unfold ltb, prod_ltb.
  - intros [a b]; simpl. rewrite !ltb_irrefl. done.
  - intros [a1 b1] [a2 b2] [a3 b3]; simpl. rewrite !orb_true_iff, !andb_true_iff, !negb_true_iff.
    intros [H12|[H21 Hb12]] [H23|[H32 Hb23]].
    + left. eapply ltb_trans; eassumption.
    + left. destruct (ltb a2 a3) eqn:E; [eapply ltb_trans; eassumption|].
      by rewrite <- (ltb_total a2 a3 E H32).
    + left. destruct (ltb a1 a2) eqn:E; [eapply ltb_trans; eassumption|].
      by rewrite (ltb_total a1 a2 E H21).
    + destruct (ltb a1 a2) eqn:E1, (ltb a2 a3) eqn:E2.
      * left. eapply ltb_trans; eassumption.
      * left. by rewrite <- (ltb_total a2 a3 E2 H32).
      * left. by rewrite (ltb_total a1 a2 E1 H21).
      * right. rewrite (ltb_total a1 a2 E1 H21), (ltb_total a2 a3 E2 H32), ltb_irrefl.
        split; [done|]. eapply ltb_trans; eassumption.
  - intros [a1 b1] [a2 b2]; simpl. rewrite !orb_false_iff, !andb_false_iff, !negb_false_iff.
    intros [H1 H1'] [H2 H2']. rewrite (ltb_total a1 a2 H1 H2) in *.
    rewrite ltb_irrefl in *. f_equal.
    apply ltb_total; naive_solver.
Qed.

(** [operator<] of [std::string]. *)
#[export] Instance list_ltb {A} `{Ltb A} : Ltb (list A) :=
  fix go l1 l2 :=
    match l1, l2 with
    | [], [] => false
    | [], _ :: _ => true
    | _ :: _, [] => false
    | x :: l1', y :: l2' => if ltb x y then true else if ltb y x then false else go l1' l2'
    end.
#[export] Instance list_ltb_order {A} `{LtbOrder A} : LtbOrder (list A).
Proof.
  split.
  - intros l. induction l as [|x l IH]; [done|]. unfold ltb in *. simpl.
    fold (ltb x x). by rewrite ltb_irrefl.
  - intros l1. induction l1 as [|x l1 IH]; intros [|y l2] [|z l3]; try done.
    unfold ltb in *; simpl. fold (ltb x y) (ltb y z) (ltb x z) (ltb y x) (ltb z y) (ltb z x).
    destruct (ltb x y) eqn:Exy.
    + intros _. destruct (ltb y z) eqn:Eyz.
      * by rewrite (ltb_trans x y z Exy Eyz).
      * destruct (ltb z y) eqn:Ezy; [done|]. rewrite <- (ltb_total y z Eyz Ezy), Exy. done.
    + destruct (ltb y x) eqn:Eyx; [done|]. rewrite (ltb_total x y Exy Eyx) in *.
      destruct (ltb y z); [done|]. destruct (ltb z y); [done|]. apply IH.
  - intros l1. induction l1 as [|x l1 IH]; intros [|y l2]; try done.
    unfold ltb in *; simpl. fold (ltb x y) (ltb y x).
    destruct (ltb x y) eqn:Exy; [done|]. destruct (ltb y x) eqn:Eyx; [done|].
    intros H1 H2. f_equal; [by apply ltb_total|]. by apply IH.
Qed.

(** ** Lists sorted by a key *)
Section sorted.
Context {A K : Type} (key : A -> K) `{LtbOrder K}.
Implicit Types l : list A.

(** [find] *)
Fixpoint kfind (k : K) l : option A :=
  match l with
  | [] => None
  | x :: l' => if ltb (key x) k then kfind k l' else if ltb k (key x) then None else Some x
  end.

(** [set::insert]: [false] when the key is already there. *)
Fixpoint kinsert (a : A) l : list A * bool :=
  match l with
  | [] => ([a], true)
  | x :: l' =>
      if ltb (key x) (key a) then let '(l'', r) := kinsert a l' in (x :: l'', r)
      else if ltb (key a) (key x) then (a :: l, true)
      else (l, false)
  end.

(** [m[k] = v]: insert or replace. *)
Fixpoint kput (a : A) l : list A :=
  match l with
  | [] => [a]
  | x :: l' =>
      if ltb (key x) (key a) then x :: kput a l'
      else if ltb (key a) (key x) then a :: l
      else a :: l'
  end.

(** [erase(key)]: the number of elements removed. *)
Fixpoint kerase (k : K) l : list A * Z :=
  match l with
  | [] => ([], 0)
  | x :: l' =>
      if ltb (key x) k then let '(l'', n) := kerase k l' in (x :: l'', n)
      else if ltb k (key x) then (l, 0)
      else (l', 1)
  end.

(** The elements before [lower_bound(k)], and those from it on. *)
Fixpoint kbelow (k : K) l : list A :=
  match l with
  | [] => []
  | x :: l' => if ltb (key x) k then x :: kbelow k l' else []
  end.
Fixpoint kfrom (k : K) l : list A :=
  match l with
  | [] => []
  | x :: l' => if ltb (key x) k then kfrom k l' else l
  end.

(** Strictly increasing keys. *)
Inductive ksorted : list A -> Prop :=
| ksorted_nil : ksorted []
| ksorted_cons a l : Forall (fun x => ltb (key a) (key x) = true) l -> ksorted l -> ksorted (a :: l).

Lemma ksorted_cons_inv a l : ksorted (a :: l) ->
  Forall (fun x => ltb (key a) (key x) = true) l /\ ksorted l.
Proof. by inversion 1. Qed.

Lemma ltb_cases (a b : K) : (ltb a b = true /\ ltb b a = false /\ a <> b)
  \/ (ltb a b = false /\ ltb b a = true /\ a <> b) \/ (ltb a b = false /\ ltb b a = false /\ a = b).
Proof.
  destruct (ltb a b) eqn:Eab.
  - left. split; [done|]. split; [by apply ltb_asym|]. intros ->. by rewrite ltb_irrefl in Eab.
  - destruct (ltb b a) eqn:Eba.
    + right; left. do 2 (split; [done|]). intros ->. by rewrite ltb_irrefl in Eba.
    + right; right. do 2 (split; [done|]). by apply ltb_total.
Qed.

Lemma kbelow_kfrom k l : l = kbelow k l ++ kfrom k l.
Proof. induction l as [|x l IH]; simpl; [done|]. case_match; [|done]. simpl. by f_equal. Qed.

Lemma kbelow_spec k l : Forall (fun x => ltb (key x) k = true) (kbelow k l).
Proof. induction l as [|x l IH]; simpl; [by constructor|]. case_match; by constructor. Qed.

Lemma kfrom_spec k l : ksorted l -> Forall (fun x => ltb (key x) k = false) (kfrom k l).
Proof.
  induction 1 as [|a l Ha Hl IH]; simpl; [by constructor|].
  case_match eqn:E; [done|]. constructor; [done|].
  eapply Forall_impl; [exact Ha|]. intros x Hx.
  destruct (ltb (key x) k) eqn:E'; [|done].
  rewrite <- E. symmetry; cbn beta in *. eapply ltb_trans; eassumption.
Qed.

Lemma ksorted_app_r l1 l2 : ksorted (l1 ++ l2) -> ksorted l2.
Proof. induction l1; [done|]. intros [_ ?]%ksorted_cons_inv. auto. Qed.

Lemma ksorted_app_l l1 l2 : ksorted (l1 ++ l2) -> ksorted l1.
Proof.
  induction l1; simpl; [by constructor|]. intros [Hf ?]%ksorted_cons_inv.
  constructor; [|by auto]. by apply Forall_app in Hf as [? _].
Qed.

Lemma ksorted_NoDup l : ksorted l -> NoDup l.
Proof.
  induction 1 as [|a l Ha Hl IH]; constructor; [|done].
  intros Hin. rewrite Forall_forall in Ha. specialize (Ha a Hin). by rewrite ltb_irrefl in Ha.
Qed.

Lemma ksorted_key_inj l x y : ksorted l -> x ∈ l -> y ∈ l -> key x = key y -> x = y.
Proof.
  induction 1 as [|a l Ha Hl IH]; intros Hx Hy Hk; [by apply not_elem_of_nil in Hx|].
  rewrite Forall_forall in Ha.
  apply elem_of_cons in Hx as [->|Hx]; apply elem_of_cons in Hy as [->|Hy]; [done| | |by auto].
  - specialize (Ha y Hy). rewrite Hk, ltb_irrefl in Ha. done.
  - specialize (Ha x Hx). rewrite Hk, ltb_irrefl in Ha. done.
Qed.

Lemma kfind_Some k l x : ksorted l -> kfind k l = Some x <-> x ∈ l /\ key x = k.
Proof.
  induction 1 as [|a l Ha Hl IH]; simpl.
  - split; [done|]. intros [Hx _]. by apply not_elem_of_nil in Hx.
  - rewrite elem_of_cons. rewrite Forall_forall in Ha.
    destruct (ltb_cases (key a) k) as [(E&E'&?)|[(E&E'&?)|(E&E'&?)]]; rewrite E, ?E'.
    + rewrite IH. naive_solver.
    + split; [done|]. intros [[->|Hx] Hk]; [done|]. specialize (Ha x Hx). congruence.
    + split; [naive_solver|]. intros [[->|Hx] Hk]; [done|].
      specialize (Ha x Hx). congruence.
Qed.

Lemma kfind_None k l : ksorted l -> kfind k l = None <-> forall x, x ∈ l -> key x <> k.
Proof.
  intros Hl. split.
  - intros Hn x Hx Hk. assert (kfind k l = Some x) by (by apply kfind_Some). congruence.
  - intros Hn. destruct (kfind k l) as [x|] eqn:E; [|done].
    apply kfind_Some in E as [Hx Hk]; [|done]. by destruct (Hn x Hx).
Qed.

(** Splitting a sorted list at a key. *)
Lemma kinsert_fresh a l : ksorted l -> (forall x, x ∈ l -> key x <> key a) ->
  kinsert a l = (kbelow (key a) l ++ a :: kfrom (key a) l, true).
Proof.
  induction 1 as [|x l Hx Hl IH]; simpl; intros Hn; [done|].
  assert (key x <> key a) as Hne by (apply Hn; set_solver).
  destruct (ltb_cases (key x) (key a)) as [(->&?&?)|[(->&->&?)|(?&?&?)]]; [|done|done].
  rewrite IH by set_solver. done.
Qed.

Lemma kinsert_dup a l : ksorted l -> (exists x, x ∈ l /\ key x = key a) -> kinsert a l = (l, false).
Proof.
  induction 1 as [|x l Hx Hl IH]; simpl; intros (y & Hy & Hk); [by apply not_elem_of_nil in Hy|].
  rewrite Forall_forall in Hx.
  apply elem_of_cons in Hy as [->|Hy].
  - rewrite Hk, ltb_irrefl. done.
  - specialize (Hx y Hy). rewrite Hk in Hx. rewrite Hx, IH by eauto. done.
Qed.

Lemma kput_fresh a l : ksorted l -> (forall x, x ∈ l -> key x <> key a) ->
  kput a l = kbelow (key a) l ++ a :: kfrom (key a) l.
Proof.
  induction 1 as [|x l Hx Hl IH]; simpl; intros Hn; [done|].
  assert (key x <> key a) as Hne by (apply Hn; set_solver).
  destruct (ltb_cases (key x) (key a)) as [(->&?&?)|[(->&->&?)|(?&?&?)]]; [|done|done].
  rewrite IH by set_solver. done.
Qed.

Lemma ksorted_mid a l : ksorted l -> (forall x, x ∈ l -> key x <> key a) ->
  ksorted (kbelow (key a) l ++ a :: kfrom (key a) l).
Proof.
  induction 1 as [|x l Hx Hl IH]; simpl; intros Hn; [by repeat constructor|].
  assert (key x <> key a) as Hne by (apply Hn; set_solver).
  destruct (ltb_cases (key x) (key a)) as [(E&?&?)|[(E&E'&?)|(?&?&?)]]; [| |done]; rewrite E; simpl.
  - constructor; [|by apply IH; set_solver].
    rewrite Forall_app, Forall_cons. rewrite (kbelow_kfrom (key a) l), Forall_app in Hx. naive_solver.
  - constructor; [|by constructor]. constructor; [done|].
    eapply Forall_impl; [exact Hx|]. cbn beta; intros y Hy. eapply ltb_trans; eassumption.
Qed.

Lemma kput_elem a l x : ksorted l -> x ∈ kput a l <-> x = a \/ (x ∈ l /\ key x <> key a).
Proof.
  induction 1 as [|y l Hy Hl IH]; simpl.
  - rewrite list_elem_of_singleton. set_solver.
  - rewrite Forall_forall in Hy.
    destruct (ltb_cases (key y) (key a)) as [(->&?&?)|[(E&E'&?)|(->&->&Heq)]].
    + rewrite !elem_of_cons, IH. naive_solver.
    + rewrite E, E'. rewrite !elem_of_cons. split; [|naive_solver].
      intros [?|[->|Hx]]; [by auto|by auto|]. right. split; [by auto|].
      intros Hk. specialize (Hy x Hx). rewrite Hk in Hy. congruence.
    + rewrite !elem_of_cons. split; [|naive_solver].
      intros [?|Hx]; [by auto|]. right. split; [by auto|].
      intros Hk. specialize (Hy x Hx). by rewrite Hk, Heq, ltb_irrefl in Hy.
Qed.

Lemma kput_sorted a l : ksorted l -> ksorted (kput a l).
Proof.
  induction 1 as [|y l Hy Hl IH]; simpl; [by repeat constructor|].
  destruct (ltb_cases (key y) (key a)) as [(E&?&?)|[(E&E'&?)|(E&E'&Heq)]]; rewrite E, ?E'.
  - constructor; [|done]. rewrite Forall_forall in *. intros x Hx.
    apply kput_elem in Hx as [->|[Hx _]]; [done| |done]. by apply Hy.
  - constructor; [|by constructor]. constructor; [done|].
    eapply Forall_impl; [exact Hy|]. cbn beta; intros z Hz. eapply ltb_trans; eassumption.
  - constructor; [|done]. eapply Forall_impl; [exact Hy|]. intros z Hz. by rewrite <- Heq.
Qed.

Lemma kfind_kput a l k : ksorted l ->
  kfind k (kput a l) = (if ltb (key a) k then kfind k l else if ltb k (key a) then kfind k l else Some a).
Proof.
  intros Hl. pose proof (kput_sorted a l Hl) as Hp.
  destruct (ltb_cases (key a) k) as [(->&?&Hne)|[(->&->&Hne)|(->&->&Heq)]].
  1,2: destruct (kfind k l) as [x|] eqn:E;
    [apply kfind_Some in E as [??]; [|done]; apply kfind_Some; [done|]; rewrite kput_elem by done; naive_solver
    |apply kfind_None; [done|]; rewrite kfind_None in E by done; intros x; rewrite kput_elem by done; naive_solver].
  apply kfind_Some; [done|]. rewrite kput_elem by done. naive_solver.
Qed.

Lemma kerase_absent k l : ksorted l -> (forall x, x ∈ l -> key x <> k) -> kerase k l = (l, 0).
Proof.
  induction 1 as [|x l Hx Hl IH]; simpl; intros Hn; [done|].
  assert (key x <> k) as Hne by (apply Hn; set_solver).
  destruct (ltb_cases (key x) k) as [(->&?&?)|[(->&->&?)|(?&?&?)]]; [|done|done].
  rewrite IH by set_solver. done.
Qed.

Lemma kerase_present l1 x l2 : ksorted (l1 ++ x :: l2) -> kerase (key x) (l1 ++ x :: l2) = (l1 ++ l2, 1).
Proof.
  induction l1 as [|y l1 IH]; simpl.
  - intros _. by rewrite ltb_irrefl.
  - intros [Hf Hs]%ksorted_cons_inv. rewrite Forall_app, Forall_cons in Hf.
    destruct Hf as (_ & -> & _). by rewrite IH.
Qed.

Lemma ksorted_remove l1 x l2 : ksorted (l1 ++ x :: l2) -> ksorted (l1 ++ l2).
Proof.
  induction l1 as [|y l1 IH]; simpl.
  - by intros [_ ?]%ksorted_cons_inv.
  - intros [Hf Hs]%ksorted_cons_inv. constructor; [|by apply IH].
    rewrite Forall_app, Forall_cons in Hf. rewrite Forall_app. naive_solver.
Qed.
End sorted.

(** The map of the source with string keys and values. *)
Abbreviation smap V := (list (list ascii * V)).
Definition map_get {V} (k : bytes) (m : smap V) : option V := snd <$> kfind fst k m.
Definition map_set {V} (k : bytes) (v : V) (m : smap V) : smap V := kput fst (k, v) m.

Lemma map_get_set {V} (k k' : bytes) (v : V) (m : smap V) : ksorted fst m ->
  map_get k' (map_set k v m) = if decide (k = k') then Some v else map_get k' m.
Proof.
  intros Hm. unfold map_get, map_set. rewrite (kfind_kput fst) by done. cbn [fst].
  destruct (ltb_cases k k') as [(E&E'&Hne)|[(E&E'&Hne)|(E&E'&Heq)]]; rewrite E, ?E'.
  - by rewrite decide_False.
  - by rewrite decide_False.
  - by rewrite decide_True.
Qed.

(** Membership after an erasure. *)
Lemma kerase_spec {A K} (key : A -> K) `{LtbOrder K} x l : ksorted key l -> x ∈ l ->
  exists l', kerase key (key x) l = (l', 1) /\ ksorted key l' /\ (forall y, y ∈ l' <-> y ∈ l /\ y <> x) /\ l ≡ₚ x :: l'.
Proof.
  intros Hl (l1 & l2 & ->)%list_elem_of_split. exists (l1 ++ l2).
  split; [by apply (kerase_present key)|]. split; [by eapply ksorted_remove|].
  pose proof (ksorted_NoDup key _ Hl) as Hnd. apply NoDup_app in Hnd as (_ & Hd & [Hx _]%NoDup_cons).
  split; [|by rewrite <- Permutation_middle].
  intros y. rewrite !elem_of_app, elem_of_cons. split; [|tauto].
  intros Hy. split; [tauto|]. intros ->. destruct Hy as [Hy|Hy]; [|done]. apply (Hd x Hy). by left.
Qed.

(** Membership after the insertion of a new key. *)
Lemma kinsert_spec {A K} (key : A -> K) `{LtbOrder K} a l : ksorted key l -> (forall x, x ∈ l -> key x <> key a) ->
  exists l', kinsert key a l = (l', true) /\ ksorted key l' /\ l' ≡ₚ a :: l.
Proof.
  intros Hl Ha. exists (kbelow key (key a) l ++ a :: kfrom key (key a) l).
  split; [by apply (kinsert_fresh key)|]. split; [by apply (ksorted_mid key)|].
  rewrite (kbelow_kfrom key (key a) l) at 3. by rewrite <- Permutation_middle.
Qed.

(** What lies below a key, by filtering. *)
Lemma kbelow_filter {A K} (key : A -> K) `{LtbOrder K} k l (P : A -> Prop) `{!forall x, Decision (P x)} :
  ksorted key l -> (forall x, x ∈ l -> P x <-> ltb (key x) k = true) ->
  kbelow key k l = filter P l.
Proof.
  intros Hl HP. rewrite (kbelow_kfrom key k l) at 2. rewrite filter_app.
  pose proof (kbelow_spec key k l) as Hb. pose proof (kfrom_spec key k l Hl) as Hf.
  rewrite Forall_forall in Hb, Hf. rewrite filter_all, filter_none, app_nil_r; [done| |].
  - intros x Hx Px. specialize (Hf x Hx). apply HP in Px; [congruence|]. rewrite (kbelow_kfrom key k l). set_solver.
  - intros x Hx. apply HP; [|by apply Hb]. rewrite (kbelow_kfrom key k l). set_solver.
Qed.
