(* ===== verification/MySQL.v ===== *)
(** MySQL/pool: a pool of database connections handed to one client at a time,
    and a query on one of them. *)
From S2P Require Import Prelude Cxx.

(** ** [Pool] *)
Module Pool.

(** [some]: a connection and whether it is in use; a connection is a number in
    the order of creation. *)
Record some := mkSome { first : nat; second : bool }.

(** The static members: the arguments of [initPool], [pool_] with its [vec], and
    how many connections were made. *)
Record t := mk { login : bytes * bytes * bytes * bytes; poolSize_ : Z; pool_ : option (list some); made : nat }.

Definition init : t := mk ([], [], [], []) 0 None 0.

Section pool.
(** Whether [mysql_real_connect] succeeds, by connection. *)
Context (connects : nat -> bool).
Implicit Types s : t.

Definition initPool (host user pass dbname : bytes) (poolSize : Z) s : t :=
  mk (host, user, pass, dbname) poolSize (pool_ s) (made s).

(** [Connection(host, user, pass, dbname)] *)
Definition Connection (k : nat) : outcome nat := if connects k then Ret k else Crash ProcessExit.

(** The loop of the constructor. *)
Fixpoint fill (n : nat) (k : nat) : outcome (list some) :=
  match n with
  | O => Ret []
  | S n' => conn ← Connection k; v ← fill n' (S k); Ret (mkSome conn false :: v)
  end.

(** [new some[poolSize_]] with a negative size throws. *)
Definition Pool s : outcome (list some) := if poolSize_ s <? 0 then Crash UncaughtException else fill (Z.to_nat (poolSize_ s)) (made s).

(** The scan for a connection that is not in use: [n] entries from [i] on. *)
Fixpoint scan (n : nat) (i : nat) (vec : list some) : outcome (option (nat * list some)) :=
  match n with
  | O => Ret None
  | S n' =>
      e ← deref (vec !! i);
      if second e then scan n' (S i) vec else Ret (Some (first e, <[i := mkSome (first e) true]> vec))
  end.

(** One turn of [getConnection], under its locks: [None] when every connection is
    in use, and the thread tries again a millisecond later. *)
Definition getConnection s : outcome (option nat * t) :=
  s1 ← match pool_ s with
       | Some _ => Ret s
       | None => v ← Pool s; Ret (mk (login s) (poolSize_ s) (Some v) (made s + length v)%nat)
       end;
  vec ← deref (pool_ s1);
  r ← scan (Z.to_nat (poolSize_ s1)) 0 vec;
  match r with
  | Some (conn, vec') => Ret (Some conn, mk (login s1) (poolSize_ s1) (Some vec') (made s1))
  | None => Ret (None, s1)
  end.

(** The search for [conn]. *)
Fixpoint unmark (n : nat) (i : nat) (conn : nat) (vec : list some) : outcome (list some) :=
  match n with
  | O => Ret vec
  | S n' =>
      e ← deref (vec !! i);
      if decide (first e = conn) then Ret (<[i := mkSome (first e) false]> vec) else unmark n' (S i) conn vec
  end.

Definition releaseConnection (conn : nat) s : outcome (Z * t) :=
  if poolSize_ s <=? 0 then Ret (1, s)
  else
    vec ← deref (pool_ s);
    vec' ← unmark (Z.to_nat (poolSize_ s)) 0 conn vec;
    Ret (1, mk (login s) (poolSize_ s) (Some vec') (made s)).

(** The connections [~Pool] closes. *)
Fixpoint deleted (n : nat) (i : nat) (vec : list some) : outcome (list nat) :=
  match n with O => Ret [] | S n' => e ← deref (vec !! i); l ← deleted n' (S i) vec; Ret (first e :: l) end.

Definition destroyPool s : outcome (list nat * t) :=
  match pool_ s with
  | Some vec => l ← deleted (Z.to_nat (poolSize_ s)) 0 vec; Ret (l, mk (login s) (poolSize_ s) None (made s))
  | None => Ret ([], s)
  end.

(** ** Clients: each asks for a connection now and then, and gives back what it
    holds *)
Record world := mkWorld { pool : t; held : list (nat * nat) }.
Inductive event := Get (client : nat) | Release (client conn : nat).

Definition step (e : event) (w : world) : outcome world :=
  match e with
  | Get client =>
      '(r, s) ← getConnection (pool w);
      Ret (mkWorld s (match r with Some conn => held w ++ [(client, conn)] | None => held w end))
  | Release client conn =>
      '(_, s) ← releaseConnection conn (pool w);
      Ret (mkWorld s (filter (fun h => h <> (client, conn)) (held w)))
  end.
Fixpoint run (es : list event) (w : world) : outcome world :=
  match es with [] => Ret w | e :: es' => w' ← step e w; run es' w' end.

(** *** Reachable worlds: clients give back only what they hold *)
Inductive reach : world -> Prop :=
| reach_init host user pass dbname n : 0 <= n -> reach (mkWorld (initPool host user pass dbname n init) [])
| reach_get w client w' : reach w -> step (Get client) w = Ret w' -> reach w'
| reach_release w client conn w' : reach w -> (client, conn) ∈ held w -> step (Release client conn) w = Ret w' -> reach w'.

(** The entries of [vec] in use are the connections held. *)
Record vec_ok (n : Z) (vec : list some) (h : list (nat * nat)) : Prop := {
  vo_size : zlen vec = n;
  vo_conns : NoDup (first <$> vec);
  vo_used : forall i e, vec !! i = Some e -> (second e = true <-> first e ∈ snd <$> h);
  vo_held : NoDup (snd <$> h);
  vo_from : forall c, c ∈ snd <$> h -> c ∈ first <$> vec
}.

Definition inv w : Prop :=
  0 <= poolSize_ (pool w) /\
  match pool_ (pool w) with Some vec => vec_ok (poolSize_ (pool w)) vec (held w) | None => held w = [] end.

Lemma filled n k v : fill n k = Ret v -> length v = n /\ first <$> v = seq k n /\ (forall i e, v !! i = Some e -> second e = false).
Proof.
  revert k v. induction n as [|n IH]; intros k v E; cbn [fill] in E; [injection E as <-; split; [done|]; split; [done|]; intros i e Hi; by rewrite lookup_nil in Hi|].
  apply bind_Ret_inv in E as (c & Ec & E). unfold Connection in Ec. destruct (connects k); [|done]. injection Ec as <-.
  apply bind_Ret_inv in E as (v' & Ev & E). injection E as <-. destruct (IH _ _ Ev) as (Hl & Hm & He).
  rewrite fmap_cons, Hm. cbn. rewrite Hl. split; [done|]. split; [done|]. intros [|i] e Hi; cbn in Hi; [by injection Hi as <-|by eapply He].
Qed.

Lemma fill_total n k : (forall i, connects i = true) -> exists v, fill n k = Ret v.
Proof.
  intros Hc. revert k. induction n as [|n IH]; intros k; cbn [fill]; [by eexists|]. unfold Connection. rewrite Hc.
  cbn [mbind outcome_bind]. destruct (IH (S k)) as [v ->]. by eexists.
Qed.

Lemma scan_turn n i vec : (i + n = length vec)%nat ->
  (scan n i vec = Ret None /\ forall j e, (i <= j)%nat -> vec !! j = Some e -> second e = true)
  \/ exists j e, vec !! j = Some e /\ second e = false /\ scan n i vec = Ret (Some (first e, <[j := mkSome (first e) true]> vec)).
Proof.
  clear connects. revert i. induction n as [|n IH]; intros i Hi; cbn [scan].
  - left. split; [done|]. intros j e Hj He. apply lookup_lt_Some in He. lia.
  - destruct (lookup_lt_is_Some_2 vec i) as [e He]; [lia|]. rewrite He. cbn [deref mbind outcome_bind].
    destruct (second e) eqn:Es; [|right; by exists i, e].
    destruct (IH (S i)) as [[E H]|H]; [lia| |by right]. left. split; [done|]. intros j e' Hj He'.
    destruct (decide (j = i)) as [->|Hne]; [by rewrite He in He'; injection He' as <-|apply (H j); [lia|done]].
Qed.

Lemma scan_beyond n i vec : (forall j e, vec !! j = Some e -> second e = true) -> (length vec < i + n)%nat -> (i <= length vec)%nat ->
  scan n i vec = Crash UndefinedBehaviour.
Proof.
  clear connects. intros Hall. revert i. induction n as [|n IH]; intros i Hn Hi; [lia|]. cbn [scan].
  destruct (vec !! i) as [e|] eqn:E; [|done]. cbn [deref mbind outcome_bind]. rewrite (Hall i e E).
  apply lookup_lt_Some in E. apply IH; lia.
Qed.

Lemma unmark_spec n i conn vec : (i + n = length vec)%nat -> (exists j e, (i <= j)%nat /\ vec !! j = Some e /\ first e = conn) ->
  exists j e, vec !! j = Some e /\ first e = conn /\ unmark n i conn vec = Ret (<[j := mkSome conn false]> vec).
Proof.
  clear connects. revert i. induction n as [|n IH]; intros i Hi (j & e & Hj & He & Hc); cbn [unmark]; [apply lookup_lt_Some in He; lia|].
  destruct (lookup_lt_is_Some_2 vec i) as [d Hd]; [lia|]. rewrite Hd. cbn [deref mbind outcome_bind].
  case_decide as E; [exists i, d; by rewrite E|]. apply IH; [lia|]. exists j, e. split; [|done].
  destruct (decide (j = i)) as [->|Hne]; [|lia]. congruence.
Qed.

(** Replacing an entry by one for the same connection. *)
Lemma firsts_insert (j : nat) e b (vec : list some) : vec !! j = Some e -> first <$> <[j := mkSome (first e) b]> vec = first <$> vec.
Proof. clear connects. intros He. rewrite list_fmap_insert. apply list_insert_id. by rewrite list_lookup_fmap, He. Qed.

Lemma entry_inj (vec : list some) i j e d : NoDup (first <$> vec) -> vec !! i = Some e -> vec !! j = Some d -> first e = first d -> i = j.
Proof. clear connects. intros Hnd Hi Hj E. apply (NoDup_lookup (first <$> vec) i j (first e) Hnd); [by rewrite list_lookup_fmap, Hi|by rewrite list_lookup_fmap, Hj, E]. Qed.

Lemma vec_ok_get n vec h j e client : vec_ok n vec h -> vec !! j = Some e -> second e = false ->
  vec_ok n (<[j := mkSome (first e) true]> vec) (h ++ [(client, first e)]).
Proof.
  clear connects. intros [Hn Hc Hu Hh Hf] He Es. assert (first e ∉ snd <$> h) as Hni by (intros Hin; apply (Hu j e He) in Hin; congruence).
  split; rewrite ?firsts_insert, ?fmap_app by done; cbn [fmap list_fmap snd].
  - unfold zlen. by rewrite length_insert.
  - done.
  - intros i d Hd. rewrite elem_of_app, list_elem_of_singleton.
    apply list_lookup_insert_Some in Hd as [(<- & <- & _)|[Hne Hd]]; [cbn; naive_solver|].
    rewrite (Hu i d Hd). split; [by left|]. intros [Hin|E]; [done|]. by destruct (entry_inj vec i j d e Hc Hd He E).
  - apply NoDup_app. split; [done|]. split; [|apply NoDup_singleton]. intros x Hx ->%list_elem_of_singleton. done.
  - intros c. rewrite elem_of_app, list_elem_of_singleton. intros [Hin| ->]; [auto|]. apply list_elem_of_fmap_2. by eapply list_elem_of_lookup_2.
Qed.

Lemma NoDup_snd_filter (P : nat * nat -> Prop) `{!forall x, Decision (P x)} (h : list (nat * nat)) : NoDup (snd <$> h) -> NoDup (snd <$> filter P h).
Proof.
  clear connects. induction h as [|x h IH]; [done|]. rewrite fmap_cons. intros [Hx Hnd]%NoDup_cons.
  destruct (decide (P x)) as [Hp|Hp]; [rewrite filter_cons_True by done|rewrite filter_cons_False by done; auto].
  rewrite fmap_cons. apply NoDup_cons. split; [|auto]. rewrite list_elem_of_fmap. intros (y & E & Hy).
  apply list_elem_of_filter in Hy as [_ Hy]. apply Hx. rewrite E. by apply list_elem_of_fmap_2.
Qed.

(** What is held after a connection is given back. *)
Lemma given_back (h : list (nat * nat)) (client conn : nat) : NoDup (snd <$> h) -> (client, conn) ∈ h ->
  let h' := filter (fun x => x <> (client, conn)) h in
  NoDup (snd <$> h') /\ forall c, c ∈ snd <$> h' <-> c ∈ snd <$> h /\ c <> conn.
Proof.
  clear connects. intros Hnd Hin. cbv zeta. split.
  - by apply NoDup_snd_filter.
  - intros c. rewrite !list_elem_of_fmap. setoid_rewrite list_elem_of_filter. split.
    + intros ([a k] & -> & Hne & Hk). cbn. split; [by exists (a, k)|]. intros ->. apply Hne. f_equal.
      apply list_elem_of_lookup in Hk as [i Hi]. apply list_elem_of_lookup in Hin as [j Hj].
      assert (i = j) as -> by (apply (NoDup_lookup (snd <$> h) i j conn Hnd); by rewrite list_lookup_fmap, ?Hi, ?Hj). congruence.
    + intros ((x & -> & Hx) & Hne). exists x. split; [done|]. split; [|done]. by intros ->.
Qed.

Lemma vec_ok_release n vec h j e client conn : vec_ok n vec h -> (client, conn) ∈ h -> vec !! j = Some e -> first e = conn ->
  vec_ok n (<[j := mkSome conn false]> vec) (filter (fun x => x <> (client, conn)) h).
Proof.
  clear connects. intros [Hn Hc Hu Hh Hf] Hin He <-. destruct (given_back h client (first e) Hh Hin) as [Hnd Hel].
  split; rewrite ?firsts_insert by done; [unfold zlen; by rewrite length_insert|done| |done|].
  - intros i d Hd. rewrite Hel. apply list_lookup_insert_Some in Hd as [(<- & <- & _)|[Hne Hd]]; [cbn; naive_solver|].
    rewrite (Hu i d Hd). split; [|naive_solver]. intros H1. split; [done|]. intros E.
    by destruct (entry_inj vec i j d e Hc Hd He E).
  - intros c Hc'. apply Hel in Hc' as [Hc' _]. auto.
Qed.

Lemma zlen_to_nat {A} (l : list A) : Z.to_nat (zlen l) = length l.
Proof. apply Nat2Z.id. Qed.

Lemma vec_ok_le n vec h : vec_ok n vec h -> zlen h <= n.
Proof.
  clear connects. intros [Hn _ _ Hh Hf]. unfold zlen in *. rewrite <- Hn, <- (length_fmap snd h), <- (length_fmap first vec).
  apply Nat2Z.inj_le, submseteq_length, NoDup_submseteq; auto.
Qed.

(** Nothing is held when the pool is made. *)
Lemma vec_ok_fresh n k v : fill n k = Ret v -> vec_ok (Z.of_nat n) v [].
Proof.
  intros (Hl & Hm & He)%filled. split; [unfold zlen; by rewrite Hl|rewrite Hm; apply NoDup_seq| |constructor|].
  - intros i e Hi. rewrite (He i e Hi). split; [done|]. intros H. by apply not_elem_of_nil in H.
  - intros c H. by apply not_elem_of_nil in H.
Qed.

Lemma get_creates s : pool_ s = None ->
  getConnection s = (v ← Pool s; getConnection (mk (login s) (poolSize_ s) (Some v) (made s + length v)%nat)).
Proof. intros E. unfold getConnection. rewrite E. by destruct (Pool s). Qed.

(** A turn on a pool that exists: a connection nobody holds, or all are held. *)
Lemma get_turn s vec h : pool_ s = Some vec -> vec_ok (poolSize_ s) vec h ->
  exists r s' vec', getConnection s = Ret (r, s') /\ poolSize_ s' = poolSize_ s /\ pool_ s' = Some vec' /\
  match r with
  | Some conn => zlen h < poolSize_ s /\ conn ∉ snd <$> h /\ forall client, vec_ok (poolSize_ s) vec' (h ++ [(client, conn)])
  | None => zlen h = poolSize_ s /\ vec_ok (poolSize_ s) vec' h
  end.
Proof.
  intros E Hv. pose proof (vo_size _ _ _ Hv) as Hn. unfold getConnection. rewrite E. cbn [mbind outcome_bind]. rewrite E. cbn [deref mbind outcome_bind].
  rewrite <- Hn, zlen_to_nat. destruct (scan_turn (length vec) 0 vec) as [[-> Hall]|(j & e & He & Es & ->)]; [lia| |]; cbn [mbind outcome_bind].
  - exists None, s, vec. rewrite Hn. split_and!; try done. pose proof (vec_ok_le _ _ _ Hv) as Hle.
    enough (zlen vec <= zlen h) by lia. unfold zlen. rewrite <- (length_fmap snd h), <- (length_fmap first vec).
    apply Nat2Z.inj_le, submseteq_length, NoDup_submseteq; [apply (vo_conns _ _ _ Hv)|]. intros c (d & -> & Hd)%list_elem_of_fmap.
    apply list_elem_of_lookup in Hd as [i Hi]. apply (vo_used _ _ _ Hv i d Hi), (Hall i d); [lia|done].
  - eexists (Some (first e)), _, _. split; [done|]. split; [done|]. split; [done|]. rewrite Hn.
    pose proof (fun client => vec_ok_get _ _ _ _ _ client Hv He Es) as H. split_and!; [| |done].
    + pose proof (vec_ok_le _ _ _ (H 0%nat)) as Hle. unfold zlen in Hle |- *. rewrite length_app in Hle. cbn in Hle. lia.
    + intros Hin. apply (vo_used _ _ _ Hv j e He) in Hin. congruence.
Qed.

Lemma release_turn s vec h client conn : pool_ s = Some vec -> vec_ok (poolSize_ s) vec h -> (client, conn) ∈ h ->
  exists s' vec', releaseConnection conn s = Ret (1, s') /\ poolSize_ s' = poolSize_ s /\ pool_ s' = Some vec' /\
  vec_ok (poolSize_ s) vec' (filter (fun x => x <> (client, conn)) h).
Proof.
  clear connects. intros E Hv Hin. pose proof (vo_size _ _ _ Hv) as Hn. pose proof (vec_ok_le _ _ _ Hv) as Hle. unfold releaseConnection.
  assert (0 < zlen h) by (destruct h; [by apply not_elem_of_nil in Hin|rewrite zlen_cons; pose proof (zlen_nonneg h); lia]).
  rewrite (proj2 (Z.leb_gt _ _)), E by lia. cbn [deref mbind outcome_bind]. rewrite <- Hn, zlen_to_nat.
  assert (conn ∈ first <$> vec) as (e & He & Hl)%list_elem_of_fmap by (apply (vo_from _ _ _ Hv), list_elem_of_fmap; by exists (client, conn)).
  apply list_elem_of_lookup in Hl as [i Hi].
  destruct (unmark_spec (length vec) 0 conn vec) as (j & d & Hj & Hc & ->); [lia|exists i, e; split; [lia|done]|].
  cbn [mbind outcome_bind]. eexists _, _. split; [done|]. split; [done|]. split; [done|]. rewrite Hn. by eapply vec_ok_release.
Qed.

Lemma held_pool w x : inv w -> x ∈ held w -> exists vec, pool_ (pool w) = Some vec /\ vec_ok (poolSize_ (pool w)) vec (held w).
Proof. intros [_ Hi] Hx. destruct (pool_ (pool w)); [by eexists|]. rewrite Hi in Hx. by apply not_elem_of_nil in Hx. Qed.

(** A request that is answered was answered from a pool that exists. *)
Lemma get_via w client w' : inv w -> step (Get client) w = Ret w' ->
  exists s vec, step (Get client) (mkWorld s (held w)) = Ret w' /\ pool_ s = Some vec /\ 0 <= poolSize_ s /\ vec_ok (poolSize_ s) vec (held w).
Proof.
  intros [Hp Hi] E. destruct (pool_ (pool w)) as [vec|] eqn:Ep; [exists (pool w), vec; by destruct w|].
  cbn [step] in E. rewrite get_creates in E by done. unfold Pool in E. rewrite (proj2 (Z.ltb_ge _ _)) in E by lia.
  destruct (fill (Z.to_nat (poolSize_ (pool w))) (made (pool w))) as [v|] eqn:Ef; [|done]. cbn [mbind outcome_bind] in E.
  eexists (mk _ _ (Some v) _), v. split; [exact E|]. split; [done|]. split; [done|]. rewrite Hi.
  pose proof (vec_ok_fresh _ _ _ Ef) as H. rewrite Z2Nat.id in H; done.
Qed.

(** Every request has such a pool, while the database accepts connections. *)
Lemma get_exists w client : (forall i, connects i = true) -> inv w ->
  exists s vec, step (Get client) w = step (Get client) (mkWorld s (held w)) /\ pool_ s = Some vec /\ poolSize_ s = poolSize_ (pool w) /\ vec_ok (poolSize_ s) vec (held w).
Proof.
  intros Hc [Hp Hi]. destruct (pool_ (pool w)) as [vec|] eqn:Ep; [exists (pool w), vec; by destruct w|].
  destruct (fill_total (Z.to_nat (poolSize_ (pool w))) (made (pool w)) Hc) as [v Ef].
  exists (mk (login (pool w)) (poolSize_ (pool w)) (Some v) (made (pool w) + length v)%nat), v. split_and!; try done.
  - cbn [step pool held]. rewrite (get_creates (pool w)) by done. unfold Pool. rewrite (proj2 (Z.ltb_ge _ _)), Ef by lia. done.
  - pose proof (vec_ok_fresh _ _ _ Ef) as H. rewrite Z2Nat.id in H by done. by rewrite Hi.
Qed.

Lemma inv_get w client w' : inv w -> step (Get client) w = Ret w' -> inv w'.
Proof.
  intros Hi (s & vec & E & Ep & Hp & Hv)%get_via; [|done]. cbn [step pool held] in E.
  destruct (get_turn s vec (held w) Ep Hv) as (r & s' & vec' & Eg & Hs & Ep' & Hr). rewrite Eg in E. injection E as <-.
  unfold inv. cbn [pool held]. rewrite Hs, Ep'. split; [done|]. destruct r; [apply Hr|by destruct Hr].
Qed.

Lemma inv_release w client conn w' : inv w -> (client, conn) ∈ held w -> step (Release client conn) w = Ret w' -> inv w'.
Proof.
  intros Hi Hin E. destruct (held_pool w _ Hi Hin) as (vec & Ep & Hv). cbn [step] in E.
  destruct (release_turn (pool w) vec (held w) client conn Ep Hv Hin) as (s' & vec' & Er & Hs & Ep' & Hv'). rewrite Er in E. injection E as <-.
  unfold inv. cbn [pool held]. rewrite Hs, Ep'. destruct Hi as [Hp _]. done.
Qed.

Lemma inv_reach w : reach w -> inv w.
Proof. induction 1; [by split|by eapply inv_get|by eapply inv_release]. Qed.

(** C15. However clients take and give back connections, no connection is held
    twice and no more than [poolSize] are held; while the database accepts
    connections, a request is answered, with a connection nobody holds exactly
    when fewer than [poolSize] are held, and a connection that is held can be
    given back. *)
Theorem connections_exclusive w :
  (forall i, connects i = true) -> reach w ->
  NoDup (snd <$> held w) /\ zlen (held w) <= poolSize_ (pool w) /\
  (forall client, exists w', step (Get client) w = Ret w' /\
    if zlen (held w) <? poolSize_ (pool w)
    then exists conn, held w' = held w ++ [(client, conn)] /\ conn ∉ snd <$> held w
    else held w' = held w) /\
  (forall client conn, (client, conn) ∈ held w -> exists w', step (Release client conn) w = Ret w' /\
    forall x, x ∈ held w' <-> x ∈ held w /\ x <> (client, conn)).
Proof.
  intros Hc Hi%inv_reach. split_and!.
  - destruct Hi as [_ Hi]. destruct (pool_ (pool w)); [apply (vo_held _ _ _ Hi)|rewrite Hi; constructor].
  - destruct Hi as [Hp Hi]. destruct (pool_ (pool w)); [by apply (vec_ok_le _ _ _ Hi)|by rewrite Hi].
  - intros client. destruct (get_exists w client Hc Hi) as [s (vec & Hs & Ep & Hsz & Hv)].
    destruct (get_turn s vec (held w) Ep Hv) as (r & s' & vec' & Eg & _ & _ & Hr). exists (mkWorld s' (match r with Some conn => held w ++ [(client, conn)] | None => held w end)).
    split; [by rewrite Hs; cbn [step pool held]; rewrite Eg|]. rewrite <- Hsz. destruct r as [conn|].
    + destruct Hr as (Hlt & Hni & _). rewrite (proj2 (Z.ltb_lt _ _)) by done. by exists conn.
    + destruct Hr as [-> _]. by rewrite Z.ltb_irrefl.
  - intros client conn Hin. destruct (held_pool w _ Hi Hin) as (vec & Ep & Hv).
    destruct (release_turn (pool w) vec (held w) client conn Ep Hv Hin) as (s' & vec' & Er & _).
    eexists. cbn [step]. rewrite Er. split; [done|]. intros x. cbn [held]. rewrite list_elem_of_filter. tauto.
Qed.

Lemma deleted_spec n i vec : (i + n = length vec)%nat -> deleted n i vec = Ret (first <$> drop i vec).
Proof.
  clear connects. revert i. induction n as [|n IH]; intros i Hi; cbn [deleted]; [by rewrite drop_ge by lia|].
  destruct (lookup_lt_is_Some_2 vec i) as [e He]; [lia|]. rewrite He. cbn [deref mbind outcome_bind].
  rewrite IH by lia. cbn [mbind outcome_bind]. by rewrite (drop_S vec e i He).
Qed.

(** [destroyPool] closes every connection, the ones clients still hold
    included. *)
Theorem destroy_frees_held w :
  reach w -> exists l s, destroyPool (pool w) = Ret (l, s) /\ pool_ s = None /\ forall c, c ∈ snd <$> held w -> c ∈ l.
Proof.
  intros [_ Hi]%inv_reach. unfold destroyPool. destruct (pool_ (pool w)) as [vec|] eqn:E.
  - rewrite <- (vo_size _ _ _ Hi), zlen_to_nat, deleted_spec by done. eexists _, _. split; [done|]. split; [done|]. apply (vo_from _ _ _ Hi).
  - exists [], (pool w). split; [done|]. split; [done|]. rewrite Hi. intros c H. by apply not_elem_of_nil in H.
Qed.

(** [releaseConnection] before the first [getConnection], and [initPool] with
    a larger size once the pool is made and its connections in use, run out of
    the array. *)
Theorem pool_misuse host user pass dbname n m conn vec s :
  0 < n ->
  releaseConnection conn (initPool host user pass dbname n init) = Crash UndefinedBehaviour /\
  (pool_ s = Some vec -> (forall i e, vec !! i = Some e -> second e = true) -> zlen vec < m ->
   getConnection (initPool host user pass dbname m s) = Crash UndefinedBehaviour).
Proof.
  intros Hn. split; [unfold releaseConnection; cbn [initPool poolSize_]; by rewrite (proj2 (Z.leb_gt _ _))|].
  intros E Hall Hm. unfold getConnection. cbn [initPool pool_ poolSize_]. rewrite E. cbn [mbind outcome_bind initPool pool_ poolSize_]. rewrite E. cbn [deref mbind outcome_bind].
  rewrite scan_beyond; [done|done|unfold zlen in Hm; lia|lia].
Qed.
End pool.

(** *** Two clients and two connections *)
Definition two : t := initPool [] [] [] [] 2 init.
Definition held2 : world :=
  mkWorld (mk ([], [], [], []) 2 (Some [mkSome 0 true; mkSome 1 true]) 2) [(7%nat, 0%nat); (8%nat, 1%nat)].

Lemma held2_reach : reach (fun _ => true) held2.
Proof. eapply reach_get; [eapply reach_get; [apply (reach_init _ [] [] [] [] 2); lia|] |]; reflexivity. Qed.

Lemma connections_exclusive_witness :
  (forall i : nat, (fun _ => true) i = true) /\ reach (fun _ => true) held2 /\
  step (fun _ => true) (Get 9) held2 = Ret held2 /\
  exists w', step (fun _ => true) (Release 7 0) held2 = Ret w' /\ forall x, x ∈ held w' <-> x ∈ held held2 /\ x <> (7%nat, 0%nat).
Proof.
  pose proof (connections_exclusive (fun _ => true) held2 (fun _ => eq_refl) held2_reach) as (_ & _ & _ & H).
  split; [done|]. split; [apply held2_reach|]. split; [reflexivity|]. apply H. left.
Defined.

Lemma destroy_frees_held_witness : reach (fun _ => true) held2 /\ destroyPool (pool held2) = Ret ([0%nat; 1%nat], mk ([], [], [], []) 2 None 2).
Proof.
  split; [apply held2_reach|]. destruct (destroy_frees_held (fun _ => true) held2 held2_reach) as (l & s & E & _). reflexivity.
Defined.

Lemma pool_misuse_witness :
  releaseConnection 0 two = Crash UndefinedBehaviour /\
  run (fun _ => true) [Get 7; Get 8] (mkWorld two []) = Ret held2 /\
  getConnection (fun _ => true) (initPool [] [] [] [] 3 (pool held2)) = Crash UndefinedBehaviour.
Proof.
  destruct (pool_misuse (fun _ => true) [] [] [] [] 2 3 0%nat [mkSome 0 true; mkSome 1 true] (pool held2)) as [H1 H2]; [lia|].
  split; [exact H1|]. split; [reflexivity|]. apply H2; [done| |done]. intros [|[|i]] e He; by inversion He.
Defined.

(** A connection given back twice is held by two clients. *)
Lemma released_twice : exists w, run (fun _ => true) [Get 7; Release 7 0; Get 8; Release 7 0; Get 9] (mkWorld two []) = Ret w /\
  held w = [(8%nat, 0%nat); (9%nat, 0%nat)].
Proof. by eexists. Qed.
End Pool.
(** ** [QueryResult] and [Connection::executeQuery] *)
Module QueryResult.
Abbreviation t := (list (list bytes)).
Definition getRowCount (string_table : t) : Z := s32 (zlen string_table).
Definition getColumnCount (string_table : t) : outcome Z := r ← deref (string_table !! 0%nat); Ret (s32 (zlen r)).
Definition getElement (row column : Z) (string_table : t) : outcome bytes :=
  if (row <? 0) || (column <? 0) then Crash UndefinedBehaviour
  else r ← deref (string_table !! Z.to_nat row); deref (r !! Z.to_nat column).
Definition addRow (row : list bytes) (string_table : t) : t := string_table ++ [row].
End QueryResult.

Module Connection.
Section query.
(** The client library: what [mysql_store_result] gives after a query of that
    text, a null pointer, or rows of cells, each a string or null. *)
Context (mysql_store_result : bytes -> option (list (list (option bytes)))).

(** [string_row.push_back(row[i])]: a string from a null pointer throws. *)
Fixpoint string_row (row : list (option bytes)) : outcome (list bytes) :=
  match row with
  | [] => Ret []
  | Some c :: row' => l ← string_row row'; Ret (cstr c :: l)
  | None :: _ => Crash UncaughtException
  end.

Fixpoint fetch (rows : list (list (option bytes))) (queryResult : QueryResult.t) : outcome QueryResult.t :=
  match rows with
  | [] => Ret queryResult
  | row :: rows' => r ← string_row row; fetch rows' (QueryResult.addRow r queryResult)
  end.

(** The text sent, and the result; an error of the query is only printed. *)
Definition executeQuery (statement : bytes) : outcome (bytes * QueryResult.t) :=
  let query := cstr statement in
  let len := u32 (zlen query) in
  q ← write_at 0 (ztake len query) (replicate 100 NUL);
  q ← write_at len [NUL] q;
  let sent := ztake len q in
  resultSet ← deref (mysql_store_result sent);
  queryResult ← fetch resultSet [];
  Ret (sent, queryResult).

(** The cells of a row, which are all there, as strings. *)
Definition no_null (row : list (option bytes)) : bool := forallb (fun c => bool_decide (is_Some c)) row.
Definition cells (row : list (option bytes)) : list bytes := map cstr (omap id row).

Lemma write_at_over {A} i (d l : list A) : zlen l < i + zlen d -> write_at i d l = Crash UndefinedBehaviour.
Proof. clear mysql_store_result. intros H. unfold write_at. rewrite bool_decide_false; [done|lia]. Qed.

Lemma string_row_spec row : string_row row = if no_null row then Ret (cells row) else Crash UncaughtException.
Proof.
  clear mysql_store_result. induction row as [|[c|] row IH]; [done| |done]. cbn [string_row]. rewrite IH. unfold no_null, cells. cbn. by destruct (forallb _ row).
Qed.

Lemma fetch_spec rows queryResult :
  fetch rows queryResult = if forallb no_null rows then Ret (queryResult ++ map cells rows) else Crash UncaughtException.
Proof.
  clear mysql_store_result. revert queryResult. induction rows as [|row rows IH]; intros qr; cbn [fetch forallb map]; [by rewrite app_nil_r|].
  rewrite string_row_spec. destruct (no_null row); [|done]. cbn [mbind outcome_bind andb]. rewrite IH.
  unfold QueryResult.addRow. by rewrite <- app_assoc.
Qed.

(** [executeQuery] sends the statement up to its first NUL and returns the
    table; a statement of 100 bytes or more overruns the copy, a query without a
    result set is a null pointer, and a null cell throws. *)
Theorem executeQuery_spec statement :
  zlen (cstr statement) < 2 ^ 32 ->
  executeQuery statement =
    if 100 <=? zlen (cstr statement) then Crash UndefinedBehaviour
    else match mysql_store_result (cstr statement) with
         | None => Crash UndefinedBehaviour
         | Some rows => if forallb no_null rows then Ret (cstr statement, map cells rows) else Crash UncaughtException
         end.
Proof.
  intros Hl. unfold executeQuery. set (query := cstr statement) in *. pose proof (zlen_nonneg query).
  rewrite wrapu_small by (unfold in_u; lia). rewrite (ztake_all (zlen query) query) by lia.
  assert (zlen (replicate 100 NUL) = 100) as H100 by done.
  destruct (Z.leb_spec 100 (zlen query)) as [Hge|Hlt].
  - destruct (decide (zlen query = 100)) as [E|Hne].
    + rewrite write_at_ok by lia. cbn [mbind outcome_bind]. rewrite write_at_over; [done|].
      rewrite !zlen_app, zlen_zdrop, zlen_ztake by lia. change (zlen [NUL]) with 1. lia.
    + rewrite write_at_over; [done|lia].
  - rewrite write_at_ok by lia. cbn [mbind outcome_bind]. rewrite ztake_0. cbn [app].
    rewrite write_at_ok; [|lia|rewrite zlen_app, zlen_zdrop by lia; change (zlen [NUL]) with 1; lia]. cbn [mbind outcome_bind].
    rewrite (ztake_app_exact query) by done. rewrite (ztake_app_exact query) by done.
    destruct (mysql_store_result query) as [rows|]; [|done]. cbn [deref mbind outcome_bind]. rewrite fetch_spec. by destruct (forallb _ rows).
Qed.
End query.

Definition answer (sent : bytes) : option (list (list (option bytes))) := Some [[Some sent; Some (lit "1")]; [Some (lit "2"); Some []]].

Lemma executeQuery_spec_witness :
  zlen (cstr (lit "select")) < 2 ^ 32 /\
  executeQuery answer (lit "select") = Ret (lit "select", [[lit "select"; lit "1"]; [lit "2"; []]]).
Proof. split; [reflexivity|]. rewrite executeQuery_spec by reflexivity. reflexivity. Defined.
End Connection.
