(* ===== verification/LogStream.v ===== *)
(** Logger/LogStream: the fixed buffer of a log line and the conversion of the
    values written to it. *)
From S2P Require Import Prelude Cxx.
From Stdlib Require Import SpecFloat.

Definition kSmallBuffer : Z := 4096.
Definition kLargeBuffer : Z := 4096 * 1000.

(** ** [LogBuffer<SIZE>]: an array and the offset of [m_cur] in it *)
Module LogBuffer.

Record t := mk { m_data : bytes; m_cur : Z }.

(** The array is not initialised; nothing past [m_cur] is read. *)
Definition init (SIZE : Z) : t := mk (replicate (Z.to_nat SIZE) NUL) 0.

Definition avail (b : t) : Z := u64 (zlen (m_data b) - m_cur b).
Definition length (b : t) : Z := m_cur b.
Definition add (len : Z) (b : t) : t := mk (m_data b) (m_cur b + len).
Definition reset (b : t) : t := mk (m_data b) 0.
Definition bzero (b : t) : t := mk (replicate (List.length (m_data b)) NUL) (m_cur b).

(** [memcpy] to [m_cur]. *)
Definition poke (d : bytes) (b : t) : outcome t := v ← write_at (m_cur b) d (m_data b); Ret (mk v (m_cur b)).

Definition append (d : bytes) (b : t) : outcome t :=
  if avail b >? zlen d then b1 ← poke d b; Ret (add (zlen d) b1) else Ret b.

(** [data()] of [length()] characters. *)
Definition content (b : t) : bytes := ztake (m_cur b) (m_data b).

Record wf (b : t) : Prop := {
  wf_cur : 0 <= m_cur b;
  wf_room : m_cur b < zlen (m_data b);
  wf_size : zlen (m_data b) < 2 ^ 63
}.

Lemma avail_wf b : wf b -> avail b = zlen (m_data b) - m_cur b.
Proof. intros []. unfold avail. change (2 ^ 63) with 9223372036854775808 in *. by rewrite wrapu_small by range_lia. Qed.

Lemma zlen_logged b : wf b -> zlen (content b) = m_cur b.
Proof. intros []. unfold content. apply zlen_ztake. lia. Qed.

Lemma init_wf n : 0 < n < 2 ^ 63 -> wf (init n) /\ content (init n) = [].
Proof. intros Hn. split; [|done]. split; cbn [m_cur m_data init]; rewrite ?zlen_replicate; lia. Qed.

Lemma reset_wf b : wf b -> wf (reset b) /\ content (reset b) = [].
Proof. intros []. split; [split; cbn [m_cur m_data reset]; lia|done]. Qed.

(** Characters written at [m_cur], the first [len] of which [add] takes in. *)
Lemma poke_add d len b : wf b -> 0 <= len <= zlen d -> m_cur b + zlen d <= zlen (m_data b) -> m_cur b + len < zlen (m_data b) ->
  exists b1, poke d b = Ret b1 /\ wf (add len b1) /\ content (add len b1) = content b ++ ztake len d
    /\ zlen (m_data b1) = zlen (m_data b) /\ m_cur b1 = m_cur b.
Proof.
  intros [Hc Hr Hs] Hl Hd Hlt. pose proof (write_at_ok (m_cur b) d (m_data b) Hc Hd) as E.
  pose proof (write_at_length _ _ _ _ E) as Hz. exists (mk (ztake (m_cur b) (m_data b) ++ d ++ zdrop (m_cur b + zlen d) (m_data b)) (m_cur b)).
  unfold poke. rewrite E. split; [done|]. split; [split; cbn [m_cur m_data add]; rewrite ?Hz; lia|]. split; [|done].
  unfold content. cbn [m_cur m_data add]. unfold ztake. rewrite take_app. unfold zlen in *.
  rewrite length_take, Nat.min_l by lia. rewrite take_take, Nat.min_r by lia. f_equal.
  replace (Z.to_nat (m_cur b + len) - Z.to_nat (m_cur b))%nat with (Z.to_nat len) by lia. by rewrite take_app_le by lia.
Qed.

(** [append] takes all of its data or nothing. *)
Lemma append_whole d b : wf b ->
  exists b', append d b = Ret b' /\ wf b' /\ zlen (m_data b') = zlen (m_data b)
    /\ content b' = content b ++ (if zlen d <? zlen (m_data b) - m_cur b then d else [])
    /\ (zlen d < zlen (m_data b) - m_cur b -> m_cur b' = m_cur b + zlen d).
Proof.
  intros Hb. unfold append. rewrite avail_wf by done. rewrite Z.gtb_ltb. pose proof (zlen_nonneg d).
  destruct (Z.ltb_spec (zlen d) (zlen (m_data b) - m_cur b)) as [Hlt|Hge].
  - destruct (poke_add d (zlen d) b Hb) as (b1 & -> & Hwf & Hc & Hz & Hcur); [lia..|]. exists (add (zlen d) b1).
    rewrite Hc, ztake_all by lia. split; [done|]. split; [done|]. split; [done|]. split; [done|]. cbn. by rewrite Hcur.
  - exists b. rewrite app_nil_r. split; [done|]. split; [done|]. split; [done|]. split; [done|lia].
Qed.
End LogBuffer.

(** ** Numbers as text *)

(** [digits] with [zero] in its middle. *)
Definition digits : bytes := lit "9876543210123456789".
Definition zero_at (lsd : Z) : outcome ascii := deref (digits !! Z.to_nat (9 + lsd)).

(** The loop of [convert]: the digits from the last to the first; division of a
    signed [T] truncates. *)
Fixpoint convert_loop (fuel : nat) (i : Z) : outcome bytes :=
  match fuel with
  | O => Crash FuelExhausted
  | S fuel' =>
      let lsd := Z.rem i 10 in
      let i' := Z.quot i 10 in
      c ← zero_at lsd;
      if i' =? 0 then Ret [c] else cs ← convert_loop fuel' i'; Ret (c :: cs)
  end.

(** [convert<T>]: the text (a NUL follows it in the buffer). *)
Definition convert (value : Z) : outcome bytes :=
  p ← convert_loop (digits_fuel (Z.abs value)) value;
  Ret (rev (p ++ if value <? 0 then ["-"%char] else [])).

Definition digitsHex : bytes := lit "0123456789ABCDEF".
Fixpoint convertHex_loop (fuel : nat) (i : Z) : outcome bytes :=
  match fuel with
  | O => Crash FuelExhausted
  | S fuel' =>
      let lsd := i mod 16 in
      let i' := i / 16 in
      c ← deref (digitsHex !! Z.to_nat lsd);
      if i' =? 0 then Ret [c] else cs ← convertHex_loop fuel' i'; Ret (c :: cs)
  end.
(** A [uintptr_t] has at most 16 hexadecimal digits. *)
Definition convertHex (value : Z) : outcome bytes := p ← convertHex_loop 16 value; Ret (rev p).

(** ** [LogStream] *)
Module LogStream.

Definition kMaxNumericSize : Z := 32.

(** The overloads of [operator<<]. *)
Inductive value :=
| VBool (v : bool)
| VShort (v : Z) | VUShort (v : Z) | VInt (v : Z) | VUInt (v : Z)
| VLong (v : Z) | VULong (v : Z) | VLongLong (v : Z) | VULongLong (v : Z)
| VPtr (p : Z)
| VFloat (v : spec_float) | VDouble (v : spec_float)
| VChar (c : ascii)
| VCStr (str : option bytes)
| VString (s : bytes).

Section stream.
(** The characters [printf] gives for ["%.12g"]. *)
Context (format_g : spec_float -> bytes).
Abbreviation t := LogBuffer.t.

(** [convert] writes behind [current()]. *)
Definition formatInteger (v : Z) (b : t) : outcome t :=
  if LogBuffer.avail b >=? kMaxNumericSize
  then s ← convert v; b1 ← LogBuffer.poke (s ++ [NUL]) b; Ret (LogBuffer.add (zlen s) b1)
  else Ret b.

Definition put_ptr (p : Z) (b : t) : outcome t :=
  if LogBuffer.avail b >=? kMaxNumericSize
  then s ← convertHex p; b1 ← LogBuffer.poke (lit "0x" ++ s ++ [NUL]) b; Ret (LogBuffer.add (zlen s + 2) b1)
  else Ret b.

(** The length [snprintf] returns is the length of the whole text. *)
Definition put_double (v : spec_float) (b : t) : outcome t :=
  if LogBuffer.avail b >=? kMaxNumericSize
  then b1 ← LogBuffer.poke (snprintf kMaxNumericSize (format_g v) ++ [NUL]) b; Ret (LogBuffer.add (zlen (format_g v)) b1)
  else Ret b.

Definition put_cstr (str : option bytes) (b : t) : outcome t :=
  match str with Some s => LogBuffer.append (cstr s) b | None => LogBuffer.append (lit "(NULL)") b end.

Definition put_string (s : bytes) (b : t) : outcome t :=
  if decide (s = []) then LogBuffer.append (lit "(NULL)") b else LogBuffer.append s b.

Definition put (v : value) (b : t) : outcome t :=
  match v with
  | VBool v => LogBuffer.append (if v then lit "1" else lit "0") b
  | VShort v | VUShort v | VInt v | VUInt v | VLong v | VULong v | VLongLong v | VULongLong v => formatInteger v b
  | VPtr p => put_ptr p b
  | VFloat v | VDouble v => put_double v b
  | VChar c => LogBuffer.append [c] b
  | VCStr str => put_cstr str b
  | VString s => put_string s b
  end.

(** [s << v1 << v2 << ...] *)
Fixpoint puts (vs : list value) (b : t) : outcome t :=
  match vs with [] => Ret b | v :: vs' => b1 ← put v b; puts vs' b1 end.
End stream.
End LogStream.

(** ** The conversions are the decimal and hexadecimal texts *)

Lemma zero_at_digit d : 0 <= d < 10 -> zero_at d = Ret (digit_chr d) /\ zero_at (- d) = Ret (digit_chr d).
Proof.
  intros Hd. assert (d ∈ seqZ 0 10) as Hin by (apply elem_of_seqZ; lia). clear Hd. revert d Hin.
  apply Forall_forall. vm_compute. repeat constructor.
Qed.

Lemma zero_at_abs n i : i = n \/ i = - n -> 0 <= n < 10 -> zero_at i = Ret (digit_chr n).
Proof. intros [->| ->] Hn; apply (zero_at_digit n Hn). Qed.

Lemma quot_rem_abs n i : i = n \/ i = - n -> 0 <= n ->
  (Z.rem i 10 = n mod 10 \/ Z.rem i 10 = - (n mod 10)) /\ (Z.quot i 10 = n / 10 \/ Z.quot i 10 = - (n / 10)).
Proof.
  intros [->| ->] Hn.
  - rewrite Z.rem_mod_nonneg, Z.quot_div_nonneg by lia. by split; left.
  - rewrite Z.rem_opp_l, Z.quot_opp_l, Z.rem_mod_nonneg, Z.quot_div_nonneg by lia. by split; right.
Qed.

Lemma convert_loop_digits fuel n i : i = n \/ i = - n -> 0 <= n -> (Z.to_nat (Z.log2 n) < fuel)%nat ->
  convert_loop fuel i = Ret (rev_digits fuel n).
Proof.
  revert n i. induction fuel as [|fuel IH]; intros n i Hi Hn Hf; [lia|]. cbn [convert_loop rev_digits].
  destruct (quot_rem_abs n i Hi Hn) as [Hr Hq]. pose proof (Z.mod_pos_bound n 10 ltac:(lia)).
  rewrite (zero_at_abs (n mod 10) _ Hr) by lia. cbn [mbind outcome_bind].
  destruct (decide (n / 10 = 0)) as [E|E].
  - by rewrite (proj2 (Z.eqb_eq _ _)) by lia.
  - rewrite (proj2 (Z.eqb_neq _ _)) by lia. pose proof (Z.div_pos n 10 Hn ltac:(lia)).
    assert (10 <= n) by (destruct (decide (n < 10)); [rewrite Z.div_small in E; lia|lia]).
    pose proof (log2_div10 n ltac:(lia)). pose proof (Z.log2_nonneg (n / 10)).
    rewrite (IH (n / 10)) by (done || lia). done.
Qed.

Lemma convert_dec v : convert v = Ret (dec v).
Proof.
  unfold convert. rewrite (convert_loop_digits _ (Z.abs v)) by (unfold digits_fuel; lia).
  cbn [mbind outcome_bind]. unfold dec, udec. destruct (Z.ltb_spec v 0) as [Hv|Hv].
  - rewrite decide_True by done. rewrite rev_app_distr. by replace (Z.abs v) with (- v) by lia.
  - rewrite decide_False by lia. rewrite app_nil_r. by rewrite Z.abs_eq by lia.
Qed.

Lemma zlen_dec_64 v : - 2 ^ 63 <= v < 2 ^ 64 -> zlen (dec v) <= 20.
Proof.
  intros Hv. change (- 2 ^ 63) with (-9223372036854775808) in Hv. change (2 ^ 64) with 18446744073709551616 in Hv.
  unfold dec. destruct (decide (v < 0)).
  - rewrite zlen_cons. unfold zlen. pose proof (length_udec (- v) 19 ltac:(lia) ltac:(lia)). lia.
  - unfold zlen. pose proof (length_udec v 20 ltac:(lia) ltac:(lia)). lia.
Qed.

(** The value of hexadecimal text. *)
Definition hex_val (c : ascii) : Z := if isdigit c then digit_val c else ord c - 55.
Fixpoint hex_read (acc : Z) (l : bytes) : Z := match l with [] => acc | c :: l' => hex_read (acc * 16 + hex_val c) l' end.

Lemma hex_read_app acc l d : hex_read acc (l ++ d) = hex_read (hex_read acc l) d.
Proof. revert acc. induction l; intros acc; simpl; auto. Qed.

Lemma digitsHex_val d : 0 <= d < 16 -> exists c, digitsHex !! Z.to_nat d = Some c /\ hex_val c = d.
Proof.
  intros Hd. assert (forallb (fun d => match digitsHex !! Z.to_nat d with Some c => hex_val c =? d | None => false end) (seqZ 0 16) = true) as H
    by (vm_compute; reflexivity).
  rewrite forallb_forall in H. specialize (H d ltac:(apply list_elem_of_In, elem_of_seqZ; lia)).
  destruct (digitsHex !! Z.to_nat d) as [c|]; [|done]. exists c. split; [done|]. by apply Z.eqb_eq.
Qed.

Lemma convertHex_loop_spec fuel i : 0 <= i < 16 ^ Z.of_nat fuel -> (0 < fuel)%nat ->
  exists s, convertHex_loop fuel i = Ret s /\ hex_read 0 (rev s) = i /\ (length s <= fuel)%nat.
Proof.
  revert i. induction fuel as [|fuel IH]; intros i Hi Hf; [lia|]. cbn [convertHex_loop].
  pose proof (Z.mod_pos_bound i 16 ltac:(lia)). pose proof (Z.div_mod i 16 ltac:(lia)).
  destruct (digitsHex_val (i mod 16)) as (c & -> & Hc); [lia|]. cbn [deref mbind outcome_bind].
  destruct (Z.eqb_spec (i / 16) 0) as [E|E].
  - exists [c]. split; [done|]. cbn. lia.
  - rewrite Nat2Z.inj_succ, Z.pow_succ_r in Hi by lia. pose proof (Z.div_pos i 16 ltac:(lia) ltac:(lia)).
    pose proof (Z.div_lt_upper_bound i 16 (16 ^ Z.of_nat fuel) ltac:(lia) ltac:(lia)).
    destruct fuel as [|fuel]; [cbn in *; lia|].
    destruct (IH (i / 16)) as (s & -> & Hv & Hl); [lia|lia|]. exists (c :: s). cbn [mbind outcome_bind rev].
    split; [done|]. rewrite hex_read_app, Hv. cbn [hex_read length]. rewrite Hc. lia.
Qed.

Lemma convertHex_spec p : 0 <= p < 2 ^ 64 ->
  exists s, convertHex p = Ret s /\ hex_read 0 s = p /\ zlen s <= 16.
Proof.
  intros Hp. change (2 ^ 64) with (16 ^ Z.of_nat 16) in Hp.
  destruct (convertHex_loop_spec 16 p Hp) as (s & E & Hv & Hl); [lia|]. exists (rev s). unfold convertHex. rewrite E.
  split; [done|]. split; [done|]. unfold zlen. rewrite length_rev. lia.
Qed.

(** ** What a stream holds *)
Section stream_proofs.
Import LogStream.
Context (format_g : spec_float -> bytes).
(** 12 significant digits, a sign, a point and an exponent fit 19 characters. *)
Context (format_g_short : forall x, zlen (format_g x) <= 19).
Implicit Types b : LogBuffer.t.

(** The values of their types. *)
Definition in_range (v : value) : Prop :=
  match v with
  | VShort v => in_s 16 v | VUShort v => in_u 16 v | VInt v => in_s 32 v | VUInt v => in_u 32 v
  | VLong v | VLongLong v => in_s 64 v | VULong v | VULongLong v | VPtr v => in_u 64 v
  | _ => True
  end.

(** The text of a value. *)
Definition text (v : value) : bytes :=
  match v with
  | VBool v => if v then lit "1" else lit "0"
  | VShort v | VUShort v | VInt v | VUInt v | VLong v | VULong v | VLongLong v | VULongLong v => dec v
  | VPtr p => lit "0x" ++ match convertHex p with Ret s => s | Crash _ => [] end
  | VFloat v | VDouble v => format_g v
  | VChar c => [c]
  | VCStr (Some s) => cstr s
  | VCStr None => lit "(NULL)"
  | VString s => if decide (s = []) then lit "(NULL)" else s
  end.

(** Free space a value asks for: its length and one more, or 32. *)
Definition numeric (v : value) : bool :=
  match v with VBool _ | VChar _ | VCStr _ | VString _ => false | _ => true end.
Definition need (v : value) : Z := if numeric v then kMaxNumericSize else zlen (text v) + 1.

Definition room b : Z := zlen (LogBuffer.m_data b) - LogBuffer.m_cur b.

(** What one [<<] leaves. *)
Definition took v b b' : Prop :=
  LogBuffer.wf b' /\ zlen (LogBuffer.m_data b') = zlen (LogBuffer.m_data b)
  /\ LogBuffer.content b' = LogBuffer.content b ++ (if need v <=? room b then text v else []).

(** A text of at most 31 characters and a NUL, written by a conversion. *)
Lemma poke_text s l b : LogBuffer.wf b -> kMaxNumericSize <= room b -> zlen s <= 31 -> l = zlen s ->
  exists b1, LogBuffer.poke (s ++ [NUL]) b = Ret b1 /\ LogBuffer.wf (LogBuffer.add l b1)
    /\ zlen (LogBuffer.m_data (LogBuffer.add l b1)) = zlen (LogBuffer.m_data b)
    /\ LogBuffer.content (LogBuffer.add l b1) = LogBuffer.content b ++ s.
Proof.
  intros Hb Hr Hs ->. unfold room, kMaxNumericSize in Hr. pose proof (zlen_nonneg s).
  destruct (LogBuffer.poke_add (s ++ [NUL]) (zlen s) b Hb) as (b1 & E & Hwf & Hc & Hz & _);
    [rewrite ?zlen_app; change (zlen [NUL]) with 1; lia..|].
  exists b1. rewrite ztake_app_exact in Hc by done. by split_and!.
Qed.

Lemma avail_ge b : LogBuffer.wf b -> (LogBuffer.avail b >=? kMaxNumericSize) = (kMaxNumericSize <=? room b).
Proof. intros Hb. rewrite LogBuffer.avail_wf by done. unfold room. apply Z.geb_leb. Qed.

Lemma formatInteger_took v z b : LogBuffer.wf b -> numeric v = true -> text v = dec z -> - 2 ^ 63 <= z < 2 ^ 64 ->
  exists b', formatInteger z b = Ret b' /\ took v b b'.
Proof.
  intros Hb Hn Ht Hz. unfold formatInteger, took, need. rewrite avail_ge, Hn by done.
  destruct (Z.leb_spec kMaxNumericSize (room b)) as [Hr|Hr].
  - rewrite convert_dec. cbn [mbind outcome_bind]. pose proof (zlen_dec_64 z Hz).
    destruct (poke_text (dec z) (zlen (dec z)) b Hb Hr) as (b1 & -> & Hwf & Hd & Hc); [lia|done|].
    eexists. split; [done|]. rewrite Ht. by split_and!.
  - exists b. rewrite app_nil_r. by split_and!.
Qed.

Lemma append_took v b : LogBuffer.wf b -> numeric v = false -> exists b', LogBuffer.append (text v) b = Ret b' /\ took v b b'.
Proof.
  intros Hb Hn. destruct (LogBuffer.append_whole (text v) b Hb) as (b' & E & Hwf & Hz & Hc & _). exists b'.
  split; [done|]. unfold took, need, room. rewrite Hn. split; [done|]. split; [done|]. rewrite Hc. f_equal.
  destruct (Z.ltb_spec (zlen (text v)) (zlen (LogBuffer.m_data b) - LogBuffer.m_cur b)),
    (Z.leb_spec (zlen (text v) + 1) (zlen (LogBuffer.m_data b) - LogBuffer.m_cur b)); done || lia.
Qed.

Lemma ptr_took p b : LogBuffer.wf b -> in_u 64 p -> exists b', put_ptr p b = Ret b' /\ took (VPtr p) b b'.
Proof.
  intros Hb Hp. unfold put_ptr, took, need. rewrite avail_ge by done. cbn [numeric text].
  destruct (convertHex_spec p Hp) as (s & E & _ & Hs). rewrite E.
  destruct (Z.leb_spec kMaxNumericSize (room b)) as [Hr|Hr]; [|exists b; rewrite app_nil_r; by split_and!].
  cbn [mbind outcome_bind]. rewrite app_assoc.
  destruct (poke_text (lit "0x" ++ s) (zlen s + 2) b Hb Hr) as (b1 & -> & H);
    [rewrite ?zlen_app; change (zlen (lit "0x")) with 2; lia..|]. by eexists.
Qed.

Lemma double_took v x b : LogBuffer.wf b -> numeric v = true -> text v = format_g x ->
  exists b', put_double format_g x b = Ret b' /\ took v b b'.
Proof.
  intros Hb Hn Ht. unfold put_double, took, need. rewrite avail_ge, Hn, Ht by done. pose proof (format_g_short x).
  destruct (Z.leb_spec kMaxNumericSize (room b)) as [Hr|Hr]; [|exists b; rewrite app_nil_r; by split_and!].
  rewrite snprintf_fits by (unfold kMaxNumericSize; lia).
  destruct (poke_text (format_g x) (zlen (format_g x)) b Hb Hr) as (b1 & -> & H0); [lia|done|]. by eexists.
Qed.

Lemma put_took v b : LogBuffer.wf b -> in_range v -> exists b', put format_g v b = Ret b' /\ took v b b'.
Proof.
  intros Hb Hv. destruct v as [x|x|x|x|x|x|x|x|x|p|x|x|c|[s|]|s]; cbn [put in_range put_cstr] in *;
    try (apply (formatInteger_took _ x); [done|done|done|range_lia]).
  - by apply (append_took (VBool x)).
  - by apply ptr_took.
  - by apply double_took.
  - by apply double_took.
  - by apply (append_took (VChar c)).
  - by apply (append_took (VCStr (Some s))).
  - by apply (append_took (VCStr None)).
  - pose proof (append_took (VString s) b Hb eq_refl) as H. cbn [text] in H. unfold put_string. by case_decide.
Qed.

(** The texts of a line, each taken whole or left out. *)
Fixpoint line (n : Z) (vs : list value) : bytes :=
  match vs with
  | [] => []
  | v :: vs' => if need v <=? n then text v ++ line (n - zlen (text v)) vs' else line n vs'
  end.

Lemma took_room v b b' : LogBuffer.wf b -> took v b b' ->
  room b' = room b - zlen (if need v <=? room b then text v else []).
Proof.
  intros Hb (Hb' & Hz & Hc). unfold room. rewrite Hz, <- (LogBuffer.zlen_logged b') by done.
  rewrite Hc, zlen_app, LogBuffer.zlen_logged by done. unfold room. lia.
Qed.

(** A line needs no space it does not have; [<<] never writes outside the
    buffer. *)
Lemma puts_line vs b : LogBuffer.wf b -> Forall in_range vs ->
  exists b', puts format_g vs b = Ret b' /\ LogBuffer.wf b' /\ zlen (LogBuffer.m_data b') = zlen (LogBuffer.m_data b)
    /\ LogBuffer.content b' = LogBuffer.content b ++ line (room b) vs.
Proof.
  intros Hb H. revert b Hb. induction H as [|v vs Hv Hvs IH]; intros b Hb; cbn [puts line].
  - exists b. rewrite app_nil_r. by split_and!.
  - destruct (put_took v b Hb Hv) as (b1 & -> & Ht). pose proof (took_room v b b1 Hb Ht) as Hr. destruct Ht as (Hb1 & Hz1 & Hc1).
    destruct (IH b1 Hb1) as (b' & E & Hb' & Hz & Hc). exists b'. cbn [mbind outcome_bind]. rewrite E, Hz, Hc, Hc1, Hr.
    split; [done|]. split; [done|]. split; [done|]. rewrite <- app_assoc. f_equal.
    destruct (_ <=? _); [done|]. by rewrite zlen_nil, Z.sub_0_r.
Qed.

Lemma zlen_text v : in_range v -> zlen (text v) < need v.
Proof.
  intros Hv. unfold need, kMaxNumericSize. destruct v; cbn [numeric text in_range] in *; try lia;
    try (match goal with |- zlen (dec ?z) < _ => pose proof (zlen_dec_64 z ltac:(range_lia)); lia end);
    try (pose proof (format_g_short v); lia).
  destruct (convertHex_spec p Hv) as (s & -> & _ & Hs). rewrite zlen_app. change (zlen (lit "0x")) with 2. lia.
Qed.

(** All of them, when there is space. *)
Lemma line_all n vs : zlen (concat (map text vs)) + kMaxNumericSize <= n -> line n vs = concat (map text vs).
Proof.
  revert n. induction vs as [|v vs IH]; intros n Hn; [done|]. cbn [line map concat] in *. rewrite zlen_app in Hn.
  pose proof (zlen_nonneg (concat (map text vs))). pose proof (zlen_nonneg (text v)).
  rewrite (proj2 (Z.leb_le _ _)); [rewrite IH; [done|lia]|].
  unfold need, kMaxNumericSize in *. case_match; lia.
Qed.

Lemma line_app n vs ws : line n (vs ++ ws) = line n vs ++ line (n - zlen (line n vs)) ws.
Proof.
  revert n. induction vs as [|v vs IH]; intros n; cbn [line app]; [by rewrite zlen_nil, Z.sub_0_r|].
  case_match; [|done]. rewrite IH, <- app_assoc, zlen_app. do 3 f_equal. lia.
Qed.
End stream_proofs.

(** C22. What a line holds: writing any values of their types to a fresh
    [LogStream] stays inside the buffer of 4096 characters, prints every number
    in decimal or hexadecimal, and takes each value whole or leaves it out for
    want of space; when the texts leave 32 characters free, all are there. *)
Theorem stream_line (format_g : spec_float -> bytes) (vs : list LogStream.value)
    (Hg : forall x, zlen (format_g x) <= 19) (Hvs : Forall in_range vs) :
  exists b, LogStream.puts format_g vs (LogBuffer.init kSmallBuffer) = Ret b
    /\ LogBuffer.content b = line format_g kSmallBuffer vs /\ zlen (LogBuffer.content b) < kSmallBuffer
    /\ (zlen (concat (map (text format_g) vs)) + 32 <= kSmallBuffer ->
        LogBuffer.content b = concat (map (text format_g) vs)).
Proof.
  destruct (LogBuffer.init_wf kSmallBuffer) as [Hb Hc]; [by vm_compute|].
  destruct (puts_line format_g Hg vs _ Hb Hvs) as (b & E & Hwf & Hz & Hcb). exists b.
  assert (zlen (LogBuffer.m_data (LogBuffer.init kSmallBuffer)) = kSmallBuffer) as Hs by (by vm_compute).
  assert (room (LogBuffer.init kSmallBuffer) = kSmallBuffer) as Hr by (by vm_compute).
  rewrite Hr, Hc in Hcb. split; [done|]. split; [done|]. split.
  - rewrite LogBuffer.zlen_logged by done. destruct Hwf. lia.
  - intros H. rewrite Hcb. by apply line_all.
Qed.

Lemma stream_line_witness : exists b,
  LogStream.puts (fun _ => lit "1.5") [LogStream.VCStr (Some (lit "a=")); LogStream.VLong (- 2 ^ 63); LogStream.VPtr 48879;
    LogStream.VString []; LogStream.VDouble S754_nan] (LogBuffer.init kSmallBuffer) = Ret b
  /\ LogBuffer.content b = lit "a=-92233720368547758080xBEEF(NULL)1.5".
Proof.
  destruct (stream_line (fun _ => lit "1.5") [LogStream.VCStr (Some (lit "a=")); LogStream.VLong (- 2 ^ 63); LogStream.VPtr 48879;
    LogStream.VString []; LogStream.VDouble S754_nan]) as (b & E & Hc & _).
  - intros x. by vm_compute.
  - repeat constructor; by vm_compute.
  - exists b. split; [exact E|]. rewrite Hc. vm_compute. reflexivity.
Defined.

(** A string that fills the line is left out, and so is its end of line. *)
Lemma long_value_left_out : line (fun _ => []) kSmallBuffer
  [LogStream.VChar "x"; LogStream.VString (replicate 4095 "y"%char); LogStream.VChar "z"] = lit "xz".
Proof. vm_compute. reflexivity. Qed.
