(* ===== verification/Buffer.v ===== *)
(** common/Buffer.h and common/Buffer.cpp: the input and output buffer of a
    connection, a vector with a read and a write index.  The abstract state of
    a buffer is [content], its readable bytes; every operation is shown to be
    the corresponding queue operation on it. *)
From S2P Require Import Prelude Cxx.

(** What [readv] returns: an [errno], or the bytes read (none at end of
    file).  The system call itself is a parameter of [readFd]. *)
Inductive readv_result :=
| ReadError (errno : Z)
| ReadBytes (d : bytes).

Module Buffer.

Definition kCheapPrepend : Z := 8.
Definition kInitialSize : Z := 4096.
Definition kExtraBufferSize : Z := 10240.

(** [std::vector<char>::max_size()] *)
Definition max_size : Z := 2 ^ 63 - 1.

Record t := mk {
  m_buffer : bytes;
  m_readerIndex : Z;
  m_writerIndex : Z
}.

Definition size (b : t) : Z := zlen (m_buffer b).
Definition readableBytes (b : t) : Z := u64 (m_writerIndex b - m_readerIndex b).
Definition writableBytes (b : t) : Z := u64 (size b - m_writerIndex b).
Definition prependableBytes (b : t) : Z := m_readerIndex b.

(** A [char*] into the buffer is its offset from [begin()]. *)
Definition peek (b : t) : Z := m_readerIndex b.
Definition beginWrite (b : t) : Z := m_writerIndex b.

(** The characters of a range of the buffer. *)
Definition range (b : t) (i j : Z) : bytes := zslice i j (m_buffer b).

(** The readable bytes. *)
Definition content (b : t) : bytes := range b (peek b) (beginWrite b).

Definition init (initialSize : Z) : outcome t :=
  let n := u64 (kCheapPrepend + initialSize) in
  _ ← (if max_size <? n then Crash UncaughtException else Ret tt);
  let b := mk (replicate (Z.to_nat n) NUL) kCheapPrepend kCheapPrepend in
  _ ← cassert (readableBytes b =? 0);
  _ ← cassert (writableBytes b =? initialSize);
  _ ← cassert (prependableBytes b =? kCheapPrepend);
  Ret b.

Definition hasWritten (b : t) (len : Z) : outcome t :=
  _ ← cassert (len <=? writableBytes b);
  Ret (mk (m_buffer b) (m_readerIndex b) (u64 (m_writerIndex b + len))).

Definition findCRLF (b : t) : option Z :=
  let crlf := peek b + search_pos CRLF (range b (peek b) (beginWrite b)) in
  if crlf =? beginWrite b then None else Some crlf.

Definition unwrite (b : t) (len : Z) : outcome t :=
  _ ← cassert (len <=? readableBytes b);
  Ret (mk (m_buffer b) (m_readerIndex b) (u64 (m_writerIndex b - len))).

Definition retrieveAll (b : t) : t := mk (m_buffer b) kCheapPrepend kCheapPrepend.

Definition retrieve (b : t) (len : Z) : outcome t :=
  _ ← cassert (len <=? readableBytes b);
  if len <? readableBytes b
  then Ret (mk (m_buffer b) (u64 (m_readerIndex b + len)) (m_writerIndex b))
  else Ret (retrieveAll b).

Definition retrieveUntil (b : t) (end_ : Z) : outcome t :=
  _ ← cassert (peek b <=? end_);
  _ ← cassert (end_ <=? beginWrite b);
  retrieve b (end_ - peek b).

Definition retrieveAsString (b : t) (len : Z) : outcome (bytes * t) :=
  _ ← cassert (len <=? readableBytes b);
  let result := range b (peek b) (peek b + len) in
  b' ← retrieve b len;
  Ret (result, b').

(** [len] is an [int]; it is converted to [size_t] in the test and in the
    argument of [resize]. *)
Definition makeSpace (b : t) (len : Z) : outcome t :=
  if u64 (writableBytes b + prependableBytes b) <? u64 (u64 len + kCheapPrepend)
  then
    let n := u64 (m_writerIndex b + u64 len) in
    if max_size <? n then Crash UncaughtException
    else Ret (mk (resize NUL n (m_buffer b)) (m_readerIndex b) (m_writerIndex b))
  else
    _ ← cassert (kCheapPrepend <? m_readerIndex b);
    let readable := readableBytes b in
    v ← write_at kCheapPrepend (range b (m_readerIndex b) (m_writerIndex b)) (m_buffer b);
    let b' := mk v kCheapPrepend (u64 (kCheapPrepend + readable)) in
    _ ← cassert (readable =? readableBytes b');
    Ret b'.

(** [append(const char* data, size_t len)] with [len] the length of the
    data; the length becomes an [int] in the call of [makeSpace]. *)
Definition append (b : t) (data : bytes) : outcome t :=
  let len := zlen data in
  b1 ← (if writableBytes b <? len then makeSpace b (s32 len) else Ret b);
  _ ← cassert (len <=? writableBytes b1);
  v ← write_at (beginWrite b1) data (m_buffer b1);
  hasWritten (mk v (m_readerIndex b1) (m_writerIndex b1)) len.

(** [readFd]: [readv] gets the lengths of the [iovec]s in use and fills them
    in order; the result is the count ([-1] on error), the saved [errno] and
    the buffer. *)
Definition readFd (readv : list Z -> readv_result) (b : t) : outcome (Z * option Z * t) :=
  let writable := writableBytes b in
  let iov := if writable <? kExtraBufferSize then [writable; kExtraBufferSize] else [writable] in
  match readv iov with
  | ReadError e => Ret (-1, Some e, b)
  | ReadBytes d =>
      let n := zlen d in
      v ← write_at (m_writerIndex b) (ztake writable d) (m_buffer b);
      if n <=? writable
      then Ret (n, None, mk v (m_readerIndex b) (u64 (m_writerIndex b + n)))
      else
        b' ← append (mk v (m_readerIndex b) (zlen v)) (zdrop writable d);
        Ret (n, None, b')
  end.

(** ** The invariant of the header's picture *)
Record wf (b : t) : Prop := {
  wf_prepend : kCheapPrepend <= m_readerIndex b;
  wf_reader : m_readerIndex b <= m_writerIndex b;
  wf_writer : m_writerIndex b <= size b;
  wf_size : size b <= max_size
}.

(** ** Facts shared by the theorems *)
Ltac consts := unfold kCheapPrepend, kInitialSize, kExtraBufferSize, max_size in *;
  change (2 ^ 63) with 9223372036854775808 in *.
Ltac crush := unfold in_u, in_s, size in *; consts; pows; lia.

Lemma readable_wf b : wf b -> readableBytes b = m_writerIndex b - m_readerIndex b.
Proof. intros [????]. unfold readableBytes. apply wrapu_small. crush. Qed.

Lemma writable_wf b : wf b -> writableBytes b = size b - m_writerIndex b.
Proof. intros [????]. unfold writableBytes. apply wrapu_small. crush. Qed.

Lemma zlen_content b : wf b -> zlen (content b) = readableBytes b.
Proof.
  intros Hb. rewrite (readable_wf b Hb). destruct Hb.
  unfold content, range. rewrite zlen_zslice; unfold peek, beginWrite; crush.
Qed.

Lemma init_spec n : 0 <= n -> n + kCheapPrepend <= max_size ->
  exists b, init n = Ret b /\ wf b /\ content b = [] /\ writableBytes b = n
    /\ m_writerIndex b = kCheapPrepend.
Proof.
  intros Hn Hmax. unfold init. rewrite (wrapu_small 64) by crush.
  rewrite (proj2 (Z.ltb_ge _ _)) by crush. cbn [mbind outcome_bind].
  set (b := mk _ _ _).
  assert (wf b) as Hb.
  { split; unfold b, size; simpl; rewrite ?zlen_replicate by crush; crush. }
  rewrite (readable_wf b Hb), (writable_wf b Hb).
  assert (size b = n + kCheapPrepend) as Hs.
  { unfold b, size. simpl. rewrite zlen_replicate by crush. crush. }
  rewrite Hs. unfold b at 1 2 3 4; simpl.
  rewrite (proj2 (Z.eqb_eq _ _)) by crush.
  exists b. split; [done|]. split; [done|].
  rewrite (writable_wf b Hb), Hs. split; [by apply zslice_nil|]. split; [simpl; crush|done].
Qed.

(** [len] more bytes fit into a vector that may grow, or after a move. *)
Definition fits b len : Prop :=
  m_writerIndex b + len <= max_size \/ len + kCheapPrepend <= size b - m_writerIndex b + m_readerIndex b.

Lemma makeSpace_spec b len : wf b -> writableBytes b < len -> in_s 32 len -> fits b len ->
  exists b', makeSpace b len = Ret b' /\ wf b' /\ content b' = content b /\ len <= writableBytes b'
    /\ m_writerIndex b' <= m_writerIndex b.
Proof.
  intros Hb Hlen H32 Hmax. unfold fits in Hmax. pose proof (writable_wf b Hb) as Hw. rewrite Hw in Hlen.
  pose proof Hb as [Hp Hr Hwr Hs]. unfold makeSpace.
  rewrite Hw. unfold prependableBytes. unwrap_by crush.
  destruct (Z.ltb_spec (size b - m_writerIndex b + m_readerIndex b) (len + kCheapPrepend)) as [Hlt|Hge].
  - rewrite (proj2 (Z.ltb_ge _ _)) by crush. eexists. split; [done|].
    set (b' := mk _ _ _).
    assert (size b' = m_writerIndex b + len) as Hs'.
    { unfold b', size. simpl. rewrite zlen_resize; crush. }
    assert (wf b') as Hb'. { split; rewrite ?Hs'; simpl; crush. }
    split; [done|]. split.
    + unfold content, range, b', peek, beginWrite. simpl.
      rewrite resize_ge by crush. apply zslice_app_l; crush.
    + rewrite (writable_wf b' Hb'), Hs'. simpl. split; lia.
  - rewrite cassert_true by (apply Z.ltb_lt; crush). cbn [mbind outcome_bind].
    assert (zlen (range b (m_readerIndex b) (m_writerIndex b)) = m_writerIndex b - m_readerIndex b) as Hz.
    { unfold range. rewrite zlen_zslice; crush. }
    rewrite write_at_ok by (rewrite ?Hz; crush). cbn [mbind outcome_bind].
    rewrite (readable_wf b Hb). rewrite wrapu_small by crush.
    set (b' := mk _ _ _).
    assert (size b' = size b) as Hs'.
    { unfold b', size. simpl. rewrite !zlen_app, Hz, zlen_ztake, zlen_zdrop by crush. lia. }
    assert (wf b') as Hb'. { split; rewrite ?Hs'; simpl; crush. }
    rewrite (readable_wf b' Hb'). rewrite cassert_true by (apply Z.eqb_eq; simpl; crush).
    eexists. split; [done|]. split; [done|]. split.
    + unfold content, range at 1, b' at 2, peek, beginWrite. simpl m_buffer.
      unfold b'; simpl.
      replace kCheapPrepend with (zlen (ztake kCheapPrepend (m_buffer b))) at 1 2 by (rewrite zlen_ztake; crush).
      rewrite <- Hz at 1. apply zslice_app_mid.
    + rewrite (writable_wf b' Hb'), Hs'. simpl. split; crush.
Qed.

(** Appending adds the data at the end of the content: by growing the vector,
    by moving the content to the front, or in place. *)
Lemma append_fits b data : wf b -> zlen data < 2 ^ 31 -> fits b (zlen data) ->
  exists b', append b data = Ret b' /\ wf b' /\ content b' = content b ++ data
    /\ m_writerIndex b' <= m_writerIndex b + zlen data.
Proof.
  intros Hb Hd Hmax. change (2 ^ 31) with 2147483648 in Hd.
  pose proof (zlen_nonneg data) as Hd0. unfold append.
  assert (exists b1, (if writableBytes b <? zlen data then makeSpace b (s32 (zlen data)) else Ret b) = Ret b1
    /\ wf b1 /\ content b1 = content b /\ zlen data <= writableBytes b1
    /\ m_writerIndex b1 <= m_writerIndex b) as (b1 & -> & Hb1 & Hc & Hw & Hmono).
  { destruct (Z.ltb_spec (writableBytes b) (zlen data)); [|by eauto 6 using Z.le_refl].
    rewrite (wraps_small 32) by crush. apply makeSpace_spec; first [done|crush]. }
  cbn [mbind outcome_bind]. rewrite cassert_true by (apply Z.leb_le; lia). cbn [mbind outcome_bind].
  pose proof Hb1 as [Hp Hr Hwr Hs]. rewrite (writable_wf b1 Hb1) in Hw.
  unfold beginWrite. rewrite write_at_ok by crush. cbn [mbind outcome_bind].
  unfold hasWritten. set (b2 := mk _ (m_readerIndex b1) (m_writerIndex b1)).
  assert (size b2 = size b1) as Hs2.
  { unfold b2, size. simpl. rewrite !zlen_app, zlen_ztake, zlen_zdrop by crush. crush. }
  assert (wf b2) as Hb2. { split; rewrite ?Hs2; simpl; crush. }
  rewrite (writable_wf b2 Hb2), Hs2. rewrite cassert_true by (apply Z.leb_le; simpl; crush).
  cbn [mbind outcome_bind]. eexists. split; [done|].
  rewrite wrapu_small by (simpl; crush). split.
  { split; simpl; unfold size in *; simpl in *; crush. }
  split; [|simpl; lia].
  rewrite <- Hc. unfold content, range, peek, beginWrite. simpl.
  rewrite (zslice_split _ (m_writerIndex b1)) by (rewrite ?zlen_app, ?zlen_ztake, ?zlen_zdrop by crush; crush).
  f_equal.
  - rewrite zslice_app_l by (rewrite ?zlen_ztake by crush; crush).
    rewrite <- (zslice_0 (m_writerIndex b1)). rewrite zslice_zslice by crush. f_equal; lia.
  - rewrite <- (zlen_ztake (m_writerIndex b1) (m_buffer b1)) at 1 2 by crush. apply zslice_app_mid.
Qed.

Lemma append_spec b data : wf b -> zlen data < 2 ^ 31 -> m_writerIndex b + zlen data <= max_size ->
  exists b', append b data = Ret b' /\ wf b' /\ content b' = content b ++ data
    /\ m_writerIndex b' <= m_writerIndex b + zlen data.
Proof. intros Hb Hd Hmax. apply append_fits; [done|done|by left]. Qed.

(** An append that returns did that. *)
Lemma append_returns b data b' : wf b -> zlen data < 2 ^ 31 -> append b data = Ret b' ->
  wf b' /\ content b' = content b ++ data.
Proof.
  intros Hb Hd H. destruct (decide (fits b (zlen data))) as [Hf|Hf].
  { destruct (append_fits b data Hb Hd Hf) as (b2 & H2 & ? & ? & _). rewrite H2 in H. by injection H as <-. }
  change (2 ^ 31) with 2147483648 in Hd. pose proof (zlen_nonneg data). unfold fits in Hf.
  pose proof (writable_wf b Hb) as Hw. pose proof Hb as [Hp Hr Hwr Hs]. exfalso. revert H. unfold append.
  rewrite Hw, (proj2 (Z.ltb_lt _ _)) by crush. unfold makeSpace. rewrite Hw. unfold prependableBytes. unwrap_by crush.
  rewrite (proj2 (Z.ltb_lt _ _)) by crush. by rewrite (proj2 (Z.ltb_lt _ _)) by crush.
Qed.

Lemma content_drop b len : wf b -> 0 <= len < readableBytes b ->
  content (mk (m_buffer b) (m_readerIndex b + len) (m_writerIndex b)) = zdrop len (content b).
Proof.
  intros Hb Hlen. pose proof (zlen_content b Hb) as Hz.
  rewrite zdrop_zslice by lia. rewrite Hz.
  rewrite (readable_wf b Hb) in *. destruct Hb.
  unfold content, range, peek, beginWrite. simpl.
  rewrite zslice_zslice by crush. f_equal; lia.
Qed.

Lemma retrieveAll_spec b : wf b -> wf (retrieveAll b) /\ content (retrieveAll b) = [].
Proof.
  intros []. split; [split; simpl; unfold size in *; simpl; crush|].
  by apply zslice_nil.
Qed.

Lemma retrieve_spec b len : wf b -> 0 <= len <= readableBytes b ->
  exists b', retrieve b len = Ret b' /\ wf b' /\ content b' = zdrop len (content b)
    /\ m_writerIndex b' <= m_writerIndex b.
Proof.
  intros Hb Hlen. unfold retrieve. rewrite cassert_true by (apply Z.leb_le; lia).
  cbn [mbind outcome_bind]. pose proof (readable_wf b Hb) as Hr. pose proof Hb as [? ? ? ?].
  destruct (Z.ltb_spec len (readableBytes b)).
  - rewrite wrapu_small by crush. eexists. split; [done|]. split.
    + split; simpl; unfold size in *; simpl; crush.
    + split; [apply content_drop; [done|lia]|done].
  - eexists. split; [done|]. destruct (retrieveAll_spec b Hb) as [Hw Hc].
    split; [done|]. split; [|simpl; crush].
    rewrite Hc. symmetry. apply zlen_zero. rewrite zlen_zdrop; rewrite zlen_content; lia || done.
Qed.

Lemma retrieveUntil_spec b p : wf b -> peek b <= p <= beginWrite b ->
  exists b', retrieveUntil b p = Ret b' /\ wf b' /\ content b' = zdrop (p - peek b) (content b)
    /\ m_writerIndex b' <= m_writerIndex b.
Proof.
  intros Hb Hp. unfold retrieveUntil.
  rewrite !cassert_true by (apply Z.leb_le; lia). cbn [mbind outcome_bind].
  apply retrieve_spec; [done|]. rewrite (readable_wf b Hb). unfold peek, beginWrite in *. lia.
Qed.

Lemma range_content b i j : wf b -> peek b <= i <= j -> j <= beginWrite b ->
  range b i j = zslice (i - peek b) (j - peek b) (content b).
Proof.
  intros [] ??. unfold content, range, peek, beginWrite in *.
  rewrite zslice_zslice by crush. f_equal; lia.
Qed.

Lemma retrieveAsString_spec b len : wf b -> 0 <= len <= readableBytes b ->
  exists b', retrieveAsString b len = Ret (ztake len (content b), b') /\ wf b'
    /\ content b' = zdrop len (content b) /\ m_writerIndex b' <= m_writerIndex b.
Proof.
  intros Hb Hlen. unfold retrieveAsString. rewrite cassert_true by (apply Z.leb_le; lia).
  cbn [mbind outcome_bind]. destruct (retrieve_spec b len Hb Hlen) as (b' & -> & Hrest).
  cbn [mbind outcome_bind]. exists b'. split; [|done]. repeat f_equal.
  rewrite (readable_wf b Hb) in Hlen. rewrite range_content by (unfold peek, beginWrite; done || lia).
  rewrite Z.sub_diag, zslice_0. f_equal. lia.
Qed.

Lemma unwrite_spec b len : wf b -> 0 <= len <= readableBytes b ->
  exists b', unwrite b len = Ret b' /\ wf b'
    /\ content b' = ztake (readableBytes b - len) (content b) /\ m_writerIndex b' <= m_writerIndex b.
Proof.
  intros Hb Hlen. unfold unwrite. rewrite cassert_true by (apply Z.leb_le; lia).
  cbn [mbind outcome_bind]. rewrite (readable_wf b Hb) in *. pose proof Hb as [? ? ? ?].
  rewrite wrapu_small by crush. eexists. split; [done|]. split.
  - split; simpl; unfold size in *; simpl; crush.
  - split; [|simpl; lia]. unfold content, range, peek, beginWrite. simpl.
    rewrite <- zslice_0, zslice_zslice by crush. f_equal; lia.
Qed.

Lemma findCRLF_spec b : wf b ->
  findCRLF b = let n := search_pos CRLF (content b) in
    if n =? zlen (content b) then None else Some (peek b + n).
Proof.
  intros Hb. unfold findCRLF. fold (content b).
  rewrite (zlen_content b Hb), (readable_wf b Hb).
  unfold peek, beginWrite. simpl.
  destruct (Z.eqb_spec (search_pos CRLF (content b)) (m_writerIndex b - m_readerIndex b));
    destruct (Z.eqb_spec (m_readerIndex b + search_pos CRLF (content b)) (m_writerIndex b)); done || lia.
Qed.

(** The lengths [readFd] gives to [readv]. *)
Definition iovecs (b : t) : list Z :=
  if writableBytes b <? kExtraBufferSize then [writableBytes b; kExtraBufferSize] else [writableBytes b].

Lemma readFd_fits readv b d : wf b -> m_writerIndex b + zlen d <= max_size ->
  readv (iovecs b) = ReadBytes d ->
  zlen d <= writableBytes b + (if writableBytes b <? kExtraBufferSize then kExtraBufferSize else 0) ->
  exists b', readFd readv b = Ret (zlen d, None, b') /\ wf b' /\ content b' = content b ++ d
    /\ m_writerIndex b' <= m_writerIndex b + zlen d.
Proof.
  intros Hb Hmax Hread Hd. unfold iovecs in Hread.
  unfold readFd. rewrite Hread. pose proof (writable_wf b Hb) as Hw.
  pose proof (zlen_nonneg d) as Hd0. pose proof Hb as [Hp Hr Hwr Hs].
  set (w := writableBytes b) in *.
  assert (zlen (ztake w d) = Z.min w (zlen d)) as Ht.
  { destruct (decide (w <= zlen d)); [rewrite zlen_ztake by crush; lia|].
    rewrite ztake_all by lia. lia. }
  rewrite write_at_ok by crush. cbn [mbind outcome_bind]. rewrite Ht.
  set (v := _ ++ _ ++ _).
  assert (zlen v = size b) as Hv.
  { unfold v. rewrite !zlen_app, Ht, zlen_ztake, zlen_zdrop by crush. crush. }
  assert (forall j, j = m_writerIndex b + Z.min w (zlen d) ->
    zslice (m_readerIndex b) j v = content b ++ ztake w d) as Hcont.
  { intros j ->. rewrite (zslice_split _ (m_writerIndex b)) by crush. f_equal.
    - unfold v. rewrite zslice_app_l by (rewrite ?zlen_ztake by crush; crush).
      rewrite <- (zslice_0 (m_writerIndex b)), zslice_zslice by crush.
      unfold content, range, peek, beginWrite. f_equal; lia.
    - unfold v. rewrite <- Ht. rewrite <- (zlen_ztake (m_writerIndex b) (m_buffer b)) at 1 2 by crush.
      apply zslice_app_mid. }
  destruct (Z.leb_spec (zlen d) w) as [Hle|Hgt].
  - rewrite wrapu_small by crush. eexists. split; [done|]. split.
    + split; unfold size; simpl; rewrite ?Hv; crush.
    + split; [|simpl; lia]. unfold content at 1, range, peek, beginWrite. simpl. rewrite Hcont by lia.
      by rewrite ztake_all.
  - set (b1 := mk v _ _).
    assert (wf b1) as Hb1. { split; unfold b1, size; simpl; rewrite ?Hv; crush. }
    destruct (append_spec b1 (zdrop w d) Hb1) as (b' & -> & Hb' & Hc & Hw').
    { rewrite zlen_zdrop by crush. change (2 ^ 31) with 2147483648. case_match; crush. }
    { unfold b1. simpl. rewrite Hv, zlen_zdrop by crush. case_match; crush. }
    cbn [mbind outcome_bind]. exists b'. split; [done|]. split; [done|]. rewrite Hc.
    split; [|unfold b1 in Hw'; simpl in Hw'; rewrite Hv, zlen_zdrop in Hw' by crush; lia].
    unfold content at 1, range, peek, beginWrite, b1. simpl. rewrite Hv.
    rewrite Hcont by crush. by rewrite <- app_assoc, ztake_zdrop.
Qed.

Lemma readFd_spec readv b d : wf b -> size b <= 2 ^ 62 ->
  readv (iovecs b) = ReadBytes d ->
  zlen d <= writableBytes b + (if writableBytes b <? kExtraBufferSize then kExtraBufferSize else 0) ->
  exists b', readFd readv b = Ret (zlen d, None, b') /\ wf b' /\ content b' = content b ++ d.
Proof.
  intros Hb H62 Hread Hd. change (2 ^ 62) with 4611686018427387904 in H62.
  pose proof (writable_wf b Hb) as Hw. pose proof Hb as [Hp Hr Hwr Hs].
  destruct (readFd_fits readv b d Hb) as (b' & ? & ? & ? & _); [|done|done|by exists b'].
  rewrite Hw in Hd. case_match; crush.
Qed.

(** *** The growth of the vector *)
Lemma makeSpace_grows b len b' : wf b -> 0 <= len < 2 ^ 31 -> makeSpace b len = Ret b' -> size b' <= size b + len.
Proof.
  intros Hb Hlen. change (2 ^ 31) with 2147483648 in Hlen. pose proof Hb as [Hp Hr Hwr Hs].
  unfold makeSpace. unwrap_by crush. destruct (_ <? _).
  - destruct (_ <? _); [done|]. intros [= <-]. unfold size at 1. cbn [m_buffer]. rewrite zlen_resize by crush. lia.
  - intros (x & _ & (v & Hv%write_at_length & (y & _ & [= <-])%bind_Ret_inv)%bind_Ret_inv)%bind_Ret_inv.
    unfold size in *. cbn [m_buffer]. lia.
Qed.

Lemma append_grows b d b' : wf b -> zlen d < 2 ^ 31 -> append b d = Ret b' -> size b' <= size b + zlen d.
Proof.
  intros Hb Hd. pose proof (zlen_nonneg d). change (2 ^ 31) with 2147483648 in Hd. unfold append.
  intros (b1 & H1 & (x & _ & (v & Hv%write_at_length & (y & _ & [= <-])%bind_Ret_inv)%bind_Ret_inv)%bind_Ret_inv)%bind_Ret_inv.
  unfold size at 1. cbn [m_buffer]. rewrite Hv. fold (size b1). destruct (_ <? _); [|injection H1 as <-; lia].
  rewrite (wraps_small 32) in H1 by crush. apply makeSpace_grows in H1; [done|done|crush].
Qed.

Lemma readFd_grows readv b n e b' : wf b -> (forall iov d, readv iov = ReadBytes d -> zlen d < 2 ^ 31) ->
  readFd readv b = Ret (n, e, b') -> size b' <= size b + Z.max 0 n.
Proof.
  intros Hb Hlen. unfold readFd. set (iov := if _ <? _ then _ else _).
  destruct (readv iov) as [err|d] eqn:Hr; [intros [= <- <- <-]; lia|]. apply Hlen in Hr. pose proof (zlen_nonneg d).
  intros (v & Hv%write_at_length & H1)%bind_Ret_inv. revert H1. destruct (_ <=? _); intros H1.
  - injection H1 as <- <- <-. unfold size in *. cbn [m_buffer]. lia.
  - apply bind_Ret_inv in H1 as (b1 & H1 & [= <- <- <-]). pose proof Hb as [Hp Hrd Hwr Hs].
    assert (zlen (zdrop (writableBytes b) d) <= zlen d) by (unfold zlen, zdrop; rewrite length_drop; lia).
    apply append_grows in H1; [unfold size in *; cbn [m_buffer] in *; lia| |lia].
    split; unfold size in *; cbn [m_buffer m_readerIndex m_writerIndex]; rewrite ?Hv; lia.
Qed.

(** The interface the response writer and the connections use. *)
#[global] Program Instance Buffer_sink : ByteSink t := {
  sink_append := append;
  sink_content := content;
  sink_room b n := wf b /\ n < 2 ^ 31 /\ m_writerIndex b + n <= max_size
}.
Next Obligation.
  intros b n d (Hb & Hn & Hm) Hd. simpl.
  destruct (append_spec b d Hb) as (b' & -> & ? & ? & ?); [lia..|].
  exists b'. do 3 (split; [done|]). pose proof (zlen_nonneg d). lia.
Qed.

(** ** The buffer as a queue of bytes

    The operations of a client, run on a buffer and on the abstract queue. A
    pointer into the buffer is passed and returned as its distance from [peek];
    [OpFill] writes at [beginWrite] and calls [hasWritten] when the writable
    bytes suffice and appends otherwise, [OpOverrun] calls [hasWritten] with
    [n + 1] more than the writable bytes; [OpReadFd] is [readFd] of a descriptor
    that has these bytes to give, or fails. *)
Inductive op :=
| OpAppend (d : bytes)
| OpRetrieve (n : Z)
| OpRetrieveUntil (n : Z)
| OpRetrieveAll
| OpRetrieveAsString (n : Z)
| OpUnwrite (n : Z)
| OpFill (d : bytes)
| OpOverrun (n : Z)
| OpReadFd (r : readv_result)
| OpFindCRLF
| OpReadableBytes
| OpContent.

(** What an operation returns. *)
Inductive reply :=
| RVoid
| RString (d : bytes)
| RLength (n : Z)
| RPointer (p : option Z)
| RRead (n : Z) (savedErrno : option Z).

(** A kernel that has just this to deliver. *)
Definition delivering (r : readv_result) (iov : list Z) : readv_result :=
  match r with ReadError e => ReadError e | ReadBytes d => ReadBytes (ztake (foldr Z.add 0 iov) d) end.

Definition fill (b : t) (d : bytes) : outcome t :=
  if zlen d <=? writableBytes b
  then v ← write_at (beginWrite b) d (m_buffer b); hasWritten (mk v (m_readerIndex b) (m_writerIndex b)) (zlen d)
  else append b d.

(** The reply and the new state. *)
Definition exec (b : t) (o : op) : outcome (reply * t) :=
  match o with
  | OpAppend d => b' ← append b d; Ret (RVoid, b')
  | OpRetrieve n => b' ← retrieve b n; Ret (RVoid, b')
  | OpRetrieveUntil n => b' ← retrieveUntil b (peek b + n); Ret (RVoid, b')
  | OpRetrieveAll => Ret (RVoid, retrieveAll b)
  | OpRetrieveAsString n => '(d, b') ← retrieveAsString b n; Ret (RString d, b')
  | OpUnwrite n => b' ← unwrite b n; Ret (RVoid, b')
  | OpFill d => b' ← fill b d; Ret (RVoid, b')
  | OpOverrun n => b' ← hasWritten b (writableBytes b + 1 + n); Ret (RVoid, b')
  | OpReadFd r => '(n, e, b') ← readFd (delivering r) b; Ret (RRead n e, b')
  | OpFindCRLF => Ret (RPointer (option_map (fun p => p - peek b) (findCRLF b)), b)
  | OpReadableBytes => Ret (RLength (readableBytes b), b)
  | OpContent => Ret (RString (range b (peek b) (beginWrite b)), b)
  end.

Definition spec (q : bytes) (o : op) : outcome (reply * bytes) :=
  match o with
  | OpAppend d | OpFill d => Ret (RVoid, q ++ d)
  | OpRetrieve n => _ ← cassert (n <=? zlen q); Ret (RVoid, zdrop n q)
  | OpRetrieveUntil n => _ ← cassert ((0 <=? n) && (n <=? zlen q)); Ret (RVoid, zdrop n q)
  | OpRetrieveAll => Ret (RVoid, [])
  | OpRetrieveAsString n => _ ← cassert (n <=? zlen q); Ret (RString (ztake n q), zdrop n q)
  | OpUnwrite n => _ ← cassert (n <=? zlen q); Ret (RVoid, ztake (zlen q - n) q)
  | OpOverrun _ => Crash AssertFailure
  | OpReadFd (ReadError e) => Ret (RRead (-1) (Some e), q)
  | OpReadFd (ReadBytes d) => Ret (RRead (zlen d) None, q ++ d)
  | OpFindCRLF => Ret (RPointer (if search_pos CRLF q =? zlen q then None else Some (search_pos CRLF q)), q)
  | OpReadableBytes => Ret (RLength (zlen q), q)
  | OpContent => Ret (RString q, q)
  end.

(** A run collects the replies. *)
Fixpoint run {S} (step : S -> op -> outcome (reply * S)) (s : S) (ops : list op) : outcome (list reply * S) :=
  match ops with
  | [] => Ret ([], s)
  | o :: ops' => '(r, s') ← step s o; '(rs, s'') ← run step s' ops'; Ret (r :: rs, s'')
  end.

(** Lengths are [size_t] values, added data is shorter than [INT_MAX], and a
    read gives no more than the stack buffer takes. *)
Definition op_ok (o : op) : Prop :=
  match o with
  | OpAppend d | OpFill d => zlen d < 2 ^ 31
  | OpRetrieve n | OpRetrieveAsString n | OpUnwrite n | OpOverrun n => 0 <= n
  | OpReadFd (ReadBytes d) => zlen d <= kExtraBufferSize
  | _ => True
  end.

Definition growth (o : op) : Z :=
  match o with OpAppend d | OpFill d | OpReadFd (ReadBytes d) => zlen d | _ => 0 end.
Fixpoint total_growth (ops : list op) : Z :=
  match ops with [] => 0 | o :: ops' => growth o + total_growth ops' end.

Lemma growth_nonneg o : 0 <= growth o.
Proof. destruct o as [| | | | | |d| |[e|d]| | |]; cbn; try done; apply zlen_nonneg. Qed.

Lemma total_growth_nonneg ops : 0 <= total_growth ops.
Proof. induction ops as [|o ops IH]; simpl; [done|]. pose proof (growth_nonneg o). lia. Qed.

(** Writing in place is appending without growing. *)
Lemma fill_append b d : wf b -> fill b d = append b d.
Proof.
  intros Hb. unfold fill, append. pose proof (zlen_nonneg d). destruct (Z.leb_spec (zlen d) (writableBytes b)) as [Hd|Hd]; [|done].
  rewrite (proj2 (Z.ltb_ge _ _)) by done. cbn [mbind outcome_bind]. by rewrite cassert_true by (by apply Z.leb_le).
Qed.

Lemma readFd_delivering b r : wf b -> match r with ReadBytes d => zlen d <= kExtraBufferSize | _ => True end ->
  m_writerIndex b + match r with ReadBytes d => zlen d | _ => 0 end <= max_size ->
  match r with
  | ReadError e => readFd (delivering r) b = Ret (-1, Some e, b)
  | ReadBytes d => exists b', readFd (delivering r) b = Ret (zlen d, None, b') /\ wf b' /\ content b' = content b ++ d
      /\ m_writerIndex b' <= m_writerIndex b + zlen d
  end.
Proof.
  intros Hb Hr Hmax. destruct r as [e|d]; [done|]. pose proof (writable_wf b Hb) as Hw. pose proof Hb as [? ? ? ?].
  pose proof (zlen_nonneg d). apply readFd_fits; [done|done| |case_match; lia].
  unfold delivering, iovecs. f_equal. apply ztake_all.
  destruct (Z.ltb_spec (writableBytes b) kExtraBufferSize); cbn [foldr]; lia.
Qed.

Lemma exec_spec b o : wf b -> op_ok o -> m_writerIndex b + growth o <= max_size ->
  match spec (content b) o with
  | Ret (r, q) => exists b', exec b o = Ret (r, b') /\ wf b' /\ content b' = q
      /\ m_writerIndex b' <= m_writerIndex b + growth o
  | Crash e => exec b o = Crash e
  end.
Proof.
  intros Hb Hok Hg. pose proof (zlen_content b Hb) as Hz. pose proof (zlen_nonneg (content b)) as Hz0.
  destruct o as [d|n|n| |n|n|d|n|r| | |]; cbn [exec spec growth op_ok] in *; rewrite ?Hz in *.
  - destruct (append_spec b d Hb Hok Hg) as (b' & -> & ?). by exists b'.
  - destruct (Z.leb_spec n (readableBytes b)).
    + destruct (retrieve_spec b n Hb) as (b' & -> & ? & ? & ?); [lia|].
      exists b'. do 3 (split; [done|]). lia.
    + unfold retrieve. by rewrite (proj2 (Z.leb_gt _ _)) by lia.
  - pose proof (readable_wf b Hb) as Hr. destruct (Z.leb_spec 0 n); [destruct (Z.leb_spec n (readableBytes b))|]; cbn [andb].
    + destruct (retrieveUntil_spec b (peek b + n) Hb) as (b' & -> & ? & Hc & ?); [unfold peek, beginWrite; lia|].
      exists b'. do 2 (split; [done|]). split; [rewrite Hc; f_equal; lia|lia].
    + unfold retrieveUntil. rewrite (proj2 (Z.leb_le (peek b) (peek b + n))) by lia. unfold peek, beginWrite.
      by rewrite (proj2 (Z.leb_gt _ (m_writerIndex b))) by lia.
    + unfold retrieveUntil. by rewrite (proj2 (Z.leb_gt (peek b) _)) by lia.
  - destruct (retrieveAll_spec b Hb). exists (retrieveAll b). destruct Hb.
    do 3 (split; [done|]). simpl. lia.
  - destruct (Z.leb_spec n (readableBytes b)).
    + destruct (retrieveAsString_spec b n Hb) as (b' & -> & ? & ? & ?); [lia|].
      exists b'. do 3 (split; [done|]). lia.
    + unfold retrieveAsString. by rewrite (proj2 (Z.leb_gt _ _)) by lia.
  - destruct (Z.leb_spec n (readableBytes b)).
    + destruct (unwrite_spec b n Hb) as (b' & -> & ? & ? & ?); [lia|].
      exists b'. do 3 (split; [done|]). lia.
    + unfold unwrite. by rewrite (proj2 (Z.leb_gt _ _)) by lia.
  - rewrite fill_append by done. destruct (append_spec b d Hb Hok Hg) as (b' & -> & ?). by exists b'.
  - unfold hasWritten. by rewrite (proj2 (Z.leb_gt _ _)) by lia.
  - pose proof (readFd_delivering b r Hb) as Hr. destruct r as [e|d].
    + rewrite Hr by (done || lia). exists b. do 3 (split; [done|]). lia.
    + destruct Hr as (b' & -> & ? & ? & ?); [done|done|]. by exists b'.
  - rewrite (findCRLF_spec b Hb). cbv zeta. rewrite Hz. exists b. split; [|split; [done|split; [done|lia]]].
    destruct (_ =? _); cbn [option_map]; [done|]. do 4 f_equal. lia.
  - exists b. do 3 (split; [done|]). lia.
  - exists b. do 3 (split; [done|]). lia.
Qed.

(** C6. A buffer is a byte queue: any sequence of [append], [retrieve],
    [retrieveUntil], [retrieveAll], [retrieveAsString], [unwrite], [hasWritten]
    after writing in place, [readFd] of at most the 10240 bytes of its stack
    buffer, [findCRLF], [readableBytes] and reading from [peek], on a well-formed
    buffer, gives the replies and the content of the same sequence on the
    abstract queue, keeps the buffer well formed, and ends in an assertion
    failure exactly when the queue is asked for more bytes than it has, a
    pointer lies outside of the readable bytes or [hasWritten] is told more
    than the writable ones. *)
Theorem buffer_refines_queue (b : t) (ops : list op)
    (Hb : wf b) (Hops : Forall op_ok ops)
    (Hsize : m_writerIndex b + total_growth ops <= max_size) :
  match run spec (content b) ops with
  | Ret (rs, q) => exists b', run exec b ops = Ret (rs, b') /\ wf b' /\ content b' = q
  | Crash e => run exec b ops = Crash e
  end.
Proof.
  revert b Hb Hsize. induction Hops as [|o ops Ho Hops IH]; intros b Hb Hsize; cbn [run total_growth] in *; [by exists b|].
  pose proof (total_growth_nonneg ops).
  pose proof (exec_spec b o Hb Ho ltac:(lia)) as Hstep.
  destruct (spec (content b) o) as [[r q]|e]; cbn [mbind outcome_bind]; [|by rewrite Hstep].
  destruct Hstep as (b' & -> & Hb' & <- & Hw). cbn [mbind outcome_bind].
  specialize (IH b' Hb' ltac:(lia)).
  destruct (run spec (content b') ops) as [[rs q]|e]; cbn [mbind outcome_bind].
  - destruct IH as (b'' & -> & ? & ?). by exists b''.
  - by rewrite IH.
Qed.

(** A full small buffer: eight bytes of room, all written. *)
Definition b0 : t := mk (replicate 16 "x"%char) 8 16.
Definition ops0 : list op :=
  [OpRetrieve 5; OpAppend (lit "abcdefg"); OpRetrieveAsString 4; OpUnwrite 2; OpFill (lit "z"); OpReadFd (ReadBytes (lit "!" ++ CRLF));
   OpFindCRLF; OpRetrieveUntil 6; OpReadableBytes; OpContent].

Lemma buffer_refines_queue_witness :
  exists b', run exec b0 ops0
    = Ret ([RVoid; RVoid; RString (lit "xxxa"); RVoid; RVoid; RRead 3 None; RPointer (Some 6); RVoid; RLength 2; RString CRLF], b')
    /\ wf b' /\ content b' = CRLF.
Proof.
  apply (buffer_refines_queue b0 ops0).
  - split; vm_compute; congruence.
  - repeat constructor; vm_compute; congruence.
  - vm_compute. congruence.
Defined.

(** C32. [readFd] makes one call of [readv], with the writable area and, when
    that is smaller, the stack buffer: it appends to the content exactly the
    bytes that call delivered, whether they fit in the writable area, spill over
    to the stack buffer, or fill both, and returns their number; when the call
    fails it leaves the buffer as it was and reports its [errno].  The
    hypothesis is what readv(2) documents: it never delivers more than the sum
    of the [iovec] lengths. *)
Theorem readFd_correct (readv : list Z -> readv_result) (b : t)
    (Hb : wf b) (Hsize : size b <= 2 ^ 62)
    (Hreadv : forall iov d, Forall (fun n => 0 <= n) iov -> readv iov = ReadBytes d -> zlen d <= foldr Z.add 0 iov) :
  let w := writableBytes b in
  match readv (if w <? kExtraBufferSize then [w; kExtraBufferSize] else [w]) with
  | ReadError errno => readFd readv b = Ret (-1, Some errno, b)
  | ReadBytes d => exists b', readFd readv b = Ret (zlen d, None, b') /\ wf b' /\ content b' = content b ++ d
  end.
Proof.
  cbv zeta. fold (iovecs b). destruct (readv (iovecs b)) as [errno|d] eqn:Hr.
  - unfold readFd. fold (iovecs b). by rewrite Hr.
  - apply readFd_spec; [done|done|done|].
    pose proof (writable_wf b Hb) as Hw. destruct Hb. apply Hreadv in Hr.
    + unfold iovecs in Hr. case_match; simpl in Hr; lia.
    + unfold iovecs. case_match; repeat constructor; unfold kExtraBufferSize; lia.
Qed.

(** A kernel that delivers the first bytes of a fixed stream. *)
Definition stream_readv (s : bytes) : list Z -> readv_result := delivering (ReadBytes s).

Lemma stream_readv_bound s iov d : Forall (fun n => 0 <= n) iov ->
  stream_readv s iov = ReadBytes d -> zlen d <= foldr Z.add 0 iov.
Proof.
  intros Hiov [= <-].
  assert (0 <= foldr Z.add 0 iov) by (induction Hiov; simpl; lia).
  destruct (decide (foldr Z.add 0 iov <= zlen s)).
  - rewrite zlen_ztake; lia.
  - rewrite ztake_all; lia.
Qed.

Lemma readFd_correct_witness :
  exists b', readFd (stream_readv (lit "0123456789")) b0 = Ret (10, None, b') /\ wf b' /\ content b' = lit "xxxxxxxx0123456789".
Proof.
  refine (readFd_correct (stream_readv (lit "0123456789")) b0 _ _ (stream_readv_bound _)).
  - split; vm_compute; congruence.
  - vm_compute. congruence.
Defined.
End Buffer.
