(* ===== verification/HttpRequest.v ===== *)
(** Http/HttpRequest.h: a parsed request.  A [const char*] range is the list
    of its characters. *)
From S2P Require Import Prelude Cxx Ordered.

Module HttpRequest.

Inductive Method := kInvalid | kGet | kPost | kHead | kPut | kDelete.
Inductive Version := kUnknown | kHttp10 | kHttp11.

#[global] Instance Method_eq_dec : EqDecision Method.
Proof. solve_decision. Defined.
#[global] Instance Version_eq_dec : EqDecision Version.
Proof. solve_decision. Defined.

(** [receiveTime_] is the microseconds of the [TimeStamp]. *)
Record t := mk {
  method_ : Method;
  version_ : Version;
  path_ : bytes;
  query_ : bytes;
  receiveTime_ : Z;
  headers_ : smap bytes
}.

Definition init : t := mk kInvalid kUnknown [] [] 0 [].

Definition setVersion (r : t) (v : Version) : t :=
  mk (method_ r) v (path_ r) (query_ r) (receiveTime_ r) (headers_ r).

Definition getVersion (r : t) : Version := version_ r.

(** The method named by a string. *)
Definition method_of (m : bytes) : Method :=
  if decide (m = lit "GET") then kGet
  else if decide (m = lit "POST") then kPost
  else if decide (m = lit "HEAD") then kHead
  else if decide (m = lit "PUT") then kPut
  else if decide (m = lit "DELETE") then kDelete
  else kInvalid.

Definition setMethod (r : t) (m : bytes) : outcome (bool * t) :=
  _ ← cassert (bool_decide (method_ r = kInvalid));
  let r' := mk (method_of m) (version_ r) (path_ r) (query_ r) (receiveTime_ r) (headers_ r) in
  Ret (negb (bool_decide (method_ r' = kInvalid)), r').

Definition methodString (r : t) : bytes :=
  match method_ r with
  | kGet => lit "GET"
  | kPost => lit "POST"
  | kHead => lit "HEAD"
  | kPut => lit "PUT"
  | kDelete => lit "DELETE"
  | _ => lit "UNKNOWN"
  end.

Definition setPath (r : t) (p : bytes) : t :=
  mk (method_ r) (version_ r) p (query_ r) (receiveTime_ r) (headers_ r).
Definition setQuery (r : t) (q : bytes) : t :=
  mk (method_ r) (version_ r) (path_ r) q (receiveTime_ r) (headers_ r).
Definition setReceiveTime (r : t) (time : Z) : t :=
  mk (method_ r) (version_ r) (path_ r) (query_ r) time (headers_ r).

(** The second loop of [addHeader]: drop white space at the end. *)
Definition trim_end (v : bytes) : bytes := rev (skip_space (rev v)).

(** [addHeader(start, colon, end)]: [field] is [start, colon), [rest] is
    [colon, end). *)
Definition addHeader (r : t) (field rest : bytes) : t :=
  let value := trim_end (skip_space (zdrop 1 rest)) in
  mk (method_ r) (version_ r) (path_ r) (query_ r) (receiveTime_ r) (map_set field value (headers_ r)).

Definition getHeader (r : t) (field : bytes) : bytes :=
  match map_get field (headers_ r) with Some v => v | None => [] end.

Definition swap (r that : t) : t * t := (that, r).

(** ** Lemmas *)
Lemma method_of_string r m r' : setMethod r m = Ret (true, r') -> methodString r' = m.
Proof.
  unfold setMethod, cassert. destruct (bool_decide (method_ r = kInvalid)); simpl; [|done].
  intros [= Hm <-].
  unfold methodString, method_of in *. simpl in *.
  repeat case_decide; subst; done.
Qed.

Lemma skip_space_head (l : bytes) : match skip_space l with c :: _ => isspace c = false | [] => True end.
Proof. induction l as [|c l IH]; simpl; [done|]. destruct (isspace c) eqn:E; [exact IH|exact E]. Qed.

Lemma skip_space_id (l : bytes) :
  match l with c :: _ => isspace c = false | [] => True end -> skip_space l = l.
Proof. destruct l as [|c l]; simpl; [done|]. by intros ->. Qed.

(** A value with no white space at either end. *)
Definition trimmed (v : bytes) : Prop :=
  match v with c :: _ => isspace c = false | [] => True end /\
  match rev v with c :: _ => isspace c = false | [] => True end.

Lemma trim_trimmed v : trimmed v -> trim_end (skip_space v) = v.
Proof.
  intros [Hl Hr]. rewrite skip_space_id by done. unfold trim_end.
  by rewrite skip_space_id, rev_involutive by done.
Qed.
End HttpRequest.
