(* ===== verification/HttpContext.v ===== *)
(** Http/HttpContext.h and Http/HttpContext.cpp: the incremental parser of
    requests, a state machine over the input buffer of a connection.

    [parseRequest] is given with fuel for its [while] loop; [parse] is the
    same machine on the readable bytes alone, the two are related by
    [parseRequest_refines]. *)
From S2P Require Import Prelude Cxx Ordered Buffer HttpRequest.

Module HttpContext.
Import HttpRequest.

Inductive HttpRequestParseState := kExpectRequestLine | kExpectHeaders | kExpectBody | kGotAll.

#[global] Instance state_eq_dec : EqDecision HttpRequestParseState.
Proof. solve_decision. Defined.

Record t := mk { state_ : HttpRequestParseState; request_ : HttpRequest.t }.

Definition init : t := mk kExpectRequestLine HttpRequest.init.

Definition gotAll (c : t) : bool := bool_decide (state_ c = kGotAll).

Definition reset (c : t) : t :=
  let '(request, dummy) := HttpRequest.swap (request_ c) HttpRequest.init in
  mk kExpectRequestLine request.

Definition request (c : t) : HttpRequest.t := request_ c.

(** [processRequestLine(begin, end)] on the characters of the line. *)
Definition processRequestLine (r : HttpRequest.t) (line : bytes) : outcome (bool * HttpRequest.t) :=
  let space := find_pos " " line in
  if space =? zlen line then Ret (false, r)
  else
    '(isMethod, r1) ← setMethod r (ztake space line);
    if negb isMethod then Ret (false, r1)
    else
      let start := zdrop (space + 1) line in
      let space2 := find_pos " " start in
      if space2 =? zlen start then Ret (false, r1)
      else
        let target := ztake space2 start in
        let question := find_pos "?" target in
        let r2 := if negb (question =? space2)
                  then setQuery (setPath r1 (ztake question target)) (zdrop question target)
                  else setPath r1 target in
        let version := zdrop (space2 + 1) start in
        if (zlen version =? 8) && bool_decide (ztake 7 version = lit "HTTP/1.")
        then
          match zdrop 7 version with
          | c :: _ =>
              if decide (c = "1"%char) then Ret (true, setVersion r2 kHttp11)
              else if decide (c = "0"%char) then Ret (true, setVersion r2 kHttp10)
              else Ret (false, r2)
          | [] => Ret (false, r2)
          end
        else Ret (false, r2).

(** One iteration of the loop of [parseRequest]: the new context and buffer,
    [ok] and [hasMore]. *)
Definition parseStep (c : t) (buf : Buffer.t) (receiveTime : Z) : outcome (t * Buffer.t * bool * bool) :=
  match state_ c with
  | kExpectRequestLine =>
      match Buffer.findCRLF buf with
      | Some crlf =>
          '(ok, r) ← processRequestLine (request_ c) (Buffer.range buf (Buffer.peek buf) crlf);
          if (ok : bool)
          then
            buf' ← Buffer.retrieveUntil buf (crlf + 2);
            Ret (mk kExpectHeaders (setReceiveTime r receiveTime), buf', true, true)
          else Ret (mk (state_ c) r, buf, false, false)
      | None => Ret (c, buf, true, false)
      end
  | kExpectHeaders =>
      match Buffer.findCRLF buf with
      | Some crlf =>
          let line := Buffer.range buf (Buffer.peek buf) crlf in
          let colon := find_pos ":" line in
          let '(c', hasMore) :=
            if negb (colon =? zlen line)
            then (mk (state_ c) (addHeader (request_ c) (ztake colon line) (zdrop colon line)), true)
            else (mk kGotAll (request_ c), false) in
          buf' ← Buffer.retrieveUntil buf (crlf + 2);
          Ret (c', buf', true, hasMore)
      | None => Ret (c, buf, true, false)
      end
  | kExpectBody => Ret (c, buf, true, true)
  | kGotAll => Ret (c, buf, true, true)
  end.

(** [ok] keeps its value through the iterations that do not assign it; it is
    assigned [false] only together with [hasMore = false]. *)
Fixpoint parseRequest (fuel : nat) (c : t) (buf : Buffer.t) (receiveTime : Z) : outcome (bool * t * Buffer.t) :=
  match fuel with
  | O => Crash FuelExhausted
  | S fuel' =>
      '(c', buf', ok, hasMore) ← parseStep c buf receiveTime;
      if (hasMore : bool) then parseRequest fuel' c' buf' receiveTime
      else Ret (ok, c', buf')
  end.

(** ** The machine on the readable bytes *)

(** The first line and what follows its CRLF. *)
Definition split_line (q : bytes) : option (bytes * bytes) :=
  let n := search_pos CRLF q in
  if n =? zlen q then None else Some (ztake n q, zdrop (n + 2) q).

Definition header_line (r : HttpRequest.t) (line : bytes) : option HttpRequest.t :=
  let colon := find_pos ":" line in
  if colon =? zlen line then None else Some (addHeader r (ztake colon line) (zdrop colon line)).

Definition step (c : t) (q : bytes) (receiveTime : Z) : outcome (t * bytes * bool * bool) :=
  match state_ c with
  | kExpectRequestLine =>
      match split_line q with
      | Some (line, rest) =>
          '(ok, r) ← processRequestLine (request_ c) line;
          if (ok : bool) then Ret (mk kExpectHeaders (setReceiveTime r receiveTime), rest, true, true)
          else Ret (mk kExpectRequestLine r, q, false, false)
      | None => Ret (c, q, true, false)
      end
  | kExpectHeaders =>
      match split_line q with
      | Some (line, rest) =>
          match header_line (request_ c) line with
          | Some r => Ret (mk kExpectHeaders r, rest, true, true)
          | None => Ret (mk kGotAll (request_ c), rest, true, false)
          end
      | None => Ret (c, q, true, false)
      end
  | kExpectBody | kGotAll => Ret (c, q, true, true)
  end.

Fixpoint loop (fuel : nat) (c : t) (q : bytes) (receiveTime : Z) : outcome (bool * t * bytes) :=
  match fuel with
  | O => Crash FuelExhausted
  | S fuel' =>
      '(c', q', ok, hasMore) ← step c q receiveTime;
      if (hasMore : bool) then loop fuel' c' q' receiveTime else Ret (ok, c', q')
  end.

(** One iteration per line is enough fuel. *)
Definition parse (c : t) (q : bytes) (receiveTime : Z) := loop (S (length q)) c q receiveTime.

Lemma split_line_spec q line rest : split_line q = Some (line, rest) <->
  q = line ++ CRLF ++ rest /\ search_pos CRLF q = zlen line.
Proof.
  unfold split_line. destruct (Z.eqb_spec (search_pos CRLF q) (zlen q)) as [Hn|Hn].
  - split; [done|]. intros [Hq Hs]. rewrite Hn, Hq, !zlen_app in Hs.
    change (zlen CRLF) with 2 in Hs. pose proof (zlen_nonneg rest). lia.
  - destruct (search_pos_split CRLF q) as (l1 & l2 & Hq & Hs); [done|done|].
    assert (ztake (search_pos CRLF q) q = l1) as ->.
    { rewrite Hs, Hq. by apply ztake_app_exact. }
    assert (zdrop (search_pos CRLF q + 2) q = l2) as ->.
    { rewrite Hs, Hq, app_assoc. apply zdrop_app_exact. rewrite zlen_app. done. }
    split; [naive_solver|]. intros [Hq' Hs']. rewrite Hs in Hs'.
    rewrite Hq in Hq'. apply app_inj_1 in Hq' as [-> Hl]; [|unfold zlen in Hs'; lia].
    apply app_inj_1 in Hl as [_ ->]; done.
Qed.

Lemma search_CRLF_app q d : search_pos CRLF q <> zlen q -> search_pos CRLF (q ++ d) = search_pos CRLF q.
Proof.
  induction q as [|x q IH]; [done|]. rewrite <- app_comm_cons. cbn [search_pos].
  rewrite zlen_cons. destruct (is_prefix CRLF (x :: q)) eqn:Hp.
  - intros _. apply is_prefix_spec in Hp as [e He]. rewrite app_comm_cons, He.
    by rewrite (proj2 (is_prefix_spec CRLF ((CRLF ++ e) ++ d))) by (exists (e ++ d); by rewrite app_assoc).
  - intros Hne. destruct (is_prefix CRLF (x :: q ++ d)) eqn:Hp'; [|rewrite IH; lia].
    exfalso. destruct q as [|y q]; [simpl in Hne; done|].
    cbn [is_prefix CRLF app] in Hp, Hp'. repeat case_decide; done.
Qed.

Lemma split_line_app q d line rest : split_line q = Some (line, rest) ->
  split_line (q ++ d) = Some (line, rest ++ d).
Proof.
  rewrite !split_line_spec. intros [Hq Hs]. split; [by rewrite Hq, <- !app_assoc|].
  rewrite search_CRLF_app; [done|]. rewrite Hs, Hq, !zlen_app. change (zlen CRLF) with 2.
  pose proof (zlen_nonneg rest). lia.
Qed.

Lemma split_line_length q line rest : split_line q = Some (line, rest) -> (length rest + 2 <= length q)%nat.
Proof. rewrite split_line_spec. intros [-> _]. rewrite !length_app. simpl. lia. Qed.

(** The states the loop leaves: the others make it spin. *)
Definition parsing (c : t) : Prop := state_ c = kExpectRequestLine \/ state_ c = kExpectHeaders.

Lemma step_inv c q time c' q' ok more : parsing c -> step c q time = Ret (c', q', ok, more) ->
  if more then ok = true /\ state_ c' = kExpectHeaders /\ (length q' + 2 <= length q)%nat
  else if gotAll c' then ok = true /\ (length q' + 2 <= length q)%nat
  else parsing c' /\ q' = q.
Proof.
  unfold parsing, step, gotAll. intros [Hc|Hc]; rewrite Hc.
  - destruct (split_line q) as [[line rest]|] eqn:Hl.
    + destruct (processRequestLine _ _) as [[[] r]|]; simpl; [| |done]; intros [= <- <- <- <-].
      * eauto using split_line_length.
      * simpl. eauto.
    + intros [= <- <- <- <-]. rewrite Hc. simpl. eauto.
  - destruct (split_line q) as [[line rest]|] eqn:Hl.
    + destruct (header_line _ _); intros [= <- <- <- <-]; simpl; eauto using split_line_length.
    + intros [= <- <- <- <-]. rewrite Hc. simpl. eauto.
Qed.

(** More bytes do not change a step that found its line. *)
Lemma step_app c q d time c' q' ok more : parsing c -> step c q time = Ret (c', q', ok, more) ->
  more = true \/ ok = false \/ gotAll c' = true ->
  step c (q ++ d) time = Ret (c', q' ++ d, ok, more).
Proof.
  unfold parsing, step, gotAll. intros [Hc|Hc]; rewrite Hc.
  - destruct (split_line q) as [[line rest]|] eqn:Hl.
    + rewrite (split_line_app q d line rest Hl).
      destruct (processRequestLine _ _) as [[[] r]|]; simpl; [| |done]; by intros [= <- <- <- <-].
    + intros [= <- <- <- <-]. rewrite Hc. simpl. naive_solver.
  - destruct (split_line q) as [[line rest]|] eqn:Hl.
    + rewrite (split_line_app q d line rest Hl).
      destruct (header_line _ _); by intros [= <- <- <- <-].
    + intros [= <- <- <- <-]. rewrite Hc. simpl. naive_solver.
Qed.

Lemma loop_fuel n m c q time : parsing c -> (length q < n)%nat -> (length q < m)%nat ->
  loop n c q time = loop m c q time.
Proof.
  revert m c q. induction n as [|n IH]; intros [|m] c q Hc Hn Hm; [lia..|].
  simpl. destruct (step c q time) as [[[[c' q'] ok] more]|] eqn:Hs; [|done]. simpl.
  apply step_inv in Hs; [|done]. destruct more; [|done]. destruct Hs as (_ & Hst & Hlen).
  apply IH; [by right|lia|lia].
Qed.

(** [parse] runs to an end: the only other outcome is the assertion of
    [setMethod]. *)
Lemma loop_total n c q time : parsing c -> (length q < n)%nat ->
  loop n c q time <> Crash FuelExhausted.
Proof.
  revert c q. induction n as [|n IH]; intros c q Hc Hn; [lia|]. simpl.
  destruct (step c q time) as [[[[c' q'] ok] more]|e] eqn:Hs; simpl.
  - apply step_inv in Hs; [|done]. destruct more; [|done]. destruct Hs as (_ & Hst & Hlen).
    apply IH; [by right|lia].
  - intros [= ->]. revert Hs. unfold step. destruct (state_ c); try done.
    + destruct (split_line q) as [[line rest]|]; [|done].
      destruct (processRequestLine (request_ c) line) as [[[] r]|e] eqn:Hp; simpl; [done|done|].
      intros [= ->]. revert Hp. unfold processRequestLine, setMethod, cassert.
      repeat (case_match; simpl; try done).
    + destruct (split_line q) as [[line rest]|]; [|done]. by destruct (header_line _ _).
Qed.

(** The end of a run, and the run on more bytes. *)
Lemma loop_app n m c q d time ok c' q' : parsing c -> (length q < n)%nat -> (length (q ++ d) < m)%nat ->
  loop n c q time = Ret (ok, c', q') ->
  loop m c (q ++ d) time =
    if ok && negb (gotAll c') then parse c' (q' ++ d) time else Ret (ok, c', q' ++ d).
Proof.
  revert m c q. induction n as [|n IH]; intros m c q Hc Hn Hm Hl; [done|].
  simpl in Hl. destruct (step c q time) as [[[[c1 q1] ok1] more]|e] eqn:Hs; [|done]. simpl in Hl.
  pose proof (step_inv _ _ _ _ _ _ _ Hc Hs) as Hinv. destruct more.
  - destruct Hinv as (_ & Hst & Hlen). destruct m as [|m]; [lia|]. simpl.
    rewrite (step_app c q d time _ _ _ _ Hc Hs) by auto. simpl.
    rewrite length_app in Hm.
    apply IH; [by right|lia|rewrite length_app; lia|done].
  - injection Hl as -> -> ->. destruct ok; simpl.
    + destruct (gotAll c') eqn:Hg; simpl.
      * destruct m as [|m]; [lia|]. simpl. by rewrite (step_app c q d time _ _ _ _ Hc Hs) by auto.
      * destruct Hinv as [_ ->]. unfold parse.
        assert (c' = c) as ->; [|by apply loop_fuel; [done|lia|lia]].
        revert Hs. unfold step. destruct (state_ c) eqn:E; try done;
          destruct (split_line q) as [[line rest]|]; try (intros [= ->]; done).
        -- destruct (processRequestLine _ _) as [[[] r]|]; done.
        -- destruct (header_line _ _); [done|]. intros [= <- _]. done.
    + destruct m as [|m]; [lia|]. simpl. by rewrite (step_app c q d time _ _ _ _ Hc Hs) by auto.
Qed.

Lemma loop_parsing n c q time ok c' q' : parsing c -> (length q < n)%nat ->
  loop n c q time = Ret (ok, c', q') -> gotAll c' = false -> parsing c'.
Proof.
  revert c q. induction n as [|n IH]; intros c q Hc Hn Hl Hg; [done|].
  simpl in Hl. destruct (step c q time) as [[[[c1 q1] ok1] more]|e] eqn:Hs; [|done]. simpl in Hl.
  apply step_inv in Hs; [|done]. destruct more.
  - destruct Hs as (_ & Hst & Hlen). apply IH in Hl; [done|by right|lia|done].
  - injection Hl as -> -> ->. rewrite Hg in Hs. by destruct Hs.
Qed.

(** ** The loop on a buffer is the loop on its content *)

(** What the two runs have in common. *)
Definition agree (b : Buffer.t) (r : outcome (bool * t * bytes)) (rb : outcome (bool * t * Buffer.t)) : Prop :=
  match r with
  | Ret (ok, c, q) => exists b', rb = Ret (ok, c, b') /\ Buffer.wf b' /\ Buffer.content b' = q
      /\ Buffer.m_writerIndex b' <= Buffer.m_writerIndex b
  | Crash e => rb = Crash e
  end.

Lemma findCRLF_split b : Buffer.wf b ->
  match split_line (Buffer.content b) with
  | Some (line, rest) => exists p b', Buffer.findCRLF b = Some p
      /\ Buffer.range b (Buffer.peek b) p = line
      /\ Buffer.retrieveUntil b (p + 2) = Ret b' /\ Buffer.wf b' /\ Buffer.content b' = rest
      /\ Buffer.m_writerIndex b' <= Buffer.m_writerIndex b
  | None => Buffer.findCRLF b = None
  end.
Proof.
  intros Hb. rewrite (Buffer.findCRLF_spec b Hb).
  destruct (split_line (Buffer.content b)) as [[line rest]|] eqn:Hl.
  - apply split_line_spec in Hl as [Hq Hs].
    pose proof (Buffer.zlen_content b Hb) as Hz. rewrite (Buffer.readable_wf b Hb) in Hz.
    pose proof (zlen_nonneg line). pose proof (zlen_nonneg rest).
    assert (zlen (Buffer.content b) = zlen line + 2 + zlen rest) as Hlen.
    { rewrite Hq, !zlen_app. change (zlen CRLF) with 2. lia. }
    rewrite Hs. simpl. rewrite (proj2 (Z.eqb_neq _ _)) by lia.
    destruct (Buffer.retrieveUntil_spec b (Buffer.peek b + zlen line + 2) Hb) as (b' & Hr & Hb' & Hc & Hw).
    { unfold Buffer.peek, Buffer.beginWrite. lia. }
    exists (Buffer.peek b + zlen line), b'. split; [done|]. split.
    + rewrite Buffer.range_content by (unfold Buffer.peek, Buffer.beginWrite; done || lia).
      rewrite Z.sub_diag, zslice_0. replace (_ + _ - _) with (zlen line) by lia.
      rewrite Hq. by apply ztake_app_exact.
    + split; [done|]. split; [done|]. split; [|done]. rewrite Hc.
      replace (_ + _ + _ - _) with (zlen line + 2) by lia.
      rewrite Hq, app_assoc. apply zdrop_app_exact. by rewrite zlen_app.
  - unfold split_line in Hl. simpl. by destruct (Z.eqb_spec (search_pos CRLF (Buffer.content b)) (zlen (Buffer.content b))).
Qed.

Lemma parseStep_spec c b time : Buffer.wf b ->
  match step c (Buffer.content b) time with
  | Ret (c', q', ok, more) => exists b', parseStep c b time = Ret (c', b', ok, more)
      /\ Buffer.wf b' /\ Buffer.content b' = q' /\ Buffer.m_writerIndex b' <= Buffer.m_writerIndex b
  | Crash e => parseStep c b time = Crash e
  end.
Proof.
  intros Hb. pose proof (findCRLF_split b Hb) as Hf. unfold step, parseStep.
  destruct (state_ c) eqn:Hst.
  - destruct (split_line (Buffer.content b)) as [[line rest]|].
    + destruct Hf as (p & b' & -> & -> & Hr & ? & ? & ?).
      destruct (processRequestLine _ _) as [[[] r]|]; simpl; [|by exists b|done].
      rewrite Hr. simpl. by exists b'.
    + rewrite Hf. by exists b.
  - destruct (split_line (Buffer.content b)) as [[line rest]|].
    + destruct Hf as (p & b' & -> & -> & Hr & ? & ? & ?). unfold header_line.
      destruct (find_pos ":" line =? zlen line); simpl; rewrite Hr; simpl; by exists b'.
    + rewrite Hf. by exists b.
  - by exists b.
  - by exists b.
Qed.

Lemma parseRequest_refines fuel c b time : Buffer.wf b ->
  agree b (loop fuel c (Buffer.content b) time) (parseRequest fuel c b time).
Proof.
  revert c b. induction fuel as [|fuel IH]; intros c b Hb; [done|]. simpl.
  pose proof (parseStep_spec c b time Hb) as Hs.
  destruct (step c (Buffer.content b) time) as [[[[c' q'] ok] more]|e]; simpl; [|by rewrite Hs].
  destruct Hs as (b' & -> & Hb' & <- & Hw). simpl. destruct more; [|by exists b'].
  specialize (IH c' b' Hb'). unfold agree in *.
  destruct (loop fuel c' (Buffer.content b') time) as [[[ok' c''] q'']|e]; [|done].
  destruct IH as (b'' & -> & ? & ? & ?). exists b''. do 3 (split; [done|]). lia.
Qed.

Lemma step_crash c q d time e : step c q time = Crash e -> step c (q ++ d) time = Crash e.
Proof.
  unfold step. destruct (state_ c); try done.
  - destruct (split_line q) as [[line rest]|] eqn:Hl; [|done].
    rewrite (split_line_app q d line rest Hl).
    destruct (processRequestLine _ _) as [[[] r]|]; simpl; done.
  - destruct (split_line q) as [[line rest]|]; [|done]. by destruct (header_line _ _).
Qed.

Lemma loop_app_crash n m c q d time e : parsing c -> (length q < n)%nat -> (length (q ++ d) < m)%nat ->
  loop n c q time = Crash e -> loop m c (q ++ d) time = Crash e.
Proof.
  revert m c q. induction n as [|n IH]; intros m c q Hc Hn Hm Hl; [lia|].
  simpl in Hl. destruct m as [|m]; [lia|]. simpl.
  destruct (step c q time) as [[[[c1 q1] ok1] more]|e'] eqn:Hs; simpl in Hl.
  - destruct more; [|done]. pose proof (step_inv _ _ _ _ _ _ _ Hc Hs) as (_ & Hst & Hlen).
    rewrite (step_app c q d time _ _ _ _ Hc Hs) by auto. simpl.
    rewrite length_app in Hm. apply IH; [by right|lia|rewrite length_app; lia|done].
  - injection Hl as ->. by rewrite (step_crash c q d time e Hs).
Qed.

(** Nothing more to parse in [q]. *)
Definition idle (c : t) (q : bytes) (time : Z) : Prop := parsing c /\ parse c q time = Ret (true, c, q).

Lemma parse_idle c q time c' q' : parsing c -> parse c q time = Ret (true, c', q') ->
  gotAll c' = false -> idle c' q' time.
Proof.
  intros Hc Hp Hg. split; [by eapply loop_parsing; [exact Hc| |exact Hp|exact Hg]; lia|].
  pose proof (loop_app (S (length q)) (S (length q)) c q [] time _ _ _ Hc ltac:(lia)
    ltac:(rewrite app_nil_r; lia) Hp) as H.
  rewrite Hg, !app_nil_r in H. simpl in H. rewrite <- H. exact Hp.
Qed.

(** ** A connection's input, arriving in pieces *)

Fixpoint append_all (b : Buffer.t) (ds : list bytes) : outcome Buffer.t :=
  match ds with
  | [] => Ret b
  | d :: ds' => b' ← Buffer.append b d; append_all b' ds'
  end.

(** One iteration per readable byte, and one more, is enough. *)
Definition fuel_for (b : Buffer.t) : nat := S (Z.to_nat (Buffer.readableBytes b)).
Arguments fuel_for : simpl never.

(** Each piece is appended and the parser called, until it reports an error or
    a whole request; later pieces wait in the buffer. *)
Fixpoint feed (c : t) (b : Buffer.t) (ds : list bytes) (time : Z) : outcome (bool * t * Buffer.t) :=
  match ds with
  | [] => Ret (true, c, b)
  | d :: ds' =>
      b1 ← Buffer.append b d;
      '(ok, c', b2) ← parseRequest (fuel_for b1) c b1 time;
      if (ok : bool) && negb (gotAll c') then feed c' b2 ds' time
      else b3 ← append_all b2 ds'; Ret (ok, c', b3)
  end.

Lemma append_all_spec b ds : Buffer.wf b -> Forall (fun d => zlen d < 2 ^ 31) ds ->
  Buffer.m_writerIndex b + zlen (concat ds) <= Buffer.max_size ->
  exists b', append_all b ds = Ret b' /\ Buffer.wf b' /\ Buffer.content b' = Buffer.content b ++ concat ds.
Proof.
  intros Hb Hds. revert b Hb. induction Hds as [|d ds Hd Hds IH]; intros b Hb Hmax; simpl.
  - exists b. by rewrite app_nil_r.
  - simpl in Hmax. rewrite zlen_app in Hmax. pose proof (zlen_nonneg (concat ds)).
    destruct (Buffer.append_spec b d Hb Hd) as (b1 & -> & Hb1 & Hc & Hw); [lia|]. simpl.
    destruct (IH b1 Hb1) as (b' & -> & ? & Hc'); [lia|]. exists b'.
    by rewrite Hc', Hc, <- app_assoc.
Qed.

Lemma fuel_of_content b : Buffer.wf b ->
  fuel_for b = S (length (Buffer.content b)).
Proof. unfold fuel_for. intros Hb. rewrite <- (Buffer.zlen_content b Hb). unfold zlen. lia. Qed.

Lemma feed_spec c b ds time : Buffer.wf b -> idle c (Buffer.content b) time ->
  Forall (fun d => zlen d < 2 ^ 31) ds ->
  Buffer.m_writerIndex b + zlen (concat ds) <= Buffer.max_size ->
  match parse c (Buffer.content b ++ concat ds) time with
  | Ret (ok, c', q) => exists b', feed c b ds time = Ret (ok, c', b') /\ Buffer.wf b' /\ Buffer.content b' = q
  | Crash e => feed c b ds time = Crash e
  end.
Proof.
  intros Hb [Hc Hidle] Hds. revert c b Hb Hc Hidle. induction Hds as [|d ds Hd Hds IH]; intros c b Hb Hc Hidle Hmax; cbn [feed concat].
  { rewrite app_nil_r, Hidle. by exists b. }
  simpl in Hmax. rewrite zlen_app in Hmax. pose proof (zlen_nonneg (concat ds)).
  destruct (Buffer.append_spec b d Hb Hd) as (b1 & -> & Hb1 & Hc1 & Hw1); [lia|].
  cbn [mbind outcome_bind]. rewrite app_assoc, <- Hc1. set (q1 := Buffer.content b1).
  pose proof (parseRequest_refines (S (length q1)) c b1 time Hb1) as Hr.
  rewrite (fuel_of_content b1 Hb1). fold q1 in Hr |- *.
  assert (length (q1 ++ concat ds) < S (length (q1 ++ concat ds)))%nat as Hlen by lia.
  destruct (loop (S (length q1)) c q1 time) as [[[ok c'] q']|e] eqn:Hl; unfold agree in Hr.
  - destruct Hr as (b2 & -> & Hb2 & Hc2 & Hw2). cbn [mbind outcome_bind].
    unfold parse at 1. rewrite (loop_app (S (length q1)) _ c q1 (concat ds) time ok c' q' Hc ltac:(lia) Hlen Hl).
    destruct (ok && negb (gotAll c')) eqn:Hcont.
    + apply andb_true_iff in Hcont as [-> Hg%negb_true_iff].
      destruct (parse_idle c q1 time c' q' Hc Hl Hg) as [Hc' Hi'].
      rewrite <- Hc2 in *. apply IH; [done..|lia].
    + destruct (append_all_spec b2 ds Hb2 Hds) as (b3 & -> & ? & Hc3); [lia|].
      simpl. exists b3. rewrite Hc3, Hc2. done.
  - rewrite Hr. cbn [mbind outcome_bind]. unfold parse. by rewrite (loop_app_crash (S (length q1)) _ c q1 (concat ds) time e Hc ltac:(lia) Hlen Hl).
Qed.

(** C8. The parser is incremental: however the network cuts the input of a
    connection into pieces, parsing after each piece gives the verdict, the
    request and the unread bytes that parsing the whole input at once gives. *)
Theorem segmentation_independence (b : Buffer.t) (ds : list bytes) (time : Z)
    (Hb : Buffer.wf b) (Hempty : Buffer.content b = [])
    (Hds : Forall (fun d => zlen d < 2 ^ 31) ds)
    (Hmax : Buffer.m_writerIndex b + zlen (concat ds) <= Buffer.max_size) :
  match parse init (concat ds) time with
  | Ret (ok, c', q) => exists b', feed init b ds time = Ret (ok, c', b') /\ Buffer.wf b' /\ Buffer.content b' = q
  | Crash e => feed init b ds time = Crash e
  end.
Proof.
  pose proof (feed_spec init b ds time Hb) as H. rewrite Hempty in H. apply H; [|done|done].
  split; [by left|done].
Qed.

Definition eb : Buffer.t := Buffer.mk (replicate 24 NUL) 8 8.
Definition pieces : list bytes :=
  [lit "GET /a?x=1 HT"; lit "TP/1.1" ++ [CR]; [LF] ++ lit "Host:  h "; CRLF ++ CRLF; lit "GET"].
Definition parsed : t :=
  mk kGotAll (HttpRequest.mk kGet kHttp11 (lit "/a") (lit "?x=1") 7 [(lit "Host", lit "h")]).

Lemma segmentation_independence_witness :
  exists b', feed init eb pieces 7 = Ret (true, parsed, b') /\ Buffer.wf b' /\ Buffer.content b' = lit "GET".
Proof.
  apply (segmentation_independence eb pieces 7).
  - split; vm_compute; congruence.
  - vm_compute. reflexivity.
  - repeat constructor; vm_compute; congruence.
  - vm_compute. congruence.
Defined.

(** A request line that comes when the method is already set, as after a line
    that was refused: [setMethod] asserts it is not. *)
Definition stale (c : t) (q : bytes) : bool :=
  bool_decide (state_ c = kExpectRequestLine) && negb (bool_decide (method_ (request_ c) = kInvalid))
  && match split_line q with Some (line, _) => negb (find_pos " " line =? zlen line) | None => false end.

Lemma stale_step c q time : parsing c ->
  if stale c q then step c q time = Crash AssertFailure else exists r, step c q time = Ret r.
Proof.
  unfold stale, step. intros [Hc|Hc]; rewrite Hc; cbn [bool_decide andb].
  - rewrite bool_decide_true by done. destruct (split_line q) as [[line rest]|]; [|rewrite andb_false_r; by eexists].
    unfold processRequestLine, setMethod. destruct (find_pos " " line =? zlen line); [rewrite andb_false_r; by eexists|].
    case_bool_decide; cbn; [|done]. repeat (case_match; cbn; try by eexists).
  - rewrite bool_decide_false by done. destruct (split_line q) as [[line rest]|]; [|by eexists]. destruct (header_line _ _); by eexists.
Qed.

Lemma loop_outcome n c q time : parsing c -> (length q < n)%nat ->
  if stale c q then loop n c q time = Crash AssertFailure
  else exists ok c' q', loop n c q time = Ret (ok, c', q') /\ (gotAll c' = true \/ parsing c').
Proof.
  revert c q. induction n as [|n IH]; intros c q Hc Hn; [lia|]. pose proof (stale_step c q time Hc) as Hs. cbn [loop].
  destruct (stale c q); [by rewrite Hs|]. destruct Hs as [[[[c' q'] ok] more] E]. rewrite E. cbn [mbind outcome_bind].
  apply step_inv in E; [|done]. destruct more.
  - destruct E as (_ & Hst & Hlen). specialize (IH c' q' (or_intror Hst) ltac:(lia)).
    assert (stale c' q' = false) as Hns by (unfold stale; rewrite Hst; by rewrite bool_decide_false). by rewrite Hns in IH.
  - exists ok, c', q'. split; [done|]. destruct (gotAll c'); [by left|right; apply E].
Qed.

Lemma parseRequest_more n k c b time : parseRequest n c b time <> Crash FuelExhausted ->
  parseRequest (n + k) c b time = parseRequest n c b time.
Proof.
  revert c b. induction n as [|n IH]; intros c b H; [done|]. cbn [parseRequest Nat.add] in *.
  destruct (parseStep c b time) as [[[[c' b'] ok] [|]]|e]; cbn [mbind outcome_bind] in *; [by apply IH|done|done].
Qed.

(** C31. [parseRequest] terminates: in the states a server calls it in, a number
    of iterations above the number of readable bytes always ends the loop, and
    every such number gives the same result.  It returns, with a context that
    has its request or can go on; only when a method is already set - as after
    a refused line, never after [reset] - and a request line with a blank has
    come, it fails the assertion of [setMethod]. *)
Theorem parseRequest_terminates (c : t) (b : Buffer.t) (time : Z) (n : nat)
    (Hb : Buffer.wf b) (Hc : parsing c) (Hn : Buffer.readableBytes b < Z.of_nat n) :
  (if stale c (Buffer.content b) then parseRequest n c b time = Crash AssertFailure
   else exists ok c' b', parseRequest n c b time = Ret (ok, c', b') /\ Buffer.wf b' /\ (gotAll c' = true \/ parsing c'))
  /\ (method_ (request_ c) = kInvalid -> stale c (Buffer.content b) = false)
  /\ forall m, Buffer.readableBytes b < Z.of_nat m -> parseRequest m c b time = parseRequest n c b time.
Proof.
  rewrite <- (Buffer.zlen_content b Hb) in Hn |- *. unfold zlen in Hn |- *.
  assert (forall k, Z.of_nat (length (Buffer.content b)) < Z.of_nat k ->
    if stale c (Buffer.content b) then parseRequest k c b time = Crash AssertFailure
    else exists ok c' b', parseRequest k c b time = Ret (ok, c', b') /\ Buffer.wf b' /\ (gotAll c' = true \/ parsing c')) as Hout.
  { intros k Hk. pose proof (parseRequest_refines k c b time Hb) as R. pose proof (loop_outcome k c (Buffer.content b) time Hc ltac:(lia)) as L.
    destruct (stale c (Buffer.content b)); [by rewrite L in R|]. destruct L as (ok & c' & q' & E & Hend). rewrite E in R.
    destruct R as (b' & Eb & Hb' & _). by exists ok, c', b'. }
  assert (forall k, Z.of_nat (length (Buffer.content b)) < Z.of_nat k -> parseRequest k c b time <> Crash FuelExhausted) as Hnf.
  { intros k Hk E. specialize (Hout k Hk). rewrite E in Hout. destruct (stale c _); [done|]. by destruct Hout as (? & ? & ? & ? & _). }
  split; [by apply Hout|]. split.
  - unfold stale. intros ->. rewrite (bool_decide_true (kInvalid = kInvalid)) by done. by rewrite andb_false_r.
  - intros m Hm. destruct (Nat.le_ge_cases n m) as [H|H].
    + rewrite <- (Nat.sub_add n m H), Nat.add_comm. by apply parseRequest_more, Hnf.
    + rewrite <- (Nat.sub_add m n H), Nat.add_comm. symmetry. by apply parseRequest_more, Hnf.
Qed.

(** A request and the beginning of the next, with fuel for each byte and with
    more. *)
Definition get_buffer : Buffer.t :=
  let q := lit "GET / HTTP/1.1" ++ CRLF ++ lit "Host: h" ++ CRLF ++ CRLF ++ lit "GET" in
  Buffer.mk (replicate 8 NUL ++ q) 8 (8 + zlen q).
Lemma parseRequest_terminates_witness :
  (exists ok c' b', parseRequest 31 init get_buffer 7 = Ret (ok, c', b') /\ Buffer.wf b' /\ (gotAll c' = true \/ parsing c'))
  /\ parseRequest 1000 init get_buffer 7 = parseRequest 31 init get_buffer 7.
Proof.
  destruct (parseRequest_terminates init get_buffer 7 31) as (H1 & H2 & H3).
  - split; vm_compute; congruence.
  - left. reflexivity.
  - vm_compute. reflexivity.
  - split; [|apply H3; vm_compute; reflexivity]. rewrite H2 in H1 by reflexivity. exact H1.
Defined.

(** In the states [kExpectBody] and [kGotAll] the loop of [parseRequest]
    never ends: a caller that does not [reset] a finished context hangs. *)
Theorem parseRequest_spins (c : t) (b : Buffer.t) (time : Z) (fuel : nat)
    (Hc : state_ c = kExpectBody \/ state_ c = kGotAll) :
  parseRequest fuel c b time = Crash FuelExhausted.
Proof.
  induction fuel as [|fuel IH]; [done|]. simpl. unfold parseStep.
  by destruct Hc as [-> | ->].
Qed.

Lemma parseRequest_spins_witness : parseRequest 1000 parsed eb 7 = Crash FuelExhausted.
Proof. apply (parseRequest_spins parsed eb 7 1000). right. reflexivity. Defined.

(** ** Requests as a client writes them *)

Definition version_digit (v : Version) : ascii :=
  match v with kHttp11 => "1"%char | _ => "0"%char end.

Definition method_name (m : Method) : bytes := methodString (HttpRequest.mk m kUnknown [] [] 0 []).

Definition request_line (m : Method) (path query : bytes) (v : Version) : bytes :=
  method_name m ++ " "%char :: (path ++ query) ++ " "%char :: lit "HTTP/1." ++ [version_digit v].

Definition render_header (h : bytes * bytes) : bytes := h.1 ++ ":"%char :: " "%char :: h.2 ++ CRLF.

Definition render (m : Method) (path query : bytes) (v : Version) (hs : list (bytes * bytes)) : bytes :=
  request_line m path query v ++ CRLF ++ concat (map render_header hs) ++ CRLF.

Record renderable (m : Method) (path query : bytes) (v : Version) (hs : list (bytes * bytes)) : Prop := {
  r_method : m <> kInvalid;
  r_version : v <> kUnknown;
  r_path : " "%char ∉ path /\ "?"%char ∉ path /\ CR ∉ path;
  r_query : " "%char ∉ query /\ CR ∉ query /\ match query with [] => True | c :: _ => c = "?"%char end;
  r_headers : Forall (fun h => ":"%char ∉ h.1 /\ CR ∉ h.1 /\ CR ∉ h.2 /\ trimmed h.2) hs
}.

Lemma method_name_ok m : m <> kInvalid ->
  method_of (method_name m) = m /\ " "%char ∉ method_name m /\ CR ∉ method_name m.
Proof.
  intros Hm. destruct m; [done|..]; (split; [reflexivity|]);
    split; by_compute.
Qed.

Lemma processRequestLine_render m path query v hs r : renderable m path query v hs ->
  method_ r = kInvalid -> (query <> [] \/ query_ r = []) ->
  processRequestLine r (request_line m path query v)
  = Ret (true, HttpRequest.mk m v path query (receiveTime_ r) (headers_ r)).
Proof.
  intros [Hm Hv (Hp1 & Hp2 & Hp3) (Hq1 & Hq2 & Hq3) _] Hr Hqr.
  destruct (method_name_ok m Hm) as (Hof & Hsp & _).
  unfold request_line, processRequestLine. rewrite (find_pos_app _ (method_name m)) by done.
  set (tgt := path ++ query).
  assert (" "%char ∉ tgt) as Htgt by (unfold tgt; set_solver).
  rewrite (proj2 (Z.eqb_neq _ _)); [|rewrite zlen_app, zlen_cons; pose proof (zlen_nonneg (tgt ++ " "%char :: lit "HTTP/1." ++ [version_digit v])); lia].
  rewrite ztake_app_exact by done. unfold setMethod. rewrite Hr, Hof.
  rewrite (bool_decide_true (kInvalid = kInvalid)) by done. cbn [cassert mbind outcome_bind].
  cbn [HttpRequest.method_]. rewrite (bool_decide_false _ Hm). cbn [negb].
  rewrite cons_middle, app_assoc, (zdrop_app_exact _ _ (zlen (method_name m) + 1)) by (by rewrite zlen_app).
  rewrite (find_pos_app _ tgt) by done.
  rewrite (proj2 (Z.eqb_neq _ _)); [|rewrite zlen_app, zlen_cons; pose proof (zlen_nonneg (lit "HTTP/1." ++ [version_digit v])); lia].
  rewrite ztake_app_exact by done.
  rewrite (cons_middle " "%char tgt), app_assoc, (zdrop_app_exact _ _ (zlen tgt + 1)) by (by rewrite zlen_app).
  assert (zlen (lit "HTTP/1." ++ [version_digit v]) =? 8 = true) as -> by by destruct v.
  rewrite bool_decide_true by by destruct v. cbn [andb].
  assert (zdrop 7 (lit "HTTP/1." ++ [version_digit v]) = [version_digit v]) as -> by by destruct v.
  assert ((if negb (find_pos "?" tgt =? zlen tgt)
    then setQuery (setPath (HttpRequest.mk m (version_ r) (path_ r) (query_ r) (receiveTime_ r) (headers_ r)) (ztake (find_pos "?" tgt) tgt)) (zdrop (find_pos "?" tgt) tgt)
    else setPath (HttpRequest.mk m (version_ r) (path_ r) (query_ r) (receiveTime_ r) (headers_ r)) tgt)
    = HttpRequest.mk m (version_ r) path query (receiveTime_ r) (headers_ r)) as ->.
  { unfold tgt. destruct query as [|c q].
    - rewrite app_nil_r, (find_pos_none _ path) by done. rewrite Z.eqb_refl. cbn.
      unfold setPath; simpl. destruct Hqr as [|Hqr]; [done|]. by rewrite Hqr.
    - subst c. rewrite (find_pos_app _ path) by done.
      rewrite (proj2 (Z.eqb_neq _ _)); [|rewrite zlen_app, zlen_cons; pose proof (zlen_nonneg q); lia].
      cbn [negb]. by rewrite ztake_app_exact, zdrop_app_exact by done. }
  destruct v; [done|reflexivity|reflexivity].
Qed.

Lemma request_line_no_CR m path query v hs : renderable m path query v hs -> CR ∉ request_line m path query v.
Proof.
  intros [Hm Hv (Hp1 & Hp2 & Hp3) (Hq1 & Hq2 & Hq3) _]. destruct (method_name_ok m Hm) as (_ & _ & Hn).
  assert (CR ∉ lit "HTTP/1." ++ [version_digit v]) as H1.
  { destruct v; by_compute. }
  assert (CR <> " "%char) by done.
  unfold request_line. rewrite !elem_of_app, !elem_of_cons, !elem_of_app. set_solver.
Qed.

Lemma header_line_render r h : ":"%char ∉ h.1 -> trimmed h.2 ->
  header_line r (h.1 ++ ":"%char :: " "%char :: h.2)
  = Some (HttpRequest.mk (method_ r) (version_ r) (path_ r) (query_ r) (receiveTime_ r) (map_set h.1 h.2 (headers_ r))).
Proof.
  intros Hk Hv. unfold header_line. rewrite find_pos_app by done.
  rewrite (proj2 (Z.eqb_neq _ _)); [|rewrite zlen_app, zlen_cons; pose proof (zlen_nonneg (" "%char :: h.2)); lia].
  rewrite ztake_app_exact, zdrop_app_exact by done. unfold addHeader. do 2 f_equal.
  change (zdrop 1 (":"%char :: " "%char :: h.2)) with (" "%char :: h.2).
  change (skip_space (" "%char :: h.2)) with (skip_space h.2). by rewrite trim_trimmed.
Qed.

Lemma split_line_line l d : CR ∉ l -> split_line (l ++ CRLF ++ d) = Some (l, d).
Proof. intros Hl. apply split_line_spec. split; [done|]. by apply search_CRLF_line. Qed.

Lemma loop_headers n hs rest r time :
  Forall (fun h => ":"%char ∉ h.1 /\ CR ∉ h.1 /\ CR ∉ h.2 /\ trimmed h.2) hs ->
  (length hs < n)%nat ->
  loop n (mk kExpectHeaders r) (concat (map render_header hs) ++ CRLF ++ rest) time
  = Ret (true, mk kGotAll (HttpRequest.mk (method_ r) (version_ r) (path_ r) (query_ r) (receiveTime_ r)
      (fold_left (fun m h => map_set h.1 h.2 m) hs (headers_ r))), rest).
Proof.
  intros Hhs. revert n r. induction Hhs as [|h hs (Hc & Hk & Hv & Ht) Hhs IH]; intros [|n] r Hn; simpl in Hn; [lia| |lia|].
  - cbn [loop map concat app]. unfold step. cbn [state_].
    change (CRLF ++ rest) with ([] ++ CRLF ++ rest).
    rewrite (split_line_line [] rest) by set_solver. cbn. by destruct r.
  - cbn [loop map concat]. unfold step. cbn [state_ request_].
    unfold render_header at 1.
    assert ((h.1 ++ ":"%char :: " "%char :: h.2 ++ CRLF) ++ concat (map render_header hs)
      = (h.1 ++ ":"%char :: " "%char :: h.2) ++ CRLF ++ concat (map render_header hs)) as ->.
    { rewrite <- !app_assoc. simpl. by rewrite <- app_assoc. }
    rewrite <- !app_assoc, (app_assoc h.1). rewrite split_line_line.
    + rewrite header_line_render by done. cbn [mbind outcome_bind]. rewrite IH by lia. done.
    + assert (CR <> ":"%char) by done. assert (CR <> " "%char) by done.
      rewrite elem_of_app, !elem_of_cons. set_solver.
Qed.

Lemma length_render_headers hs : (length hs <= length (concat (map render_header hs)))%nat.
Proof.
  induction hs as [|h hs IH]; simpl; [lia|]. rewrite length_app.
  unfold render_header at 1. rewrite length_app. simpl. lia.
Qed.

Lemma parse_render m path query v hs rest time : renderable m path query v hs ->
  parse init (render m path query v hs ++ rest) time
  = Ret (true, mk kGotAll (HttpRequest.mk m v path query time
      (fold_left (fun acc h => map_set h.1 h.2 acc) hs [])), rest).
Proof.
  intros H. unfold parse, render. rewrite <- !app_assoc. cbn [loop]. unfold step.
  cbn [init state_ request_].
  rewrite split_line_line by (by eapply request_line_no_CR).
  rewrite (processRequestLine_render m path query v hs) by (done || by right).
  cbn [mbind outcome_bind setReceiveTime HttpRequest.method_ HttpRequest.version_ HttpRequest.path_ HttpRequest.query_ HttpRequest.headers_ receiveTime_].
  rewrite loop_headers; [done|by destruct H|].
  rewrite !length_app. pose proof (length_render_headers hs). simpl. lia.
Qed.

(** The same, on a buffer. *)
Lemma parseRequest_render m path query v hs rest (b : Buffer.t) time : renderable m path query v hs -> Buffer.wf b ->
  Buffer.content b = render m path query v hs ++ rest ->
  exists b', parseRequest (fuel_for b) init b time
    = Ret (true, mk kGotAll (HttpRequest.mk m v path query time (fold_left (fun acc h => map_set h.1 h.2 acc) hs [])), b')
    /\ Buffer.wf b' /\ Buffer.content b' = rest.
Proof.
  intros Hr Hb Hcontent. pose proof (parseRequest_refines (fuel_for b) init b time Hb) as H.
  rewrite fuel_of_content in H by done. fold (parse init (Buffer.content b) time) in H.
  rewrite fuel_of_content by done.
  rewrite Hcontent, parse_render in H by done. destruct H as (b' & ? & ? & ? & _).
  rewrite <- Hcontent in *. by exists b'.
Qed.

(** Parsing moves the indices only. *)
Lemma parseRequest_array fuel c b time ok c' b' : parseRequest fuel c b time = Ret (ok, c', b') ->
  Buffer.m_buffer b' = Buffer.m_buffer b.
Proof.
  revert c b. induction fuel as [|fuel IH]; intros c b; [done|]. cbn [parseRequest].
  intros ([[[c1 b1] ok1] more] & H1 & H)%bind_Ret_inv.
  assert (Buffer.m_buffer b1 = Buffer.m_buffer b) as <-.
  { assert (forall p b2, Buffer.retrieveUntil b p = Ret b2 -> Buffer.m_buffer b2 = Buffer.m_buffer b) as Hr.
    { intros p b2 (x & _ & (y & _ & (z & _ & Hb2)%bind_Ret_inv)%bind_Ret_inv)%bind_Ret_inv.
      destruct (_ <? _) in Hb2; by injection Hb2 as <-. }
    unfold parseStep in H1. destruct (state_ c); [| |by injection H1 as <- <- <- <-..];
      (destruct (Buffer.findCRLF b) as [p|]; [|by injection H1 as <- <- <- <-]).
    - apply bind_Ret_inv in H1 as ([[] r] & _ & H1); [|by injection H1 as <- <- <- <-].
      apply bind_Ret_inv in H1 as (b2 & H2 & [= <- <- <- <-]). by eapply Hr.
    - cbv zeta in H1. destruct (if negb _ then _ else _) as [c2 more2].
      apply bind_Ret_inv in H1 as (b2 & H2 & [= <- <- <- <-]). by eapply Hr. }
  destruct more; [by eapply IH|by injection H as <- <- <-].
Qed.

(** C28. Round trip: the parser applied to any request written in the
    standard form (method, path without space or question mark, optional
    query, version, header fields with trimmed values) accepts it, gives back
    exactly its method, path, query, version and headers (a repeated field
    keeps its last value), and leaves the bytes that follow the request in the
    buffer. *)
Theorem parseRequest_roundtrip (m : Method) (path query : bytes) (v : Version) (hs : list (bytes * bytes))
    (rest : bytes) (b : Buffer.t) (time : Z)
    (Hr : renderable m path query v hs) (Hb : Buffer.wf b)
    (Hcontent : Buffer.content b = render m path query v hs ++ rest) :
  exists b', parseRequest (fuel_for b) init b time
    = Ret (true, mk kGotAll (HttpRequest.mk m v path query time
        (fold_left (fun acc h => map_set h.1 h.2 acc) hs [])), b')
    /\ Buffer.wf b' /\ Buffer.content b' = rest.
Proof.
  by apply parseRequest_render.
Qed.

Definition rb : Buffer.t :=
  Buffer.mk (replicate 8 NUL ++ render kPost (lit "/f") (lit "?q") kHttp10 [(lit "A", lit "b c")] ++ lit "GE") 8
    (8 + zlen (render kPost (lit "/f") (lit "?q") kHttp10 [(lit "A", lit "b c")] ++ lit "GE")).

Lemma parseRequest_roundtrip_witness :
  exists b', parseRequest (fuel_for rb) init rb 3
    = Ret (true, mk kGotAll (HttpRequest.mk kPost kHttp10 (lit "/f") (lit "?q") 3 [(lit "A", lit "b c")]), b')
    /\ Buffer.wf b' /\ Buffer.content b' = lit "GE".
Proof.
  apply (parseRequest_roundtrip kPost (lit "/f") (lit "?q") kHttp10 [(lit "A", lit "b c")] (lit "GE") rb 3).
  - split; [done|done| | |].
    + repeat split; by_compute.
    + repeat split; by_compute.
    + repeat constructor; by_compute.
  - split; vm_compute; congruence.
  - vm_compute. reflexivity.
Defined.

(** A malformed request line with a valid method. *)
Definition bad_line (m : Method) (tail : bytes) : bytes := method_name m ++ " "%char :: tail ++ CRLF.

(** It is refused and kept with its method, and the next parse fails the
    assertion of [setMethod]. *)
Lemma bad_line_parse (m : Method) (tail : bytes) (time : Z) : m <> kInvalid -> CR ∉ tail -> " "%char ∉ tail ->
  exists c, parse init (bad_line m tail) time = Ret (false, c, bad_line m tail) /\ gotAll c = false
    /\ forall more, parse c (bad_line m tail ++ more) time = Crash AssertFailure.
Proof.
  intros Hm Htail Hsp. destruct (method_name_ok m Hm) as (Hof & Hns & Hncr). unfold bad_line.
  set (line := method_name m ++ " "%char :: tail).
  assert (forall d, split_line ((method_name m ++ " "%char :: tail ++ CRLF) ++ d) = Some (line, d)) as Hsplit.
  { intros d. replace ((method_name m ++ " "%char :: tail ++ CRLF) ++ d) with (line ++ CRLF ++ d).
    - apply split_line_line. unfold line. assert (CR <> " "%char) by done. set_solver.
    - unfold line. rewrite <- !app_assoc. simpl. by rewrite <- app_assoc. }
  assert (forall r, processRequestLine r line =
    (_ ← cassert (bool_decide (method_ r = kInvalid));
     Ret (false, HttpRequest.mk m (version_ r) (path_ r) (query_ r) (receiveTime_ r) (headers_ r)))) as Hline.
  { intros r. unfold processRequestLine, line. rewrite find_pos_app by done.
    rewrite (proj2 (Z.eqb_neq _ _)); [|rewrite zlen_app, zlen_cons; pose proof (zlen_nonneg tail); lia].
    rewrite ztake_app_exact by done. unfold setMethod. rewrite Hof.
    destruct (bool_decide (method_ r = kInvalid)); [|done]. cbn [cassert mbind outcome_bind HttpRequest.method_].
    rewrite (bool_decide_false _ Hm). cbn [negb].
    rewrite cons_middle, app_assoc, (zdrop_app_exact _ _ (zlen (method_name m) + 1)) by (by rewrite zlen_app).
    by rewrite find_pos_none, Z.eqb_refl by done. }
  exists (mk kExpectRequestLine (HttpRequest.mk m kUnknown [] [] 0 [])). split; [|split; [done|]].
  - rewrite <- (app_nil_r (method_name m ++ _)) at 1. unfold parse. cbn [loop]. unfold step. cbn [init state_ request_].
    by rewrite Hsplit, Hline, app_nil_r.
  - intros more. unfold parse. cbn [loop]. unfold step. cbn [state_ request_].
    rewrite Hsplit, Hline. cbn [HttpRequest.method_]. by rewrite (bool_decide_false _ Hm).
Qed.

(** A rejected request poisons its connection: when the request line has
    a valid method but is otherwise malformed, [parseRequest] answers [false],
    keeps the line in the buffer and the method in the request, so that the
    next call, made by the server when more bytes arrive, fails the assertion
    of [setMethod] and aborts the process. *)
Theorem bad_request_then_abort (m : Method) (tail : bytes) (b : Buffer.t) (more : bytes) (time : Z)
    (Hm : m <> kInvalid) (Hb : Buffer.wf b) (Htail : CR ∉ tail) (Hsp : " "%char ∉ tail)
    (Hcontent : Buffer.content b = method_name m ++ " "%char :: tail ++ CRLF)
    (Hmore : zlen more < 2 ^ 31) (Hmax : Buffer.m_writerIndex b + zlen more <= Buffer.max_size) :
  exists c b1 b2, parseRequest (fuel_for b) init b time = Ret (false, c, b1)
    /\ Buffer.append b1 more = Ret b2
    /\ parseRequest (fuel_for b2) c b2 time = Crash AssertFailure.
Proof.
  destruct (bad_line_parse m tail time Hm Htail Hsp) as (c & Hp1 & _ & Hp2).
  pose proof (parseRequest_refines (fuel_for b) init b time Hb) as H1.
  rewrite fuel_of_content in H1 by done. unfold parse, bad_line in Hp1, Hp2. rewrite Hcontent, Hp1 in H1.
  destruct H1 as (b1 & H1 & Hb1 & Hc1 & Hw1).
  destruct (Buffer.append_spec b1 more Hb1 Hmore) as (b2 & H2 & Hb2 & Hc2 & _); [lia|].
  exists c, b1, b2. rewrite fuel_of_content, Hcontent by done. split; [done|]. split; [done|].
  pose proof (parseRequest_refines (fuel_for b2) c b2 time Hb2) as H3.
  specialize (Hp2 more). rewrite <- Hc1, <- Hc2 in Hp2. rewrite fuel_of_content in * by done. by rewrite Hp2 in H3.
Qed.

Definition bad : Buffer.t := Buffer.mk (replicate 8 NUL ++ lit "GET /" ++ CRLF) 8 15.

Lemma bad_request_then_abort_witness :
  exists c b1 b2, parseRequest (fuel_for bad) init bad 0 = Ret (false, c, b1)
    /\ Buffer.append b1 (lit "x") = Ret b2
    /\ parseRequest (fuel_for b2) c b2 0 = Crash AssertFailure.
Proof.
  apply (bad_request_then_abort kGet (lit "/") bad (lit "x") 0); first done.
  - split; vm_compute; congruence.
  - by_compute.
  - by_compute.
  - vm_compute. reflexivity.
  - vm_compute. reflexivity.
  - vm_compute. congruence.
Defined.
End HttpContext.
