(* ===== verification/HttpTyping.v ===== *)
(** What a request of the parser of HttpContext.v always is, whatever the bytes. *)
From S2P Require Import Prelude Cxx Ordered Buffer HttpRequest HttpContext.
Import HttpRequest HttpContext.

(** A method and a version that are known; a path without blank or question mark;
    a query that is empty or starts with a question mark, without blank; header
    names without colon, each once, in order; values without blanks at the ends. *)
Record typed (r : HttpRequest.t) : Prop := {
  t_method : method_ r <> kInvalid;
  t_version : version_ r <> kUnknown;
  t_path : " "%char ∉ path_ r /\ "?"%char ∉ path_ r;
  t_query : " "%char ∉ query_ r /\ match query_ r with [] => True | c :: _ => c = "?"%char end;
  t_fields : ksorted fst (headers_ r);
  t_headers : Forall (fun h => ":"%char ∉ h.1 /\ trimmed h.2) (headers_ r)
}.

(** Before its first line a request has no header, and no query unless a line has
    failed. *)
Record fresh (r : HttpRequest.t) : Prop := {
  f_headers : headers_ r = [];
  f_query : method_ r = kInvalid -> query_ r = []
}.

Definition context_ok (c : HttpContext.t) : Prop :=
  match state_ c with kExpectRequestLine => fresh (request_ c) | _ => typed (request_ c) end.

Section find.
Context (c : ascii).

Lemma find_pos_take l : c ∉ ztake (find_pos c l) l.
Proof.
  destruct (decide (find_pos c l = zlen l)) as [E|E].
  - rewrite E, ztake_all by done. revert E. induction l as [|x l IH]; [intros _; apply not_elem_of_nil|]. cbn [find_pos].
    rewrite zlen_cons. case_decide; [pose proof (zlen_nonneg l); lia|]. intros E. apply not_elem_of_cons. split; [done|]. apply IH. lia.
  - apply find_pos_split in E as (l1 & l2 & -> & Hc & ->). by rewrite ztake_app_exact.
Qed.

Lemma find_pos_drop l : find_pos c l <> zlen l -> exists l2, zdrop (find_pos c l) l = c :: l2.
Proof. intros (l1 & l2 & -> & _ & ->)%find_pos_split. exists l2. by rewrite zdrop_app_exact. Qed.
End find.

Lemma not_in_ztake (x : ascii) n l : x ∉ l -> x ∉ ztake n l.
Proof. intros H Hin. apply H. unfold ztake in Hin. apply elem_of_take in Hin as (i & Hi & _). by eapply list_elem_of_lookup_2. Qed.
Lemma not_in_zdrop (x : ascii) n l : x ∉ l -> x ∉ zdrop n l.
Proof. intros H Hin. apply H. rewrite <- (ztake_zdrop n l). apply elem_of_app. by right. Qed.
Lemma find_pos_all (x : ascii) l : find_pos x l = zlen l -> x ∉ l.
Proof. intros E. pose proof (find_pos_take x l) as H. by rewrite E, ztake_all in H. Qed.

Lemma skip_space_suffix (l : bytes) : exists p, l = p ++ skip_space l.
Proof.
  induction l as [|c l [p Hp]]; [by exists []|]. cbn [skip_space]. destruct (isspace c); [|by exists []].
  exists (c :: p). cbn. by rewrite <- Hp.
Qed.

Lemma trim_is_trimmed v : trimmed (trim_end (skip_space v)).
Proof.
  unfold trim_end. split.
  - destruct (rev (skip_space (rev (skip_space v)))) as [|c l] eqn:E; [done|].
    pose proof (skip_space_head v) as Hv. destruct (skip_space v) as [|x w]; [by cbn in E|].
    assert (exists d, x :: w = c :: d) as [d [= -> ->]]; [|done].
    apply (f_equal (@rev ascii)) in E. rewrite rev_involutive in E.
    destruct (skip_space_suffix (rev (x :: w))) as [p Hp]. rewrite E in Hp. apply (f_equal (@rev ascii)) in Hp.
    rewrite rev_app_distr, !rev_involutive in Hp. by exists (l ++ rev p).
  - rewrite rev_involutive. apply skip_space_head.
Qed.

(** ** One line *)

Lemma setMethod_typed r m b r' : setMethod r m = Ret (b, r') ->
  method_ r = kInvalid /\ (b = true <-> method_ r' <> kInvalid) /\ headers_ r' = headers_ r /\ query_ r' = query_ r.
Proof.
  unfold setMethod. intros E. apply bind_Ret_inv in E as (u & Ha & E). injection E as <- <-. cbn.
  unfold cassert in Ha. destruct (bool_decide (method_ r = kInvalid)) eqn:Hb; [|done]. apply bool_decide_eq_true in Hb.
  split; [done|]. split; [|done]. rewrite negb_true_iff, bool_decide_eq_false. done.
Qed.

(** Setting path and query from a target without blank. *)
Lemma target_typed n target r : zlen target = n -> " "%char ∉ target -> query_ r = [] ->
  let question := find_pos "?" target in
  let r2 := if negb (question =? n) then setQuery (setPath r (ztake question target)) (zdrop question target) else setPath r target in
  method_ r2 = method_ r /\ headers_ r2 = headers_ r /\ (" "%char ∉ path_ r2 /\ "?"%char ∉ path_ r2) /\
  " "%char ∉ query_ r2 /\ match query_ r2 with [] => True | c :: _ => c = "?"%char end.
Proof.
  intros <- Ht Hq. cbv zeta. destruct (Z.eqb_spec (find_pos "?" target) (zlen target)) as [E|E]; cbn.
  - rewrite Hq. split_and!; try done; [by apply find_pos_all|apply not_elem_of_nil].
  - split_and!; try done; [by apply not_in_ztake|apply find_pos_take|by apply not_in_zdrop|].
    destruct (find_pos_drop "?" target E) as [l2 ->]. done.
Qed.

Lemma setVersion_typed r v : method_ r <> kInvalid -> v <> kUnknown -> headers_ r = [] ->
  (" "%char ∉ path_ r /\ "?"%char ∉ path_ r) -> (" "%char ∉ query_ r /\ match query_ r with [] => True | c :: _ => c = "?"%char end) ->
  typed (setVersion r v).
Proof. intros Hm Hv Hh Hp Hq. split; cbn; try done; rewrite Hh; constructor. Qed.

Lemma line_typed r line ok r' : fresh r -> processRequestLine r line = Ret (ok, r') -> if ok : bool then typed r' else fresh r'.
Proof.
  intros [Hh Hq]. unfold processRequestLine. destruct (_ =? zlen line); [by intros [= <- <-]|].
  intros E. apply bind_Ret_inv in E as ([isMethod r1] & Em & E). apply setMethod_typed in Em as (Hi & Hb & Hh1 & Hq1).
  rewrite Hh in Hh1. rewrite (Hq Hi) in Hq1. assert (fresh r1) as Hf1 by by split.
  destruct isMethod; cbn [negb] in E; [|by injection E as <- <-]. pose proof (proj1 Hb eq_refl) as Hm. clear Hb.
  set (start := zdrop _ line) in E. destruct (Z.eqb_spec (find_pos " " start) (zlen start)) as [Es|Es]; [by injection E as <- <-|].
  assert (zlen (ztake (find_pos " " start) start) = find_pos " " start) as Hz by (apply zlen_ztake, find_pos_range).
  pose proof (target_typed _ _ r1 Hz (find_pos_take " " start) Hq1) as H2. cbv zeta in H2. match type of H2 with method_ ?r = _ /\ _ => set (r2 := r) in * end.
  destruct H2 as (Hm2 & Hh2 & Hp2 & Hq2). rewrite Hh1 in Hh2. rewrite <- Hm2 in Hm.
  assert (fresh r2) as Hf2 by (split; [done|]; intros ?; done).
  destruct (_ && _); [|by injection E as <- <-]. destruct (zdrop 7 _) as [|c ?]; [by injection E as <- <-|].
  repeat case_decide; injection E as <- <-; [by apply setVersion_typed..|done].
Qed.

Lemma receiveTime_typed r time : typed r -> typed (setReceiveTime r time).
Proof. intros []. by split. Qed.

(** A header line. *)
Lemma addHeader_typed r line : typed r -> find_pos ":" line <> zlen line ->
  typed (addHeader r (ztake (find_pos ":" line) line) (zdrop (find_pos ":" line) line)).
Proof.
  intros [Hm Hv Hp Hq Hs Hh] Hc. split; cbn; [done|done|done|done|by apply (kput_sorted fst)|].
  apply Forall_forall. intros h Hin. unfold map_set in Hin. rewrite (kput_elem fst) in Hin by done.
  destruct Hin as [->|[Hin _]]; [|rewrite Forall_forall in Hh; by apply Hh]. cbn. split; [apply find_pos_take|apply trim_is_trimmed].
Qed.

(** ** The machine *)

Lemma parseStep_typed c b time c' b' ok more : context_ok c -> parseStep c b time = Ret (c', b', ok, more) -> context_ok c'.
Proof.
  unfold context_ok, parseStep. intros Hc E. destruct (state_ c) eqn:Es.
  - destruct (Buffer.findCRLF b) as [crlf|]; [|injection E as <- <- <- <-; by rewrite Es].
    apply bind_Ret_inv in E as ([ok1 r] & El & E). apply (line_typed _ _ _ _ Hc) in El. destruct ok1.
    + apply bind_Ret_inv in E as (b1 & _ & E). injection E as <- <- <- <-. by apply receiveTime_typed.
    + injection E as <- <- <- <-. done.
  - destruct (Buffer.findCRLF b) as [crlf|]; [|injection E as <- <- <- <-; by rewrite Es]. cbv zeta in E.
    destruct (Z.eqb_spec (find_pos ":" (Buffer.range b (Buffer.peek b) crlf)) (zlen (Buffer.range b (Buffer.peek b) crlf))) as [Ec|Ec]; cbn [negb] in E;
      apply bind_Ret_inv in E as (b1 & _ & E); injection E as <- <- <- <-; cbn; [done|]. by apply addHeader_typed.
  - injection E as <- <- <- <-. by rewrite Es.
  - injection E as <- <- <- <-. by rewrite Es.
Qed.

Lemma parseRequest_typed fuel c b time ok c' b' : context_ok c -> parseRequest fuel c b time = Ret (ok, c', b') -> context_ok c'.
Proof.
  revert c b. induction fuel as [|fuel IH]; intros c b Hc E; [done|]. cbn [parseRequest] in E.
  apply bind_Ret_inv in E as ([[[c1 b1] ok1] more] & Es & E). apply parseStep_typed in Es; [|done].
  destruct more; [by eapply IH|]. by injection E as <- <- <-.
Qed.

Lemma reset_ok c : context_ok (reset c).
Proof. by split. Qed.

(** C29. Whatever bytes arrive, in whatever pieces, for a context that is new or was
    reset: a request the parser reports as complete has a known method and version,
    a path without blank and question mark, a query that is empty or starts with a
    question mark, and every header once, with a name without colon and a value
    without blanks around it. *)
Theorem parsed_requests_typed c b ds time ok c' b' : context_ok c -> feed c b ds time = Ret (ok, c', b') ->
  context_ok c' /\ context_ok (reset c') /\ (gotAll c' = true -> typed (request c')).
Proof.
  intros Hc E. assert (context_ok c') as Hc'.
  { revert c b Hc E. induction ds as [|d ds IH]; intros c b Hc E; cbn [feed] in E; [by injection E as <- <- <-|].
    apply bind_Ret_inv in E as (b1 & _ & E). apply bind_Ret_inv in E as ([[ok1 c1] b2] & Ep & E). apply parseRequest_typed in Ep; [|done].
    destruct (_ && _); [by eapply IH|]. apply bind_Ret_inv in E as (b3 & _ & E). by injection E as <- <- <-. }
  split; [done|]. split; [apply reset_ok|]. unfold gotAll. intros Hg%bool_decide_eq_true. unfold context_ok in Hc'. by rewrite Hg in Hc'.
Qed.

Lemma parsed_requests_typed_witness : exists b', context_ok HttpContext.init /\
  feed HttpContext.init eb pieces 7 = Ret (true, parsed, b') /\ typed (request parsed).
Proof.
  destruct (feed HttpContext.init eb pieces 7) as [[[ok c'] b']|] eqn:E; [|by vm_compute in E].
  assert (context_ok HttpContext.init) as Hi by by split.
  exists b'. destruct (parsed_requests_typed HttpContext.init eb pieces 7 ok c' b' Hi E) as (_ & _ & H).
  vm_compute in E. injection E as <- <- <-. split; [exact Hi|]. split; [reflexivity|]. apply H. reflexivity.
Defined.
