(* ===== verification/HttpResponse.v ===== *)
(** Http/HttpResponse.h, Http/HttpResponse.cpp and Http/Mimetype.cpp: a
    response and its serialisation.  [appendToBuffer] is written against the
    interface [ByteSink]; a reader of responses gives the round trip. *)
From S2P Require Import Prelude Cxx Ordered Buffer HttpRequest HttpContext.

Module HttpResponse.

(** [enum HttpStatusCode] with its integer values. *)
Inductive HttpStatusCode := kUnknown | k200Ok | k301MovedPermanently | k400BadRequest | k404NotFound.
Definition code_value (c : HttpStatusCode) : Z :=
  match c with
  | kUnknown => 0
  | k200Ok => 200
  | k301MovedPermanently => 301
  | k400BadRequest => 400
  | k404NotFound => 404
  end.

Record t := mk {
  headers_ : smap bytes;
  statusCode_ : HttpStatusCode;
  statusMessage_ : bytes;
  closeConnection_ : bool;
  body_ : bytes
}.

Definition init (close : bool) : t := mk [] kUnknown [] close [].

Definition setStatusCode (r : t) (code : HttpStatusCode) : t :=
  mk (headers_ r) code (statusMessage_ r) (closeConnection_ r) (body_ r).
Definition setStatusMessage (r : t) (message : bytes) : t :=
  mk (headers_ r) (statusCode_ r) message (closeConnection_ r) (body_ r).
Definition setCloseConnection (r : t) (on : bool) : t :=
  mk (headers_ r) (statusCode_ r) (statusMessage_ r) on (body_ r).
Definition closeConnection (r : t) : bool := closeConnection_ r.
Definition addHeader (r : t) (key value : bytes) : t :=
  mk (map_set key value (headers_ r)) (statusCode_ r) (statusMessage_ r) (closeConnection_ r) (body_ r).
Definition setContentType (r : t) (contentType : bytes) : t := addHeader r (lit "Content-Type") contentType.
Definition setBody (r : t) (body : bytes) : t :=
  mk (headers_ r) (statusCode_ r) (statusMessage_ r) (closeConnection_ r) body.

(** The loop over the headers, in the order of the map. *)
Fixpoint appendHeaders {B} `{ByteSink B} (output : B) (hs : smap bytes) : outcome B :=
  match hs with
  | [] => Ret output
  | header :: hs' =>
      o1 ← sink_append output header.1;
      o2 ← sink_append o1 (lit ": ");
      o3 ← sink_append o2 header.2;
      o4 ← sink_append o3 CRLF;
      appendHeaders o4 hs'
  end.

Definition appendToBuffer {B} `{ByteSink B} (r : t) (output : B) : outcome B :=
  let buf := snprintf 32 (lit "HTTP/1.1 " ++ dec (code_value (statusCode_ r)) ++ lit " ") in
  o1 ← sink_append output buf;
  o2 ← sink_append o1 (statusMessage_ r);
  o3 ← sink_append o2 CRLF;
  o4 ← (if closeConnection_ r
        then sink_append o3 (lit "Connection: close" ++ CRLF)
        else
          let buf := snprintf 32 (lit "Content-Length: " ++ dec (zlen (body_ r)) ++ CRLF) in
          o ← sink_append o3 buf;
          sink_append o (lit "Connection: Keep-Alive" ++ CRLF));
  o5 ← appendHeaders o4 (headers_ r);
  o6 ← sink_append o5 CRLF;
  sink_append o6 (body_ r).

(** ** What is written *)

Definition render_header (h : bytes * bytes) : bytes := h.1 ++ lit ": " ++ h.2 ++ CRLF.

Definition status_line (r : t) : bytes :=
  lit "HTTP/1.1 " ++ dec (code_value (statusCode_ r)) ++ lit " " ++ statusMessage_ r.

Definition framing (r : t) : bytes :=
  if closeConnection_ r then lit "Connection: close" ++ CRLF
  else lit "Content-Length: " ++ dec (zlen (body_ r)) ++ CRLF ++ lit "Connection: Keep-Alive" ++ CRLF.

Definition render (r : t) : bytes :=
  status_line r ++ CRLF ++ framing r ++ concat (map render_header (headers_ r)) ++ CRLF ++ body_ r.

(** The pieces in the order of the calls of [append]. *)
Definition pieces (r : t) : list bytes :=
  [lit "HTTP/1.1 " ++ dec (code_value (statusCode_ r)) ++ lit " "; statusMessage_ r; CRLF]
  ++ (if closeConnection_ r then [lit "Connection: close" ++ CRLF]
      else [lit "Content-Length: " ++ dec (zlen (body_ r)) ++ CRLF; lit "Connection: Keep-Alive" ++ CRLF])
  ++ concat (map (fun h => [h.1; lit ": "; h.2; CRLF]) (headers_ r))
  ++ [CRLF; body_ r].

Lemma pieces_render r : concat (pieces r) = render r.
Proof.
  assert (concat (concat (map (fun h : bytes * bytes => [h.1; lit ": "; h.2; CRLF]) (headers_ r)))
    = concat (map render_header (headers_ r))) as Hh.
  { induction (headers_ r) as [|h hs IH]; [done|]. cbn [map concat app]. rewrite IH.
    unfold render_header. by rewrite <- !app_assoc. }
  unfold pieces, render, status_line, framing. rewrite !concat_app, Hh. cbn [concat].
  destruct (closeConnection_ r); cbn [concat]; rewrite ?app_nil_r, <- ?app_assoc; done.
Qed.

Lemma appendHeaders_pieces {B} `{ByteSink B} (b : B) hs :
  appendHeaders b hs = sink_appends b (concat (map (fun h => [h.1; lit ": "; h.2; CRLF]) hs)).
Proof.
  revert b. induction hs as [|h hs IH]; intros b; [done|]. cbn [appendHeaders map concat app sink_appends].
  do 4 (destruct (sink_append _ _) as [b'|]; [|done]; clear b; rename b' into b; cbn [mbind outcome_bind]).
  apply IH.
Qed.

Lemma zlen_dec_small n k : 0 <= n < 10 ^ Z.of_nat k -> (0 < k)%nat -> zlen (dec n) <= Z.of_nat k.
Proof.
  intros Hn Hk. unfold dec. rewrite decide_False by lia. unfold zlen.
  pose proof (length_udec n k Hn Hk). lia.
Qed.

Lemma appendToBuffer_pieces {B} `{ByteSink B} r (b : B) : zlen (body_ r) < 10 ^ 13 ->
  appendToBuffer r b = sink_appends b (pieces r).
Proof.
  intros Hbody. unfold appendToBuffer, pieces.
  rewrite (snprintf_fits 32 (lit "HTTP/1.1 " ++ _)) by (destruct (statusCode_ r); vm_compute; reflexivity).
  rewrite (snprintf_fits 32 (lit "Content-Length: " ++ _)).
  2: { rewrite !zlen_app. pose proof (zlen_nonneg (body_ r)).
       pose proof (zlen_dec_small (zlen (body_ r)) 13 ltac:(done) ltac:(lia)).
       change (zlen (lit "Content-Length: ")) with 16. change (zlen CRLF) with 2. lia. }
  cbn [app sink_appends]. do 3 (destruct (sink_append _ _) as [b'|]; [|done]; clear b; rename b' into b; cbn [mbind outcome_bind]).
  assert (forall b' : B, (o5 ← appendHeaders b' (headers_ r); o6 ← sink_append o5 CRLF; sink_append o6 (body_ r))
    = sink_appends b' (concat (map (fun h => [h.1; lit ": "; h.2; CRLF]) (headers_ r)) ++ [CRLF; body_ r])) as Hrest.
  { intros b'. rewrite sink_appends_app, appendHeaders_pieces.
    destruct (sink_appends b' _) as [b1|]; [|done]. cbn.
    destruct (sink_append b1 CRLF) as [b2|]; [|done]. cbn. by destruct (sink_append b2 (body_ r)). }
  destruct (closeConnection_ r); cbn [app sink_appends].
  - destruct (sink_append b _) as [b'|]; [|done]. apply Hrest.
  - destruct (sink_append b _) as [b'|]; [|done]. cbn [mbind outcome_bind].
    destruct (sink_append b' _) as [b''|]; [|done]. apply Hrest.
Qed.

Lemma appendToBuffer_spec {B} `{ByteSink B} r (b : B) n : zlen (body_ r) < 10 ^ 13 ->
  sink_room b n -> zlen (render r) <= n ->
  exists b', appendToBuffer r b = Ret b' /\ sink_content b' = sink_content b ++ render r
    /\ sink_room b' (n - zlen (render r)).
Proof.
  intros Hbody Hroom Hn. rewrite appendToBuffer_pieces by done. rewrite <- pieces_render in *.
  by apply sink_appends_spec.
Qed.

(** ** A client that reads keep-alive responses *)

Fixpoint skip_header_lines (fuel : nat) (q : bytes) : option bytes :=
  match fuel with
  | O => None
  | S fuel' =>
      match HttpContext.split_line q with
      | Some ([], rest) => Some rest
      | Some (_, rest) => skip_header_lines fuel' rest
      | None => None
      end
  end.

(** The body of the first response of [q] and the bytes after it. *)
Definition client_read (q : bytes) : option (bytes * bytes) :=
  '(_, q1) ← HttpContext.split_line q;
  '(l, q2) ← HttpContext.split_line q1;
  if is_prefix (lit "Content-Length: ") l
  then
    q3 ← skip_header_lines (S (length q2)) q2;
    let n := atoi (zdrop 16 l) in
    if n <=? zlen q3 then Some (ztake n q3, zdrop n q3) else None
  else None.

Lemma skip_header_lines_spec fuel hs q :
  Forall (fun h : bytes * bytes => CR ∉ h.1 /\ CR ∉ h.2) hs -> (length hs < fuel)%nat ->
  skip_header_lines fuel (concat (map render_header hs) ++ CRLF ++ q) = Some q.
Proof.
  intros Hhs. revert fuel. induction Hhs as [|h hs [Hk Hv] Hhs IH]; intros [|fuel] Hf; simpl in Hf; [lia| |lia|].
  - cbn [skip_header_lines map concat app]. change (CRLF ++ q) with ([] ++ CRLF ++ q).
    by rewrite HttpContext.split_line_line by set_solver.
  - cbn [skip_header_lines map concat]. unfold render_header at 1. rewrite <- !app_assoc.
    rewrite (app_assoc (lit ": ")), (app_assoc h.1), HttpContext.split_line_line.
    + destruct (h.1 ++ lit ": " ++ h.2) as [|c l] eqn:E; [|by rewrite IH by lia].
      apply (f_equal length) in E. rewrite !length_app in E. simpl in E. lia.
    + assert (CR ∉ lit ": ") by by_compute. rewrite !elem_of_app. tauto.
Qed.

Lemma CR_not_in_dec n : CR ∉ dec n.
Proof.
  unfold dec. assert (forall m, CR ∉ udec m) as Hu.
  { intros m Hin. pose proof (udec_digits m) as Hd. rewrite Forall_forall in Hd.
    apply Hd in Hin. by vm_compute in Hin. }
  case_decide; [|apply Hu]. rewrite elem_of_cons. intros [?|?]; [done|]. by eapply Hu.
Qed.

Lemma client_read_render r rest : closeConnection_ r = false -> CR ∉ statusMessage_ r ->
  Forall (fun h : bytes * bytes => CR ∉ h.1 /\ CR ∉ h.2) (headers_ r) ->
  client_read (render r ++ rest) = Some (body_ r, rest).
Proof.
  intros Hclose Hmsg Hhs. unfold client_read, render, framing. rewrite Hclose, <- !app_assoc.
  rewrite HttpContext.split_line_line.
  2: { unfold status_line. assert (CR ∉ lit "HTTP/1.1 ") by by_compute. assert (CR ∉ lit " ") by by_compute.
       pose proof (CR_not_in_dec (code_value (statusCode_ r))). rewrite !elem_of_app. tauto. }
  cbn [mbind option_bind]. rewrite (app_assoc (lit "Content-Length: ")), HttpContext.split_line_line.
  2: { assert (CR ∉ lit "Content-Length: ") by by_compute. pose proof (CR_not_in_dec (zlen (body_ r))).
       rewrite !elem_of_app. tauto. }
  cbn [mbind option_bind].
  rewrite (proj2 (is_prefix_spec _ _)) by (by eexists).
  rewrite (app_assoc (lit "Connection: Keep-Alive")).
  change ((lit "Connection: Keep-Alive" ++ CRLF) ++ concat (map render_header (headers_ r)) ++ CRLF ++ body_ r ++ rest)
    with (concat (map render_header ((lit "Connection", lit "Keep-Alive") :: headers_ r)) ++ CRLF ++ body_ r ++ rest).
  rewrite skip_header_lines_spec.
  2: { constructor; [split; by_compute|done]. }
  2: { rewrite !length_app. cbn [map concat length]. rewrite length_app.
       assert (length (headers_ r) <= length (concat (map render_header (headers_ r))))%nat as Hle.
       { induction (headers_ r) as [|h hs IH]; simpl; [lia|]. rewrite length_app.
         inversion Hhs; subst. unfold render_header at 1. rewrite !length_app. simpl.
         specialize (IH ltac:(done)). lia. }
       simpl. lia. }
  cbn [mbind option_bind].
  rewrite (zdrop_app_exact (lit "Content-Length: ")) by done.
  rewrite <- (app_nil_r (dec _)), atoi_dec by done.
  rewrite (proj2 (Z.leb_le _ _)) by (rewrite zlen_app; pose proof (zlen_nonneg rest); lia).
  by rewrite ztake_app_exact, zdrop_app_exact by done.
Qed.

(** The bodies of the first [n] responses. *)
Fixpoint client_reads (n : nat) (q : bytes) : option (list bytes * bytes) :=
  match n with
  | O => Some ([], q)
  | S n' => '(b, q1) ← client_read q; '(bs, q2) ← client_reads n' q1; Some (b :: bs, q2)
  end.

(** A response the client can read. *)
Definition readable_response (r : t) : Prop :=
  closeConnection_ r = false /\ CR ∉ statusMessage_ r
  /\ Forall (fun h : bytes * bytes => CR ∉ h.1 /\ CR ∉ h.2) (headers_ r).

Lemma client_reads_render rs rest : Forall readable_response rs ->
  client_reads (length rs) (concat (map render rs) ++ rest) = Some (map body_ rs, rest).
Proof.
  induction 1 as [|r rs (Hc & Hm & Hh) Hrs IH]; [done|]. cbn [client_reads length map concat].
  rewrite <- app_assoc, client_read_render by done. cbn [mbind option_bind]. rewrite IH. done.
Qed.

(** C30. A kept-alive response is self-delimiting: [appendToBuffer] writes the
    status line, the framing headers, the header fields in order, the blank
    line and the body at the end of the buffer, and a client that trusts
    [Content-Length] reads back exactly the body, whatever follows it. *)
Theorem appendToBuffer_roundtrip (r : t) (b : Buffer.t) (rest : bytes)
    (Hb : Buffer.wf b) (Hroom : Buffer.m_writerIndex b + zlen (render r) <= Buffer.max_size)
    (Hlen : zlen (render r) < 2 ^ 31)
    (Hclose : closeConnection_ r = false) (Hmsg : CR ∉ statusMessage_ r)
    (Hhs : Forall (fun h => CR ∉ h.1 /\ CR ∉ h.2) (headers_ r)) :
  exists b', appendToBuffer r b = Ret b' /\ Buffer.wf b'
    /\ Buffer.content b' = Buffer.content b ++ render r
    /\ client_read (render r ++ rest) = Some (body_ r, rest).
Proof.
  destruct (appendToBuffer_spec r b (zlen (render r))) as (b' & -> & Hc & Hwf & _).
  - assert (zlen (body_ r) <= zlen (render r)); [|lia].
    unfold render. rewrite !zlen_app.
    pose proof (zlen_nonneg (status_line r)). pose proof (zlen_nonneg (framing r)).
    pose proof (zlen_nonneg (concat (map render_header (headers_ r)))). pose proof (zlen_nonneg CRLF). lia.
  - done.
  - lia.
  - exists b'. repeat (split; [done|]). by apply client_read_render.
Qed.

Definition demo : t := mk [(lit "Server", lit "Muduo")] k200Ok (lit "OK") false (lit "hi" ++ CRLF).

Lemma appendToBuffer_roundtrip_witness :
  exists b', appendToBuffer demo HttpContext.eb = Ret b' /\ Buffer.wf b'
    /\ Buffer.content b' = Buffer.content HttpContext.eb ++ render demo
    /\ client_read (render demo ++ lit "HTTP") = Some (lit "hi" ++ CRLF, lit "HTTP").
Proof.
  apply (appendToBuffer_roundtrip demo HttpContext.eb (lit "HTTP")).
  - split; vm_compute; congruence.
  - vm_compute. congruence.
  - vm_compute. reflexivity.
  - reflexivity.
  - by_compute.
  - repeat constructor; by_compute.
Defined.

End HttpResponse.

Module Mimetype.

(** The table [Mimetype::init] builds; [pthread_once] builds it once. *)
Definition mime : smap bytes :=
  fold_left (fun m kv => map_set kv.1 kv.2 m)
    [(lit ".html", lit "text/html"); (lit ".css", lit "text/css"); (lit ".avi", lit "video/x-msvideo");
     (lit ".bmp", lit "image/bmp"); (lit ".c", lit "text/plain"); (lit ".doc", lit "application/msword");
     (lit ".gif", lit "image/gif"); (lit ".gz", lit "application/x-gzip"); (lit ".htm", lit "text/html");
     (lit ".ico", lit "image/x-icon"); (lit ".jpg", lit "image/jpeg"); (lit ".png", lit "image/png");
     (lit ".txt", lit "text/plain"); (lit ".mp3", lit "audio/mp3"); (lit "default", lit "text/html")] [].

(** [mime[k]] of a missing key is the empty string. *)
Definition getMime (suffix : bytes) : bytes :=
  match map_get suffix mime with
  | None => default [] (map_get (lit "default") mime)
  | Some v => v
  end.

Lemma getMime_default suffix : map_get suffix mime = None -> getMime suffix = lit "text/html".
Proof. unfold getMime. by intros ->. Qed.

End Mimetype.
