(* ===== verification/LFUCache.v ===== *)
(** cache/LFUCache.h and cache/LFUCache.cpp, at the level of the code: a heap
    of list nodes, two intrusive doubly linked lists (of frequencies and, in
    each frequency, of keys) and two hash maps into them.  Every dereference
    and every [delete] is checked against the heap. *)
From S2P Require Import Prelude.

Module LFUCache.

(** A pointer to a [Node<T>]. *)
Inductive ptr (T : Type) := NULL | Ptr (l : positive).
Arguments NULL {T}.
Arguments Ptr {T} l.

#[global] Instance ptr_eq_dec T : EqDecision (ptr T).
Proof. solve_decision. Defined.

Definition non_null {T} (p : ptr T) : bool := match p with NULL => false | Ptr _ => true end.

Record Node (T : Type) := mkNode { value : T; pre : ptr T; next : ptr T }.
Arguments mkNode {T} value pre next.
Arguments value {T} n.
Arguments pre {T} n.
Arguments next {T} n.

Record Key := mkKey { key : bytes; kvalue : bytes }.
Abbreviation key_node := (ptr Key).

Record KeyList := mkKeyList { freq : Z; kl_head : key_node; kl_last : key_node }.
Abbreviation freq_node := (ptr KeyList).

Abbreviation heap T := (gmap positive (Node T)).

(** The two heaps, the next address to hand out, and the members of
    [LFUCache]; the mutex is held through every operation. *)
Record cache := mk {
  kheap : heap Key;
  fheap : heap KeyList;
  fresh : positive;
  head : freq_node;
  capacity : Z;
  kmap : gmap bytes key_node;
  fmap : gmap bytes freq_node
}.

Abbreviation M := (ST cache).

(** Which heap the nodes of a type live in. *)
Class Stored (T : Type) := {
  get_heap : cache -> heap T;
  put_heap : heap T -> cache -> cache;
  blank : T
}.
#[global] Instance Stored_Key : Stored Key := {
  get_heap := kheap;
  put_heap h s := mk h (fheap s) (fresh s) (head s) (capacity s) (kmap s) (fmap s);
  blank := mkKey [] []
}.
#[global] Instance Stored_KeyList : Stored KeyList := {
  get_heap := fheap;
  put_heap h s := mk (kheap s) h (fresh s) (head s) (capacity s) (kmap s) (fmap s);
  blank := mkKeyList 0 NULL NULL
}.

Definition set_head (p : freq_node) (s : cache) : cache :=
  mk (kheap s) (fheap s) (fresh s) p (capacity s) (kmap s) (fmap s).
Definition set_capacity (c : Z) (s : cache) : cache :=
  mk (kheap s) (fheap s) (fresh s) (head s) c (kmap s) (fmap s).
Definition set_kmap (m : gmap bytes key_node) (s : cache) : cache :=
  mk (kheap s) (fheap s) (fresh s) (head s) (capacity s) m (fmap s).
Definition set_fmap (m : gmap bytes freq_node) (s : cache) : cache :=
  mk (kheap s) (fheap s) (fresh s) (head s) (capacity s) (kmap s) m.
Definition set_fresh (p : positive) (s : cache) : cache :=
  mk (kheap s) (fheap s) p (head s) (capacity s) (kmap s) (fmap s).

Section memory.
Context {T : Type} `{Stored T}.

Definition load (p : ptr T) : M (Node T) := fun s =>
  match p with
  | NULL => Crash UndefinedBehaviour
  | Ptr l => n ← deref (get_heap s !! l); Ret (n, s)
  end.

Definition store (p : ptr T) (n : Node T) : M unit := fun s =>
  match p with
  | NULL => Crash UndefinedBehaviour
  | Ptr l => _ ← deref (get_heap s !! l); Ret (tt, put_heap (<[l := n]> (get_heap s)) s)
  end.

(** [new Node<T>()] value-initialises the node. *)
Definition new_node : M (ptr T) := fun s =>
  let l := fresh s in
  Ret (Ptr l, put_heap (<[l := mkNode blank NULL NULL]> (get_heap s)) (set_fresh (Pos.succ l) s)).

Definition delete_node (p : ptr T) : M unit := fun s =>
  match p with
  | NULL => Ret (tt, s)
  | Ptr l => _ ← deref (get_heap s !! l); Ret (tt, put_heap (delete l (get_heap s)) s)
  end.

Definition setPre (this p : ptr T) : M unit :=
  n ← load this; store this (mkNode (value n) p (next n)).
Definition setNext (this p : ptr T) : M unit :=
  n ← load this; store this (mkNode (value n) (pre n) p).
Definition getPre (this : ptr T) : M (ptr T) := n ← load this; mret (pre n).
Definition getNext (this : ptr T) : M (ptr T) := n ← load this; mret (next n).
Definition getValue (this : ptr T) : M T := n ← load this; mret (value n).
Definition setValue (this : ptr T) (v : T) : M unit :=
  n ← load this; store this (mkNode v (pre n) (next n)).
End memory.

(** Signed addition; overflow is undefined. *)
Definition int_add (a b : Z) : M Z :=
  if bool_decide (- 2 ^ 31 <= a + b < 2 ^ 31) then mret (a + b) else crash UndefinedBehaviour.

(** ** Methods of [KeyList]; [this] is the node that holds the list. *)
Module KeyListM.

Definition init (this : freq_node) (fq : Z) : M unit :=
  v ← getValue this;
  n ← new_node;
  _ ← setValue this (mkKeyList fq n n);
  setNext n NULL.

(** The loop of [destory], one node per round. *)
Fixpoint destory_loop (fuel : nat) (this : freq_node) : M unit :=
  match fuel with
  | O => crash FuelExhausted
  | S fuel' =>
      v ← getValue this;
      if non_null (kl_head v)
      then
        let pre := kl_head v in
        h ← getNext (kl_head v);
        _ ← setValue this (mkKeyList (freq v) h (kl_last v));
        _ ← delete_node pre;
        destory_loop fuel' this
      else mret tt
  end.

(** Every round deletes a node: the number of nodes bounds the rounds. *)
Definition destory (this : freq_node) : M unit := fun s =>
  destory_loop (S (size (kheap s))) this s.

Definition getFreq (this : freq_node) : M Z := v ← getValue this; mret (freq v).

Definition add (this : freq_node) (node : key_node) : M unit :=
  v ← getValue this;
  hn ← getNext (kl_head v);
  _ ← (if non_null hn then setPre hn node
       else setValue this (mkKeyList (freq v) (kl_head v) node));
  hn' ← getNext (kl_head v);
  _ ← setNext node hn';
  _ ← setPre node (kl_head v);
  setNext (kl_head v) node.

Definition del (this : freq_node) (node : key_node) : M unit :=
  p ← getPre node;
  n ← getNext node;
  _ ← setNext p n;
  n' ← getNext node;
  if non_null n'
  then p' ← getPre node; setPre n' p'
  else
    p' ← getPre node;
    v ← getValue this;
    setValue this (mkKeyList (freq v) (kl_head v) p').

Definition isEmpty (this : freq_node) : M bool :=
  v ← getValue this; mret (bool_decide (kl_head v = kl_last v)).

Definition getLast (this : freq_node) : M key_node := v ← getValue this; mret (kl_last v).

End KeyListM.

(** ** Methods of [LFUCache] *)

(** The object before [init]: static storage, all zero. *)
Definition static_cache : cache := mk ∅ ∅ 1%positive NULL 0 ∅ ∅.

Definition init : M unit :=
  _ ← modify (set_capacity 100);
  h ← new_node;
  _ ← modify (set_head h);
  _ ← KeyListM.init h 0;
  setNext h NULL.

(** [del(freq_node&)] *)
Definition del (node : freq_node) : M unit :=
  p ← getPre node;
  n ← getNext node;
  _ ← setNext p n;
  n' ← getNext node;
  _ ← (if non_null n' then p' ← getPre node; setPre n' p' else mret tt);
  _ ← KeyListM.destory node;
  delete_node node.

(** The new frequency node of [addfreq], linked behind [nowf]. *)
Definition insert_freq (nowf : freq_node) (f : Z) : M freq_node :=
  nxt ← new_node;
  _ ← KeyListM.init nxt f;
  n1 ← getNext nowf;
  _ ← (if non_null n1 then setPre n1 nxt else mret tt);
  n2 ← getNext nowf;
  _ ← setNext nxt n2;
  _ ← setNext nowf nxt;
  _ ← setPre nxt nowf;
  mret nxt.

(** The frequency node behind [nowf] that holds its frequency plus one. *)
Definition next_freq (nowf : freq_node) : M freq_node :=
  n ← getNext nowf;
  f ← KeyListM.getFreq nowf;
  f1 ← int_add f 1;
  insert ← (if non_null n then fn ← KeyListM.getFreq n; mret (negb (fn =? f1)) else mret true);
  if insert : bool then insert_freq nowf f1 else getNext nowf.

Definition addfreq (nowk : key_node) (nowf : freq_node) : M unit :=
  nxt ← next_freq nowf;
  kv ← getValue nowk;
  _ ← modify (fun s => set_fmap (<[key kv := nxt]> (fmap s)) s);
  hd ← gets head;
  _ ← (if negb (bool_decide (nowf = hd)) then KeyListM.del nowf nowk else mret tt);
  _ ← KeyListM.add nxt nowk;
  if negb (bool_decide (nowf = hd))
  then e ← KeyListM.isEmpty nowf; if e : bool then del nowf else mret tt
  else mret tt.

(** [kmap[key]] inserts a null pointer for a missing key. *)
Definition kmap_at (k : bytes) : M key_node :=
  m ← gets kmap;
  match m !! k with
  | Some p => mret p
  | None => _ ← modify (set_kmap (<[k := NULL]> m)); mret NULL
  end.
Definition fmap_at (k : bytes) : M freq_node :=
  m ← gets fmap;
  match m !! k with
  | Some p => mret p
  | None => _ ← modify (set_fmap (<[k := NULL]> m)); mret NULL
  end.

(** [get(key, v)]: the result and the new [v]. *)
Definition get (k v : bytes) : M (bool * bytes) :=
  c ← gets capacity;
  if c =? 0 then mret (false, v)
  else
    fm ← gets fmap;
    if bool_decide (is_Some (fm !! k))
    then
      nowk ← kmap_at k;
      nowf ← fmap_at k;
      kv ← getValue nowk;
      _ ← addfreq nowk nowf;
      mret (true, v ++ kvalue kv)
    else mret (false, v).

(** The branch of [set] for a full cache. *)
Definition evict : M unit :=
  hd ← gets head;
  headnxt ← getNext hd;
  last ← KeyListM.getLast headnxt;
  _ ← KeyListM.del headnxt last;
  lk ← getValue last;
  _ ← modify (fun s => set_kmap (delete (key lk) (kmap s)) s);
  lk' ← getValue last;
  _ ← modify (fun s => set_fmap (delete (key lk') (fmap s)) s);
  _ ← delete_node last;
  e ← KeyListM.isEmpty headnxt;
  if e : bool then del headnxt else mret tt.

(** The new node of [set]. *)
Definition new_key (k v : bytes) : M key_node :=
  nowk ← new_node;
  nv ← getValue nowk;
  _ ← setValue nowk (mkKey k (kvalue nv));
  nv' ← getValue nowk;
  _ ← setValue nowk (mkKey (key nv') v);
  mret nowk.

Definition set (k v : bytes) : M unit :=
  c ← gets capacity;
  if c =? 0 then mret tt
  else
    km ← gets kmap;
    _ ← (if Z.of_nat (size km) =? u64 c then evict else mret tt);
    nowk ← new_key k v;
    hd ← gets head;
    _ ← addfreq nowk hd;
    modify (fun s => set_kmap (<[k := nowk]> (kmap s)) s).

(** The destructor's loop: every round deletes a frequency node. *)
Fixpoint destroy_loop (fuel : nat) : M unit :=
  match fuel with
  | O => crash FuelExhausted
  | S fuel' =>
      hd ← gets head;
      if non_null hd
      then
        n ← getNext hd;
        _ ← modify (set_head n);
        _ ← KeyListM.destory hd;
        _ ← delete_node hd;
        destroy_loop fuel'
      else mret tt
  end.
Definition destroy : M unit := fun s => destroy_loop (S (size (fheap s))) s.

End LFUCache.
