(* ===== verification/LFUHeap.v ===== *)
(** Doubly linked lists in a heap, and the shape of the two heaps of
    [LFUCache]: which cells they hold when the cache is the sequence of
    frequency buckets [bs]. *)
From S2P Require Import Prelude LFUCache.
Import LFUCache.

Abbreviation cells T := (list (positive * Node T)).

(** ** A heap that holds exactly the given cells *)
Definition heap_is {T} (h : heap T) (cs : cells T) : Prop :=
  h = list_to_map cs /\ NoDup cs.*1.

Section heap_is.
Context {T : Type}.
Implicit Types (h : heap T) (cs : cells T).

Lemma heap_is_perm h cs cs' : heap_is h cs -> cs ≡ₚ cs' -> heap_is h cs'.
Proof.
  intros [-> Hnd] Hp. split; [by apply list_to_map_proper|]. by rewrite <- Hp.
Qed.

Lemma heap_NoDup h cs : heap_is h cs -> NoDup cs.*1.
Proof. by intros [_ ?]. Qed.

Lemma heap_is_nil h : heap_is h [] -> h = ∅.
Proof. by intros [-> _]. Qed.

Lemma heap_lookup h cs l n : heap_is h cs -> (l, n) ∈ cs -> h !! l = Some n.
Proof. intros [-> ?]. by apply elem_of_list_to_map_1. Qed.

Lemma heap_update h cs cs' l n n' : heap_is h cs -> cs ≡ₚ (l, n) :: cs' ->
  heap_is (<[l := n']> h) ((l, n') :: cs').
Proof.
  intros Hh Hp. destruct (heap_is_perm _ _ _ Hh Hp) as [-> Hnd]. split; [|done].
  rewrite !list_to_map_cons. by rewrite insert_insert_eq.
Qed.

Lemma heap_alloc h cs l n : heap_is h cs -> l ∉ cs.*1 -> heap_is (<[l := n]> h) ((l, n) :: cs).
Proof. intros [-> Hnd] Hl. split; [done|]. simpl. by constructor. Qed.

Lemma heap_free h cs cs' l n : heap_is h cs -> cs ≡ₚ (l, n) :: cs' -> heap_is (delete l h) cs'.
Proof.
  intros Hh Hp. destruct (heap_is_perm _ _ _ Hh Hp) as [-> Hnd]. simpl in Hnd.
  apply NoDup_cons in Hnd as [Hl Hnd]. split; [|done].
  rewrite list_to_map_cons. apply delete_insert_id. by apply not_elem_of_list_to_map_1.
Qed.

(** The first cell. *)
Lemma heap_lookup_1 h cs l n : heap_is h ((l, n) :: cs) -> h !! l = Some n.
Proof. intros Hh. apply (heap_lookup _ _ _ _ Hh). by left. Qed.
Lemma heap_update_1 h cs l n n' : heap_is h ((l, n) :: cs) -> heap_is (<[l := n']> h) ((l, n') :: cs).
Proof. intros Hh. by eapply heap_update. Qed.
Lemma heap_free_1 h cs l n : heap_is h ((l, n) :: cs) -> heap_is (delete l h) cs.
Proof. intros Hh. by eapply heap_free. Qed.

Lemma heap_size h cs : heap_is h cs -> size h = length cs.
Proof.
  intros [-> Hnd]. rewrite <- (length_fmap fst).
  rewrite <- (size_list_to_set (C := gset positive) cs.*1) by done.
  by rewrite <- dom_list_to_map_L, size_dom.
Qed.
End heap_is.

(** Remove the cell of [l] from a list of cells, syntactically. *)
Ltac remove_cell l cs :=
  lazymatch cs with
  | (l, _) :: ?r => r
  | ?x :: ?r => let r' := remove_cell l r in constr:(x :: r')
  | ?a ++ ?b =>
      match goal with
      | _ => let a' := remove_cell l a in constr:(a' ++ b)
      | _ => let b' := remove_cell l b in constr:(a ++ b')
      end
  end.
(** Apply the updates of the goal's heap, innermost first. *)
Ltac heap_updates Hh :=
  lazymatch type of Hh with
  | heap_is ?h ?cs =>
    match goal with
    | |- heap_is ?g _ =>
      match g with
      | context [<[?l := ?n]> h] =>
          let cs' := remove_cell l cs in
          let Hh' := fresh in
          pose proof (heap_update h cs cs' l _ n Hh ltac:(solve_Permutation)) as Hh';
          heap_updates Hh'
      end
    | |- heap_is _ _ => refine (heap_is_perm _ _ _ Hh _); solve_Permutation
    end
  end.

(** ** Segments of a doubly linked list

    [seg p xs q]: the cells of the nodes [xs], the first one preceded by [p],
    the last one followed by [q]. *)
Section seg.
Context {T : Type}.
Implicit Types (xs ys : list (positive * T)) (p q : ptr T).

Definition first q xs : ptr T := match xs with [] => q | (l, _) :: _ => Ptr l end.
Fixpoint final p xs : ptr T := match xs with [] => p | (l, _) :: xs' => final (Ptr l) xs' end.
Fixpoint seg p xs q : cells T :=
  match xs with
  | [] => []
  | (l, v) :: xs' => (l, mkNode v p (first q xs')) :: seg (Ptr l) xs' q
  end.

Lemma seg_app p xs ys q : seg p (xs ++ ys) q = seg p xs (first q ys) ++ seg (final p xs) ys q.
Proof.
  revert p. induction xs as [|[l v] xs IH]; intros p; simpl; [done|].
  rewrite IH. by destruct xs as [|[??]?].
Qed.
Lemma final_app p xs ys : final p (xs ++ ys) = final (final p xs) ys.
Proof. revert p. induction xs as [|[l v] xs IH]; intros p; simpl; [done|]. apply IH. Qed.
Lemma final_cons_Ptr p l v xs : exists l', final p ((l, v) :: xs) = Ptr l' /\ l' ∈ ((l, v) :: xs).*1.
Proof.
  revert p l v. induction xs as [|[l1 v1] xs IH]; intros p l v; simpl.
  - exists l. set_solver.
  - destruct (IH (Ptr l) l1 v1) as (l' & He & Hin). exists l'. simpl in *. split; [done|set_solver].
Qed.
Lemma seg_locs p xs q : (seg p xs q).*1 = xs.*1.
Proof. revert p. induction xs as [|[l v] xs IH]; intros p; simpl; [done|]. by rewrite IH. Qed.
Lemma length_seg p xs q : length (seg p xs q) = length xs.
Proof. by rewrite <- (length_fmap fst), seg_locs, length_fmap. Qed.

Context (h : heap T) (F : cells T).

(** Reading a node of a list, and changing its value. *)
Lemma seg_lookup p xs l v ys q : heap_is h (seg p (xs ++ (l, v) :: ys) q ++ F) ->
  h !! l = Some (mkNode v (final p xs) (first q ys)).
Proof. intros Hh. apply (heap_lookup _ _ _ _ Hh). rewrite seg_app. simpl. set_solver. Qed.

Lemma seg_lookup_2 p xs l1 v1 l v ys q : heap_is h (seg p (xs ++ (l1, v1) :: (l, v) :: ys) q ++ F) ->
  h !! l = Some (mkNode v (Ptr l1) (first q ys)).
Proof. intros Hh. apply (heap_lookup _ _ _ _ Hh). rewrite seg_app. simpl. set_solver. Qed.

Lemma seg_lookup_3 p xs l1 v1 l2 v2 l v ys q :
  heap_is h (seg p (xs ++ (l1, v1) :: (l2, v2) :: (l, v) :: ys) q ++ F) ->
  h !! l = Some (mkNode v (Ptr l2) (first q ys)).
Proof. intros Hh. apply (heap_lookup _ _ _ _ Hh). rewrite seg_app. simpl. set_solver. Qed.

Lemma seg_set_value p xs l v ys q v' : heap_is h (seg p (xs ++ (l, v) :: ys) q ++ F) ->
  heap_is (<[l := mkNode v' (final p xs) (first q ys)]> h) (seg p (xs ++ (l, v') :: ys) q ++ F).
Proof.
  intros Hh. rewrite seg_app in Hh |- *. simpl in *.
  heap_updates Hh.
Qed.

(** Unlinking the node [l], which has a predecessor. *)
Lemma seg_unlink_last p xs lp vp l v : heap_is h (seg p (xs ++ [(lp, vp); (l, v)]) NULL ++ F) ->
  heap_is (<[lp := mkNode vp (final p xs) NULL]> h)
    ((l, mkNode v (Ptr lp) NULL) :: seg p (xs ++ [(lp, vp)]) NULL ++ F).
Proof.
  intros Hh. rewrite seg_app in Hh |- *. simpl in *.
  heap_updates Hh.
Qed.

Lemma seg_unlink_mid p xs lp vp l v ln vn ys :
  heap_is h (seg p (xs ++ (lp, vp) :: (l, v) :: (ln, vn) :: ys) NULL ++ F) ->
  heap_is (<[ln := mkNode vn (Ptr lp) (first NULL ys)]> (<[lp := mkNode vp (final p xs) (Ptr ln)]> h))
    ((l, mkNode v (Ptr lp) (Ptr ln)) :: seg p (xs ++ (lp, vp) :: (ln, vn) :: ys) NULL ++ F).
Proof.
  intros Hh. rewrite seg_app in Hh |- *. simpl in *.
  heap_updates Hh.
Qed.

(** Linking the detached node [l] behind the node [lp]. *)
Lemma seg_link_last p xs lp vp l v p0 n0 :
  heap_is h ((l, mkNode v p0 n0) :: seg p (xs ++ [(lp, vp)]) NULL ++ F) ->
  heap_is (<[lp := mkNode vp (final p xs) (Ptr l)]> (<[l := mkNode v (Ptr lp) NULL]> h))
    (seg p (xs ++ [(lp, vp); (l, v)]) NULL ++ F).
Proof.
  intros Hh. rewrite seg_app in Hh |- *. simpl in *.
  heap_updates Hh.
Qed.

Lemma seg_link_mid p xs lp vp l v p0 n0 ln vn ys :
  heap_is h ((l, mkNode v p0 n0) :: seg p (xs ++ (lp, vp) :: (ln, vn) :: ys) NULL ++ F) ->
  heap_is (<[lp := mkNode vp (final p xs) (Ptr l)]> (<[l := mkNode v (Ptr lp) (Ptr ln)]>
      (<[ln := mkNode vn (Ptr l) (first NULL ys)]> h)))
    (seg p (xs ++ (lp, vp) :: (l, v) :: (ln, vn) :: ys) NULL ++ F).
Proof.
  intros Hh. rewrite seg_app in Hh |- *. simpl in *.
  heap_updates Hh.
Qed.
End seg.

(** ** The buckets *)
Record bucket := mkBucket { b_loc : positive; b_freq : Z; b_sent : positive; b_items : list (positive * Key) }.

Definition b_nodes (b : bucket) : list (positive * Key) := (b_sent b, blank) :: b_items b.
Definition b_cells (b : bucket) : cells Key := seg NULL (b_nodes b) NULL.
Definition b_last (b : bucket) : key_node := final NULL (b_nodes b).
Definition b_value (b : bucket) : KeyList := mkKeyList (b_freq b) (Ptr (b_sent b)) (b_last b).
Definition b_node (b : bucket) : positive * KeyList := (b_loc b, b_value b).
Definition with_items (b : bucket) (its : list (positive * Key)) : bucket :=
  mkBucket (b_loc b) (b_freq b) (b_sent b) its.

Definition kcells (bs : list bucket) : cells Key := concat (map b_cells bs).

(** The heaps hold the buckets [bs], the detached cells [KF] and [FF], and
    nothing else. *)
Record shape (s : cache) (bs : list bucket) (KF : cells Key) (FF : cells KeyList) : Prop := mkShape {
  shape_k : heap_is (kheap s) (kcells bs ++ KF);
  shape_f : heap_is (fheap s) (seg NULL (map b_node bs) NULL ++ FF);
  shape_kfresh : Forall (fun l => l < fresh s)%positive (kcells bs ++ KF).*1;
  shape_ffresh : Forall (fun l => l < fresh s)%positive (map b_loc bs ++ FF.*1)
}.

(** The members that a change of the heaps leaves alone. *)
Record same (s s' : cache) : Prop := mkSame {
  same_head : head s' = head s;
  same_capacity : capacity s' = capacity s;
  same_kmap : kmap s' = kmap s;
  same_fmap : fmap s' = fmap s
}.

#[export] Instance same_preorder : PreOrder same.
Proof. split; [by split|]. intros s1 s2 s3 [] []. split; congruence. Qed.

Lemma b_nodes_with_items b its : b_nodes (with_items b its) = (b_sent b, blank) :: its.
Proof. done. Qed.
Lemma with_items_id b : with_items b (b_items b) = b.
Proof. by destruct b. Qed.

Lemma kcells_mid bs1 b bs2 KF : kcells (bs1 ++ b :: bs2) ++ KF ≡ₚ b_cells b ++ (kcells (bs1 ++ bs2) ++ KF).
Proof. unfold kcells. rewrite !map_app. simpl. rewrite !concat_app. simpl. solve_Permutation. Qed.

Lemma kcells_locs bs : (kcells bs).*1 = concat (map (fun b => (b_nodes b).*1) bs).
Proof.
  unfold kcells. induction bs as [|b bs IH]; simpl; [done|].
  rewrite fmap_app, IH. unfold b_cells. by rewrite seg_locs.
Qed.
