(* ===== verification/LFUOps.v ===== *)
(** What the pointer operations of cache/LFUCache.cpp do to the buckets. *)
From S2P Require Import Prelude LFUCache LFUHeap.
Import LFUCache.

(** Symbolic execution of pointer code over known cells. *)
Ltac unfold_ops :=
  unfold setPre, setNext, getPre, getNext, getValue, setValue, load, store, new_node, delete_node,
    gets, modify, crash, mret, ST_ret, mbind, ST_bind, outcome_bind, deref; cbn.
Ltac run := unfold_ops; repeat (progress (simplify_map_eq; cbn)); rewrite ?insert_insert_eq.

(** [l <> l'] from [NoDup] of a list of locations that shows both. *)
Ltac loc_ne :=
  repeat match goal with H : NoDup (_ ++ _ :: _).*1 |- _ => rewrite fmap_app in H; apply NoDup_app in H as (_ & _ & H) end;
  cbn in *; rewrite ?NoDup_cons in *; set_solver.

(** The cell in front of a node of a bucket. *)
Lemma nodes_before b xs l v ys : b_items b = xs ++ (l, v) :: ys ->
  exists xs0 lp vp, b_nodes b = xs0 ++ (lp, vp) :: (l, v) :: ys
    /\ (forall its, (b_sent b, blank) :: xs ++ its = xs0 ++ (lp, vp) :: its).
Proof.
  intros Hb. destruct (exists_last (l := (b_sent b, blank) :: xs)) as (xs0 & [lp vp] & He); [done|].
  exists xs0, lp, vp. assert (forall its, (b_sent b, blank) :: xs ++ its = xs0 ++ (lp, vp) :: its) as H.
  { intros its. change ((b_sent b, blank) :: xs ++ its) with (((b_sent b, blank) :: xs) ++ its).
    by rewrite He, <- app_assoc. }
  split; [|done]. unfold b_nodes. by rewrite Hb, H.
Qed.

Section ops.
Context (s : cache) (bs1 : list bucket) (b : bucket) (bs2 : list bucket) (KF : cells Key) (FF : cells KeyList).
Context (Hs : shape s (bs1 ++ b :: bs2) KF FF).

Lemma shape_k_mid : heap_is (kheap s) (b_cells b ++ (kcells (bs1 ++ bs2) ++ KF)).
Proof. eapply heap_is_perm; [apply Hs|apply kcells_mid]. Qed.

Lemma shape_f_mid : heap_is (fheap s) (seg NULL (map b_node bs1 ++ (b_loc b, b_value b) :: map b_node bs2) NULL ++ FF).
Proof. destruct Hs as [_ Hf _ _]. by rewrite map_app in Hf. Qed.

Lemma lookup_bucket : fheap s !! b_loc b = Some (mkNode (b_value b)
  (final NULL (map b_node bs1)) (first NULL (map b_node bs2))).
Proof. eapply seg_lookup, shape_f_mid. Qed.

Lemma run_getFreq : KeyListM.getFreq (Ptr (b_loc b)) s = Ret (b_freq b, s).
Proof. pose proof lookup_bucket. unfold KeyListM.getFreq. run. done. Qed.

Lemma run_getLast : KeyListM.getLast (Ptr (b_loc b)) s = Ret (b_last b, s).
Proof. pose proof lookup_bucket. unfold KeyListM.getLast. run. done. Qed.

Lemma run_getNext : getNext (Ptr (b_loc b)) s = Ret (first NULL (map b_node bs2), s).
Proof. pose proof lookup_bucket. run. done. Qed.

Lemma run_getValue l v : (l, v) ∈ b_items b -> getValue (Ptr l) s = Ret (v, s).
Proof.
  intros (xs & ys & Hb)%list_elem_of_split. pose proof shape_k_mid as Hk.
  unfold b_cells, b_nodes in Hk. rewrite Hb in Hk.
  pose proof (seg_lookup _ _ _ ((b_sent b, blank) :: xs) _ _ _ _ Hk). run. done.
Qed.

Lemma b_last_empty : NoDup (b_nodes b).*1 -> Ptr (b_sent b) = b_last b <-> b_items b = [].
Proof.
  intros Hnd. unfold b_last, b_nodes. simpl. split; [|by intros ->].
  destruct (b_items b) as [|[l v] its] eqn:E; [done|]. intros He.
  destruct (final_cons_Ptr (Ptr (b_sent b)) l v its) as (l' & Hf & Hin).
  unfold b_nodes in Hnd. rewrite E in Hnd. cbn in *. apply NoDup_cons in Hnd as [Hnd _].
  congruence.
Qed.

Lemma bucket_NoDup : NoDup (b_nodes b).*1.
Proof.
  destruct shape_k_mid as [_ Hnd]. rewrite fmap_app in Hnd. apply NoDup_app in Hnd as [Hnd _].
  unfold b_cells in Hnd. by rewrite seg_locs in Hnd.
Qed.

Lemma run_isEmpty : KeyListM.isEmpty (Ptr (b_loc b)) s = Ret (bool_decide (b_items b = []), s).
Proof.
  pose proof lookup_bucket. unfold KeyListM.isEmpty. run. repeat f_equal.
  apply bool_decide_ext, b_last_empty, bucket_NoDup.
Qed.

(** Rebuild the description of the state from the new middle of the heaps. *)
Lemma shape_intro s' b' KF' : b_loc b' = b_loc b -> fresh s' = fresh s ->
  heap_is (kheap s') (b_cells b' ++ (kcells (bs1 ++ bs2) ++ KF')) ->
  heap_is (fheap s') (seg NULL (map b_node bs1 ++ (b_loc b, b_value b') :: map b_node bs2) NULL ++ FF) ->
  (b_nodes b').*1 ++ KF'.*1 ≡ₚ (b_nodes b).*1 ++ KF.*1 ->
  shape s' (bs1 ++ b' :: bs2) KF' FF.
Proof.
  intros Hl Hfr Hk Hf Hp. destruct Hs as [_ _ Hkf Hff]. split.
  - eapply heap_is_perm; [exact Hk|]. by rewrite kcells_mid.
  - rewrite map_app. simpl. unfold b_node at 2. by rewrite Hl.
  - rewrite Hfr. rewrite kcells_mid, !fmap_app in Hkf |- *. unfold b_cells in *.
    rewrite seg_locs in Hkf |- *.
    eapply Forall_Permutation; [| |exact Hkf]; [done|].
    rewrite !(Permutation_app_swap_app _ (kcells (bs1 ++ bs2)).*1). by rewrite Hp.
  - rewrite Hfr. rewrite map_app in Hff |- *. simpl in *. by rewrite Hl.
Qed.

(** [KeyList::del] takes the node out of its bucket and leaves it detached. *)
Lemma kl_del_spec xs l v ys : b_items b = xs ++ (l, v) :: ys ->
  exists s' p n, KeyListM.del (Ptr (b_loc b)) (Ptr l) s = Ret (tt, s') /\ same s s'
    /\ shape s' (bs1 ++ with_items b (xs ++ ys) :: bs2) ((l, mkNode v p n) :: KF) FF.
Proof.
  intros Hb. destruct (nodes_before _ _ _ _ _ Hb) as (xs0 & lp & vp & Hn & Happ).
  pose proof shape_k_mid as Hk. pose proof shape_f_mid as Hf. pose proof lookup_bucket as Hlb.
  pose proof bucket_NoDup as Hnd. rewrite Hn in Hnd.
  unfold b_cells in Hk. rewrite Hn in Hk.
  pose proof (seg_lookup _ _ _ xs0 _ _ _ _ Hk) as Hlp.
  pose proof (seg_lookup_2 _ _ _ xs0 _ _ _ _ _ _ Hk) as Hll. cbn in Hll, Hlp.
  assert (forall its, b_nodes (with_items b (xs ++ its)) = xs0 ++ (lp, vp) :: its) as Hn' by apply Happ.
  assert (forall p q, (b_nodes (with_items b (xs ++ ys))).*1 ++ ((l, mkNode v p q) :: KF).*1
    ≡ₚ (b_nodes b).*1 ++ KF.*1) as Hp.
  { intros p q. rewrite Hn', Hn, !fmap_app. cbn. solve_Permutation. }
  destruct ys as [|[ln vn] ys].
  - assert (lp <> l) by loc_ne.
    unfold KeyListM.del. run. eexists _, (Ptr lp), NULL. split; [reflexivity|]. split; [done|].
    apply shape_intro; [done|done| | |exact (Hp NULL NULL)].
    + unfold b_cells. rewrite Hn'. 
      eapply heap_is_perm; [exact (seg_unlink_last _ _ _ xs0 _ _ _ _ Hk)|]; solve_Permutation.
    + unfold b_value, b_last. rewrite Hn', final_app. cbn.
      exact (seg_set_value _ _ _ _ _ _ _ _ _ Hf).
  - assert (lp <> l /\ lp <> ln /\ l <> ln) as (?&?&?) by (split_and!; loc_ne).
    pose proof (seg_lookup_3 _ _ _ xs0 _ _ _ _ _ _ _ _ Hk) as Hln.
    unfold KeyListM.del. run. eexists _, (Ptr lp), (Ptr ln). split; [reflexivity|]. split; [done|].
    apply shape_intro; [done|done| | |exact (Hp NULL NULL)].
    + unfold b_cells. rewrite Hn'. 
      eapply heap_is_perm; [exact (seg_unlink_mid _ _ _ xs0 _ _ _ _ _ _ _ Hk)|]; solve_Permutation.
    + unfold b_value, b_last in *. rewrite Hn', final_app in *. rewrite Hn, final_app in Hf. exact Hf.
Qed.

(** [KeyList::add] puts a detached node at the front of the bucket. *)
Lemma kl_add_spec l v p0 n0 KF' : KF = (l, mkNode v p0 n0) :: KF' ->
  exists s', KeyListM.add (Ptr (b_loc b)) (Ptr l) s = Ret (tt, s') /\ same s s'
    /\ shape s' (bs1 ++ with_items b ((l, v) :: b_items b) :: bs2) KF' FF.
Proof.
  intros HKF. pose proof shape_k_mid as Hk. pose proof shape_f_mid as Hf. pose proof lookup_bucket as Hlb.
  assert ((b_nodes (with_items b ((l, v) :: b_items b))).*1 ++ KF'.*1 ≡ₚ (b_nodes b).*1 ++ KF.*1) as Hp.
  { rewrite HKF. cbn. solve_Permutation. }
  rewrite HKF in Hk. clear HKF.
  assert (heap_is (kheap s) ((l, mkNode v p0 n0) :: b_cells b ++ (kcells (bs1 ++ bs2) ++ KF'))) as Hk'.
  { eapply heap_is_perm; [exact Hk|]. solve_Permutation. }
  pose proof (heap_lookup_1 _ _ _ _ Hk') as Hl.
  pose proof (seg_lookup _ _ _ [] _ _ _ _ Hk) as Hsent.
  pose proof (heap_NoDup _ _ Hk') as Hnd. cbn in Hnd.
  assert (b_sent b <> l) by (rewrite !NoDup_cons in Hnd; set_solver).
  unfold b_cells, b_nodes in *. destruct (b_items b) as [|[ln vn] its] eqn:Ei.
  - unfold KeyListM.add. run. eexists. split; [reflexivity|]. split; [done|].
    apply shape_intro; [done|done| | |unfold b_nodes; rewrite ?Ei; exact Hp].
    + exact (seg_link_last _ _ _ [] _ _ _ _ _ _ Hk').
    + exact (seg_set_value _ _ _ _ _ _ _ _ _ Hf).
  - assert (l <> ln /\ b_sent b <> ln) as [??] by (cbn in Hnd; rewrite !NoDup_cons in Hnd; set_solver).
    pose proof (seg_lookup_2 _ _ _ [] _ _ _ _ _ _ Hk) as Hln.
    unfold KeyListM.add. run. eexists. split; [reflexivity|]. split; [done|].
    apply shape_intro; [done|done| | |unfold b_nodes; rewrite ?Ei; exact Hp].
    + exact (seg_link_mid _ _ _ [] _ _ _ _ _ _ _ _ _ Hk').
    + unfold b_value, b_last, b_nodes in *. rewrite Ei in Hf. exact Hf.
Qed.
End ops.

(** ** Freeing *)

(** [KeyList::destory] frees the nodes of the list. *)
Lemma destory_loop_spec nodes fuel s p0 K lf f la p n Fc :
  heap_is (kheap s) (seg p0 nodes NULL ++ K) ->
  heap_is (fheap s) ((lf, mkNode (mkKeyList f (first NULL nodes) la) p n) :: Fc) ->
  (length nodes < fuel)%nat ->
  exists s', KeyListM.destory_loop fuel (Ptr lf) s = Ret (tt, s') /\ same s s' /\ fresh s' = fresh s
    /\ heap_is (kheap s') K /\ heap_is (fheap s') ((lf, mkNode (mkKeyList f NULL la) p n) :: Fc).
Proof.
  revert fuel s p0. induction nodes as [|[l v] nodes IH]; intros [|fuel] s p0 Hk Hf Hl; cbn in Hl; [lia| |lia|].
  - pose proof (heap_lookup_1 _ _ _ _ Hf) as Hlf. cbn in *. run. eexists. split; [reflexivity|]. done.
  - pose proof (heap_lookup_1 _ _ _ _ Hf) as Hlf.
    pose proof (heap_lookup_1 _ _ _ _ Hk) as Hll.
    pose proof (heap_free_1 _ _ _ _ Hk) as Hk'.
    pose proof (heap_update_1 _ _ _ _ (mkNode (mkKeyList f (first NULL nodes) la) p n) Hf) as Hf'.
    edestruct (IH fuel (mk (delete l (kheap s)) (<[lf := mkNode (mkKeyList f (first NULL nodes) la) p n]> (fheap s))
      (fresh s) (head s) (capacity s) (kmap s) (fmap s)) (Ptr l))
      as (s' & Hrun & [] & Hfr & Hk'' & Hf''); [exact Hk'|exact Hf'|lia|].
    exists s'. split_and!; [|by split|done|done|done].
    cbn [KeyListM.destory_loop]. run. exact Hrun.
Qed.

Lemma destory_spec nodes s p0 K lf f la p n Fc :
  heap_is (kheap s) (seg p0 nodes NULL ++ K) ->
  heap_is (fheap s) ((lf, mkNode (mkKeyList f (first NULL nodes) la) p n) :: Fc) ->
  exists s', KeyListM.destory (Ptr lf) s = Ret (tt, s') /\ same s s' /\ fresh s' = fresh s
    /\ heap_is (kheap s') K /\ heap_is (fheap s') ((lf, mkNode (mkKeyList f NULL la) p n) :: Fc).
Proof.
  intros Hk Hf. eapply destory_loop_spec; [done|done|].
  rewrite (heap_size _ _ Hk), length_app, length_seg. lia.
Qed.

Lemma kcells_cons b bs : kcells (b :: bs) = b_cells b ++ kcells bs.
Proof. done. Qed.

(** Bookkeeping for a state without the bucket [b]. *)
Lemma shape_drop s s' bs1 b bs2 KF FF : shape s (bs1 ++ b :: bs2) KF FF -> fresh s' = fresh s ->
  heap_is (kheap s') (kcells (bs1 ++ bs2) ++ KF) ->
  heap_is (fheap s') (seg NULL (map b_node (bs1 ++ bs2)) NULL ++ FF) ->
  shape s' (bs1 ++ bs2) KF FF.
Proof.
  intros [_ _ Hkf Hff] Hfr Hk Hf. split; [done|done| |]; rewrite Hfr.
  - rewrite kcells_mid, fmap_app in Hkf. by apply Forall_app in Hkf as [_ ?].
  - rewrite map_app in Hff |- *. rewrite !Forall_app, ?Forall_app in Hff. cbn in Hff.
    rewrite Forall_cons in Hff. rewrite !Forall_app. tauto.
Qed.

(** [del(freq_node&)] frees a bucket that has a predecessor. *)
Lemma del_spec s bs1 bp b bs2 KF FF : shape s (bs1 ++ bp :: b :: bs2) KF FF ->
  exists s', del (Ptr (b_loc b)) s = Ret (tt, s') /\ same s s' /\ shape s' (bs1 ++ bp :: bs2) KF FF.
Proof.
  intros Hs. assert (shape s ((bs1 ++ [bp]) ++ b :: bs2) KF FF) as Hs' by by rewrite <- app_assoc.
  pose proof (shape_k_mid _ _ _ _ _ _ Hs') as Hk. rewrite <- app_assoc in Hk. cbn in Hk.
  pose proof (shape_f _ _ _ _ Hs) as Hf. rewrite map_app in Hf. cbn [map] in Hf.
  pose proof (heap_NoDup _ _ Hf) as Hnd. rewrite fmap_app, seg_locs in Hnd. apply NoDup_app in Hnd as [Hnd _].
  pose proof (seg_lookup _ _ _ (map b_node bs1) _ _ _ _ Hf) as Hlp.
  pose proof (seg_lookup_2 _ _ _ (map b_node bs1) _ _ _ _ _ _ Hf) as Hlb.
  assert (b_loc bp <> b_loc b) by loc_ne.
  assert (forall fh, heap_is fh ((b_loc b, mkNode (b_value b) (Ptr (b_loc bp)) (first NULL (map b_node bs2)))
      :: seg NULL (map b_node (bs1 ++ bp :: bs2)) NULL ++ FF) ->
    exists s', (_ ← KeyListM.destory (Ptr (b_loc b)); delete_node (Ptr (b_loc b)))
        (mk (kheap s) fh (fresh s) (head s) (capacity s) (kmap s) (fmap s)) = Ret (tt, s')
      /\ same s s' /\ shape s' (bs1 ++ bp :: bs2) KF FF) as Hrest.
  { intros fh Hfh.
    edestruct (destory_spec (b_nodes b) (mk (kheap s) fh (fresh s) (head s) (capacity s) (kmap s) (fmap s)))
      as (s' & Hrun & [] & Hfr & Hk' & Hf'); [exact Hk|exact Hfh|].
    pose proof (heap_lookup_1 _ _ _ _ Hf') as Hl. pose proof (heap_free_1 _ _ _ _ Hf') as Hf''.
    rewrite (ST_bind_eq _ _ _ _ _ Hrun). run. eexists. split; [reflexivity|]. split; [by split|].
    change (bp :: bs2) with ([bp] ++ bs2). rewrite app_assoc.
    eapply shape_drop; [exact Hs'|done| |]; rewrite <- app_assoc; done. }
  destruct bs2 as [|bn bs2]; cbn [map] in *.
  - edestruct Hrest as (s' & Hrun & ?);
      [rewrite map_app; exact (seg_unlink_last _ _ _ (map b_node bs1) _ _ _ _ Hf)|].
    exists s'. split; [|done]. unfold del. run. exact Hrun.
  - assert (b_loc b <> b_loc bn /\ b_loc bp <> b_loc bn) as [??] by (split; loc_ne).
    pose proof (seg_lookup_3 _ _ _ (map b_node bs1) _ _ _ _ _ _ _ _ Hf) as Hln.
    edestruct Hrest as (s' & Hrun & ?);
      [rewrite map_app; exact (seg_unlink_mid _ _ _ (map b_node bs1) _ _ _ _ _ _ _ Hf)|].
    exists s'. split; [|done]. unfold del. run. exact Hrun.
Qed.

(** ** A new frequency *)
Lemma fresh_k s bs KF FF : shape s bs KF FF -> forall l, (fresh s <= l)%positive -> l ∉ (kcells bs ++ KF).*1.
Proof. intros [_ _ H _] l Hl Hin. rewrite Forall_forall in H. specialize (H l Hin). lia. Qed.
Lemma map_b_node_locs bs : (map b_node bs).*1 = map b_loc bs.
Proof. induction bs as [|b bs IH]; [done|]. cbn. by rewrite IH. Qed.
Lemma fresh_f s bs KF FF : shape s bs KF FF ->
  fresh s ∉ (seg NULL (map b_node bs) NULL ++ FF).*1.
Proof.
  intros [_ _ _ H] Hin. rewrite fmap_app, seg_locs, map_b_node_locs in Hin.
  rewrite Forall_forall in H. specialize (H _ Hin). lia.
Qed.

(** Bookkeeping for a state with the new, empty bucket [b]. *)
Lemma shape_add s s' bs1 b bs2 KF FF : shape s (bs1 ++ bs2) KF FF -> b_items b = [] ->
  (fresh s <= b_loc b < fresh s')%positive -> (fresh s <= b_sent b < fresh s')%positive ->
  heap_is (kheap s') ((b_sent b, mkNode blank NULL NULL) :: kcells (bs1 ++ bs2) ++ KF) ->
  heap_is (fheap s') (seg NULL (map b_node (bs1 ++ b :: bs2)) NULL ++ FF) ->
  shape s' (bs1 ++ b :: bs2) KF FF.
Proof.
  intros [_ _ Hkf Hff] Hb Hl1 Hl2 Hk Hf.
  assert (b_cells b = [(b_sent b, mkNode blank NULL NULL)]) as Hc.
  { unfold b_cells, b_nodes. by rewrite Hb. }
  assert (forall ls, Forall (fun l => (l < fresh s)%positive) ls -> Forall (fun l => (l < fresh s')%positive) ls) as Hle.
  { intros ls Hls. eapply Forall_impl; [exact Hls|]. cbn. intros. lia. }
  split; [|done| |].
  - eapply heap_is_perm; [exact Hk|]. by rewrite (kcells_mid bs1 b bs2), Hc.
  - rewrite (kcells_mid bs1 b bs2), Hc. cbn. constructor; [lia|]. by apply Hle.
  - apply Hle in Hff. rewrite map_app in Hff |- *. cbn. rewrite !Forall_app in *. rewrite Forall_cons.
    split_and!; [tauto|lia|tauto|tauto].
Qed.

Lemma insert_freq_spec s bs1 bp bs2 f KF FF : shape s (bs1 ++ bp :: bs2) KF FF ->
  exists s' b, insert_freq (Ptr (b_loc bp)) f s = Ret (Ptr (b_loc b), s') /\ same s s'
    /\ b_freq b = f /\ b_items b = [] /\ shape s' (bs1 ++ bp :: b :: bs2) KF FF.
Proof.
  intros Hs. pose proof (fresh_k _ _ _ _ Hs (Pos.succ (fresh s)) ltac:(lia)) as Hfk.
  pose proof (fresh_f _ _ _ _ Hs) as Hff.
  pose proof (heap_alloc _ _ _ (mkNode blank NULL NULL) (shape_k _ _ _ _ Hs) Hfk) as Hk.
  pose proof (heap_alloc _ _ _ (mkNode (mkKeyList f (Ptr (Pos.succ (fresh s))) (Ptr (Pos.succ (fresh s)))) NULL NULL)
    (shape_f _ _ _ _ Hs) Hff) as Hf.
  rewrite map_app in Hf, Hff. cbn [map] in Hf, Hff.
  pose proof (seg_lookup _ FF _ (map b_node bs1) _ _ _ _ (shape_f_mid _ _ _ _ _ _ Hs)) as Hlp.
  rewrite fmap_app, seg_locs, fmap_app in Hff. cbn in Hff.
  set (b := mkBucket (fresh s) f (Pos.succ (fresh s)) []).
  assert (b_loc bp <> fresh s) by set_solver.
  assert (forall kh fh, heap_is kh ((b_sent b, mkNode blank NULL NULL) :: kcells (bs1 ++ bp :: bs2) ++ KF) ->
    heap_is fh (seg NULL (map b_node bs1 ++ b_node bp :: b_node b :: map b_node bs2) NULL ++ FF) ->
    shape (mk kh fh (Pos.succ (Pos.succ (fresh s))) (head s) (capacity s) (kmap s) (fmap s)) (bs1 ++ bp :: b :: bs2) KF FF) as Hshape.
  { intros kh fh Hkh Hfh. change (bp :: b :: bs2) with ([bp] ++ b :: bs2). rewrite app_assoc.
    apply (shape_add s); rewrite <- ?app_assoc; cbn; [done|done|lia|lia|done|]. by rewrite map_app. }
  destruct bs2 as [|bn bs2]; cbn [map] in *.
  - unfold insert_freq, KeyListM.init. run. eexists _, b. split; [reflexivity|]. split_and!; [done|done|done|].
    apply Hshape; [exact Hk|]. rewrite seg_app in Hf |- *. unfold b_node in *. cbn in Hf |- *.
    heap_updates Hf.
  - unfold b_node in Hff. cbn in Hff. assert (fresh s <> b_loc bn) by set_solver.
    pose proof (heap_NoDup _ _ (shape_f_mid _ _ _ _ _ _ Hs)) as Hnd.
    rewrite fmap_app, seg_locs in Hnd. apply NoDup_app in Hnd as [Hnd _]. cbn [map] in Hnd.
    assert (b_loc bp <> b_loc bn) by loc_ne.
    pose proof (seg_lookup_2 _ FF _ (map b_node bs1) _ _ _ _ _ _ (shape_f_mid _ _ _ _ _ _ Hs)) as Hln.
    unfold insert_freq, KeyListM.init. run. eexists _, b. split; [reflexivity|]. split_and!; [done|done|done|].
    apply Hshape; [exact Hk|]. rewrite seg_app in Hf |- *. unfold b_node in *. cbn in Hf |- *.
    heap_updates Hf.
Qed.
