(* ===== verification/LFUSpec.v ===== *)
(** What [LFUCache] computes, without pointers: a list of levels, one per
    frequency in use, each the list of its entries, the latest first. *)
From S2P Require Import Prelude LFUCache.
Import LFUCache.

(** An entry of a level; [true]: [kmap] points to it. *)
Abbreviation item := (Key * bool)%type.
Abbreviation level := (Z * list item)%type.
Abbreviation levels := (list level).

(** Put an entry in front of the level [f + 1]; the levels after [f] are given. *)
Definition add_level (f : Z) (it : item) (lv : levels) : levels :=
  match lv with
  | (g, its) :: r => if g =? f + 1 then (g, it :: its) :: r else (f + 1, [it]) :: lv
  | [] => [(f + 1, [it])]
  end.

(** A level, left out when it is empty. *)
Definition keep (f : Z) (its : list item) (lv : levels) : levels :=
  match its with [] => lv | _ :: _ => (f, its) :: lv end.

(** Take the current entry of a key out of a level. *)
Fixpoint extract (k : bytes) (its : list item) : option (bytes * list item) :=
  match its with
  | [] => None
  | (x, live) :: r =>
      if live && bool_decide (key x = k) then Some (kvalue x, r)
      else match extract k r with Some (v, r') => Some (v, (x, live) :: r') | None => None end
  end.

(** Move the current entry of a key one level up. *)
Fixpoint touch (k : bytes) (lv : levels) : option (bytes * levels) :=
  match lv with
  | [] => None
  | (f, its) :: r =>
      match extract k its with
      | Some (v, its') => Some (v, keep f its' (add_level f (mkKey k v, true) r))
      | None => match touch k r with Some (v, r') => Some (v, (f, its) :: r') | None => None end
      end
  end.

(** No entry of the key is current any more. *)
Definition kill_item (k : bytes) (it : item) : item := (it.1, it.2 && negb (bool_decide (key it.1 = k))).
Definition kill (k : bytes) (lv : levels) : levels := map (fun '(f, its) => (f, map (kill_item k) its)) lv.

Definition items (lv : levels) : list item := concat (map snd lv).
Definition live_count (lv : levels) : nat := length (filter (fun it : item => it.2 = true) (items lv)).

(** Drop the last entry of the first level. *)
Definition evict (lv : levels) : levels :=
  match lv with
  | [] => []
  | (f, its) :: r =>
      match last its with
      | Some x => kill (key x.1) (keep f (take (length its - 1) its) r)
      | None => r
      end
  end.

Definition get (cap : Z) (k v : bytes) (lv : levels) : bool * bytes * levels :=
  if cap =? 0 then (false, v, lv)
  else match touch k lv with Some (x, lv') => (true, v ++ x, lv') | None => (false, v, lv) end.

Definition set (cap : Z) (k v : bytes) (lv : levels) : levels :=
  if cap =? 0 then lv
  else
    let lv1 := if Z.of_nat (live_count lv) =? cap then evict lv else lv in
    add_level 0 (mkKey k v, true) (kill k lv1).

(** A client's calls, and what they return. *)
Inductive op := Get (k v : bytes) | Set_ (k v : bytes).

Fixpoint run (cap : Z) (ops : list op) (lv : levels) : list (bool * bytes) * levels :=
  match ops with
  | [] => ([], lv)
  | Get k v :: ops' =>
      let '(r, lv1) := get cap k v lv in
      let '(rs, lv2) := run cap ops' lv1 in (r :: rs, lv2)
  | Set_ k v :: ops' => run cap ops' (set cap k v lv)
  end.
