(* ===== verification/LFURefine.v ===== *)
(** [LFUCache] refines the levels of LFUSpec.v: every operation of the cache,
    from the initial state on, runs without undefined behaviour and returns
    what the levels say, and the destructor frees every node. *)
From S2P Require Import Prelude LFUCache LFUHeap LFUOps.
From S2P Require LFUSpec.
Import LFUCache.

(** Run the next call of a block by its lemma. *)
Ltac step H := rewrite (ST_bind_eq _ _ _ _ _ H); cbv beta.

Lemma shape_set_fmap m s bs KF FF : shape s bs KF FF -> shape (set_fmap m s) bs KF FF.
Proof. intros []. by split. Qed.
Lemma shape_set_kmap m s bs KF FF : shape s bs KF FF -> shape (set_kmap m s) bs KF FF.
Proof. intros []. by split. Qed.

Lemma shape_locs s bs KF FF : shape s bs KF FF -> NoDup (map b_loc bs).
Proof.
  intros [_ Hf _ _]. apply heap_NoDup in Hf. rewrite fmap_app, seg_locs, map_b_node_locs in Hf.
  by apply NoDup_app in Hf as [? _].
Qed.

Lemma shape_detached s bs l n KF FF : shape s bs ((l, n) :: KF) FF -> kheap s !! l = Some n.
Proof. intros [Hk _ _ _]. apply (heap_lookup _ _ _ _ Hk). set_solver. Qed.

(** [t] is the bucket for frequency [f + 1] in front of the buckets [r]: the
    first of the buckets [bs] or a new one. *)
Definition next_of (f : Z) (bs : list bucket) (t : bucket) (r : list bucket) : Prop :=
  b_freq t = f + 1 /\
  (bs = t :: r \/ (b_items t = [] /\ bs = r /\ match bs with [] => True | b1 :: _ => b_freq b1 <> f + 1 end)).

Lemma int_add_ok a b s : - 2 ^ 31 <= a + b < 2 ^ 31 -> int_add a b s = Ret (a + b, s).
Proof. intros H. unfold int_add. by rewrite bool_decide_true. Qed.

Lemma next_freq_spec s bs1 b bs2 KF FF : shape s (bs1 ++ b :: bs2) KF FF -> 0 <= b_freq b < 2 ^ 31 - 1 ->
  exists s' t r, next_freq (Ptr (b_loc b)) s = Ret (Ptr (b_loc t), s') /\ same s s'
    /\ shape s' (bs1 ++ b :: t :: r) KF FF /\ next_of (b_freq b) bs2 t r.
Proof.
  intros Hs Hb. unfold next_freq.
  step (run_getNext _ _ _ _ _ _ Hs). step (run_getFreq _ _ _ _ _ _ Hs).
  step (int_add_ok (b_freq b) 1 s ltac:(lia)).
  destruct (insert_freq_spec s bs1 b bs2 (b_freq b + 1) KF FF Hs) as (s' & t & Hrun & Hsame & Hf & Hi & Hs').
  destruct bs2 as [|b1 bs2]; cbn [map first b_node non_null].
  - exists s', t, []. by split_and!; [exact Hrun|..|split; [|right]].
  - assert (shape s ((bs1 ++ [b]) ++ b1 :: bs2) KF FF) as Hs1 by by rewrite <- app_assoc.
    change (first NULL (b_node b1 :: map b_node bs2)) with (Ptr (T := KeyList) (b_loc b1)). cbn [non_null].
    rewrite (ST_bind_eq _ _ s (negb (b_freq b1 =? b_freq b + 1)) s)
      by (step (run_getFreq _ _ _ _ _ _ Hs1); done).
    destruct (Z.eqb_spec (b_freq b1) (b_freq b + 1)) as [Heq|Hne]; cbn [negb].
    + exists s, b1, bs2. rewrite (run_getNext _ _ _ _ _ _ Hs). by split_and!; [..|split; [|left]].
    + exists s', t, (b1 :: bs2). by split_and!; [exact Hrun|..|split; [|right]].
Qed.

(** [addfreq] of a new key node. *)
Lemma addfreq_new s b0 rest l v p0 n0 : shape s (b0 :: rest) [(l, mkNode v p0 n0)] [] ->
  head s = Ptr (b_loc b0) -> b_freq b0 = 0 ->
  exists s' t r, addfreq (Ptr l) (Ptr (b_loc b0)) s = Ret (tt, s')
    /\ shape s' (b0 :: with_items t ((l, v) :: b_items t) :: r) [] [] /\ next_of 0 rest t r
    /\ head s' = head s /\ capacity s' = capacity s /\ kmap s' = kmap s
    /\ fmap s' = <[key v := Ptr (b_loc t)]> (fmap s).
Proof.
  intros Hs Hh Hf. unfold addfreq.
  destruct (next_freq_spec s [] b0 rest _ _ Hs) as (s1 & t & r & Hrun1 & [Hh1 Hc1 Hk1 Hm1] & Hs1 & Hn); [lia|].
  step Hrun1. cbn [app] in Hs1. rewrite Hf in Hn.
  pose proof (shape_detached _ _ _ _ _ _ Hs1) as Hl.
  rewrite (ST_bind_eq _ _ s1 v s1) by (run; done).
  set (s2 := set_fmap (<[key v := Ptr (b_loc t)]> (fmap s1)) s1).
  rewrite (ST_bind_eq _ _ s1 tt s2) by done.
  rewrite (ST_bind_eq _ _ s2 (head s1) s2) by done.
  rewrite bool_decide_true by congruence. cbn [negb].
  rewrite (ST_bind_eq _ _ s2 tt s2) by done.
  destruct (kl_add_spec s2 [b0] t r _ _ (shape_set_fmap _ _ _ _ _ Hs1) l v p0 n0 [] eq_refl)
    as (s3 & Hrun3 & [Hh3 Hc3 Hk3 Hm3] & Hs3).
  step Hrun3. exists s3, t, r. split_and!; try done; cbn in *; congruence.
Qed.

(** [addfreq] of a node in a bucket. *)
Definition keep (b : bucket) (bs : list bucket) : list bucket :=
  match b_items b with [] => bs | _ :: _ => b :: bs end.

Lemma addfreq_move s b0 bs1 b bs2 xs l v ys : shape s (b0 :: bs1 ++ b :: bs2) [] [] ->
  head s = Ptr (b_loc b0) -> 0 <= b_freq b < 2 ^ 31 - 1 -> b_items b = xs ++ (l, v) :: ys ->
  exists s' t r, addfreq (Ptr l) (Ptr (b_loc b)) s = Ret (tt, s')
    /\ shape s' (b0 :: bs1 ++ keep (with_items b (xs ++ ys)) (with_items t ((l, v) :: b_items t) :: r)) [] []
    /\ next_of (b_freq b) bs2 t r
    /\ head s' = head s /\ capacity s' = capacity s /\ kmap s' = kmap s
    /\ fmap s' = <[key v := Ptr (b_loc t)]> (fmap s).
Proof.
  intros Hs Hh Hf Hi. unfold addfreq.
  assert (b_loc b <> b_loc b0) as Hne.
  { pose proof (shape_locs _ _ _ _ Hs) as Hnd. cbn in Hnd. rewrite map_app in Hnd. cbn in Hnd.
    apply NoDup_cons in Hnd as [Hnd _]. set_solver. }
  destruct (next_freq_spec s (b0 :: bs1) b bs2 _ _ Hs) as (s1 & t & r & Hrun1 & [Hh1 Hc1 Hk1 Hm1] & Hs1 & Hn); [lia|].
  step Hrun1.
  step (run_getValue _ _ _ _ _ _ Hs1 l v ltac:(rewrite Hi; set_solver)).
  set (s2 := set_fmap (<[key v := Ptr (b_loc t)]> (fmap s1)) s1).
  rewrite (ST_bind_eq _ _ s1 tt s2) by done.
  rewrite (ST_bind_eq _ _ s2 (head s1) s2) by done.
  rewrite bool_decide_false by congruence. cbn [negb].
  destruct (kl_del_spec s2 (b0 :: bs1) b (t :: r) _ _ (shape_set_fmap _ _ _ _ _ Hs1) xs l v ys Hi)
    as (s3 & p & n & Hrun3 & [Hh3 Hc3 Hk3 Hm3] & Hs3).
  step Hrun3. change (with_items b (xs ++ ys) :: t :: r) with ([with_items b (xs ++ ys)] ++ t :: r) in Hs3.
  rewrite app_assoc in Hs3.
  destruct (kl_add_spec s3 _ t r _ _ Hs3 l v p n [] eq_refl) as (s4 & Hrun4 & [Hh4 Hc4 Hk4 Hm4] & Hs4).
  step Hrun4. rewrite <- app_assoc in Hs4. cbn [app] in Hs4.
  change (b_loc b) with (b_loc (with_items b (xs ++ ys))).
  step (run_isEmpty s4 (b0 :: bs1) (with_items b (xs ++ ys)) _ _ _ Hs4). cbn [b_items with_items].
  unfold keep. cbn [b_items with_items]. destruct (xs ++ ys) as [|it its].
  - rewrite bool_decide_true by done.
    destruct (exists_last (l := b0 :: bs1)) as (pre & bp & He); [done|].
    change (b0 :: bs1 ++ ?x) with ((b0 :: bs1) ++ x) in *. rewrite He, <- app_assoc in *.
    destruct (del_spec s4 pre bp (with_items b []) _ _ _ Hs4) as (s5 & Hrun5 & [Hh5 Hc5 Hk5 Hm5] & Hs5).
    exists s5, t, r. rewrite Hrun5.
    split_and!; first [done | by rewrite <- app_assoc | cbn in *; congruence].
  - rewrite bool_decide_false by done. exists s4, t, r. split_and!; try done; cbn in *; congruence.
Qed.

(** ** The abstraction *)
Definition abs_item (km : gmap bytes key_node) (it : positive * Key) : LFUSpec.item :=
  (it.2, bool_decide (km !! key it.2 = Some (Ptr it.1))).
Definition abs_items (km : gmap bytes key_node) (its : list (positive * Key)) : list LFUSpec.item := map (abs_item km) its.
Definition abs_bucket (km : gmap bytes key_node) (b : bucket) : LFUSpec.level := (b_freq b, abs_items km (b_items b)).
Definition abs (km : gmap bytes key_node) (bs : list bucket) : LFUSpec.levels := map (abs_bucket km) bs.

(** The cache [s] is the buckets [rest] behind the head [b0]; [n] bounds the
    frequencies. *)
Record inv (n : Z) (s : cache) (b0 : bucket) (rest : list bucket) : Prop := mkInv {
  inv_shape : shape s (b0 :: rest) [] [];
  inv_head : head s = Ptr (b_loc b0);
  inv_b0 : b_freq b0 = 0 /\ b_items b0 = [];
  inv_freq : Forall (fun b => 0 <= b_freq b <= n) rest;
  inv_ne : Forall (fun b => b_items b <> []) rest;
  inv_kmap : forall k p, kmap s !! k = Some p -> exists b l v,
    b ∈ rest /\ p = Ptr l /\ (l, mkKey k v) ∈ b_items b /\ fmap s !! k = Some (Ptr (b_loc b));
  inv_dom : forall k, is_Some (fmap s !! k) -> is_Some (kmap s !! k)
}.

Definition all_items (bs : list bucket) : list (positive * Key) := concat (map b_items bs).

Lemma all_items_app bs1 bs2 : all_items (bs1 ++ bs2) = all_items bs1 ++ all_items bs2.
Proof. unfold all_items. by rewrite map_app, concat_app. Qed.

Lemma elem_all_items bs it : it ∈ all_items bs <-> exists b, b ∈ bs /\ it ∈ b_items b.
Proof.
  unfold all_items. induction bs as [|b bs IH]; cbn; [set_solver|].
  rewrite elem_of_app, IH. set_solver.
Qed.

Lemma all_items_sublist bs : (all_items bs).*1 `sublist_of` (kcells bs).*1.
Proof.
  rewrite kcells_locs. unfold all_items. induction bs as [|b bs IH]; cbn; [done|].
  rewrite fmap_app. apply sublist_cons. by apply sublist_app.
Qed.

Lemma shape_items_NoDup s b0 rest KF FF : shape s (b0 :: rest) KF FF -> NoDup (all_items rest).*1.
Proof.
  intros [Hk _ _ _]. apply heap_NoDup in Hk. rewrite fmap_app in Hk. apply NoDup_app in Hk as [Hk _].
  eapply sublist_NoDup; [exact Hk|]. etrans; [apply all_items_sublist|].
  rewrite kcells_cons, fmap_app. by apply sublist_inserts_l.
Qed.

(** The operations of the levels on abstracted buckets. *)
Lemma extract_none km k its : km !! k = None -> LFUSpec.extract k (abs_items km its) = None.
Proof.
  intros Hk. unfold abs_items. induction its as [|[l [k' v]] its IH]; cbn; [done|].
  destruct (decide (k' = k)) as [->|]; [rewrite Hk|]; cbn.
  - by rewrite IH.
  - rewrite andb_false_intro2 by by apply bool_decide_eq_false. by rewrite IH.
Qed.

Lemma touch_none km k bs : km !! k = None -> LFUSpec.touch k (abs km bs) = None.
Proof. intros Hk. unfold abs. induction bs as [|b bs IH]; cbn; [done|]. by rewrite extract_none, IH. Qed.

Lemma extract_other km k l its : km !! k = Some (Ptr l) -> l ∉ its.*1 ->
  LFUSpec.extract k (abs_items km its) = None.
Proof.
  intros Hk. unfold abs_items. induction its as [|[l' [k' v]] its IH]; cbn; [done|]. rewrite elem_of_cons. intros Hl.
  destruct (decide (k' = k)) as [->|].
  - rewrite Hk, bool_decide_false by naive_solver. cbn. rewrite IH; naive_solver.
  - rewrite andb_false_intro2 by by apply bool_decide_eq_false. rewrite IH; naive_solver.
Qed.

Lemma extract_abs km k xs l v ys : km !! k = Some (Ptr l) -> l ∉ xs.*1 ->
  LFUSpec.extract k (abs_items km (xs ++ (l, mkKey k v) :: ys)) = Some (v, abs_items km (xs ++ ys)).
Proof.
  intros Hk. unfold abs_items. induction xs as [|[l' [k' v']] xs IH]; cbn.
  - rewrite Hk, !bool_decide_true by done. done.
  - rewrite elem_of_cons. intros Hl.
    destruct (decide (k' = k)) as [->|].
    + rewrite (bool_decide_false (km !! k = Some (Ptr l'))) by naive_solver. cbn.
      rewrite IH by naive_solver. unfold abs_item at 2. cbn. by rewrite bool_decide_false by naive_solver.
    + rewrite (bool_decide_false (k' = k)), andb_false_r by done. by rewrite IH by naive_solver.
Qed.

Lemma touch_abs km k bs1 b bs2 xs l v ys : km !! k = Some (Ptr l) ->
  b_items b = xs ++ (l, mkKey k v) :: ys -> NoDup (all_items (bs1 ++ b :: bs2)).*1 ->
  LFUSpec.touch k (abs km (bs1 ++ b :: bs2)) = Some (v, abs km bs1 ++
    LFUSpec.keep (b_freq b) (abs_items km (xs ++ ys)) (LFUSpec.add_level (b_freq b) (mkKey k v, true) (abs km bs2))).
Proof.
  intros Hk Hb Hnd. unfold abs. induction bs1 as [|b1 bs1 IH]; cbn.
  - rewrite Hb. rewrite extract_abs; [done|done|].
    unfold all_items in Hnd. cbn in Hnd. rewrite Hb, !fmap_app, NoDup_app in Hnd. destruct Hnd as [Hnd _].
    rewrite NoDup_app in Hnd. destruct Hnd as (_ & Hnd & _). intros Hin. apply (Hnd l Hin). cbn. set_solver.
  - cbn [app] in Hnd. unfold all_items in Hnd, IH. cbn in Hnd. rewrite fmap_app, NoDup_app in Hnd.
    destruct Hnd as (_ & Hd & Hnd). rewrite (extract_other _ _ l); [|done|].
    + by rewrite IH.
    + intros Hin. apply (Hd l Hin). rewrite map_app, concat_app, fmap_app. cbn. rewrite Hb, !fmap_app. cbn.
      set_solver.
Qed.

Lemma add_level_abs km f bs t r l K : next_of f bs t r -> km !! key K = Some (Ptr l) ->
  LFUSpec.add_level f (K, true) (abs km bs) = abs km (with_items t ((l, K) :: b_items t) :: r).
Proof.
  intros [Hf Hbs] Hk. assert (abs_item km (l, K) = (K, true)) as Ha.
  { unfold abs_item. cbn. by rewrite bool_decide_true. }
  destruct Hbs as [->|(Ht & -> & Hr)].
  - cbn. rewrite Hf, Z.eqb_refl. unfold abs_bucket. cbn. by rewrite Ha, Hf.
  - unfold abs. cbn. unfold abs_bucket at 2. cbn. rewrite Ha, Ht, Hf. cbn. destruct r as [|b1 r]; [done|].
    cbn. by destruct (Z.eqb_spec (b_freq b1) (f + 1)).
Qed.

Lemma keep_abs km b bs its : LFUSpec.keep (b_freq b) (abs_items km its) (abs km bs) = abs km (keep (with_items b its) bs).
Proof. unfold keep. by destruct its. Qed.

(** Every entry of [bs] but [x] is in the same bucket in [bs']. *)
Definition covers (x : positive * Key) (bs bs' : list bucket) : Prop :=
  forall b it, b ∈ bs -> it ∈ b_items b -> it <> x -> exists b', b' ∈ bs' /\ b_loc b' = b_loc b /\ it ∈ b_items b'.

Lemma next_covers f bs t r it x : next_of f bs t r -> covers x bs (with_items t (it :: b_items t) :: r).
Proof.
  intros [_ [->|(_ & -> & _)]] b y Hb Hy _.
  - apply elem_of_cons in Hb as [->|Hb].
    + eexists. split; [by left|]. cbn. split; [done|]. by right.
    + exists b. set_solver.
  - exists b. set_solver.
Qed.

Lemma move_covers bs1 b bs2 xs x ys bs3 : b_items b = xs ++ x :: ys -> covers x bs2 bs3 ->
  covers x (bs1 ++ b :: bs2) (bs1 ++ keep (with_items b (xs ++ ys)) bs3).
Proof.
  intros Hi Hc b' y Hb Hy Hne. unfold keep. cbn [b_items with_items].
  apply elem_of_app in Hb as [Hb|Hb]; [exists b'; set_solver|].
  apply elem_of_cons in Hb as [->|Hb].
  - rewrite Hi in Hy. assert (y ∈ xs ++ ys) as Hy' by set_solver.
    destruct (xs ++ ys) as [|z zs] eqn:E; [by apply not_elem_of_nil in Hy'|].
    exists (with_items b (z :: zs)). split_and!; [set_solver|done|]. cbn. by rewrite <- E, E.
  - destruct (Hc b' y Hb Hy Hne) as (b'' & Hb'' & ?). exists b''. split; [|done].
    rewrite elem_of_app. right. destruct (xs ++ ys); [done|by right].
Qed.

(** The buckets after a move are well formed again. *)
Definition good (n : Z) (b : bucket) : Prop := 0 <= b_freq b <= n /\ b_items b <> [].

Lemma good_mono n m bs : n <= m -> Forall (good n) bs -> Forall (good m) bs.
Proof. intros Hn Hbs. eapply Forall_impl; [exact Hbs|]. intros b [? ?]. split; [lia|done]. Qed.

Lemma next_good n f bs t r it : next_of f bs t r -> 0 <= f <= n -> Forall (good n) bs ->
  Forall (good (n + 1)) (with_items t (it :: b_items t) :: r).
Proof.
  intros [Hf Hbs] Hn Hg. constructor.
  - split; cbn; [lia|done].
  - eapply good_mono; [|destruct Hbs as [->|(_ & -> & _)]; [|exact Hg]]; [lia|]. by inversion Hg.
Qed.

Lemma keep_good n b bs : 0 <= b_freq b <= n -> Forall (good n) bs -> Forall (good n) (keep b bs).
Proof.
  intros Hf Hbs. unfold keep. destruct (b_items b) eqn:E; [done|]. constructor; [|done].
  split; [done|]. by rewrite E.
Qed.

Lemma inv_good n s b0 rest : inv n s b0 rest -> Forall (good n) rest.
Proof.
  intros [_ _ _ Hf Hne _ _]. rewrite Forall_forall in *. intros b Hb. by split; [apply Hf|apply Hne].
Qed.

Lemma inv_mono n m s b0 rest : inv n s b0 rest -> n <= m -> inv m s b0 rest.
Proof.
  intros [? ? ? Hf ? ? ?] Hm. split; try done. eapply Forall_impl; [exact Hf|]. cbn. intros. lia.
Qed.

(** [inv] after the current entry of [k] became [l] in the bucket [t']. *)
Lemma inv_step n s b0 rest s' rest' k v l t' : inv n s b0 rest ->
  shape s' (b0 :: rest') [] [] -> head s' = head s ->
  kmap s' = <[k := Ptr l]> (kmap s) -> fmap s' = <[k := Ptr (b_loc t')]> (fmap s) ->
  Forall (good (n + 1)) rest' -> covers (l, mkKey k v) rest rest' ->
  t' ∈ rest' -> (l, mkKey k v) ∈ b_items t' -> inv (n + 1) s' b0 rest'.
Proof.
  intros [_ Hh Hb0 _ _ Hkm Hdom] Hs' Hh' Hk Hf Hg Hc Ht Hin. split.
  - done.
  - congruence.
  - done.
  - eapply Forall_impl; [exact Hg|]. by intros b [? _].
  - eapply Forall_impl; [exact Hg|]. by intros b [_ ?].
  - intros k' p. rewrite Hk, Hf. destruct (decide (k = k')) as [<-|Hne].
    + rewrite !lookup_insert_eq. intros [= <-]. by exists t', l, v.
    + rewrite !lookup_insert_ne by done. intros Hp.
      destruct (Hkm _ _ Hp) as (b & l' & v' & Hb & -> & Hit & Hfm).
      destruct (Hc b (l', mkKey k' v') Hb Hit ltac:(congruence)) as (b' & Hb' & Hl & Hit').
      exists b', l', v'. by rewrite Hl.
  - intros k'. rewrite Hk, Hf. destruct (decide (k = k')) as [<-|Hne].
    + by rewrite !lookup_insert_eq.
    + rewrite !lookup_insert_ne by done. apply Hdom.
Qed.

Lemma run_kmap_at k p s : kmap s !! k = Some p -> kmap_at k s = Ret (p, s).
Proof. intros Hp. unfold kmap_at, gets. run. done. Qed.
Lemma run_fmap_at k p s : fmap s !! k = Some p -> fmap_at k s = Ret (p, s).
Proof. intros Hp. unfold fmap_at, gets. run. done. Qed.

Lemma get_refines n s b0 rest k v : inv n s b0 rest -> 0 <= n < 2 ^ 31 - 1 ->
  exists s' rest' r, get k v s = Ret (r, s') /\ inv (n + 1) s' b0 rest' /\ capacity s' = capacity s
    /\ LFUSpec.get (capacity s) k v (abs (kmap s) rest) = (r, abs (kmap s') rest').
Proof.
  intros Hi Hn. pose proof (inv_good _ _ _ _ Hi) as Hg.
  pose proof (inv_mono _ (n + 1) _ _ _ Hi ltac:(lia)) as Hi'.
  unfold get, LFUSpec.get.
  rewrite (ST_bind_eq _ _ s (capacity s) s) by done.
  destruct (capacity s =? 0); [by exists s, rest, (false, v)|].
  rewrite (ST_bind_eq _ _ s (fmap s) s) by done.
  destruct (fmap s !! k) as [pf|] eqn:Ef.
  - rewrite bool_decide_true by done.
    destruct (inv_dom _ _ _ _ Hi k ltac:(by rewrite Ef)) as [pk Ek].
    destruct (inv_kmap _ _ _ _ Hi k pk Ek) as (b & l & w & Hb & -> & Hit & Hfb).
    rewrite Ef in Hfb. injection Hfb as ->.
    apply list_elem_of_split in Hb as (bs1 & bs2 & Hrest).
    pose proof Hit as (xs & ys & Hits)%list_elem_of_split.
    pose proof (inv_shape _ _ _ _ Hi) as Hs. pose proof (inv_head _ _ _ _ Hi) as Hh.
    pose proof (shape_items_NoDup _ _ _ _ _ Hs) as Hnd.
    subst rest. rewrite Forall_app, Forall_cons in Hg. destruct Hg as (Hg1 & [Hgf _] & Hg2).
    destruct (addfreq_move s b0 bs1 b bs2 xs l (mkKey k w) ys Hs Hh ltac:(lia) Hits)
      as (s' & t & r & Hrun & Hs' & Hnext & Hh' & Hc' & Hk' & Hf').
    step (run_kmap_at _ _ _ Ek). step (run_fmap_at _ _ _ Ef).
    step (run_getValue s (b0 :: bs1) b bs2 _ _ Hs l _ Hit). step Hrun.
    do 3 eexists. split; [reflexivity|]. split_and!; [|done|].
    + eapply (inv_step n s b0 _ s' _ k w l (with_items t ((l, mkKey k w) :: b_items t)) Hi Hs' Hh').
      * by rewrite insert_id.
      * exact Hf'.
      * rewrite Forall_app. split; [eapply good_mono; [|exact Hg1]; lia|].
        apply keep_good; [cbn; lia|]. by eapply next_good.
      * apply move_covers; [done|]. by eapply next_covers.
      * rewrite elem_of_app. right. unfold keep. case_match; [by left|by right; left].
      * cbn. by left.
    + rewrite (touch_abs _ _ _ _ _ _ _ _ _ Ek Hits Hnd), Hk'.
      rewrite (add_level_abs _ _ _ _ _ l _ Hnext) by done. unfold abs at 3. rewrite map_app.
      by rewrite keep_abs.
  - rewrite bool_decide_false by by intros [? ?].
    rewrite touch_none; [by exists s, rest, (false, v)|].
    destruct (kmap s !! k) as [p|] eqn:Ek; [|done].
    destruct (inv_kmap _ _ _ _ Hi k p Ek) as (b & l & w & _ & _ & _ & Hfb). congruence.
Qed.

(** ** [set] *)
Lemma abs_delete km k bs : LFUSpec.kill k (abs km bs) = abs (delete k km) bs.
Proof.
  unfold LFUSpec.kill, abs. rewrite map_map. apply map_ext. intros b. unfold abs_bucket, abs_items. f_equal.
  rewrite map_map. apply map_ext. intros [l [k' v]]. unfold LFUSpec.kill_item, abs_item. cbn. f_equal.
  destruct (decide (k' = k)) as [->|Hne].
  - rewrite lookup_delete_eq, (bool_decide_true (k = k)), andb_false_r by done. done.
  - by rewrite lookup_delete_ne, (bool_decide_false (k' = k)), andb_true_r by done.
Qed.

Lemma abs_insert km k l bs : l ∉ (all_items bs).*1 -> LFUSpec.kill k (abs km bs) = abs (<[k := Ptr l]> km) bs.
Proof.
  intros Hl. rewrite abs_delete. unfold abs. apply map_ext_in. intros b Hb. unfold abs_bucket, abs_items. f_equal.
  apply map_ext_in. intros [l' [k' v]] Hin. unfold abs_item. cbn. f_equal. apply bool_decide_ext.
  destruct (decide (k' = k)) as [->|Hne].
  - rewrite lookup_delete_eq, lookup_insert_eq. split; [done|]. intros [= ->]. destruct Hl.
    apply list_elem_of_fmap. exists (l', mkKey k v). split; [done|]. apply elem_all_items. exists b.
    by rewrite !list_elem_of_In.
  - by rewrite lookup_delete_ne, lookup_insert_ne by done.
Qed.

(** The keys of [kmap] are those of the current entries. *)
Definition live (km : gmap bytes key_node) (it : positive * Key) : Prop := km !! key it.2 = Some (Ptr it.1).

#[export] Instance live_dec km it : Decision (live km it).
Proof. unfold live. apply _. Defined.

Lemma live_count_filter km bs :
  LFUSpec.live_count (abs km bs) = length (filter (live km) (all_items bs)).
Proof.
  unfold LFUSpec.live_count, LFUSpec.items, abs, all_items. rewrite map_map. cbn.
  induction bs as [|b bs IH]; cbn; [done|]. rewrite !filter_app, !length_app. f_equal; [|exact IH]. clear.
  unfold abs_items. induction (b_items b) as [|it its IH]; [done|].
  cbn [map]. rewrite !filter_cons. unfold live. cbn [abs_item snd].
  destruct (decide (km !! key it.2 = Some (Ptr it.1))) as [E|E].
  - rewrite decide_True by (by rewrite bool_decide_true). cbn. by rewrite IH.
  - rewrite decide_False by (by rewrite bool_decide_false). exact IH.
Qed.

Lemma live_keys_NoDup km its : NoDup its.*1 -> NoDup (map (fun it : positive * Key => key it.2) (filter (live km) its)).
Proof.
  induction its as [|it its IH]; [by constructor|].
  rewrite fmap_cons, NoDup_cons. intros [Hit Hnd]. rewrite filter_cons. destruct (decide (live km it)) as [E|E]; [|by apply IH].
  cbn. constructor; [|by apply IH]. intros Hin. apply list_elem_of_In, in_map_iff in Hin as (it' & Hk & Hin).
  apply list_elem_of_In, list_elem_of_filter in Hin as [E' Hin]. unfold live in E, E'. destruct Hit.
  apply list_elem_of_fmap. exists it'. split; [congruence|done].
Qed.

Lemma live_count_size n s b0 rest : inv n s b0 rest ->
  LFUSpec.live_count (abs (kmap s) rest) = size (kmap s).
Proof.
  intros Hi. rewrite live_count_filter. pose proof (shape_items_NoDup _ _ _ _ _ (inv_shape _ _ _ _ Hi)) as Hnd.
  rewrite <- (length_map (fun it : positive * Key => key it.2)).
  rewrite <- (size_list_to_set (C := gset bytes)) by by apply live_keys_NoDup.
  rewrite <- size_dom. apply (f_equal size), leibniz_equiv. intros k.
  rewrite elem_of_list_to_set, elem_of_dom, list_elem_of_In, in_map_iff. split.
  - intros (it & <- & Hin). apply list_elem_of_In, list_elem_of_filter in Hin as [E _].
    unfold live in E. by rewrite E.
  - intros [p Hp]. destruct (inv_kmap _ _ _ _ Hi k p Hp) as (b & l & v & Hb & -> & Hin & _).
    exists (l, mkKey k v). split; [done|]. apply list_elem_of_In, list_elem_of_filter. split; [done|].
    apply elem_all_items. eauto.
Qed.

(** [inv] after the entry of [k] is gone from both maps. *)
Lemma inv_remove n s b0 rest s' rest' k v l : inv n s b0 rest ->
  shape s' (b0 :: rest') [] [] -> head s' = head s ->
  kmap s' = delete k (kmap s) -> fmap s' = delete k (fmap s) ->
  Forall (good n) rest' -> covers (l, mkKey k v) rest rest' -> inv n s' b0 rest'.
Proof.
  intros [_ Hh Hb0 _ _ Hkm Hdom] Hs' Hh' Hk' Hm' Hg Hc. split.
  - done.
  - congruence.
  - done.
  - eapply Forall_impl; [exact Hg|]. by intros b [? _].
  - eapply Forall_impl; [exact Hg|]. by intros b [_ ?].
  - intros k' p'. rewrite Hk', Hm'. destruct (decide (k = k')) as [<-|Hne]; [by rewrite lookup_delete_eq|].
    rewrite !lookup_delete_ne by done. intros Hp.
    destruct (Hkm _ _ Hp) as (b & l' & v' & Hb & -> & Hit & Hfm).
    destruct (Hc b (l', mkKey k' v') Hb Hit ltac:(congruence)) as (b' & Hb' & Hl' & Hit').
    exists b', l', v'. by rewrite Hl'.
  - intros k'. rewrite Hk', Hm'. destruct (decide (k = k')) as [<-|Hne]; [by rewrite !lookup_delete_eq|].
    rewrite !lookup_delete_ne by done. apply Hdom.
Qed.

Lemma evict_abs km b1 r its l k v : b_items b1 = its ++ [(l, mkKey k v)] ->
  LFUSpec.evict (abs km (b1 :: r)) = abs (delete k km) (keep (with_items b1 its) r).
Proof.
  intros Hits. cbn. unfold abs_items. rewrite Hits, map_app, last_app. cbn. rewrite length_app, length_map. cbn.
  rewrite Nat.add_sub, take_app_length' by by rewrite length_map.
  rewrite <- abs_delete. fold (abs_items km its). fold (abs km r). by rewrite keep_abs.
Qed.

(** The last entry of the first bucket, before the bucket itself is freed. *)
Lemma evict_entry s b0 b1 r its l k v : shape s (b0 :: b1 :: r) [] [] -> head s = Ptr (b_loc b0) ->
  b_items b1 = its ++ [(l, mkKey k v)] ->
  exists s', evict s = (e ← KeyListM.isEmpty (Ptr (b_loc b1)); if e : bool then del (Ptr (b_loc b1)) else mret tt) s'
    /\ shape s' (b0 :: with_items b1 its :: r) [] [] /\ head s' = head s /\ capacity s' = capacity s
    /\ kmap s' = delete k (kmap s) /\ fmap s' = delete k (fmap s).
Proof.
  intros Hs Hh Hits. assert (b_last b1 = Ptr l) as Hlast.
  { unfold b_last, b_nodes. rewrite Hits. change (?a :: its ++ ?x) with ((a :: its) ++ x). by rewrite final_app. }
  unfold evict. rewrite (ST_bind_eq _ _ s (head s) s) by done. rewrite Hh.
  step (run_getNext s [] b0 (b1 :: r) _ _ Hs). cbn [map b_node first].
  step (run_getLast s [b0] b1 r _ _ Hs). rewrite Hlast.
  destruct (kl_del_spec s [b0] b1 r _ _ Hs its l (mkKey k v) [] Hits)
    as (s1 & p & q & Hrun1 & [Hh1 Hc1 Hk1 Hm1] & Hs1).
  step Hrun1. rewrite app_nil_r in Hs1. cbn [app] in Hs1.
  pose proof (shape_detached _ _ _ _ _ _ Hs1) as Hl.
  rewrite (ST_bind_eq _ _ s1 (mkKey k v) s1) by (run; done). cbn [key].
  set (s2 := set_kmap (delete k (kmap s1)) s1).
  rewrite (ST_bind_eq _ _ s1 tt s2) by done.
  rewrite (ST_bind_eq _ _ s2 (mkKey k v) s2) by (run; done). cbn [key].
  set (s3 := set_fmap (delete k (fmap s2)) s2).
  rewrite (ST_bind_eq _ _ s2 tt s3) by done.
  set (s4 := mk (delete l (kheap s3)) (fheap s3) (fresh s3) (head s3) (capacity s3) (kmap s3) (fmap s3)).
  rewrite (ST_bind_eq _ _ s3 tt s4) by (run; done).
  exists s4. split; [done|]. split; [|cbn; split_and!; congruence].
  destruct Hs1 as [Hk Hfh Hkf Hff]. rewrite fmap_app, Forall_app in Hkf. destruct Hkf as [Hkf _]. split; cbn in *.
  - eapply heap_free; [exact Hk|]. solve_Permutation.
  - done.
  - by rewrite app_nil_r.
  - done.
Qed.

Lemma evict_refines n s b0 b1 r : inv n s b0 (b1 :: r) ->
  exists s' rest', evict s = Ret (tt, s') /\ inv n s' b0 rest' /\ capacity s' = capacity s
    /\ LFUSpec.evict (abs (kmap s) (b1 :: r)) = abs (kmap s') rest'.
Proof.
  intros Hi. pose proof (inv_good _ _ _ _ Hi) as [[Hf1 Hne1] Hgr]%Forall_cons.
  destruct (exists_last Hne1) as (its & [l [k v]] & Hits).
  destruct (evict_entry s b0 b1 r its l k v (inv_shape _ _ _ _ Hi) (inv_head _ _ _ _ Hi) Hits)
    as (s4 & -> & Hs4 & Hh4 & Hc4 & Hk4 & Hm4).
  assert (covers (l, mkKey k v) (b1 :: r) (keep (with_items b1 its) r)) as Hcov.
  { rewrite <- (app_nil_r its). apply (move_covers [] b1 r its _ [] r Hits). intros b it ? ? _. by exists b. }
  assert (Forall (good n) (keep (with_items b1 its) r)) as Hgood by by apply keep_good.
  rewrite (evict_abs _ _ _ _ _ _ _ Hits).
  change (b_loc b1) with (b_loc (with_items b1 its)).
  step (run_isEmpty s4 [b0] _ r _ _ Hs4). cbn [b_items with_items].
  unfold keep in *. cbn [b_items with_items] in *. destruct its as [|it its].
  - rewrite bool_decide_true by done.
    destruct (del_spec s4 [] b0 (with_items b1 []) r _ _ Hs4) as (s5 & Hrun5 & [Hh5 Hc5 Hk5 Hm5] & Hs5).
    exists s5, r. rewrite Hrun5. split_and!; [done| |congruence|by rewrite Hk5, Hk4].
    eapply (inv_remove _ _ _ _ s5 r k v l Hi Hs5); try congruence; done.
  - rewrite bool_decide_false by done. exists s4, (with_items b1 (it :: its) :: r).
    split_and!; [done| |done|by rewrite Hk4].
    by eapply (inv_remove _ _ _ _ s4 _ k v l Hi Hs4).
Qed.

Lemma new_key_spec s bs k v : shape s bs [] [] ->
  exists s', new_key k v s = Ret (Ptr (fresh s), s') /\ same s s'
    /\ shape s' bs [(fresh s, mkNode (mkKey k v) NULL NULL)] [].
Proof.
  intros Hs. unfold new_key. run. eexists. split; [reflexivity|]. split; [done|].
  pose proof (fresh_k _ _ _ _ Hs (fresh s) ltac:(lia)) as Hfr. destruct Hs as [Hk Hf Hkf Hff].
  rewrite app_nil_r in *. split; cbn.
  - eapply heap_is_perm; [by apply heap_alloc|]. solve_Permutation.
  - by rewrite app_nil_r.
  - rewrite fmap_app. apply Forall_app. split; [|by constructor; [cbn; lia|]].
    eapply Forall_impl; [exact Hkf|]. cbn. intros. lia.
  - rewrite app_nil_r. eapply Forall_impl; [exact Hff|]. cbn. intros. lia.
Qed.

(** The second half of [set]: the new entry. *)
Lemma set_insert_refines n s b0 rest k v : inv n s b0 rest -> 0 <= n ->
  exists s' rest', (nowk ← new_key k v; hd ← gets head; _ ← addfreq nowk hd;
      modify (fun s => set_kmap (<[k := nowk]> (kmap s)) s)) s = Ret (tt, s')
    /\ inv (n + 1) s' b0 rest' /\ capacity s' = capacity s
    /\ LFUSpec.add_level 0 (mkKey k v, true) (LFUSpec.kill k (abs (kmap s) rest)) = abs (kmap s') rest'.
Proof.
  intros Hi Hn. pose proof (inv_shape _ _ _ _ Hi) as Hs. pose proof (inv_head _ _ _ _ Hi) as Hh.
  destruct (inv_b0 _ _ _ _ Hi) as [Hb0 _].
  destruct (new_key_spec s _ k v Hs) as (s1 & Hrun1 & [Hh1 Hc1 Hk1 Hm1] & Hs1). step Hrun1.
  rewrite (ST_bind_eq _ _ s1 (head s1) s1) by done. rewrite Hh1, Hh.
  destruct (addfreq_new s1 b0 rest _ _ _ _ Hs1 ltac:(congruence) Hb0)
    as (s2 & t & r & Hrun2 & Hs2 & Hnext & Hh2 & Hc2 & Hk2 & Hm2). step Hrun2.
  assert (fresh s ∉ (all_items rest).*1) as Hfr.
  { intros Hin. apply (fresh_k _ _ _ _ Hs (fresh s)); [lia|]. rewrite app_nil_r, kcells_cons, fmap_app.
    apply elem_of_app. right. eapply elem_of_sublist; [exact Hin|apply all_items_sublist]. }
  do 2 eexists. split; [reflexivity|]. split_and!.
  - eapply (inv_step n s b0 rest _ _ k v (fresh s) (with_items t ((fresh s, mkKey k v) :: b_items t)) Hi).
    + by apply shape_set_kmap.
    + cbn. congruence.
    + cbn. congruence.
    + cbn in *. congruence.
    + eapply next_good; [exact Hnext|lia|]. by eapply inv_good.
    + by eapply next_covers.
    + by left.
    + cbn. by left.
  - cbn. congruence.
  - cbn [kmap set_kmap]. rewrite Hk2, Hk1. rewrite (abs_insert _ _ _ _ Hfr).
    apply add_level_abs; [done|]. cbn. by rewrite lookup_insert_eq.
Qed.

Lemma set_refines n s b0 rest k v : inv n s b0 rest -> 0 <= n -> 0 <= capacity s < 2 ^ 31 ->
  exists s' rest', set k v s = Ret (tt, s') /\ inv (n + 1) s' b0 rest' /\ capacity s' = capacity s
    /\ LFUSpec.set (capacity s) k v (abs (kmap s) rest) = abs (kmap s') rest'.
Proof.
  intros Hi Hn Hc. unfold set, LFUSpec.set.
  rewrite (ST_bind_eq _ _ s (capacity s) s) by done.
  destruct (Z.eqb_spec (capacity s) 0) as [E|E].
  { exists s, rest. split_and!; [done| |done|done]. eapply inv_mono; [done|lia]. }
  rewrite (ST_bind_eq _ _ s (kmap s) s) by done. unwrap.
  rewrite (live_count_size _ _ _ _ Hi).
  destruct (Z.eqb_spec (Z.of_nat (size (kmap s))) (capacity s)) as [Ef|Ef].
  - destruct rest as [|b1 r].
    { exfalso. destruct (decide (kmap s = ∅)) as [Em|Em]; [rewrite Em, map_size_empty in Ef; lia|].
      apply map_choose in Em as (k' & p & Hp). destruct (inv_kmap _ _ _ _ Hi _ _ Hp) as (b & ? & ? & Hb & _).
      by apply not_elem_of_nil in Hb. }
    destruct (evict_refines _ _ _ _ _ Hi) as (s1 & rest1 & Hrun1 & Hi1 & Hc1 & Habs1). step Hrun1.
    destruct (set_insert_refines n s1 b0 rest1 k v Hi1 Hn) as (s2 & rest2 & Hrun2 & Hi2 & Hc2 & Habs2).
    exists s2, rest2. split_and!; [done|done|congruence|]. by rewrite Habs1, Habs2.
  - destruct (set_insert_refines n s b0 rest k v Hi Hn) as (s2 & rest2 & Hrun2 & Hi2 & Hc2 & Habs2).
    rewrite (ST_bind_eq _ _ s tt s) by done. by exists s2, rest2.
Qed.

(** ** The life of a cache *)
Fixpoint run_ops (ops : list LFUSpec.op) : M (list (bool * bytes)) :=
  match ops with
  | [] => mret []
  | LFUSpec.Get k v :: ops' => r ← get k v; rs ← run_ops ops'; mret (r :: rs)
  | LFUSpec.Set_ k v :: ops' => _ ← set k v; run_ops ops'
  end.

Lemma run_ops_refines ops n s b0 rest : inv n s b0 rest -> 0 <= n -> n + zlen ops < 2 ^ 31 ->
  0 <= capacity s < 2 ^ 31 ->
  exists s' rest', run_ops ops s = Ret ((LFUSpec.run (capacity s) ops (abs (kmap s) rest)).1, s')
    /\ inv (n + zlen ops) s' b0 rest' /\ capacity s' = capacity s
    /\ (LFUSpec.run (capacity s) ops (abs (kmap s) rest)).2 = abs (kmap s') rest'.
Proof.
  revert n s rest. induction ops as [|[k v|k v] ops IH]; intros n s rest Hi Hn Hl Hc.
  - exists s, rest. rewrite Z.add_0_r. done.
  - rewrite zlen_cons in *. pose proof (zlen_nonneg ops).
    destruct (get_refines n s b0 rest k v Hi ltac:(lia)) as (s1 & rest1 & r & Hrun & Hi1 & Hc1 & Habs).
    destruct (IH (n + 1) s1 rest1 Hi1) as (s2 & rest2 & Hrun2 & Hi2 & Hc2 & Habs2); [lia|lia|lia|].
    exists s2, rest2. cbn. rewrite Habs. rewrite Hc1 in *.
    destruct (LFUSpec.run (capacity s) ops (abs (kmap s1) rest1)) as [rs lv] eqn:E. cbn in *.
    split_and!; [by step Hrun; step Hrun2| |congruence|done].
    by replace (n + (1 + zlen ops)) with (n + 1 + zlen ops) by lia.
  - rewrite zlen_cons in *. pose proof (zlen_nonneg ops).
    destruct (set_refines n s b0 rest k v Hi Hn Hc) as (s1 & rest1 & Hrun & Hi1 & Hc1 & Habs).
    destruct (IH (n + 1) s1 rest1 Hi1) as (s2 & rest2 & Hrun2 & Hi2 & Hc2 & Habs2); [lia|lia|lia|].
    exists s2, rest2. cbn. rewrite Habs. rewrite Hc1 in *.
    split_and!; [by step Hrun| |congruence|done].
    by replace (n + (1 + zlen ops)) with (n + 1 + zlen ops) by lia.
Qed.

Lemma lfu_init_spec : exists s b0, init static_cache = Ret (tt, s) /\ inv 0 s b0 [] /\ capacity s = 100 /\ kmap s = ∅.
Proof.
  eexists _, (mkBucket 1 0 2 []). split; [vm_compute; reflexivity|].
  split_and!; [|done|done]. split; cbn; try done.
  - split; cbn.
    + split; [done|]. cbn. repeat constructor. set_solver.
    + split; [done|]. cbn. repeat constructor. set_solver.
    + repeat constructor.
    + repeat constructor.
  - by intros k [? ?].
Qed.

Lemma destroy_loop_spec bs fuel s p : heap_is (kheap s) (kcells bs) ->
  heap_is (fheap s) (seg p (map b_node bs) NULL) -> head s = first NULL (map b_node bs) ->
  (length bs < fuel)%nat ->
  exists s', destroy_loop fuel s = Ret (tt, s') /\ kheap s' = ∅ /\ fheap s' = ∅.
Proof.
  revert fuel s p. induction bs as [|b bs IH]; intros [|fuel] s p Hk Hf Hh Hl; cbn in Hl; [lia| |lia|].
  - exists s. apply heap_is_nil in Hk. apply heap_is_nil in Hf. cbn [destroy_loop].
    rewrite (ST_bind_eq _ _ s (head s) s) by done. by rewrite Hh.
  - cbn [destroy_loop]. rewrite (ST_bind_eq _ _ s (head s) s) by done. rewrite Hh.
    change (first NULL (map b_node (b :: bs))) with (Ptr (T := KeyList) (b_loc b)). cbn [non_null].
    pose proof (heap_lookup_1 _ _ _ _ Hf) as Hb.
    rewrite (ST_bind_eq _ _ s (first NULL (map b_node bs)) s) by (run; done).
    set (s1 := set_head (first NULL (map b_node bs)) s).
    rewrite (ST_bind_eq _ _ s tt s1) by done.
    destruct (destory_spec (b_nodes b) s1 NULL (kcells bs) _ _ _ _ _ _ Hk Hf)
      as (s2 & Hrun2 & [Hh2 _ _ _] & _ & Hk2 & Hf2). step Hrun2.
    pose proof (heap_lookup_1 _ _ _ _ Hf2) as Hb2. pose proof (heap_free_1 _ _ _ _ Hf2) as Hf3.
    set (s3 := put_heap (T := KeyList) (delete (b_loc b) (fheap s2)) s2).
    rewrite (ST_bind_eq _ _ s2 tt s3) by (run; done).
    apply (IH fuel s3 (Ptr (b_loc b))); [done|done|done|lia].
Qed.

Lemma destroy_spec n s b0 rest : inv n s b0 rest ->
  exists s', destroy s = Ret (tt, s') /\ kheap s' = ∅ /\ fheap s' = ∅.
Proof.
  intros Hi. destruct (inv_shape _ _ _ _ Hi) as [Hk Hf _ _]. rewrite app_nil_r in Hk, Hf.
  eapply (destroy_loop_spec (b0 :: rest)); [exact Hk|exact Hf|by rewrite (inv_head _ _ _ _ Hi)|].
  rewrite (heap_size _ _ Hf), length_seg, length_map. lia.
Qed.

(** C4. The life of the cache, from [init] to the destructor: as long as
    fewer than 2^31 calls are made, no pointer operation of [get] and [set] is
    undefined, every call returns what the levels return, and the destructor
    frees every node that was ever allocated and not evicted. *)
Theorem lfu_refines_levels ops : zlen ops < 2 ^ 31 ->
  exists s s', (_ ← init; run_ops ops) static_cache = Ret ((LFUSpec.run 100 ops []).1, s)
    /\ destroy s = Ret (tt, s') /\ kheap s' = ∅ /\ fheap s' = ∅.
Proof.
  intros Hl. destruct lfu_init_spec as (s0 & b0 & Hinit & Hi & Hc & Hk).
  destruct (run_ops_refines ops 0 s0 b0 [] Hi) as (s & rest & Hrun & Hi' & _ & _); [lia|lia|rewrite Hc; lia|].
  destruct (destroy_spec _ _ _ _ Hi') as (s' & Hd & ? & ?). rewrite Hc in Hrun.
  exists s, s'. split_and!; try done. by rewrite (ST_bind_eq _ _ _ _ _ Hinit).
Qed.

Lemma lfu_refines_levels_witness :
  let ops := [LFUSpec.Set_ (lit "a") (lit "1"); LFUSpec.Get (lit "a") []; LFUSpec.Set_ (lit "a") (lit "2");
              LFUSpec.Get (lit "a") []; LFUSpec.Get (lit "b") []] in
  zlen ops < 2 ^ 31 /\ exists s s', (_ ← init; run_ops ops) static_cache
      = Ret ([(true, lit "1"); (true, lit "2"); (false, [])], s)
    /\ destroy s = Ret (tt, s') /\ kheap s' = ∅ /\ fheap s' = ∅.
Proof.
  intros ops. assert (zlen ops < 2 ^ 31) as Hl by (vm_compute; reflexivity).
  split; [exact Hl|]. exact (lfu_refines_levels ops Hl).
Defined.
