(* ===== verification/LFUPolicy.v ===== *)
(** The replacement policy of cache/LFUCache.cpp against its textbook
    definition: a map from keys to value, use count and time of last use; a
    full cache drops the key with the least count and, among those, the one
    whose last use is oldest. *)
From S2P Require Import Prelude LFUCache LFUSpec.
From S2P Require LFURefine.
From Stdlib Require Import Sorting.Sorted.
Import LFUCache(Key, mkKey, key, kvalue).

Record entry := mkEntry { e_value : bytes; e_count : Z; e_time : Z }.
#[export] Instance entry_eq_dec : EqDecision entry.
Proof. solve_decision. Defined.
Abbreviation store := (gmap bytes entry).

Definition older (a b : entry) : bool :=
  (e_count a <? e_count b) || ((e_count a =? e_count b) && (e_time a <? e_time b)).

(** The oldest of the least used entries. *)
Definition pick (x : bytes * entry) (acc : option (bytes * entry)) : option (bytes * entry) :=
  match acc with Some y => if older x.2 y.2 then Some x else Some y | None => Some x end.
Definition victim (m : store) : option (bytes * entry) := foldr pick None (map_to_list m).

Definition ref_get (t : Z) (k v : bytes) (m : store) : bool * bytes * store :=
  match m !! k with
  | Some e => (true, v ++ e_value e, <[k := mkEntry (e_value e) (e_count e + 1) t]> m)
  | None => (false, v, m)
  end.

Definition ref_evict (m : store) : store :=
  match victim m with Some x => delete x.1 m | None => m end.

Definition ref_set (cap t : Z) (k v : bytes) (m : store) : store :=
  <[k := mkEntry v 1 t]> (if Z.of_nat (size m) =? cap then ref_evict m else m).

Fixpoint ref_run (cap t : Z) (ops : list op) (m : store) : list (bool * bytes) * store :=
  match ops with
  | [] => ([], m)
  | Get k v :: ops' =>
      let '(r, m1) := ref_get t k v m in
      let '(rs, m2) := ref_run cap (t + 1) ops' m1 in (r :: rs, m2)
  | Set_ k v :: ops' => ref_run cap (t + 1) ops' (ref_set cap t k v m)
  end.

(** A client that sets a key only when the cache does not hold it. *)
Fixpoint sets_absent (cap t : Z) (ops : list op) (m : store) : bool :=
  match ops with
  | [] => true
  | Get k v :: ops' => sets_absent cap (t + 1) ops' (ref_get t k v m).2
  | Set_ k v :: ops' =>
      bool_decide (m !! k = None) && sets_absent cap (t + 1) ops' (ref_set cap t k v m)
  end.

(** ** The order of a list of entries *)
Definition before (x y : bytes * entry) : Prop := older x.2 y.2 = true.

Lemma older_lt a b : older a b = true <-> e_count a < e_count b \/ (e_count a = e_count b /\ e_time a < e_time b).
Proof. unfold older. rewrite orb_true_iff, andb_true_iff, Z.eqb_eq, !Z.ltb_lt. done. Qed.

Lemma sorted_app {A} (R : A -> A -> Prop) l1 l2 : StronglySorted R (l1 ++ l2) <->
  StronglySorted R l1 /\ StronglySorted R l2 /\ (forall a b, a ∈ l1 -> b ∈ l2 -> R a b).
Proof.
  induction l1 as [|x l1 IH]; cbn.
  - split; [|tauto]. intros H. split_and!; [constructor|done|]. intros a b Ha. by apply not_elem_of_nil in Ha.
  - split.
    + intros [H1 H2]%StronglySorted_inv. apply IH in H1 as (H1 & H3 & H4).
      rewrite Forall_app in H2. destruct H2 as [H2 H5]. rewrite Forall_forall in H5.
      split_and!; [by constructor|done|]. intros a b [->|Ha]%elem_of_cons Hb; auto.
    + intros ([H1 H2]%StronglySorted_inv & H3 & H4). constructor.
      * apply IH. split_and!; [done|done|]. intros a b Ha Hb. apply H4; set_solver.
      * apply Forall_app. split; [done|]. apply Forall_forall. intros b Hb. apply H4; set_solver.
Qed.

Lemma sorted_cons {A} (R : A -> A -> Prop) x l : StronglySorted R (x :: l) <->
  StronglySorted R l /\ (forall b, b ∈ l -> R x b).
Proof.
  change (x :: l) with ([x] ++ l). rewrite sorted_app. split.
  - intros (_ & ? & H). split; [done|]. intros b Hb. apply H; set_solver.
  - intros [? H]. split_and!; [repeat constructor|done|]. intros a b ->%list_elem_of_singleton Hb. by apply H.
Qed.

(** The victim of a map is the first entry of the sorted list. *)
Lemma pick_min l y : (forall x, x ∈ l -> x = y \/ before y x) -> y ∈ l -> foldr pick None l = Some y.
Proof.
  assert (forall l, (forall x, x ∈ l -> x = y \/ before y x) ->
    foldr pick None l = None \/ (exists z, foldr pick None l = Some z /\ z ∈ l)) as Hsome.
  { clear l. intros l. induction l as [|x l IH]; intros H; [by left|]. right. cbn.
    destruct IH as [->|(z & -> & Hz)]; [intros; apply H; set_solver|exists x; set_solver|].
    cbn. destruct (older x.2 z.2); [exists x; set_solver|exists z; set_solver]. }
  induction l as [|x l IH]; intros H Hin; [by apply not_elem_of_nil in Hin|]. cbn.
  assert (forall z, before y z -> older z.2 y.2 = false) as Hasym.
  { intros z Hz. apply not_true_is_false. intros Hzy. unfold before in Hz. rewrite older_lt in Hz, Hzy. lia. }
  destruct (decide (y ∈ l)) as [Hl|Hl].
  - rewrite IH by (done || (intros; apply H; set_solver)). cbn.
    destruct (H x) as [->|Hx]; [by left| |by rewrite Hasym].
    destruct (older y.2 y.2); done.
  - apply elem_of_cons in Hin as [<-|?]; [|done].
    destruct (Hsome l) as [->|(z & -> & Hz)]; [intros; apply H; set_solver|done|]. cbn.
    destruct (H z) as [->|Hyz]; [by right|done|]. unfold before in Hyz. by rewrite Hyz.
Qed.

Lemma victim_first x L : StronglySorted before (x :: L) -> NoDup (x :: L).*1 ->
  victim (list_to_map (x :: L)) = Some x.
Proof.
  intros [Hs Hx]%sorted_cons Hnd. unfold victim. pose proof (map_to_list_to_map (M := gmap bytes) (x :: L) Hnd) as Hp.
  apply pick_min.
  - intros y Hy. rewrite Hp in Hy. apply elem_of_cons in Hy as [->|Hy]; [by left|right; by apply Hx].
  - rewrite Hp. by left.
Qed.

(** ** The levels as a map of entries *)

(** The entries of the levels, from the first to be dropped on. *)
Definition flat_level (l : level) : list (Z * item) := map (pair l.1) (rev l.2).
Definition flat (lv : levels) : list (Z * item) := concat (map flat_level lv).
Definition ent (x : bytes * entry) : Z * item := (e_count x.2, (mkKey x.1 (e_value x.2), true)).

Record sim_by (t : Z) (lv : levels) (m : store) (L : list (bytes * entry)) : Prop := mkSim {
  sim_levels : StronglySorted Z.lt lv.*1;
  sim_full : Forall (fun l : level => 0 < l.1 /\ l.2 <> []) lv;
  sim_flat : flat lv = map ent L;
  sim_sorted : StronglySorted before L;
  sim_keys : NoDup L.*1;
  sim_map : m = list_to_map L;
  sim_time : Forall (fun x => e_time x.2 < t) L
}.
Definition sim t lv m : Prop := exists L, sim_by t lv m L.

Lemma flat_app lv1 lv2 : flat (lv1 ++ lv2) = flat lv1 ++ flat lv2.
Proof. unfold flat. by rewrite map_app, concat_app. Qed.
Lemma flat_cons l lv : flat (l :: lv) = flat_level l ++ flat lv.
Proof. done. Qed.

Lemma flat_keep c its : flat (keep c its []) = map (pair c) (rev its).
Proof. destruct its; [done|]. cbn [keep]. by rewrite flat_cons, app_nil_r. Qed.

Lemma keep_split c its lv : keep c its lv = keep c its [] ++ lv.
Proof. by destruct its. Qed.

Lemma elem_flat c it lv : (c, it) ∈ flat lv -> exists its, (c, its) ∈ lv /\ it ∈ its.
Proof.
  unfold flat. rewrite list_elem_of_In, in_concat. intros (l & (p & <- & Hp)%in_map_iff & Hin).
  apply in_map_iff in Hin as (x & [= <- <-] & Hx). apply in_rev in Hx.
  exists p.2. rewrite !list_elem_of_In. by destruct p.
Qed.

Lemma ent_inj x y : ent x = ent y -> x.1 = y.1.
Proof. by intros [=]. Qed.

(** Dropping one entry from the order. *)
Lemma sorted_remove {A} (R : A -> A -> Prop) l1 x l2 : StronglySorted R (l1 ++ x :: l2) -> StronglySorted R (l1 ++ l2).
Proof.
  rewrite !sorted_app, sorted_cons. intros (H1 & [H2 _] & H). split_and!; [done|done|].
  intros a b Ha Hb. apply H; set_solver.
Qed.

Lemma sim_remove t lv1 c xs k v ys lv2 m : sim t (lv1 ++ (c, xs ++ (mkKey k v, true) :: ys) :: lv2) m ->
  sim t (lv1 ++ keep c (xs ++ ys) lv2) (delete k m) /\ exists tm, m !! k = Some (mkEntry v c tm).
Proof.
  intros (L & [Hlv Hfull Hflat Hs Hk -> Ht]).
  rewrite flat_app, flat_cons in Hflat. unfold flat_level in Hflat. cbn [fst snd] in Hflat.
  rewrite rev_app_distr in Hflat. cbn [rev] in Hflat. rewrite <- app_assoc in Hflat. cbn [app] in Hflat.
  rewrite map_app in Hflat. cbn [map] in Hflat. rewrite <- app_assoc in Hflat. cbn [app] in Hflat. rewrite app_assoc in Hflat.
  symmetry in Hflat. apply map_eq_app in Hflat as (L1 & L2' & -> & HL1 & HL2).
  apply map_eq_cons in HL2 as ([k' [v' c' tm]] & L2 & -> & Hx & HL2).
  unfold ent in Hx. cbn in Hx. injection Hx as -> -> ->.
  assert (list_to_map (L1 ++ (k, mkEntry v c tm) :: L2) =@{store} <[k := mkEntry v c tm]> (list_to_map (L1 ++ L2))) as Hm.
  { rewrite <- list_to_map_cons. apply list_to_map_proper; [done|]. solve_Permutation. }
  rewrite fmap_app in Hk. cbn in Hk. apply NoDup_app in Hk as (Hk1 & Hkd & [Hkx Hk2]%NoDup_cons).
  assert (k ∉ (L1 ++ L2).*1) as Hkn.
  { rewrite fmap_app, elem_of_app. intros [Hin|Hin]; [|done]. apply (Hkd k Hin). by left. }
  rewrite Hm. split; [|exists tm; by rewrite lookup_insert_eq].
  exists (L1 ++ L2). rewrite Forall_app, Forall_cons in Hfull. split.
  - rewrite fmap_app in Hlv |- *. destruct (xs ++ ys); [by eapply sorted_remove|exact Hlv].
  - apply Forall_app. destruct Hfull as (Hf1 & [Hc _] & Hf2). split; [done|].
    destruct (xs ++ ys); [done|by constructor].
  - rewrite keep_split, !flat_app, flat_keep, rev_app_distr, !map_app, HL1, HL2.
    by rewrite <- !app_assoc.
  - by eapply sorted_remove.
  - rewrite fmap_app. apply NoDup_app. split_and!; [done| |done]. intros x Hx Hin. apply (Hkd x Hx). by right.
  - by apply delete_insert_id, not_elem_of_list_to_map_1.
  - rewrite Forall_app, Forall_cons in Ht. rewrite Forall_app. naive_solver.
Qed.

(** Entering one entry with count [c + 1] and the time [t], behind the levels
    up to [c]. *)
Lemma flat_add_level c it lv : exists n r, flat lv = n ++ r /\ flat (add_level c it lv) = n ++ (c + 1, it) :: r
  /\ (forall x, x ∈ n -> x.1 = c + 1)
  /\ ((StronglySorted Z.lt lv.*1 /\ Forall (fun l : level => c < l.1) lv) -> forall x, x ∈ r -> c + 1 < x.1).
Proof.
  destruct lv as [|[g its] lv]; cbn [add_level].
  - exists [], []. split_and!; [done|done|set_solver|set_solver].
  - destruct (Z.eqb_spec g (c + 1)) as [->|Hne].
    + exists (map (pair (c + 1)) (rev its)), (flat lv). split_and!; [done| | |].
      * rewrite flat_cons. unfold flat_level. cbn. by rewrite map_app, <- app_assoc.
      * intros x Hx. apply list_elem_of_In, in_map_iff in Hx as (y & <- & _). done.
      * intros [[_ Hs]%sorted_cons _] [d y] Hx. apply elem_flat in Hx as (its' & Hx & _). cbn.
        apply Hs. apply list_elem_of_fmap. by exists (d, its').
    + exists [], (flat ((g, its) :: lv)). split_and!; [done|done|set_solver|].
      intros [[_ Hs]%sorted_cons Hf] [d y] Hx. apply elem_flat in Hx as (its' & Hx & _). cbn in *.
      rewrite Forall_forall in Hf. pose proof (Hf _ Hx) as Hd. cbn in Hd.
      apply elem_of_cons in Hx as [[= -> _]|Hx]; [lia|].
      assert (g < d) by (apply Hs, list_elem_of_fmap; by exists (d, its')).
      pose proof (Hf (g, its) ltac:(by left)) as Hg. cbn in Hg. lia.
Qed.

Lemma add_level_levels c it lv1 lv2 : StronglySorted Z.lt (lv1 ++ lv2).*1 -> Forall (fun l : level => l.1 <= c) lv1 ->
  Forall (fun l : level => c < l.1) lv2 -> StronglySorted Z.lt (lv1 ++ add_level c it lv2).*1.
Proof.
  intros Hs H1 H2. rewrite Forall_forall in H1, H2. destruct lv2 as [|[g its] lv2]; cbn [add_level].
  - rewrite app_nil_r in Hs. rewrite fmap_app, sorted_app. cbn. split_and!; [done|repeat constructor|].
    intros a b ([a' its] & -> & Ha)%list_elem_of_fmap ->%list_elem_of_singleton. apply H1 in Ha. cbn in *. lia.
  - destruct (Z.eqb_spec g (c + 1)) as [->|Hne]; [by rewrite !fmap_app in *|].
    rewrite fmap_app in Hs |- *. cbn in *. rewrite !sorted_app, !sorted_cons in *.
    destruct Hs as (Hs1 & [Hs2 Hs3] & Hs4). split_and!; [done|done|done| |].
    + intros b Hb. pose proof (H2 (g, its) ltac:(by left)) as Hg. cbn in Hg.
      apply elem_of_cons in Hb as [->|Hb]; [lia|]. specialize (Hs3 b Hb). lia.
    + intros a b Ha Hb. apply elem_of_cons in Hb as [->|Hb]; [|by apply Hs4].
      apply list_elem_of_fmap in Ha as ([a' its'] & -> & Ha). apply H1 in Ha. cbn in *. lia.
Qed.

Lemma add_level_full c it lv : 0 <= c -> Forall (fun l : level => 0 < l.1 /\ l.2 <> []) lv ->
  Forall (fun l : level => 0 < l.1 /\ l.2 <> []) (add_level c it lv).
Proof.
  intros Hc Hf. assert (0 < c + 1) by lia.
  destruct lv as [|[g its] lv]; cbn; [by repeat constructor|].
  pose proof Hf as [[? ?] ?]%Forall_cons.
  case_match; constructor; done.
Qed.

Lemma sim_insert t lv1 c k v lv2 m : sim t (lv1 ++ lv2) m -> 0 <= c -> m !! k = None ->
  Forall (fun l : level => l.1 <= c) lv1 -> Forall (fun l : level => c < l.1) lv2 ->
  sim (t + 1) (lv1 ++ add_level c (mkKey k v, true) lv2) (<[k := mkEntry v (c + 1) t]> m).
Proof.
  intros (L & [Hlv Hfull Hflat Hs Hk -> Ht]) Hc Hm H1 H2.
  destruct (flat_add_level c (mkKey k v, true) lv2) as (n & r & Hn & Ha & Hnc & Hrc).
  rewrite flat_app, Hn, app_assoc in Hflat. symmetry in Hflat.
  apply map_eq_app in Hflat as (LA & LB & -> & HA & HB).
  assert (forall x, x ∈ LA -> e_count x.2 <= c + 1) as HAc.
  { intros x Hx. assert (ent x ∈ flat lv1 ++ n) as Hin by (rewrite <- HA; apply list_elem_of_In, in_map, list_elem_of_In, Hx).
    apply elem_of_app in Hin as [Hin|Hin]; [|apply Hnc in Hin; cbn in Hin; lia].
    apply elem_flat in Hin as (its & Hin & _). rewrite Forall_forall in H1. apply H1 in Hin. cbn in Hin. lia. }
  assert (forall x, x ∈ LB -> c + 1 < e_count x.2) as HBc.
  { intros x Hx. apply (Hrc ltac:(split; [rewrite fmap_app in Hlv; apply sorted_app in Hlv; tauto|done]) (ent x)).
    rewrite <- HB. apply list_elem_of_In, in_map, list_elem_of_In, Hx. }
  assert (k ∉ (LA ++ LB).*1) as Hkn by by apply not_elem_of_list_to_map_2 in Hm.
  exists (LA ++ (k, mkEntry v (c + 1) t) :: LB). split.
  - by apply add_level_levels.
  - rewrite Forall_app in *. split; [tauto|]. apply add_level_full; tauto.
  - rewrite flat_app, Ha, map_app. cbn. by rewrite HA, HB, <- app_assoc.
  - apply sorted_app in Hs as (Hs1 & Hs2 & Hs3). rewrite sorted_app, sorted_cons.
    rewrite Forall_app in Ht. destruct Ht as [Ht _]. rewrite Forall_forall in Ht.
    split_and!; [done|done| |].
    + intros b Hb. unfold before. rewrite older_lt. cbn. left. by apply HBc.
    + intros a b Ha' Hb. apply elem_of_cons in Hb as [->|Hb]; [|by apply Hs3].
      unfold before. rewrite older_lt. cbn. specialize (HAc a Ha'). specialize (Ht a Ha'). lia.
  - rewrite fmap_app in *. cbn. apply NoDup_app in Hk as (Hk1 & Hk2 & Hk3). rewrite elem_of_app in Hkn.
    apply NoDup_app. split_and!; [done| |by constructor; [tauto|]].
    intros x Hx [->|Hin]%elem_of_cons; [tauto|]. by apply (Hk2 x).
  - rewrite <- list_to_map_cons. apply list_to_map_proper; [|solve_Permutation]. cbn. by constructor.
  - rewrite Forall_app, Forall_cons in *. cbn.
    destruct Ht as [Ht1 Ht2]. split_and!; [|lia|]; (eapply Forall_impl; [eassumption|]); cbn; intros; lia.
Qed.

(** ** The calls *)
Lemma extract_spec k its :
  match extract k its with
  | Some (w, its') => exists xs ys, its = xs ++ (mkKey k w, true) :: ys /\ its' = xs ++ ys
  | None => forall w, (mkKey k w, true) ∉ its
  end.
Proof.
  induction its as [|[[k' v] live] its IH]; cbn [extract]; [intros w; apply not_elem_of_nil|]. cbn [key kvalue].
  destruct live; cbn [andb].
  - case_bool_decide as E.
    + subst. by exists [], its.
    + destruct (extract k its) as [[w its']|].
      * destruct IH as (xs & ys & -> & ->). by exists ((mkKey k' v, true) :: xs), ys.
      * intros w [[= <- _]|?]%elem_of_cons; [done|]. by apply (IH w).
  - destruct (extract k its) as [[w its']|].
    + destruct IH as (xs & ys & -> & ->). by exists ((mkKey k' v, false) :: xs), ys.
    + intros w [?|?]%elem_of_cons; [done|]. by apply (IH w).
Qed.

Lemma touch_spec k lv :
  match touch k lv with
  | Some (w, lv') => exists lv1 c xs ys lv2, lv = lv1 ++ (c, xs ++ (mkKey k w, true) :: ys) :: lv2
      /\ lv' = lv1 ++ keep c (xs ++ ys) (add_level c (mkKey k w, true) lv2)
  | None => forall w, (mkKey k w, true) ∉ items lv
  end.
Proof.
  induction lv as [|[c its] lv IH]; cbn [touch]; [intros w; apply not_elem_of_nil|].
  pose proof (extract_spec k its) as He. destruct (extract k its) as [[w its']|].
  - destruct He as (xs & ys & -> & ->). by exists [], c, xs, ys, lv.
  - destruct (touch k lv) as [[w lv']|].
    + destruct IH as (lv1 & c' & xs & ys & lv2 & -> & ->). by exists ((c, its) :: lv1), c', xs, ys, lv2.
    + intros w. unfold items. cbn. rewrite elem_of_app. intros [?|?]; [by apply (He w)|by apply (IH w)].
Qed.

Lemma elem_items_flat it lv : it ∈ items lv <-> exists c, (c, it) ∈ flat lv.
Proof.
  unfold items, flat. induction lv as [|[c its] lv IH]; cbn.
  - split; [intros H; by apply not_elem_of_nil in H|]. intros [c H]. by apply not_elem_of_nil in H.
  - setoid_rewrite elem_of_app. rewrite IH. unfold flat_level. cbn. split.
    + intros [H|[c' H]]; [|by exists c'; right]. exists c. left. apply list_elem_of_In, in_map. apply -> in_rev.
      by apply list_elem_of_In.
    + intros [c' [H|H]]; [|by right; exists c']. left. apply list_elem_of_In, in_map_iff in H as (y & [= _ <-] & Hy).
      apply in_rev in Hy. by apply list_elem_of_In.
Qed.

Lemma sim_lookup t lv m k w : sim t lv m -> (mkKey k w, true) ∈ items lv <-> exists e, m !! k = Some e /\ e_value e = w.
Proof.
  intros (L & [_ _ Hflat _ Hk -> _]). rewrite elem_items_flat. setoid_rewrite Hflat. split.
  - intros [c Hin]. apply list_elem_of_In, in_map_iff in Hin as ([k' e] & [= _ -> <-] & Hin).
    exists e. split; [|done]. apply elem_of_list_to_map_1; [done|]. by apply list_elem_of_In.
  - intros (e & Hm & <-). apply elem_of_list_to_map_2 in Hm. exists (e_count e).
    apply list_elem_of_In, in_map_iff. exists (k, e). split; [done|]. by apply list_elem_of_In.
Qed.

Lemma sim_get t lv m cap k v : sim t lv m -> cap <> 0 -> exists lv',
  LFUSpec.get cap k v lv = ((ref_get t k v m).1, lv') /\ sim (t + 1) lv' (ref_get t k v m).2.
Proof.
  intros Hs Hc. unfold LFUSpec.get, ref_get. destruct (Z.eqb_spec cap 0); [done|].
  pose proof (touch_spec k lv) as Ht. destruct (touch k lv) as [[w lv']|].
  - destruct Ht as (lv1 & c & xs & ys & lv2 & -> & ->).
    pose proof Hs as (L & [Hlv Hfull _ _ _ _ _]).
    destruct (sim_remove _ _ _ _ _ _ _ _ _ Hs) as [Hr [tm ->]]. cbn.
    eexists. split; [reflexivity|]. rewrite keep_split, app_assoc in Hr.
    rewrite <- insert_delete_eq, keep_split, app_assoc.
    rewrite fmap_app in Hlv. cbn in Hlv. apply sorted_app in Hlv as (_ & [_ H2]%sorted_cons & H1).
    assert (Forall (fun l : level => l.1 <= c) lv1) as Hle.
    { apply Forall_forall. intros l Hl.
      assert (l.1 < c); [|lia]. apply (H1 l.1 c); [by apply list_elem_of_fmap_2|by left]. }
    apply Forall_app in Hfull as [_ [[Hc0 _] _]%Forall_cons]. cbn in Hc0.
    apply (sim_insert t _ c k w lv2); [exact Hr|lia|by rewrite lookup_delete_eq| |].
    + rewrite Forall_app. split; [done|]. destruct (xs ++ ys); [constructor|by repeat constructor].
    + apply Forall_forall. intros l Hl. apply H2. by apply list_elem_of_fmap_2.
  - exists lv. destruct (m !! k) as [e|] eqn:E.
    { destruct (Ht (e_value e)). eapply sim_lookup; [done|]. by exists e. }
    split; [done|]. destruct Hs as (L & [? ? ? ? ? ? HT]). exists L. split; try done.
    eapply Forall_impl; [exact HT|]. cbn. intros. lia.
Qed.

Lemma sim_size t lv m : sim t lv m -> live_count lv = size m.
Proof.
  intros (L & [_ _ Hflat _ Hk -> _]).
  assert (items lv ≡ₚ map snd (flat lv)) as Hp.
  { unfold items, flat. clear. induction lv as [|[c its] lv IH]; cbn; [done|].
    rewrite map_app, <- IH. unfold flat_level. cbn. rewrite map_map, map_id. by rewrite <- Permutation_rev. }
  unfold live_count. rewrite Hp, Hflat, map_map. cbn.
  transitivity (length L).
  - clear. induction L as [|x L IH]; [done|]. cbn [map]. rewrite filter_cons_True by done. cbn. by rewrite IH.
  - rewrite <- (length_fmap fst), <- (size_list_to_set (C := gset bytes)) by done.
    by rewrite <- dom_list_to_map_L, size_dom.
Qed.

Lemma kill_none k lv : (forall w, (mkKey k w, true) ∉ items lv) -> kill k lv = lv.
Proof.
  intros H. unfold kill. rewrite <- (map_id lv) at 2. apply map_ext_in. intros [c its] Hin. f_equal.
  rewrite <- (map_id its) at 2. apply map_ext_in. intros [[k' v] live] Hit. unfold kill_item. cbn. f_equal.
  destruct live; cbn; [|done]. case_bool_decide; [|done]. subst. destruct (H v).
  unfold items. apply list_elem_of_In, in_concat. exists its. split; [|done]. by apply (in_map snd) in Hin.
Qed.

Lemma sim_absent t lv m k : sim t lv m -> m !! k = None -> kill k lv = lv.
Proof.
  intros Hs Hm. apply kill_none. intros w Hin. eapply sim_lookup in Hin as (e & He & _); [|done]. congruence.
Qed.

Lemma sim_evict t lv m : sim t lv m -> m <> ∅ ->
  sim t (evict lv) (ref_evict m) /\ (size (ref_evict m) < size m)%nat.
Proof.
  intros Hs Hm. pose proof Hs as (L & [Hlv Hfull Hflat Hsort Hk HmL Ht]).
  destruct lv as [|[c its] r].
  { destruct L as [|x L]; [|done]. by rewrite HmL in Hm. }
  apply Forall_cons in Hfull as [[_ Hits] _]. cbn in Hits.
  destruct (exists_last Hits) as (xs & x & ->). unfold flat in Hflat. cbn in Hflat. unfold flat_level in Hflat.
  cbn in Hflat. rewrite rev_app_distr in Hflat. cbn in Hflat. symmetry in Hflat.
  apply map_eq_cons in Hflat as ([k e] & L' & -> & Hx & _). injection Hx as He <-.
  destruct (sim_remove _ [] c xs k (e_value e) [] r _ Hs) as [Hr [tm Hlook]].
  rewrite app_nil_r in Hr. cbn [app] in Hr.
  assert (ref_evict m = delete k m) as ->.
  { unfold ref_evict. rewrite HmL, victim_first by done. done. }
  split.
  - cbn [evict]. rewrite last_snoc. cbn [fst key]. rewrite length_app. cbn [length].
    rewrite Nat.add_sub, take_app_length. rewrite (sim_absent t _ (delete k m)); [done|done|].
    by rewrite lookup_delete_eq.
  - rewrite map_size_delete, Hlook. pose proof (map_size_ne_0_lookup_2 m k ltac:(by rewrite Hlook)). lia.
Qed.

Lemma sim_set t lv m cap k v : sim t lv m -> 0 < cap -> m !! k = None -> Z.of_nat (size m) <= cap ->
  sim (t + 1) (LFUSpec.set cap k v lv) (ref_set cap t k v m) /\ Z.of_nat (size (ref_set cap t k v m)) <= cap.
Proof.
  intros Hs Hc Hk Hle. unfold LFUSpec.set, ref_set. rewrite (proj2 (Z.eqb_neq cap 0)) by lia.
  rewrite (sim_size _ _ _ Hs).
  assert (forall lv' m', sim t lv' m' -> m' !! k = None -> Z.of_nat (size m') < cap ->
    sim (t + 1) (add_level 0 (mkKey k v, true) (kill k lv')) (<[k := mkEntry v 1 t]> m')
    /\ Z.of_nat (size (<[k := mkEntry v 1 t]> m')) <= cap) as Hins.
  { intros lv' m' Hs' Hk' Hlt. rewrite (sim_absent _ _ _ _ Hs' Hk'). split.
    - apply (sim_insert t [] 0 k v lv'); try done.
      destruct Hs' as (L & [_ Hf _ _ _ _ _]). eapply Forall_impl; [exact Hf|]. by intros l [? _].
    - rewrite map_size_insert, Hk'. lia. }
  destruct (Z.eqb_spec (Z.of_nat (size m)) cap) as [E|E]; [|apply Hins; [done|done|lia]].
  assert (m <> ∅) as Hne by (intros ->; rewrite map_size_empty in E; lia).
  destruct (sim_evict _ _ _ Hs Hne) as [He Hlt]. apply Hins; [done| |lia].
  unfold ref_evict. destruct (victim m); [|done]. apply lookup_delete_None. by right.
Qed.

Lemma sim_run cap ops t lv m : sim t lv m -> 0 < cap -> Z.of_nat (size m) <= cap ->
  sets_absent cap t ops m = true ->
  (run cap ops lv).1 = (ref_run cap t ops m).1 /\ (exists t', sim t' (run cap ops lv).2 (ref_run cap t ops m).2)
    /\ Z.of_nat (size (ref_run cap t ops m).2) <= cap.
Proof.
  revert t lv m. induction ops as [|[k v|k v] ops IH]; intros t lv m Hs Hc Hle Ha; cbn in *.
  - split_and!; [done|by exists t|done].
  - destruct (sim_get t lv m cap k v Hs ltac:(lia)) as (lv' & -> & Hs').
    destruct (ref_get t k v m) as [r m1] eqn:Eg. cbn in *.
    assert (Z.of_nat (size m1) <= cap) as Hle1.
    { unfold ref_get in Eg. destruct (m !! k) eqn:E; injection Eg as <- <-; [|done].
      by rewrite map_size_insert, E. }
    destruct (IH _ _ _ Hs' Hc Hle1 Ha) as (H1 & H2 & H3).
    destruct (run cap ops lv'), (ref_run cap (t + 1) ops m1). cbn in *. by subst.
  - apply andb_true_iff in Ha as [Hk Ha]. apply bool_decide_eq_true in Hk.
    destruct (sim_set t lv m cap k v Hs Hc Hk Hle) as [Hs' Hle']. by apply IH.
Qed.

Lemma sim_empty : sim 0 [] ∅.
Proof. exists []. split; cbn; by constructor. Qed.

(** C5. For a client that sets a key only when the cache does not hold it (it
    calls [set] after a miss), [LFUCache] behaves as the textbook cache of
    capacity 100: every call returns what it returns, so in particular the
    entry dropped by a full cache is the least frequently, then least
    recently, used one; and [kmap] never holds more than 100 keys. *)
Theorem lfu_policy ops : zlen ops < 2 ^ 31 -> sets_absent 100 0 ops ∅ = true ->
  exists s, (_ ← LFUCache.init; LFURefine.run_ops ops) LFUCache.static_cache = Ret ((ref_run 100 0 ops ∅).1, s)
    /\ size (LFUCache.kmap s) = size (ref_run 100 0 ops ∅).2 /\ Z.of_nat (size (LFUCache.kmap s)) <= 100.
Proof.
  intros Hl Ha. destruct (sim_run 100 ops 0 [] ∅ sim_empty) as (Hr & [t' Hs] & Hle); [lia|vm_compute; congruence|done|].
  destruct LFURefine.lfu_init_spec as (s0 & b0 & Hinit & Hi & Hc & Hk).
  destruct (LFURefine.run_ops_refines ops 0 s0 b0 [] Hi) as (s & rest & Hrun & Hi' & _ & Habs); [lia|lia|rewrite Hc; lia|].
  rewrite Hc in Hrun, Habs. cbn [LFURefine.abs map] in Hrun, Habs.
  exists s. rewrite (ST_bind_eq _ _ _ _ _ Hinit), <- Hr. split; [done|].
  rewrite <- (LFURefine.live_count_size _ _ _ _ Hi'), <- Habs, (sim_size _ _ _ Hs). done.
Qed.

Lemma lfu_policy_witness :
  let ops := [Get (lit "a") []; Set_ (lit "a") (lit "1"); Get (lit "a") []; Set_ (lit "b") (lit "2"); Get (lit "b") []] in
  exists s, (_ ← LFUCache.init; LFURefine.run_ops ops) LFUCache.static_cache
      = Ret ([(false, []); (true, lit "1"); (true, lit "2")], s)
    /\ size (LFUCache.kmap s) = 2%nat /\ Z.of_nat (size (LFUCache.kmap s)) <= 100.
Proof.
  intros ops. assert (zlen ops < 2 ^ 31) as Hl by (vm_compute; reflexivity).
  assert (sets_absent 100 0 ops ∅ = true) as Ha by (vm_compute; reflexivity).
  exact (lfu_policy ops Hl Ha).
Defined.

(** A client that does set a key twice: [set] enters a second node for it, and
    when the first node is evicted the current entry leaves the maps with it.
    The eviction of the second node then erases no key, [kmap] outgrows the
    capacity, and from then on no call of [set] evicts anything. *)
Definition reset_trace (n : nat) : list op :=
  Set_ (lit "a") (lit "1") :: Set_ (lit "a") (lit "2") ::
  map (fun i => Set_ (lit "k" ++ [chr (Z.of_nat i)]) []) (seq 0 (99 + n)).

(** After two sets of one key and 99 sets of others the cache holds its
    100 keys and 101 nodes; the next new key makes a current key vanish, and
    every new key after it makes [kmap] larger than the capacity. *)
Theorem lfu_reset_overflows : exists s1 s2 s3 rs1 rs2 rs3,
  (_ ← LFUCache.init; LFURefine.run_ops (reset_trace 0)) LFUCache.static_cache = Ret (rs1, s1)
  /\ size (LFUCache.kmap s1) = 100%nat
  /\ (_ ← LFUCache.init; LFURefine.run_ops (reset_trace 1 ++ [Get (lit "a") []])) LFUCache.static_cache = Ret (rs2, s2)
  /\ rs2 = [(false, [])]
  /\ (_ ← LFUCache.init; LFURefine.run_ops (reset_trace 50)) LFUCache.static_cache = Ret (rs3, s3)
  /\ size (LFUCache.kmap s3) = 149%nat.
Proof.
  assert (forall ops, zlen ops < 2 ^ 31 -> exists s, (_ ← LFUCache.init; LFURefine.run_ops ops) LFUCache.static_cache
      = Ret ((run 100 ops []).1, s) /\ size (LFUCache.kmap s) = live_count (run 100 ops []).2) as H.
  { intros ops Hl. destruct LFURefine.lfu_init_spec as (s0 & b0 & Hinit & Hi & Hc & Hk).
    destruct (LFURefine.run_ops_refines ops 0 s0 b0 [] Hi) as (s & rest & Hrun & Hi' & _ & Habs);
      [lia|lia|rewrite Hc; lia|]. rewrite Hc in Hrun, Habs. cbn [LFURefine.abs map] in Hrun, Habs.
    exists s. rewrite (ST_bind_eq _ _ _ _ _ Hinit), Hrun. split; [done|].
    by rewrite <- (LFURefine.live_count_size _ _ _ _ Hi'), <- Habs. }
  destruct (H (reset_trace 0)) as (s1 & H1 & Hs1); [vm_compute; reflexivity|].
  destruct (H (reset_trace 1 ++ [Get (lit "a") []])) as (s2 & H2 & _); [vm_compute; reflexivity|].
  destruct (H (reset_trace 50)) as (s3 & H3 & Hs3); [vm_compute; reflexivity|].
  exists s1, s2, s3. do 3 eexists. split; [exact H1|]. split; [rewrite Hs1; vm_compute; reflexivity|].
  split; [exact H2|]. split; [vm_compute; reflexivity|]. split; [exact H3|].
  rewrite Hs3. vm_compute. reflexivity.
Qed.
