(* ===== verification/Timer.v ===== *)
(** common/TimeStamp.h, common/Atomic.h and the timers of Reactor/Timer.h
    and Timer.cpp, with the helpers of namespace TimerFd of TimerQueue.cpp. *)
From S2P Require Import Prelude Cxx.
From Stdlib Require Import SpecFloat.

(** Signed 64-bit addition; overflow is undefined. *)
Definition s64_add (a b : Z) : outcome Z :=
  if bool_decide (- 2 ^ 63 <= a + b < 2 ^ 63) then Ret (a + b) else Crash UndefinedBehaviour.

(** ** AtomicIntegerT<int64_t>: the value before the call is the state *)
Module Atomic.

Definition getAndAdd (x m_value : Z) : Z * Z := (m_value, s64 (m_value + x)).
Definition addAndGet (x m_value : Z) : Z * Z := let '(r, m) := getAndAdd x m_value in (s64 (r + x), m).
Definition incrementAndGet (m_value : Z) : Z * Z := addAndGet 1 m_value.
Definition decrementAndGet (m_value : Z) : Z * Z := addAndGet (-1) m_value.
Definition get (m_value : Z) : Z := m_value.

(** What [addAndGet] returns is what it leaves. *)
Lemma addAndGet_eq x m : addAndGet x m = (s64 (m + x), s64 (m + x)).
Proof. done. Qed.

End Atomic.

(** ** TimeStamp: microseconds since the epoch *)
Module TimeStamp.

Abbreviation t := Z.
Definition kMicroSecondsPerSecond : Z := 1000 * 1000.

Definition invalid : t := 0.
Definition valid (ts : t) : bool := 0 <? ts.

(** [double] as IEEE binary64. *)
Definition double_of_Z (z : Z) : spec_float := binary_normalize 53 1024 z 0 false.

(** [static_cast<int64_t>] of a [double]. *)
Definition int64_of_double (x : spec_float) : outcome Z :=
  match x with
  | S754_zero _ => Ret 0
  | S754_finite s m e =>
      let a := if 0 <=? e then Z.pos m * 2 ^ e else Z.pos m / 2 ^ (- e) in
      let z := if s then - a else a in
      if bool_decide (- 2 ^ 63 <= z < 2 ^ 63) then Ret z else Crash UndefinedBehaviour
  | _ => Crash UndefinedBehaviour
  end.

Definition addTime (timestamp : t) (seconds : spec_float) : outcome t :=
  delta ← int64_of_double (SFmul 53 1024 seconds (double_of_Z kMicroSecondsPerSecond));
  s64_add timestamp delta.

Definition toString (ts : t) : bytes :=
  let seconds := ts ÷ kMicroSecondsPerSecond in
  let microseconds := Z.rem ts kMicroSecondsPerSecond in
  snprintf 31 (dec seconds ++ lit "." ++ pad0 6 microseconds).

End TimeStamp.

(** ** Timer *)
Module Timer.

Record t := mk {
  m_callBack : Z;
  m_expiration : TimeStamp.t;
  m_interval : spec_float;
  m_repeat : bool;
  m_sequence : Z
}.

(** The constructor, given the number it draws. *)
Definition make (cb : Z) (when : TimeStamp.t) (interval : spec_float) (seq : Z) : t :=
  mk cb when interval (SFltb (S754_zero false) interval) seq.

Definition expiration (x : t) : TimeStamp.t := m_expiration x.
Definition repeat (x : t) : bool := m_repeat x.
Definition sequence (x : t) : Z := m_sequence x.

Definition restart (now : TimeStamp.t) (x : t) : outcome t :=
  if m_repeat x
  then e ← TimeStamp.addTime now (m_interval x); Ret (mk (m_callBack x) e (m_interval x) (m_repeat x) (m_sequence x))
  else Ret (mk (m_callBack x) TimeStamp.invalid (m_interval x) (m_repeat x) (m_sequence x)).

End Timer.

(** ** The timer descriptor *)
Module TimerFd.

(** The [timespec] for a moment [when], at the time [now]. *)
Definition howMuchTimeFromNow (when now : TimeStamp.t) : outcome (Z * Z) :=
  d ← s64_add when (- now);
  let microseconds := if d <? 100 then 100 else d in
  Ret (microseconds ÷ TimeStamp.kMicroSecondsPerSecond,
       Z.rem microseconds TimeStamp.kMicroSecondsPerSecond * 1000).

End TimerFd.

(** ** Facts about the helpers *)
Lemma pad0_digits w n : 0 <= n < 10 ^ Z.of_nat w -> (0 < w)%nat ->
  exists k, pad0 w n = replicate k "0"%char ++ udec n /\ (k + length (udec n) = w)%nat.
Proof.
  intros Hn Hw. unfold pad0. rewrite decide_False, Z.abs_eq by lia. cbn [length app].
  pose proof (length_udec n w ltac:(lia) Hw). eexists. split; [reflexivity|]. lia.
Qed.

Lemma digits_val_zeros k l : digits_val 0 (replicate k "0"%char ++ l) = digits_val 0 l.
Proof. induction k as [|k IH]; [done|]. exact IH. Qed.

(** Seconds and microseconds of a printed time. *)
Definition read_stamp (l : bytes) : Z :=
  let i := find_pos "."%char l in
  digits_val 0 (ztake i l) * TimeStamp.kMicroSecondsPerSecond + digits_val 0 (zdrop (i + 1) l).

Lemma toString_eq ts : 0 <= ts < 2 ^ 63 -> exists k,
  TimeStamp.toString ts = udec (ts / 1000000) ++ "."%char :: replicate k "0"%char ++ udec (ts mod 1000000).
Proof.
  intros Hts. unfold TimeStamp.toString.
  change TimeStamp.kMicroSecondsPerSecond with 1000000.
  rewrite Z.quot_div_nonneg, Z.rem_mod_nonneg by lia.
  pose proof (Z.mod_pos_bound ts 1000000 ltac:(lia)). pose proof (Z.div_pos ts 1000000 ltac:(lia) ltac:(lia)).
  destruct (pad0_digits 6 (ts mod 1000000)) as (k & Hk & Hl); [lia|lia|].
  exists k. rewrite Hk. unfold dec. rewrite decide_False by lia.
  apply snprintf_fits. change (lit ".") with ["."%char]. rewrite !zlen_app. cbn [app]. rewrite ?zlen_cons, ?zlen_app.
  assert (zlen (replicate k "0"%char) = Z.of_nat k) as -> by (unfold zlen; by rewrite length_replicate).
  unfold zlen.
  assert (ts / 1000000 < 10 ^ 14) by (apply Z.div_lt_upper_bound; lia).
  pose proof (length_udec (ts / 1000000) 14 ltac:(lia) ltac:(lia)). lia.
Qed.

(** A time from the epoch on is never cut off by the 31 characters of the
    buffer, its microseconds are padded to six digits, and the printed text
    determines it. *)
Theorem toString_roundtrip ts : 0 <= ts < 2 ^ 63 -> read_stamp (TimeStamp.toString ts) = ts.
Proof.
  intros Hts. destruct (toString_eq ts Hts) as (k & ->). unfold read_stamp.
  assert (forall n, "."%char ∉ udec n) as Hdot.
  { intros n Hin. pose proof (udec_digits n) as Hd. rewrite Forall_forall in Hd. by specialize (Hd _ Hin). }
  rewrite find_pos_app by apply Hdot. rewrite ztake_app_exact by done.
  change ("."%char :: ?x) with (["."%char] ++ x). rewrite app_assoc, zdrop_app_exact by by rewrite zlen_app.
  pose proof (Z.mod_pos_bound ts 1000000 ltac:(lia)). pose proof (Z.div_pos ts 1000000 ltac:(lia) ltac:(lia)).
  rewrite digits_val_zeros, !udec_val by lia. change TimeStamp.kMicroSecondsPerSecond with 1000000.
  pose proof (Z.div_mod ts 1000000). lia.
Qed.

Lemma toString_roundtrip_witness : read_stamp (lit "1.000042") = 1000042.
Proof. exact (toString_roundtrip 1000042 ltac:(lia)). Defined.

(** The delay given to timerfd_settime is a valid [timespec] that is at
    least 100 microseconds and exact above: a timer never fires early. *)
Theorem howMuchTimeFromNow_spec when now : 0 <= when < 2 ^ 63 -> 0 <= now < 2 ^ 63 ->
  exists sec nsec, TimerFd.howMuchTimeFromNow when now = Ret (sec, nsec)
    /\ 0 <= sec /\ 0 <= nsec < 10 ^ 9 /\ sec * 10 ^ 9 + nsec = Z.max 100 (when - now) * 1000.
Proof.
  intros Hw Hn. unfold TimerFd.howMuchTimeFromNow, s64_add. rewrite bool_decide_true by lia. cbn.
  change TimeStamp.kMicroSecondsPerSecond with 1000000.
  set (us := if when + - now <? 100 then 100 else when + - now).
  assert (us = Z.max 100 (when - now)) as Hus by (unfold us; destruct (Z.ltb_spec (when + - now) 100); lia).
  do 2 eexists. split; [reflexivity|]. rewrite Z.quot_div_nonneg, Z.rem_mod_nonneg by lia.
  pose proof (Z.div_mod us 1000000 ltac:(lia)). pose proof (Z.mod_pos_bound us 1000000 ltac:(lia)).
  pose proof (Z.div_pos us 1000000 ltac:(lia) ltac:(lia)). lia.
Qed.

Lemma howMuchTimeFromNow_witness : exists sec nsec, TimerFd.howMuchTimeFromNow 2500000 0 = Ret (sec, nsec)
    /\ 0 <= sec /\ 0 <= nsec < 10 ^ 9 /\ sec * 10 ^ 9 + nsec = Z.max 100 (2500000 - 0) * 1000.
Proof. apply (howMuchTimeFromNow_spec 2500000 0); lia. Defined.
