(* ===== verification/Calendar.v ===== *)
(** [gmtime_r] of the C library, and the text of a date: TimeStamp's
    toFormattedString of common/TimeStamp.cpp. *)
From S2P Require Import Prelude Cxx Timer.

(** ** The Gregorian calendar *)
Module Calendar.

Definition leap (y : Z) : bool := (y mod 4 =? 0) && (negb (y mod 100 =? 0) || (y mod 400 =? 0)).
Definition days_in_month (y m : Z) : Z :=
  if m =? 2 then if leap y then 29 else 28
  else if bool_decide (m ∈ [4; 6; 9; 11]) then 30 else 31.

(** A date: year, month from 1, day from 1. *)
Record date := mkDate { year : Z; month : Z; day : Z }.
Definition valid (d : date) : bool := (1 <=? month d) && (month d <=? 12) && (1 <=? day d) && (day d <=? days_in_month (year d) (month d)).

(** The next day. *)
Definition next (d : date) : date :=
  if day d <? days_in_month (year d) (month d) then mkDate (year d) (month d) (day d + 1)
  else if month d <? 12 then mkDate (year d) (month d + 1) 1
  else mkDate (year d + 1) 1 1.

(** Years counted from March: the days before year [y] of 400, and the year of
    day [doe]. *)
Definition start (y : Z) : Z := 365 * y + y / 4 - y / 100.
Definition yoe (doe : Z) : Z := (doe - doe / 1460 + doe / 36524 - doe / 146096) / 365.

(** Day [doy] of the year [y] that starts in March. *)
Definition doy_date (y doy : Z) : date :=
  let mp := (5 * doy + 2) / 153 in
  let d := doy - (153 * mp + 2) / 5 + 1 in
  let m := if mp <? 10 then mp + 3 else mp - 9 in
  mkDate (y + (if m <=? 2 then 1 else 0)) m d.

(** The date of day [doe] of the 400 years that start at 0000-03-01. *)
Definition of_doe (doe : Z) : date := doy_date (yoe doe) (doe - start (yoe doe)).

(** [k] times 400 years later. *)
Definition shift (k : Z) (d : date) : date := mkDate (year d + k * 400) (month d) (day d).

(** The date [days] after 1970-01-01. *)
Definition of_days (days : Z) : date :=
  let z := days + 719468 in shift (z / 146097) (of_doe (z mod 146097)).

(** [struct tm], with the fields the program reads. *)
Record tm := mkTm { tm_year : Z; tm_mon : Z; tm_mday : Z; tm_hour : Z; tm_min : Z; tm_sec : Z }.

Definition gmtime (seconds : Z) : tm :=
  let d := of_days (seconds / 86400) in
  let r := seconds mod 86400 in
  mkTm (year d - 1900) (month d - 1) (day d) (r / 3600) (r mod 3600 / 60) (r mod 60).

(** *** The calendar is the one that starts at 1970-01-01 and goes on day by
    day *)
Lemma of_days_epoch : of_days 0 = mkDate 1970 1 1.
Proof. reflexivity. Qed.

(** Years 400 apart have the same calendar. *)
Lemma leap_shift y k : leap (y + k * 400) = leap y.
Proof.
  unfold leap. replace (y + k * 400) with (y + (k * 100) * 4) at 1 by lia.
  replace (y + k * 400) with (y + (k * 4) * 100) at 1 by lia. by rewrite !Z_mod_plus_full.
Qed.

Lemma next_shift d k : next (shift k d) = shift k (next d).
Proof.
  unfold next, days_in_month, shift. cbn [year month day]. rewrite leap_shift.
  destruct (day d <? _); [done|]. destruct (month d <? 12); cbn [year month day]; [done|]. f_equal. lia.
Qed.

Lemma valid_shift d k : valid (shift k d) = valid d.
Proof. unfold valid, days_in_month, shift. cbn [year month day]. by rewrite leap_shift. Qed.

Lemma shift_shift d j k : shift j (shift k d) = shift (k + j) d.
Proof. unfold shift. cbn [year month day]. f_equal. lia. Qed.

(** Days of the year [y] that starts in March. *)
Definition year_length (y : Z) : Z := 365 + (if leap (y + 1) then 1 else 0).

(** *** The year of a day *)
Lemma yoe_mono a b : 0 <= a <= b -> yoe a <= yoe b.
Proof.
  intros H. unfold yoe. apply Z.div_le_mono; [lia|]. Z.div_mod_to_equations. lia.
Qed.

Fixpoint years_ok (n : nat) (y : Z) : bool :=
  match n with
  | O => true
  | S n' => (yoe (start y) =? y) && (yoe (start y + year_length y - 1) =? y)
      && ((start (y + 1) =? start y + year_length y) || (y =? 399)) && years_ok n' (y + 1)
  end.

Lemma years_ok_spec n y k : years_ok n y = true -> y <= k < y + Z.of_nat n ->
  yoe (start k) = k /\ yoe (start k + year_length k - 1) = k /\ (start (k + 1) = start k + year_length k \/ k = 399).
Proof.
  revert y. induction n as [|n IH]; intros y H Hk; [lia|]. cbn [years_ok] in H.
  apply andb_true_iff in H as [[[H1 H2]%andb_true_iff H3]%andb_true_iff H4].
  destruct (decide (k = y)) as [->|Hne]; [|apply (IH (y + 1)); [done|lia]].
  apply orb_true_iff in H3. rewrite !Z.eqb_eq in *. done.
Qed.

Lemma years k : 0 <= k < 400 ->
  yoe (start k) = k /\ yoe (start k + year_length k - 1) = k /\ (start (k + 1) = start k + year_length k \/ k = 399).
Proof. intros Hk. apply (years_ok_spec 400 0); [vm_compute; reflexivity|lia]. Qed.

Lemma start_nonneg y : 0 <= y -> 0 <= start y.
Proof. intros H. unfold start. Z.div_mod_to_equations. lia. Qed.

Lemma yoe_unique y doe : 0 <= y < 400 -> start y <= doe < start y + year_length y -> yoe doe = y.
Proof.
  intros Hy Hd. destruct (years y Hy) as (H1 & H2 & _). pose proof (start_nonneg y ltac:(lia)).
  pose proof (yoe_mono (start y) doe ltac:(lia)). pose proof (yoe_mono doe (start y + year_length y - 1) ltac:(lia)). lia.
Qed.

Lemma year_exists n doe : (n < 400)%nat -> 0 <= doe < start (Z.of_nat n) + year_length (Z.of_nat n) ->
  exists y, 0 <= y < 400 /\ start y <= doe < start y + year_length y.
Proof.
  revert doe. induction n as [|n IH]; intros doe Hn Hd; [exists 0; split; [lia|exact Hd]|].
  destruct (decide (start (Z.of_nat (S n)) <= doe)) as [H|H]; [exists (Z.of_nat (S n)); lia|].
  apply IH; [lia|]. destruct (years (Z.of_nat n)) as (_ & _ & [E|E]); [lia| |lia].
  replace (Z.of_nat (S n)) with (Z.of_nat n + 1) in H by lia. lia.
Qed.

Lemma yoe_spec doe : 0 <= doe < 146097 -> 0 <= yoe doe < 400 /\ start (yoe doe) <= doe < start (yoe doe) + year_length (yoe doe).
Proof.
  intros Hd. destruct (year_exists 399 doe) as (y & Hy & H); [lia|exact Hd|]. by rewrite (yoe_unique y doe Hy H).
Qed.

(** *** The days of a year *)
Definition date_eqb (d e : date) : bool := (year d =? year e) && (month d =? month e) && (day d =? day e).
Lemma date_eqb_eq d e : date_eqb d e = true -> d = e.
Proof. unfold date_eqb. rewrite !andb_true_iff, !Z.eqb_eq. destruct d, e. cbn. naive_solver. Qed.

(** Up to the last day of January the leap years do not matter. *)
Fixpoint days_ok (n : nat) (doy : Z) : bool :=
  match n with
  | O => true
  | S n' => let d := doy_date 0 doy in
      valid d && negb (month d =? 2) && date_eqb (next d) (doy_date 0 (doy + 1)) && days_ok n' (doy + 1)
  end.

Lemma days_ok_spec n doy k : days_ok n doy = true -> doy <= k < doy + Z.of_nat n ->
  valid (doy_date 0 k) = true /\ month (doy_date 0 k) <> 2 /\ next (doy_date 0 k) = doy_date 0 (k + 1).
Proof.
  revert doy. induction n as [|n IH]; intros doy H Hk; [lia|]. cbn [days_ok] in H.
  apply andb_true_iff in H as [[[H1 H2]%andb_true_iff H3]%andb_true_iff H4].
  destruct (decide (k = doy)) as [->|Hne]; [|apply (IH (doy + 1)); [done|lia]].
  apply date_eqb_eq in H3. apply negb_true_iff, Z.eqb_neq in H2. done.
Qed.

Lemma doy_year y doy : doy_date y doy = mkDate (y + year (doy_date 0 doy)) (month (doy_date 0 doy)) (day (doy_date 0 doy)).
Proof. unfold doy_date. cbn [year month day]. f_equal. Qed.

Lemma not_february y doy : 0 <= doy <= 336 ->
  valid (doy_date y doy) = true /\ next (doy_date y doy) = doy_date y (doy + 1).
Proof.
  intros Hd. destruct (days_ok_spec 337 0 doy) as (H1 & H2 & H3); [vm_compute; reflexivity|lia|].
  rewrite (doy_year y doy), (doy_year y (doy + 1)), <- H3. unfold valid, next, days_in_month in *. cbn [year month day] in *.
  rewrite (proj2 (Z.eqb_neq _ _)) in * by done. split; [done|].
  destruct (day (doy_date 0 doy) <? _); [done|]. destruct (_ <? 12); cbn [year month day]; [done|]. f_equal. lia.
Qed.

Lemma february y doy : 337 <= doy <= 365 -> doy_date y doy = mkDate (y + 1) 2 (doy - 336).
Proof.
  intros Hd. unfold doy_date. assert ((5 * doy + 2) / 153 = 11) as -> by (Z.div_mod_to_equations; lia).
  cbn [Z.ltb Z.compare Pos.compare Pos.compare_cont]. change (if 11 - 9 <=? 2 then 1 else 0) with 1.
  f_equal. change ((153 * 11 + 2) / 5) with 337. lia.
Qed.

Lemma march_first y : doy_date y 0 = mkDate y 3 1.
Proof. unfold doy_date. change (mkDate (y + 0) 3 1 = mkDate y 3 1). by rewrite Z.add_0_r. Qed.

Lemma doy_ok y doy : 0 <= doy < year_length y ->
  valid (doy_date y doy) = true /\
  next (doy_date y doy) = if doy + 1 <? year_length y then doy_date y (doy + 1) else doy_date (y + 1) 0.
Proof.
  intros Hd. unfold year_length in *. destruct (decide (doy <= 336)) as [H|H].
  - destruct (not_february y doy) as [Hv Hn]; [lia|]. rewrite (proj2 (Z.ltb_lt _ _)) by (case_match; lia). done.
  - assert (doy <= 365) by (case_match; lia). rewrite february by lia. unfold valid, next, days_in_month. cbn [year month day].
    change (2 =? 2) with true. change (1 <=? 2) with true. change (2 <=? 12) with true. change (2 <? 12) with true. cbv iota.
    destruct (leap (y + 1)); cbn [andb]; [change (365 + 1) with 366 in *|change (365 + 0) with 365 in *].
    + split; [lia|]. destruct (Z.ltb_spec (doy + 1) 366).
      * rewrite (proj2 (Z.ltb_lt (doy - 336) 29)), february by lia. f_equal. lia.
      * rewrite (proj2 (Z.ltb_ge (doy - 336) 29)) by lia. by rewrite march_first.
    + split; [lia|]. destruct (Z.ltb_spec (doy + 1) 365).
      * rewrite (proj2 (Z.ltb_lt (doy - 336) 28)), february by lia. f_equal. lia.
      * rewrite (proj2 (Z.ltb_ge (doy - 336) 28)) by lia. by rewrite march_first.
Qed.

(** *** The days of 400 years *)
Lemma of_doe_ok k : 0 <= k < 146097 -> valid (of_doe k) = true /\ 0 <= year (of_doe k) <= 400.
Proof.
  intros Hk. destruct (yoe_spec k Hk) as [Hy Hs]. unfold of_doe. destruct (doy_ok (yoe k) (k - start (yoe k))) as [Hv _]; [lia|].
  split; [done|]. unfold doy_date. cbn [year]. case_match; lia.
Qed.

Lemma era_days k : 0 <= k < 146096 -> next (of_doe k) = of_doe (k + 1).
Proof.
  intros Hk. destruct (yoe_spec k ltac:(lia)) as [Hy Hs]. unfold of_doe at 1.
  destruct (doy_ok (yoe k) (k - start (yoe k))) as [_ ->]; [lia|].
  destruct (Z.ltb_spec (k - start (yoe k) + 1) (year_length (yoe k))) as [H|H].
  - unfold of_doe. rewrite (yoe_unique (yoe k) (k + 1)) by lia. f_equal. lia.
  - destruct (years (yoe k) Hy) as (_ & _ & [E|E]).
    + assert (yoe k <> 399) as Hne.
      { intros E0. rewrite E0 in *. change (start 399) with 145731 in *. change (year_length 399) with 366 in *. lia. }
      assert (365 <= year_length (yoe k + 1)) by (unfold year_length; case_match; lia).
      unfold of_doe. rewrite (yoe_unique (yoe k + 1) (k + 1)) by lia. f_equal. lia.
    + rewrite E in *. change (start 399) with 145731 in *. change (year_length 399) with 366 in *. lia.
Qed.

Lemma era_last : next (of_doe 146096) = shift 1 (of_doe 0).
Proof. reflexivity. Qed.

Lemma of_days_valid z : valid (of_days z) = true.
Proof. unfold of_days. rewrite valid_shift. apply of_doe_ok, Z.mod_pos_bound. lia. Qed.

Lemma of_days_next z : of_days (z + 1) = next (of_days z).
Proof.
  unfold of_days. rewrite next_shift. set (w := z + 719468). replace (z + 1 + 719468) with (w + 1) by lia.
  pose proof (Z.mod_pos_bound w 146097 ltac:(lia)) as Hm. pose proof (Z.div_mod w 146097 ltac:(lia)) as Hd.
  destruct (decide (w mod 146097 = 146096)) as [E|E].
  - rewrite E. rewrite era_last, shift_shift.
    assert (w + 1 = (w / 146097 + 1) * 146097) as -> by lia. rewrite Z.div_mul, Z.mod_mul by lia. f_equal. lia.
  - rewrite era_days by lia.
    assert (w + 1 = w mod 146097 + 1 + (w / 146097) * 146097) as -> by lia.
    rewrite Z.div_add, Z.mod_add by lia. by rewrite (Z.div_small (w mod 146097 + 1)), (Z.mod_small (w mod 146097 + 1)) by lia.
Qed.

(** Dates in the order of the days. *)
Definition key (d : date) : Z := (year d * 12 + month d) * 31 + day d.

Lemma valid_ranges d : valid d = true -> 1 <= month d <= 12 /\ 1 <= day d <= 31.
Proof.
  unfold valid, days_in_month. intros H. apply andb_true_iff in H as [[[H1 H2]%andb_true_iff H3]%andb_true_iff H4].
  split; [lia|]. split; [lia|]. repeat case_match; lia.
Qed.

Lemma key_next d : valid d = true -> key d < key (next d).
Proof.
  intros Hv. apply valid_ranges in Hv. unfold key, next. destruct (day d <? _); [cbn; lia|].
  destruct (Z.ltb_spec (month d) 12); cbn [year month day]; lia.
Qed.

Lemma key_mono n z : key (of_days z) + Z.of_nat n <= key (of_days (z + Z.of_nat n)).
Proof.
  induction n as [|n IH]; [rewrite !Z.add_0_r; lia|]. replace (z + Z.of_nat (S n)) with (z + Z.of_nat n + 1) by lia.
  rewrite of_days_next. pose proof (key_next _ (of_days_valid (z + Z.of_nat n))). lia.
Qed.

Lemma of_days_mono y z : y <= z -> key (of_days y) <= key (of_days z).
Proof. intros H. pose proof (key_mono (Z.to_nat (z - y)) y). replace (y + Z.of_nat (Z.to_nat (z - y))) with z in * by lia. lia. Qed.

Lemma of_days_inj y z : of_days y = of_days z -> y = z.
Proof.
  intros H. destruct (Z.lt_trichotomy y z) as [Hl|[->|Hl]]; [|done|].
  - pose proof (key_mono (Z.to_nat (z - y)) y). replace (y + Z.of_nat (Z.to_nat (z - y))) with z in * by lia. rewrite H in *. lia.
  - pose proof (key_mono (Z.to_nat (y - z)) z). replace (z + Z.of_nat (Z.to_nat (y - z))) with y in * by lia. rewrite H in *. lia.
Qed.

(** *** [gmtime] from 1970 to 9999 *)
Definition end_of_9999 : Z := 253402300800.

Record tm_ok (t : tm) : Prop := {
  ok_year : 1970 <= tm_year t + 1900 <= 9999;
  ok_mon : 0 <= tm_mon t <= 11;
  ok_mday : 1 <= tm_mday t <= 31;
  ok_hour : 0 <= tm_hour t <= 23;
  ok_min : 0 <= tm_min t <= 59;
  ok_sec : 0 <= tm_sec t <= 59
}.

Lemma gmtime_ok s : 0 <= s < end_of_9999 -> tm_ok (gmtime s).
Proof.
  intros Hs. unfold end_of_9999 in Hs. assert (0 <= s / 86400 <= 2932896) as Hd by (Z.div_mod_to_equations; lia).
  pose proof (of_days_mono 0 (s / 86400) ltac:(lia)) as Hlo. pose proof (of_days_mono (s / 86400) 2932896 ltac:(lia)) as Hhi.
  change (key (of_days 0)) with 732872 in Hlo. change (key (of_days 2932896)) with 3720031 in Hhi.
  pose proof (valid_ranges _ (of_days_valid (s / 86400))) as [Hm Hdd]. unfold key in *.
  unfold gmtime. split; cbn [tm_year tm_mon tm_mday tm_hour tm_min tm_sec]; try lia; Z.div_mod_to_equations; lia.
Qed.

Lemma gmtime_inj s s' : gmtime s = gmtime s' -> s = s'.
Proof.
  intros H. pose proof (f_equal tm_year H) as Hy. pose proof (f_equal tm_mon H) as Hm. pose proof (f_equal tm_mday H) as Hd.
  pose proof (f_equal tm_hour H) as Hh. pose proof (f_equal tm_min H) as Hmi. pose proof (f_equal tm_sec H) as Hs. clear H.
  unfold gmtime in *. cbn [tm_year tm_mon tm_mday tm_hour tm_min tm_sec] in *.
  assert (of_days (s / 86400) = of_days (s' / 86400)) as Hdate.
  { destruct (of_days (s / 86400)), (of_days (s' / 86400)). cbn [year month day] in *. f_equal; lia. }
  apply of_days_inj in Hdate. Z.div_mod_to_equations. lia.
Qed.
End Calendar.

(** ** Dates as text *)

(** [%wd]: spaces on the left. *)
Definition pads (w : nat) (z : Z) : bytes := replicate (w - length (dec z)) " "%char ++ dec z.

(** [snprintf(buf, 64, "%4d%02d%02d %02d:%02d:%02d")], and with microseconds. *)
Definition toFormattedString (ts : TimeStamp.t) (showMicroseconds : bool) : bytes :=
  let seconds := ts ÷ TimeStamp.kMicroSecondsPerSecond in
  let tm_time := Calendar.gmtime seconds in
  let head := pads 4 (Calendar.tm_year tm_time + 1900) ++ pad0 2 (Calendar.tm_mon tm_time + 1) ++ pad0 2 (Calendar.tm_mday tm_time)
    ++ lit " " ++ pad0 2 (Calendar.tm_hour tm_time) ++ lit ":" ++ pad0 2 (Calendar.tm_min tm_time) ++ lit ":" ++ pad0 2 (Calendar.tm_sec tm_time) in
  if showMicroseconds
  then snprintf 64 (head ++ lit "." ++ pad0 6 (Z.rem ts TimeStamp.kMicroSecondsPerSecond))
  else snprintf 64 head.

(** A field of [w] digits, and its value. *)
Lemma pad0_field w n : 0 <= n < 10 ^ Z.of_nat w -> (0 < w)%nat -> zlen (pad0 w n) = Z.of_nat w /\ digits_val 0 (pad0 w n) = n.
Proof.
  intros Hn Hw. destruct (pad0_digits w n Hn Hw) as (k & E & Hl). rewrite E. split.
  - unfold zlen. rewrite length_app, length_replicate. lia.
  - rewrite digits_val_zeros. apply udec_val. lia.
Qed.

Lemma pads_4 n : 1000 <= n <= 9999 -> pads 4 n = pad0 4 n.
Proof.
  intros Hn. pose proof (pad0_field 4 n ltac:(lia) ltac:(lia)) as [Hl _]. unfold pads, pad0 in *. unfold dec.
  rewrite !decide_False in * by lia. rewrite Z.abs_eq in * by lia. cbn [length app] in *. rewrite Nat.sub_0_r in *.
  assert (length (udec n) = 4%nat) as ->; [|done].
  pose proof (length_udec n 4 ltac:(lia) ltac:(lia)). destruct (decide (length (udec n) <= 3)%nat) as [H3|]; [|lia].
  exfalso. pose proof (udec_val n ltac:(lia)) as Hv. pose proof (udec_digits n) as Hd.
  assert (forall l, Forall (fun c => isdigit c = true) l -> (length l <= 3)%nat -> digits_val 0 l < 1000) as Hlt.
  { intros l Hf Hle. destruct l as [|a [|b [|c [|]]]]; cbn in Hle; [..|lia]; unfold isdigit in Hf;
      repeat match goal with H : Forall _ (_ :: _) |- _ => apply Forall_cons in H as [?%bool_decide_eq_true H] end;
      cbn [digits_val]; unfold digit_val; lia. }
  specialize (Hlt _ Hd H3). lia.
Qed.

(** The texts of dates, with [sep] between year, month and day. *)
Definition stamp (sep : bytes) (y mo d h mi s : Z) : bytes :=
  pad0 4 y ++ sep ++ pad0 2 mo ++ sep ++ pad0 2 d ++ lit " " ++ pad0 2 h ++ lit ":" ++ pad0 2 mi ++ lit ":" ++ pad0 2 s.

(** Numbers that fit the fields. *)
Definition fields_ok (y mo d h mi s : Z) : Prop :=
  0 <= y <= 9999 /\ 0 <= mo <= 99 /\ 0 <= d <= 99 /\ 0 <= h <= 99 /\ 0 <= mi <= 99 /\ 0 <= s <= 99.

Lemma zlen_stamp sep y mo d h mi s : fields_ok y mo d h mi s -> zlen (stamp sep y mo d h mi s) = 17 + 2 * zlen sep.
Proof.
  intros (Hy & Hmo & Hd & Hh & Hmi & Hs). unfold stamp. rewrite !zlen_app. change (zlen (lit " ")) with 1. change (zlen (lit ":")) with 1.
  rewrite (proj1 (pad0_field 4 y ltac:(lia) ltac:(lia))), (proj1 (pad0_field 2 mo ltac:(lia) ltac:(lia))),
    (proj1 (pad0_field 2 d ltac:(lia) ltac:(lia))), (proj1 (pad0_field 2 h ltac:(lia) ltac:(lia))),
    (proj1 (pad0_field 2 mi ltac:(lia) ltac:(lia))), (proj1 (pad0_field 2 s ltac:(lia) ltac:(lia))). lia.
Qed.

(** A field at the head of equal texts. *)
Lemma field_inj w n m k l : 0 <= n < 10 ^ Z.of_nat w -> 0 <= m < 10 ^ Z.of_nat w -> (0 < w)%nat ->
  pad0 w n ++ k = pad0 w m ++ l -> n = m /\ k = l.
Proof.
  intros Hn Hm Hw H. destruct (pad0_field w n Hn Hw) as [Ln Vn], (pad0_field w m Hm Hw) as [Lm Vm].
  apply app_inj_1 in H as [H ->]; [|unfold zlen in *; lia]. by rewrite <- Vn, <- Vm, H.
Qed.

Lemma stamp_inj sep y mo d h mi s y' mo' d' h' mi' s' e e' : fields_ok y mo d h mi s -> fields_ok y' mo' d' h' mi' s' ->
  stamp sep y mo d h mi s ++ e = stamp sep y' mo' d' h' mi' s' ++ e' ->
  y = y' /\ mo = mo' /\ d = d' /\ h = h' /\ mi = mi' /\ s = s' /\ e = e'.
Proof.
  intros (Hy & Hmo & Hd & Hh & Hmi & Hs) (Hy' & Hmo' & Hd' & Hh' & Hmi' & Hs') H. unfold stamp in H. rewrite <- !app_assoc in H.
  apply field_inj in H as [-> H]; [|lia..]. apply app_inv_head in H. apply field_inj in H as [-> H]; [|lia..].
  apply app_inv_head in H. apply field_inj in H as [-> H]; [|lia..]. apply app_inv_head in H.
  apply field_inj in H as [-> H]; [|lia..]. apply app_inv_head in H. apply field_inj in H as [-> H]; [|lia..].
  apply app_inv_head in H. apply field_inj in H as [-> H]; [|lia..]. done.
Qed.

Lemma toFormattedString_stamp ts : 0 <= ts < Calendar.end_of_9999 * 1000000 ->
  let t := Calendar.gmtime (ts ÷ TimeStamp.kMicroSecondsPerSecond) in
  Calendar.tm_ok t /\
  toFormattedString ts false = stamp [] (Calendar.tm_year t + 1900) (Calendar.tm_mon t + 1) (Calendar.tm_mday t)
    (Calendar.tm_hour t) (Calendar.tm_min t) (Calendar.tm_sec t) /\
  toFormattedString ts true = toFormattedString ts false ++ lit "." ++ pad0 6 (Z.rem ts TimeStamp.kMicroSecondsPerSecond).
Proof.
  intros Hts. unfold Calendar.end_of_9999 in Hts. assert (Calendar.tm_ok (Calendar.gmtime (ts ÷ TimeStamp.kMicroSecondsPerSecond))) as Hok.
  { apply Calendar.gmtime_ok. unfold Calendar.end_of_9999, TimeStamp.kMicroSecondsPerSecond. rewrite Z.quot_div_nonneg by lia. Z.div_mod_to_equations. lia. }
  cbv zeta. split; [done|]. unfold toFormattedString. set (t := Calendar.gmtime _) in *. destruct Hok as [Hy Hmo Hd Hh Hmi Hs].
  rewrite pads_4 by lia. change (pad0 4 (Calendar.tm_year t + 1900) ++ _) with (stamp [] (Calendar.tm_year t + 1900) (Calendar.tm_mon t + 1)
    (Calendar.tm_mday t) (Calendar.tm_hour t) (Calendar.tm_min t) (Calendar.tm_sec t)).
  assert (zlen (stamp [] (Calendar.tm_year t + 1900) (Calendar.tm_mon t + 1) (Calendar.tm_mday t) (Calendar.tm_hour t) (Calendar.tm_min t)
    (Calendar.tm_sec t)) = 17) as Hl by (rewrite zlen_stamp; [done|unfold fields_ok; lia]).
  rewrite (snprintf_fits 64 (stamp _ _ _ _ _ _ _)) by lia. split; [done|]. rewrite snprintf_fits; [done|].
  unfold TimeStamp.kMicroSecondsPerSecond. rewrite Z.rem_mod_nonneg by lia. pose proof (Z.mod_pos_bound ts (1000 * 1000) ltac:(lia)).
  rewrite !zlen_app, Hl, (proj1 (pad0_field 6 (ts mod (1000 * 1000)) ltac:(lia) ltac:(lia))). by vm_compute.
Qed.

(** C23. The formatted time is exact: from 1970 to the end of 9999 it is never
    truncated, has 24 characters with microseconds and 17 without, and two
    times with the same text are the same (to the second without
    microseconds). *)
Theorem toFormattedString_exact (ts ts' : TimeStamp.t)
    (Hts : 0 <= ts < Calendar.end_of_9999 * 1000000) (Hts' : 0 <= ts' < Calendar.end_of_9999 * 1000000) :
  zlen (toFormattedString ts true) = 24 /\ zlen (toFormattedString ts false) = 17
  /\ (toFormattedString ts true = toFormattedString ts' true -> ts = ts')
  /\ (toFormattedString ts false = toFormattedString ts' false -> ts / 1000000 = ts' / 1000000).
Proof.
  destruct (toFormattedString_stamp ts Hts) as (Hok & E & E2), (toFormattedString_stamp ts' Hts') as (Hok' & E' & E2').
  rewrite E in E2. rewrite E' in E2'. unfold TimeStamp.kMicroSecondsPerSecond in *.
  rewrite Z.quot_div_nonneg, Z.rem_mod_nonneg in * by lia. change (1000 * 1000) with 1000000 in *.
  pose proof (Z.mod_pos_bound ts 1000000 ltac:(lia)). pose proof (Z.mod_pos_bound ts' 1000000 ltac:(lia)).
  set (t := Calendar.gmtime (ts / 1000000)) in *. set (t' := Calendar.gmtime (ts' / 1000000)) in *.
  assert (forall x, Calendar.tm_ok x -> fields_ok (Calendar.tm_year x + 1900) (Calendar.tm_mon x + 1) (Calendar.tm_mday x)
    (Calendar.tm_hour x) (Calendar.tm_min x) (Calendar.tm_sec x)) as Hf by (intros x []; unfold fields_ok; lia).
  assert (forall e e', toFormattedString ts false ++ e = toFormattedString ts' false ++ e' -> ts / 1000000 = ts' / 1000000 /\ e = e') as Hinj.
  { intros e e' Heq. rewrite E, E' in Heq. apply stamp_inj in Heq as (Hy & Hmo & Hd & Hh & Hmi & Hs & He); [|by apply Hf..].
    split; [|done]. apply Calendar.gmtime_inj. fold t t'. destruct t, t'. cbn in *. f_equal; lia. }
  rewrite E2, E2'. rewrite <- E, <- E' in *. assert (zlen (toFormattedString ts false) = 17) as Hl.
  { rewrite E, zlen_stamp; [done|by apply Hf]. }
  split; [|split; [done|split]].
  - rewrite !zlen_app, Hl, (proj1 (pad0_field 6 (ts mod 1000000) ltac:(lia) ltac:(lia))). done.
  - intros Heq. apply Hinj in Heq as [Hq Hr]. apply app_inv_head in Hr.
    rewrite <- (app_nil_r (pad0 6 (ts mod _))), <- (app_nil_r (pad0 6 (ts' mod _))) in Hr. apply field_inj in Hr as [Hr _]; [|lia..].
    pose proof (Z.div_mod ts 1000000). pose proof (Z.div_mod ts' 1000000). lia.
  - intros Heq. rewrite <- (app_nil_r (toFormattedString ts false)), <- (app_nil_r (toFormattedString ts' false)) in Heq. by apply Hinj in Heq as [Hq _].
Qed.

Lemma toFormattedString_exact_witness : toFormattedString 951782400123456 true = lit "20000229 00:00:00.123456"
  /\ zlen (toFormattedString 951782400123456 true) = 24.
Proof.
  split; [reflexivity|]. by apply (toFormattedString_exact 951782400123456 0).
Defined.
