(* ===== verification/Logger.v ===== *)
(** Logger/Logger: a log statement, from its level to the line it hands to the
    output function. *)
From S2P Require Import Prelude Cxx Timer LogStream Calendar.
From Stdlib Require Import SpecFloat.

Module Logger.

Inductive LogLevel := TRACE | DEBUG | INFO | WARN | ERROR | FATAL.
Definition level_value (l : LogLevel) : Z :=
  match l with TRACE => 0 | DEBUG => 1 | INFO => 2 | WARN => 3 | ERROR => 4 | FATAL => 5 end.

Definition color (n : ascii) (m : ascii) (k : ascii) : bytes := [chr 27; "["%char; n; ";"%char; m; k; "m"%char].
Definition LogLevelColor (l : LogLevel) : bytes :=
  match l with
  | TRACE => color "1" "3" "5" | DEBUG => color "1" "3" "4" | INFO => color "1" "3" "2"
  | WARN => color "1" "3" "3" | ERROR => color "1" "3" "1" | FATAL => color "1" "3" "0"
  end.
Definition normal : bytes := color "0" "3" "9".
Definition LogLevelName (l : LogLevel) : bytes :=
  match l with
  | TRACE => lit "[TRACE]" | DEBUG => lit "[DEBUG]" | INFO => lit "[INFO ]"
  | WARN => lit "[WARN ]" | ERROR => lit "[ERROR]" | FATAL => lit "[FATAL]"
  end.

(** The characters after the last ['/']. *)
Fixpoint until_slash (l : bytes) : bytes :=
  match l with [] => [] | c :: l' => if decide (c = "/"%char) then [] else c :: until_slash l' end.
Definition filenamecut (x : bytes) : bytes := rev (until_slash (rev x)).

(** The thread-local cache of the time. *)
Record tls := mkTls { t_lastSecond : Z; t_time : bytes }.
Definition tls_init : tls := mkTls 0 [].

(** [Fmt(".%06d ", n)]. *)
Definition Fmt_us (n : Z) : outcome (bytes * Z) :=
  let s := lit "." ++ pad0 6 n ++ lit " " in
  _ ← cassert (zlen s <? 32); Ret (snprintf 32 s, zlen s).

Definition second_text (seconds : Z) : bytes :=
  let tm_time := Calendar.gmtime seconds in
  pads 4 (Calendar.tm_year tm_time + 1900) ++ lit "-" ++ pad0 2 (Calendar.tm_mon tm_time + 1) ++ lit "-" ++ pad0 2 (Calendar.tm_mday tm_time)
    ++ lit " " ++ pad0 2 (Calendar.tm_hour tm_time + 8) ++ lit ":" ++ pad0 2 (Calendar.tm_min tm_time) ++ lit ":" ++ pad0 2 (Calendar.tm_sec tm_time).

Section logger.
Context (format_g : spec_float -> bytes).

Definition formatTime (time : TimeStamp.t) (c : tls) (b : LogBuffer.t) : outcome (tls * LogBuffer.t) :=
  let seconds := time ÷ TimeStamp.kMicroSecondsPerSecond in
  let microseconds := Z.rem time TimeStamp.kMicroSecondsPerSecond in
  c' ← (if decide (seconds = t_lastSecond c) then Ret c
        else
          let s := second_text seconds in
          _ ← cassert (zlen s =? 19);
          Ret (mkTls seconds (snprintf 64 s)));
  '(us, len) ← Fmt_us microseconds;
  _ ← cassert (len =? 8);
  b' ← LogStream.puts format_g [LogStream.VCStr (Some (t_time c')); LogStream.VCStr (Some us)] b;
  Ret (c', b').

(** What the constructor writes after the time. *)
Definition header (pid tid : Z) (filename : bytes) (line : Z) (level : LogLevel) (func : bytes) : list LogStream.value :=
  let s x := LogStream.VCStr (Some x) in
  [s (LogLevelColor level); s (LogLevelName level); s normal; LogStream.VChar " ";
   s (lit " [pid:"); LogStream.VInt pid; s (lit "] [tid:"); LogStream.VLong tid; s (lit "] "); LogStream.VChar "[";
   s (filenamecut filename); LogStream.VChar ":"; LogStream.VInt line; s (lit "] ["); s func; s (lit "] ");
   s (LogLevelColor level); s (lit "|"); s normal].

(** A statement [LOG_X << v1 << ...;]: what is handed to [g_output], and the
    cache it leaves. *)
Definition log (g_logLevel level : LogLevel) (time : TimeStamp.t) (pid tid : Z) (filename : bytes) (line : Z) (func : bytes)
    (vs : list LogStream.value) (c : tls) : outcome (tls * option bytes) :=
  if level_value g_logLevel <=? level_value level
  then
    '(c', b) ← formatTime time c (LogBuffer.init kSmallBuffer);
    b ← LogStream.puts format_g (header pid tid filename line level func) b;
    b ← LogStream.puts format_g vs b;
    b ← LogStream.puts format_g [LogStream.VCStr (Some [LF])] b;
    Ret (c', Some (LogBuffer.content b))
  else Ret (c, None).
End logger.

(** ** Lines *)

(** The cache holds the text of its second. *)
Definition tls_ok (c : tls) : Prop :=
  t_lastSecond c = 0 \/ (0 < t_lastSecond c < Calendar.end_of_9999 /\ t_time c = second_text (t_lastSecond c)).

Lemma NUL_pad0 w n : 0 <= n -> NUL ∉ pad0 w n.
Proof.
  intros Hn. unfold pad0. rewrite decide_False by lia. rewrite !not_elem_of_app. split; [apply not_elem_of_nil|]. split.
  - intros Hin. apply elem_of_replicate in Hin as [? _]. done.
  - intros Hin. pose proof (udec_digits (Z.abs n)) as Hd. rewrite Forall_forall in Hd. by apply Hd in Hin.
Qed.

Lemma second_text_stamp s : 0 <= s < Calendar.end_of_9999 -> let t := Calendar.gmtime s in
  second_text s = stamp (lit "-") (Calendar.tm_year t + 1900) (Calendar.tm_mon t + 1) (Calendar.tm_mday t)
    (Calendar.tm_hour t + 8) (Calendar.tm_min t) (Calendar.tm_sec t)
  /\ zlen (second_text s) = 19 /\ NUL ∉ second_text s.
Proof.
  intros Hs. pose proof (Calendar.gmtime_ok s Hs) as []. cbv zeta.
  assert (second_text s = stamp (lit "-") (Calendar.tm_year (Calendar.gmtime s) + 1900) (Calendar.tm_mon (Calendar.gmtime s) + 1)
    (Calendar.tm_mday (Calendar.gmtime s)) (Calendar.tm_hour (Calendar.gmtime s) + 8) (Calendar.tm_min (Calendar.gmtime s))
    (Calendar.tm_sec (Calendar.gmtime s))) as E by (unfold second_text; rewrite pads_4 by lia; done).
  split; [done|]. rewrite E. split; [rewrite zlen_stamp; [done|unfold fields_ok; lia]|].
  unfold stamp. rewrite !not_elem_of_app.
  split_and!; try (apply NUL_pad0; lia); by_compute.
Qed.

Lemma Fmt_us_spec n : 0 <= n < 1000000 ->
  Fmt_us n = Ret (lit "." ++ pad0 6 n ++ lit " ", 8) /\ NUL ∉ lit "." ++ pad0 6 n ++ lit " ".
Proof.
  intros Hn. destruct (pad0_field 6 n ltac:(lia) ltac:(lia)) as [Hl _].
  assert (zlen (lit "." ++ pad0 6 n ++ lit " ") = 8) as Hz by (rewrite !zlen_app, Hl; done).
  unfold Fmt_us. rewrite Hz, cassert_true by done. cbn [mbind outcome_bind]. rewrite snprintf_fits by lia. split; [done|].
  rewrite !not_elem_of_app. split_and!; [by_compute|apply NUL_pad0; lia|by_compute].
Qed.

(** The time at the head of a line. *)
Definition time_text (time : TimeStamp.t) : bytes :=
  second_text (time / 1000000) ++ lit "." ++ pad0 6 (time mod 1000000) ++ lit " ".

Section logger_proofs.
Context (format_g : spec_float -> bytes) (format_g_short : forall x, zlen (format_g x) <= 19).

(** A time from 00:00:01 on 1970-01-01 to the end of 9999. *)
Definition time_ok (time : TimeStamp.t) : Prop := 1000000 <= time < Calendar.end_of_9999 * 1000000.

Lemma puts_all vs b : LogBuffer.wf b -> Forall in_range vs -> zlen (concat (map (text format_g) vs)) + 32 <= room b ->
  exists b', LogStream.puts format_g vs b = Ret b' /\ LogBuffer.wf b' /\ room b' = room b - zlen (concat (map (text format_g) vs))
    /\ LogBuffer.content b' = LogBuffer.content b ++ concat (map (text format_g) vs).
Proof.
  intros Hb Hvs Hr. destruct (puts_line format_g format_g_short vs b Hb Hvs) as (b' & E & Hwf & Hz & Hc).
  rewrite line_all in Hc by done. exists b'. split; [done|]. split; [done|]. split; [|done].
  unfold room. rewrite Hz, <- (LogBuffer.zlen_logged b'), <- (LogBuffer.zlen_logged b), Hc, zlen_app by done. lia.
Qed.

Lemma formatTime_spec time c b : time_ok time -> tls_ok c -> LogBuffer.wf b -> 64 <= room b ->
  exists c' b', formatTime format_g time c b = Ret (c', b') /\ tls_ok c' /\ LogBuffer.wf b' /\ room b' = room b - 27
    /\ LogBuffer.content b' = LogBuffer.content b ++ time_text time /\ zlen (time_text time) = 27.
Proof.
  intros Ht Hc Hb Hr. unfold time_ok, Calendar.end_of_9999 in Ht. unfold formatTime, TimeStamp.kMicroSecondsPerSecond.
  change (1000 * 1000) with 1000000. rewrite Z.quot_div_nonneg, Z.rem_mod_nonneg by lia.
  assert (0 < time / 1000000 < Calendar.end_of_9999) as Hs by (unfold Calendar.end_of_9999; Z.div_mod_to_equations; lia).
  pose proof (Z.mod_pos_bound time 1000000 ltac:(lia)) as Hm.
  destruct (second_text_stamp (time / 1000000) ltac:(lia)) as (_ & Hl & Hn).
  destruct (Fmt_us_spec (time mod 1000000) Hm) as [Eu Hu].
  assert (zlen (time_text time) = 27) as Hz.
  { unfold time_text. rewrite !zlen_app, Hl, (proj1 (pad0_field 6 (time mod 1000000) ltac:(lia) ltac:(lia))). done. }
  assert (exists c', (if decide (time / 1000000 = t_lastSecond c) then Ret c
    else _ ← cassert (zlen (second_text (time / 1000000)) =? 19); Ret (mkTls (time / 1000000) (snprintf 64 (second_text (time / 1000000)))))
    = Ret c' /\ tls_ok c' /\ t_time c' = second_text (time / 1000000)) as (c' & -> & Hok & Htt).
  { case_decide as E.
    { exists c. split; [done|]. split; [done|]. destruct Hc as [Hc|[_ Hc]]; [lia|by rewrite E]. }
    rewrite Hl, cassert_true by done. cbn [mbind outcome_bind]. rewrite snprintf_fits by lia.
    eexists. split; [done|]. split; [by right|done]. }
  cbn [mbind outcome_bind]. rewrite Eu. cbn [mbind outcome_bind]. rewrite cassert_true by done. cbn [mbind outcome_bind]. rewrite Htt.
  set (vs := [LogStream.VCStr (Some (second_text (time / 1000000))); LogStream.VCStr (Some (lit "." ++ pad0 6 (time mod 1000000) ++ lit " "))]).
  assert (concat (map (text format_g) vs) = time_text time) as Ev.
  { cbn [vs map concat text]. rewrite !cstr_id by done. by rewrite app_nil_r. }
  destruct (puts_all vs b Hb) as (b' & E & Hwf & Hrm & Hcb); [by repeat constructor|rewrite Ev, Hz; lia|].
  rewrite Ev in *. rewrite Hz in Hrm. exists c', b'. rewrite E. by split_and!.
Qed.

Lemma puts_app vs ws b :
  LogStream.puts format_g (vs ++ ws) b = (b1 ← LogStream.puts format_g vs b; LogStream.puts format_g ws b1).
Proof.
  revert b. induction vs as [|v vs IH]; intros b; cbn [LogStream.puts app mbind outcome_bind]; [done|].
  destruct (LogStream.put format_g v b); cbn [mbind outcome_bind]; [apply IH|done].
Qed.

(** The values of a line after the time. *)
Definition body pid tid filename ln level func vs : list LogStream.value :=
  header pid tid filename ln level func ++ vs ++ [LogStream.VCStr (Some [LF])].

Lemma log_body g level time pid tid filename ln func vs c : level_value g <= level_value level ->
  log format_g g level time pid tid filename ln func vs c =
    ('(c', b) ← formatTime format_g time c (LogBuffer.init kSmallBuffer);
     b ← LogStream.puts format_g (body pid tid filename ln level func vs) b;
     Ret (c', Some (LogBuffer.content b))).
Proof.
  intros Hl. unfold log. rewrite (proj2 (Z.leb_le _ _) Hl). destruct (formatTime _ _ _ _) as [[c' b]|]; [|done].
  cbn [mbind outcome_bind]. unfold body. rewrite !puts_app.
  destruct (LogStream.puts format_g (header _ _ _ _ _ _) b) as [b1|]; cbn [mbind outcome_bind]; [|done].
  rewrite puts_app. by destruct (LogStream.puts format_g vs b1).
Qed.
End logger_proofs.

(** A log statement whose level is enabled hands one line to the output:
    the time, the header, the values and a line feed, all of them when they
    leave 32 of the 4096 characters; whatever the values are, no assertion
    fails and nothing is written outside the buffer. The other statements
    hand over nothing. *)
Theorem log_line format_g (format_g_short : forall x, zlen (format_g x) <= 19)
    g level time pid tid filename ln func vs c (Ht : time_ok time) (Hc : tls_ok c)
    (Hvs : Forall in_range vs) (Hp : in_s 32 pid) (Htid : in_s 64 tid) (Hln : in_s 32 ln) :
  exists c' o, log format_g g level time pid tid filename ln func vs c = Ret (c', o) /\ tls_ok c' /\
    match o with
    | None => level_value level < level_value g
    | Some l => level_value g <= level_value level /\ zlen l < kSmallBuffer /\
        let whole := time_text time ++ concat (map (text format_g) (body pid tid filename ln level func vs)) in
        (zlen whole + 32 <= kSmallBuffer -> l = whole)
    end.
Proof.
  destruct (Z.leb_spec (level_value g) (level_value level)) as [Hlev|Hlev].
  2: { exists c, None. unfold log. by rewrite (proj2 (Z.leb_gt _ _) Hlev). }
  rewrite log_body by done.
  destruct (LogBuffer.init_wf kSmallBuffer) as [Hb Hc0]; [by vm_compute|].
  assert (room (LogBuffer.init kSmallBuffer) = kSmallBuffer) as Hr by (by vm_compute).
  destruct (formatTime_spec format_g format_g_short time c _ Ht Hc Hb) as (c' & b & -> & Hok & Hwf & Hrb & Hcb & Hz); [by rewrite Hr|].
  cbn [mbind outcome_bind]. rewrite Hc0 in Hcb. rewrite Hr in Hrb. cbn [app] in Hcb.
  assert (Forall in_range (body pid tid filename ln level func vs)) as Hbd.
  { unfold body. rewrite !Forall_app. split_and!; [|done|by repeat constructor].
    unfold header. repeat (apply Forall_cons; split; [done|]). by apply Forall_nil. }
  destruct (puts_line format_g format_g_short _ b Hwf Hbd) as (b' & -> & Hwf' & Hz' & Hc').
  exists c', (Some (LogBuffer.content b')). split; [done|]. split; [done|]. split; [done|]. split.
  - rewrite LogBuffer.zlen_logged by done. pose proof (LogBuffer.zlen_logged b Hwf) as Hl.
    rewrite Hcb, Hz in Hl. unfold room in Hrb. destruct Hwf'. lia.
  - cbv zeta. intros H. rewrite Hc', Hcb. f_equal. apply line_all.
    rewrite zlen_app, Hz in H. unfold LogStream.kMaxNumericSize. lia.
Qed.

Lemma log_line_witness : exists c',
  log (fun _ => lit "1.5") TRACE INFO 1700000000123456 1 2 (lit "a/b.cpp") 7 (lit "main") [LogStream.VInt 42] tls_init
  = Ret (c', Some (lit "2023-11-14 30:13:20.123456 " ++ color "1" "3" "2" ++ lit "[INFO ]" ++ normal
      ++ lit "  [pid:1] [tid:2] [b.cpp:7] [main] " ++ color "1" "3" "2" ++ lit "|" ++ normal ++ lit "42" ++ [LF])).
Proof.
  destruct (log_line (fun _ => lit "1.5") (fun _ => ltac:(by vm_compute)) TRACE INFO 1700000000123456 1 2 (lit "a/b.cpp") 7
    (lit "main") [LogStream.VInt 42] tls_init) as (c' & o & E & _ & Ho).
  - by vm_compute.
  - by left.
  - repeat constructor; by vm_compute.
  - by vm_compute.
  - by vm_compute.
  - by vm_compute.
  - exists c'. rewrite E. destruct o as [l|]; [|by vm_compute in Ho]. destruct Ho as (_ & _ & Hl).
    rewrite Hl; [vm_compute; reflexivity|vm_compute; discriminate].
Defined.

(** The hour printed is eight more than the hour of the time: 22:13 is
    30:13 of the same day. *)
Lemma hour_past_24 : exists l, second_text 1700000000 = lit "2023-11-14 30:" ++ l /\ Calendar.tm_hour (Calendar.gmtime 1700000000) = 22.
Proof. exists (lit "13:20"). split; vm_compute; reflexivity. Qed.
End Logger.
