(* ===== verification/LogFile.v ===== *)
(** Logger/FileUtil and Logger/LogFile: a file opened for appending, and the log
    file that is removed and opened again when it has grown too long. *)
From S2P Require Import Prelude Cxx Calendar.

(** ** Files of the operating system: names, and contents that live on while a
    file is open, by inode number *)
Module Disk.
Record t := mk { dir : gmap bytes nat; inodes : gmap nat bytes; calls : nat }.

Definition set_dir x (w : t) : t := mk x (inodes w) (calls w).
Definition set_inode i d (w : t) : t := mk (dir w) (<[i := d]> (inodes w)) (calls w).
Definition data (i : nat) (w : t) : bytes := default [] (inodes w !! i).

(** What is found under a name. *)
Definition content (path : bytes) (w : t) : option bytes := i ← dir w !! path; Some (data i w).

(** The number of this call of the C library. *)
Definition tick : ST t nat := fun w => Ret (calls w, mk (dir w) (inodes w) (S (calls w))).

(** The behaviour of the C library that its documentation leaves open, by call:
    whether [fopen], [stat] of an existing file and [remove] succeed, how much
    [fwrite] takes, and how much of what the stream holds it passes on. *)
Record libc := mk_libc {
  opens : nat -> bytes -> bool;
  stats : nat -> bytes -> bool;
  removes : nat -> bytes -> bool;
  takes : nat -> bytes -> Z;
  spills : nat -> bytes -> Z
}.

(** [fwrite] takes some of what it is given on every call. *)
Definition writes (L : libc) : Prop := forall k d, 0 <= takes L k d <= zlen d /\ (d <> [] -> 0 < takes L k d).

(** A library on which every call succeeds. *)
Record ok (L : libc) : Prop := {
  ok_opens : forall k p, opens L k p = true;
  ok_stats : forall k p, stats L k p = true;
  ok_removes : forall k p, removes L k p = true;
  ok_writes : writes L
}.
End Disk.

(** ** [FileUtil::AppendFile]: the file behind [m_fp], what [m_fp] has not passed
    on to it, [m_writtenBytes] *)
Module AppendFile.
Section file.
Context (L : Disk.libc).
Record t := mk { m_fp : nat; m_unwritten : bytes; m_writtenBytes : Z }.
Abbreviation M := (ST Disk.t).

(** [fopen(path, "ae")] *)
Definition fopen (path : bytes) : M (option nat) :=
  k ← Disk.tick;
  if Disk.opens L k path
  then
    d ← gets Disk.dir;
    match d !! path with
    | Some i => mret (Some i)
    | None =>
        w ← gets (fun w => w);
        let i := fresh (dom (Disk.inodes w)) in
        _ ← modify (Disk.set_inode i []);
        _ ← modify (Disk.set_dir (<[path := i]> d));
        mret (Some i)
    end
  else mret None.

Definition fileSize (path : bytes) : M Z :=
  k ← Disk.tick;
  if Disk.stats L k path
  then c ← gets (Disk.content path); mret (match c with Some d => zlen d | None => 0 end)
  else crash AssertFailure.

Definition AppendFile (filePath : bytes) : M t :=
  fp ← fopen filePath;
  size ← fileSize filePath;
  match fp with Some i => mret (mk i [] size) | None => crash AssertFailure end.

(** [fwrite_unlocked] *)
Definition write (logline : bytes) (f : t) : M (Z * t) :=
  k ← Disk.tick;
  let n := Disk.takes L k logline in
  let held := m_unwritten f ++ ztake n logline in
  let p := Disk.spills L k held in
  _ ← modify (fun w => Disk.set_inode (m_fp f) (Disk.data (m_fp f) w ++ ztake p held) w);
  mret (n, mk (m_fp f) (zdrop p held) (m_writtenBytes f)).

(** The loop of [append]: [nread] characters are written. *)
Fixpoint append_loop (fuel : nat) (logline : bytes) (nread : Z) (f : t) : M t :=
  if u64 (zlen logline - nread) >? 0
  then
    match fuel with
    | O => crash FuelExhausted
    | S fuel' =>
        '(n, f') ← write (zdrop nread logline) f;
        if n =? 0 then mret f' else append_loop fuel' logline (u64 (nread + n)) f'
    end
  else mret f.

Definition append (logline : bytes) (f : t) : M t :=
  '(nread, f1) ← write logline f;
  f2 ← append_loop (length logline) logline nread f1;
  mret (mk (m_fp f2) (m_unwritten f2) (s64 (m_writtenBytes f2 + zlen logline))).

Definition flush (f : t) : M t :=
  _ ← modify (fun w => Disk.set_inode (m_fp f) (Disk.data (m_fp f) w ++ m_unwritten f) w);
  mret (mk (m_fp f) [] (m_writtenBytes f)).

(** [fclose] *)
Definition destroy (f : t) : M unit := _ ← flush f; mret tt.
End file.
End AppendFile.

(** ** [LogFile] *)
Module LogFile.
Section logfile.
Context (L : Disk.libc).
Record t := mk { m_filePath : bytes; m_roolSize : Z; m_file : AppendFile.t }.
Abbreviation M := (ST Disk.t).

Definition LogFile (filePath : bytes) (rollSize : Z) : M t :=
  f ← AppendFile.AppendFile L filePath; mret (mk filePath rollSize f).

(** [m_file.reset(new AppendFile(m_filePath))]: the old one goes last. *)
Definition reopen (l : t) : M t :=
  f ← AppendFile.AppendFile L (m_filePath l);
  _ ← AppendFile.destroy (m_file l);
  mret (mk (m_filePath l) (m_roolSize l) f).

Definition remove (path : bytes) : M Z :=
  k ← Disk.tick;
  d ← gets Disk.dir;
  if Disk.removes L k path && bool_decide (is_Some (d !! path))
  then _ ← modify (Disk.set_dir (delete path d)); mret 0
  else mret (-1).

Definition rollFile (l : t) : M t :=
  if AppendFile.m_writtenBytes (m_file l) <? m_roolSize l then reopen l
  else
    r ← remove (m_filePath l);
    _ ← lift (cassert (r =? 0));
    reopen l.

Definition append_unlocked (logline : bytes) (l : t) : M t :=
  f ← AppendFile.append L logline (m_file l);
  let l' := mk (m_filePath l) (m_roolSize l) f in
  if AppendFile.m_writtenBytes f >? m_roolSize l then rollFile l' else mret l'.

(** The mutex matters to threads only: a call is one step. *)
Definition append (logline : bytes) (l : t) : M t := append_unlocked logline l.

Definition flush (l : t) : M t := f ← AppendFile.flush (m_file l); mret (mk (m_filePath l) (m_roolSize l) f).

Definition destroy (l : t) : M unit := AppendFile.destroy (m_file l).

Fixpoint appends (ds : list bytes) (l : t) : M t :=
  match ds with [] => mret l | d :: ds' => l' ← append d l; appends ds' l' end.
End logfile.

(** [baseName.substr(0, baseName.rfind("."))]: all of it without a dot. *)
Fixpoint before_last_dot (l : bytes) : option bytes :=
  match l with
  | [] => None
  | c :: l' =>
      match before_last_dot l' with
      | Some p => Some (c :: p)
      | None => if decide (c = "."%char) then Some [] else None
      end
  end.

(** [strftime] with [".%Y%m%d-%H%M%S"]. *)
Definition getlogFileName (now : Z) (baseName : bytes) : bytes :=
  let tm := Calendar.gmtime now in
  default baseName (before_last_dot baseName)
    ++ (lit "." ++ dec (Calendar.tm_year tm + 1900) ++ pad0 2 (Calendar.tm_mon tm + 1) ++ pad0 2 (Calendar.tm_mday tm)
        ++ lit "-" ++ pad0 2 (Calendar.tm_hour tm) ++ pad0 2 (Calendar.tm_min tm) ++ pad0 2 (Calendar.tm_sec tm))
    ++ lit ".log".

Lemma getlogFileName_example : getlogFileName 1700000000 (lit "/tmp/a.b.log") = lit "/tmp/a.b.20231114-221320.log".
Proof. vm_compute. reflexivity. Qed.
End LogFile.

(** ** What is stored *)
Section storage.
Implicit Types (w : Disk.t) (f : AppendFile.t) (l : LogFile.t).

(** What the file will hold once the stream is flushed. *)
Definition stored f w : bytes := Disk.data (AppendFile.m_fp f) w ++ AppendFile.m_unwritten f.

(** Only the contents of [i] differ. *)
Definition only (i : nat) w w' : Prop :=
  Disk.dir w' = Disk.dir w /\ (forall j, j <> i -> Disk.inodes w' !! j = Disk.inodes w !! j)
  /\ (i ∈ dom (Disk.inodes w) -> i ∈ dom (Disk.inodes w')).

Lemma only_refl i w : only i w w.
Proof. done. Qed.
Lemma only_trans i w1 w2 w3 : only i w1 w2 -> only i w2 w3 -> only i w1 w3.
Proof. intros (H1 & H2 & H3) (H4 & H5 & H6). split; [congruence|]. split; [|auto]. intros j Hj. by rewrite H5, H2. Qed.
Lemma only_set_inode i d w : only i w (Disk.set_inode i d w).
Proof.
  unfold Disk.set_inode. split; [done|]. cbn. split; [intros j Hj; by apply lookup_insert_ne|]. rewrite dom_insert_L. set_solver.
Qed.

Lemma data_set_inode i d w : Disk.data i (Disk.set_inode i d w) = d.
Proof. unfold Disk.data, Disk.set_inode. cbn. by rewrite lookup_insert_eq. Qed.

Lemma flush_spec f w : exists f' w', AppendFile.flush f w = Ret (f', w') /\ Disk.data (AppendFile.m_fp f) w' = stored f w
  /\ stored f' w' = stored f w /\ AppendFile.m_fp f' = AppendFile.m_fp f
  /\ AppendFile.m_writtenBytes f' = AppendFile.m_writtenBytes f /\ only (AppendFile.m_fp f) w w'.
Proof.
  do 2 eexists. split; [reflexivity|]. unfold stored. cbn. rewrite data_set_inode, app_nil_r. split_and!; try done.
  apply only_set_inode.
Qed.

End storage.

Section writes.
Context (L : Disk.libc) (HW : Disk.writes L).
Implicit Types (w : Disk.t) (f : AppendFile.t) (l : LogFile.t).

Lemma write_spec d f w :
  exists n f' w', AppendFile.write L d f w = Ret ((n, f'), w') /\ 0 <= n <= zlen d /\ (d <> [] -> 0 < n)
    /\ stored f' w' = stored f w ++ ztake n d /\ AppendFile.m_fp f' = AppendFile.m_fp f
    /\ AppendFile.m_writtenBytes f' = AppendFile.m_writtenBytes f /\ only (AppendFile.m_fp f) w w'.
Proof.
  unfold AppendFile.write. unfold mbind, ST_bind, mret, ST_ret, modify, Disk.tick. cbn.
  do 3 eexists. split; [reflexivity|]. split; [by apply HW|]. split; [apply HW|]. split; [|split; [done|split; [done|]]].
  - unfold stored. cbn. rewrite data_set_inode, <- !app_assoc. f_equal.
    by rewrite ztake_zdrop.
  - eapply only_trans; [|apply only_set_inode]. done.
Qed.

Lemma append_loop_spec fuel d n f w : 0 <= n <= zlen d -> zlen d < 2 ^ 64 -> zlen d - n <= Z.of_nat fuel ->
  exists f' w', AppendFile.append_loop L fuel d n f w = Ret (f', w') /\ stored f' w' = stored f w ++ zdrop n d
    /\ AppendFile.m_fp f' = AppendFile.m_fp f /\ AppendFile.m_writtenBytes f' = AppendFile.m_writtenBytes f
    /\ only (AppendFile.m_fp f) w w'.
Proof.
  revert n f w. induction fuel as [|fuel IH]; intros n f w Hn Hd Hf; cbn [AppendFile.append_loop];
    rewrite wrapu_small by range_lia; rewrite Z.gtb_ltb.
  - rewrite (proj2 (Z.ltb_ge _ _)) by lia. exists f, w. unfold zdrop. rewrite drop_ge by (unfold zlen in *; lia).
    rewrite app_nil_r. by split_and!.
  - destruct (Z.ltb_spec 0 (zlen d - n)) as [H|H].
    + assert (zdrop n d <> []) as Hne.
      { intros E. apply (f_equal zlen) in E. rewrite zlen_zdrop in E by lia. rewrite zlen_nil in E. lia. }
      destruct (write_spec (zdrop n d) f w) as (m & f1 & w1 & E & Hm & Hm0 & Hs & Hp & Hb & Ho).
      rewrite zlen_zdrop in Hm by lia. specialize (Hm0 Hne). rewrite (ST_bind_eq _ _ _ _ _ E). rewrite (proj2 (Z.eqb_neq _ _)) by lia.
      rewrite wrapu_small by range_lia.
      destruct (IH (n + m) f1 w1) as (f2 & w2 & E2 & Hs2 & Hp2 & Hb2 & Ho2); [lia..|].
      exists f2, w2. split; [done|]. rewrite Hs2, Hs, Hp2, Hp, Hb2, Hb, <- app_assoc. rewrite Hp in Ho2.
      split; [|split; [done|split; [done|by eapply only_trans]]]. f_equal.
      rewrite <- zdrop_zdrop by lia. apply ztake_zdrop.
    + exists f, w. unfold zdrop. rewrite drop_ge by (unfold zlen in *; lia).
      rewrite app_nil_r. by split_and!.
Qed.

(** Nothing is lost while the library takes something on every call. *)
Lemma append_stored d f w : zlen d < 2 ^ 64 ->
  exists f' w', AppendFile.append L d f w = Ret (f', w') /\ stored f' w' = stored f w ++ d
    /\ AppendFile.m_fp f' = AppendFile.m_fp f
    /\ AppendFile.m_writtenBytes f' = s64 (AppendFile.m_writtenBytes f + zlen d) /\ only (AppendFile.m_fp f) w w'.
Proof.
  intros Hd. unfold AppendFile.append.
  destruct (write_spec d f w) as (n & f1 & w1 & E & Hn & _ & Hs & Hp & Hb & Ho). rewrite (ST_bind_eq _ _ _ _ _ E).
  destruct (append_loop_spec (length d) d n f1 w1) as (f2 & w2 & E2 & Hs2 & Hp2 & Hb2 & Ho2); [lia|done|unfold zlen in *; lia|].
  rewrite (ST_bind_eq _ _ _ _ _ E2). rewrite Hp in *. do 2 eexists. split; [reflexivity|]. rewrite Hb2, Hb.
  split; [|split; [done|split; [done|by eapply only_trans]]].
  unfold stored in *. cbn. rewrite Hs2, Hs, <- app_assoc. f_equal. apply ztake_zdrop.
Qed.
(** *** A log file that holds [acc] *)
Record log_ok (acc : bytes) l w : Prop := {
  log_name : Disk.dir w !! LogFile.m_filePath l = Some (AppendFile.m_fp (LogFile.m_file l));
  log_open : AppendFile.m_fp (LogFile.m_file l) ∈ dom (Disk.inodes w);
  log_stored : stored (LogFile.m_file l) w = acc;
  log_count : AppendFile.m_writtenBytes (LogFile.m_file l) = zlen acc
}.

(** What remains of it after a line: nothing, when that makes it longer than
    the roll size. *)
Definition kept (roll : Z) (acc d : bytes) : bytes := if roll <? zlen (acc ++ d) then [] else acc ++ d.

Lemma log_grows d acc l w : log_ok acc l w -> zlen (acc ++ d) < 2 ^ 63 ->
  exists f w', AppendFile.append L d (LogFile.m_file l) w = Ret (f, w') /\ AppendFile.m_writtenBytes f = zlen (acc ++ d)
    /\ log_ok (acc ++ d) (LogFile.mk (LogFile.m_filePath l) (LogFile.m_roolSize l) f) w'.
Proof.
  intros [Hn Ho Hs Hc] Hz. rewrite zlen_app in Hz. pose proof (zlen_nonneg acc). pose proof (zlen_nonneg d).
  change (2 ^ 63) with 9223372036854775808 in Hz.
  destruct (append_stored d (LogFile.m_file l) w) as (f & w1 & E & Hs1 & Hp & Hb & (Hd & _ & Hi)); [range_lia|].
  rewrite Hc, wraps_small in Hb by range_lia. rewrite Hs in Hs1. rewrite <- zlen_app in Hb.
  exists f, w1. split; [done|]. split; [done|]. split; cbn; rewrite ?Hp, ?Hd; auto.
Qed.
End writes.

Section proofs.
Context (L : Disk.libc) (HL : Disk.ok L).
Implicit Types (w : Disk.t) (f : AppendFile.t) (l : LogFile.t).

Lemma fileSize_spec path w : AppendFile.fileSize L path w =
  Ret (zlen (default [] (Disk.content path w)), Disk.mk (Disk.dir w) (Disk.inodes w) (S (Disk.calls w))).
Proof.
  unfold AppendFile.fileSize, mbind, ST_bind, mret, ST_ret, gets, Disk.tick. rewrite (Disk.ok_stats L HL).
  unfold Disk.content, Disk.data. cbn. by destruct (Disk.dir w !! path).
Qed.

Lemma fopen_spec path w : exists i w', AppendFile.fopen L path w = Ret (Some i, w') /\ Disk.dir w' !! path = Some i
  /\ Disk.data i w' = default [] (Disk.content path w)
  /\ (forall j, j ∈ dom (Disk.inodes w) -> Disk.inodes w' !! j = Disk.inodes w !! j)
  /\ (Disk.dir w !! path = None -> i ∉ dom (Disk.inodes w))
  /\ ((forall j, Disk.dir w !! path = Some j -> j ∈ dom (Disk.inodes w)) -> i ∈ dom (Disk.inodes w')).
Proof.
  unfold AppendFile.fopen, Disk.content, mbind at 1, ST_bind at 1, Disk.tick. rewrite (Disk.ok_opens L HL). rewrite gets_bind.
  cbn [Disk.dir]. destruct (Disk.dir w !! path) as [i|] eqn:E.
  - do 2 eexists. split; [reflexivity|]. cbn. split_and!; (done || auto).
  - rewrite gets_bind, !modify_bind. do 2 eexists. split; [reflexivity|]. unfold Disk.set_dir, Disk.set_inode, Disk.data. cbn.
    rewrite !lookup_insert_eq. split_and!; try done.
    + intros j Hj. rewrite lookup_insert_ne; [done|]. intros <-. by apply is_fresh in Hj.
    + intros _. apply is_fresh.
    + intros _. rewrite dom_insert_L. set_solver.
Qed.

(** Opening a file: what it holds is there, and counted. *)
Lemma AppendFile_spec path w : exists f w', AppendFile.AppendFile L path w = Ret (f, w')
  /\ Disk.dir w' !! path = Some (AppendFile.m_fp f) /\ stored f w' = default [] (Disk.content path w)
  /\ AppendFile.m_writtenBytes f = zlen (stored f w')
  /\ (forall j, j ∈ dom (Disk.inodes w) -> Disk.inodes w' !! j = Disk.inodes w !! j)
  /\ (Disk.dir w !! path = None -> AppendFile.m_fp f ∉ dom (Disk.inodes w))
  /\ ((forall i, Disk.dir w !! path = Some i -> i ∈ dom (Disk.inodes w)) -> AppendFile.m_fp f ∈ dom (Disk.inodes w')).
Proof.
  destruct (fopen_spec path w) as (i & w1 & E & Hd & Hs & Hj & Hf & Hi).
  unfold AppendFile.AppendFile. rewrite (ST_bind_eq _ _ _ _ _ E), (ST_bind_eq _ _ _ _ _ (fileSize_spec path w1)).
  do 2 eexists. split; [reflexivity|]. unfold stored, Disk.content, Disk.data in *. cbn. rewrite app_nil_r, Hd. cbn. by rewrite Hs.
Qed.

Lemma LogFile_spec path roll w : (forall i, Disk.dir w !! path = Some i -> i ∈ dom (Disk.inodes w)) ->
  exists l w', LogFile.LogFile L path roll w = Ret (l, w') /\ log_ok (default [] (Disk.content path w)) l w'
    /\ LogFile.m_filePath l = path /\ LogFile.m_roolSize l = roll.
Proof.
  intros Hw. destruct (AppendFile_spec path w) as (f & w' & E & Hd & Hs & Hb & _ & _ & Hf).
  unfold LogFile.LogFile. rewrite (ST_bind_eq _ _ _ _ _ E). do 2 eexists. split; [reflexivity|]. split; [|done].
  split; cbn; [done|by apply Hf|done|by rewrite Hb, Hs].
Qed.

(** The roll: the name is given to a new empty file. *)
Lemma roll_spec acc l w : log_ok acc l w -> LogFile.m_roolSize l < zlen acc ->
  exists l' w', LogFile.rollFile L l w = Ret (l', w') /\ log_ok [] l' w'
    /\ LogFile.m_filePath l' = LogFile.m_filePath l /\ LogFile.m_roolSize l' = LogFile.m_roolSize l.
Proof.
  intros [Hn Ho Hs Hc] Hlt. unfold LogFile.rollFile. rewrite Hc, (proj2 (Z.ltb_ge _ _)) by lia.
  assert (LogFile.remove L (LogFile.m_filePath l) w = Ret (0, Disk.set_dir (delete (LogFile.m_filePath l) (Disk.dir w))
    (Disk.mk (Disk.dir w) (Disk.inodes w) (S (Disk.calls w))))) as E.
  { unfold LogFile.remove, mbind, ST_bind, gets, modify, Disk.tick. cbn. rewrite (Disk.ok_removes L HL), Hn. done. }
  rewrite (ST_bind_eq _ _ _ _ _ E). rewrite assert_bind by done. unfold LogFile.reopen. set (w1 := Disk.set_dir _ _).
  destruct (AppendFile_spec (LogFile.m_filePath l) w1) as (f & w2 & E2 & Hd & Hs2 & Hb & Hj & Hf & Hf2).
  assert (Disk.dir w1 !! LogFile.m_filePath l = None) as Hnone by (unfold w1; cbn; apply lookup_delete_eq).
  rewrite (ST_bind_eq _ _ _ _ _ E2). unfold Disk.content in Hs2. rewrite Hnone in Hs2. cbn in Hs2.
  specialize (Hf Hnone). destruct (flush_spec (LogFile.m_file l) w2) as (g & w3 & E3 & _ & _ & _ & _ & (Hd3 & Hj3 & Hi3)).
  assert (AppendFile.m_fp f <> AppendFile.m_fp (LogFile.m_file l)) as Hne by (intros E4; apply Hf; by rewrite E4).
  assert (AppendFile.destroy (LogFile.m_file l) w2 = Ret (tt, w3)) as E5.
  { unfold AppendFile.destroy. by rewrite (ST_bind_eq _ _ _ _ _ E3). }
  rewrite (ST_bind_eq _ _ _ _ _ E5). do 2 eexists. split; [reflexivity|]. split; [|done].
  split; cbn; [by rewrite Hd3| |unfold stored, Disk.data in *; by rewrite Hj3|by rewrite Hb, Hs2].
  apply elem_of_dom. rewrite Hj3 by done. apply elem_of_dom, Hf2. by rewrite Hnone.
Qed.

Lemma log_append_spec d acc l w : log_ok acc l w -> zlen (acc ++ d) < 2 ^ 63 ->
  exists l' w', LogFile.append L d l w = Ret (l', w') /\ log_ok (kept (LogFile.m_roolSize l) acc d) l' w'
    /\ LogFile.m_filePath l' = LogFile.m_filePath l /\ LogFile.m_roolSize l' = LogFile.m_roolSize l.
Proof.
  intros Hl Hz. destruct (log_grows L (Disk.ok_writes L HL) d acc l w Hl Hz) as (f & w1 & E & Hb & Hl1).
  unfold LogFile.append, LogFile.append_unlocked. rewrite (ST_bind_eq _ _ _ _ _ E).
  unfold kept. rewrite Hb, Z.gtb_ltb. destruct (Z.ltb_spec (LogFile.m_roolSize l) (zlen (acc ++ d))) as [Hlt|Hge].
  - apply (roll_spec _ _ _ Hl1 Hlt).
  - do 2 eexists. split; [reflexivity|]. done.
Qed.

Lemma zlen_kept roll acc d : zlen (kept roll acc d) <= zlen acc + zlen d.
Proof. unfold kept. pose proof (zlen_nonneg acc). pose proof (zlen_nonneg d). case_match; rewrite ?zlen_app, ?zlen_nil; lia. Qed.

Lemma appends_spec ds acc l w : log_ok acc l w -> zlen acc + zlen (concat ds) < 2 ^ 63 ->
  exists l' w', LogFile.appends L ds l w = Ret (l', w') /\ log_ok (fold_left (kept (LogFile.m_roolSize l)) ds acc) l' w'
    /\ LogFile.m_filePath l' = LogFile.m_filePath l /\ LogFile.m_roolSize l' = LogFile.m_roolSize l.
Proof.
  revert acc l w. induction ds as [|d ds IH]; intros acc l w Hl Hz; cbn [LogFile.appends fold_left concat] in *; [by exists l, w|].
  rewrite zlen_app in Hz. pose proof (zlen_nonneg (concat ds)).
  destruct (log_append_spec d acc l w Hl) as (l1 & w1 & E & Hl1 & Hp & Hr); [rewrite zlen_app; lia|].
  rewrite (ST_bind_eq _ _ _ _ _ E). pose proof (zlen_kept (LogFile.m_roolSize l) acc d).
  destruct (IH _ l1 w1 Hl1) as (l2 & w2 & E2 & Hl2 & Hp2 & Hr2); [lia|]. rewrite Hr in *. exists l2, w2.
  rewrite Hp2, Hp, Hr2. done.
Qed.

(** Once its stream is flushed, the file itself holds it. *)
Lemma log_flush_spec acc l w : log_ok acc l w ->
  exists l' w', LogFile.flush l w = Ret (l', w') /\ log_ok acc l' w' /\ Disk.content (LogFile.m_filePath l) w' = Some acc
    /\ LogFile.m_filePath l' = LogFile.m_filePath l /\ LogFile.m_roolSize l' = LogFile.m_roolSize l.
Proof.
  intros [Hn Ho Hs Hc]. unfold LogFile.flush.
  destruct (flush_spec (LogFile.m_file l) w) as (f & w1 & E & Hd & Hs1 & Hp & Hb & (Hdir & Hj & Hi)).
  rewrite (ST_bind_eq _ _ _ _ _ E). do 2 eexists. split; [reflexivity|]. split; [|split; [|done]].
  - split; cbn; rewrite ?Hp, ?Hdir, ?Hs1, ?Hb; auto.
  - unfold Disk.content. rewrite Hdir, Hn. cbn. by rewrite Hd, Hs.
Qed.

Lemma log_destroy_spec acc l w : log_ok acc l w ->
  exists w', LogFile.destroy l w = Ret (tt, w') /\ Disk.content (LogFile.m_filePath l) w' = Some acc.
Proof.
  intros Hl. destruct (log_flush_spec acc l w Hl) as (l' & w' & E & _ & Hc & _). exists w'. split; [|done].
  unfold LogFile.flush, LogFile.destroy, AppendFile.destroy, mbind, ST_bind in *.
  destruct (AppendFile.flush (LogFile.m_file l) w) as [[f w1]|]; [|done]. by injection E as _ ->.
Qed.
End proofs.

(** What is kept is the end of what was written, and no longer than the roll
    size. *)
Lemma kept_suffix roll ds acc : exists lost, acc ++ concat ds = lost ++ fold_left (kept roll) ds acc.
Proof.
  revert acc. induction ds as [|d ds IH]; intros acc; cbn [concat fold_left]; [exists []; by rewrite app_nil_r|].
  destruct (IH (kept roll acc d)) as (lost & E). unfold kept in *. rewrite app_assoc. case_match.
  - exists ((acc ++ d) ++ lost). cbn in E. rewrite E. by rewrite !app_assoc.
  - by exists lost.
Qed.

Lemma kept_short roll ds acc : 0 <= roll -> zlen acc <= roll -> zlen (fold_left (kept roll) ds acc) <= roll.
Proof.
  intros Hr. revert acc. induction ds as [|d ds IH]; intros acc Ha; cbn [fold_left]; [done|]. apply IH. unfold kept.
  case_match eqn:E; [by rewrite zlen_nil|]. lia.
Qed.

(** Below the roll size everything is kept. *)
Lemma kept_all roll ds acc : zlen acc + zlen (concat ds) <= roll -> fold_left (kept roll) ds acc = acc ++ concat ds.
Proof.
  revert acc. induction ds as [|d ds IH]; intros acc Hz; cbn [fold_left concat] in *; [by rewrite app_nil_r|]. rewrite zlen_app in Hz.
  pose proof (zlen_nonneg (concat ds)). assert (kept roll acc d = acc ++ d) as ->
    by (unfold kept; by rewrite (proj2 (Z.ltb_ge _ _)) by (rewrite zlen_app; lia)).
  rewrite IH by (rewrite zlen_app; lia). by rewrite app_assoc.
Qed.

Lemma zlen_file roll ds acc : zlen (fold_left (kept roll) ds acc) <= zlen acc + zlen (concat ds).
Proof.
  revert acc. induction ds as [|d ds IH]; intros acc; cbn [fold_left concat]; [rewrite zlen_nil; lia|]. rewrite zlen_app.
  pose proof (IH (kept roll acc d)). pose proof (zlen_kept roll acc d). lia.
Qed.

(** C20. A log file from open to close, on a library whose calls succeed: the file
    holds the end of what was written, the lines after the last that made it
    longer than the roll size; that line and all before it are deleted. *)
Theorem log_file_rolls L path roll ds w (HL : Disk.ok L)
    (Hw : forall i, Disk.dir w !! path = Some i -> i ∈ dom (Disk.inodes w))
    (Hz : zlen (default [] (Disk.content path w)) + zlen (concat ds) < 2 ^ 63) :
  exists w', (l ← LogFile.LogFile L path roll; l' ← LogFile.appends L ds l; LogFile.destroy l') w = Ret (tt, w') /\
    let old := default [] (Disk.content path w) in let new := fold_left (kept roll) ds old in
    Disk.content path w' = Some new /\ (exists lost, old ++ concat ds = lost ++ new) /\
    (0 <= roll -> zlen old <= roll -> zlen new <= roll).
Proof.
  destruct (LogFile_spec L HL path roll w Hw) as (l & w1 & E & Hl & Hp & Hr). rewrite (ST_bind_eq _ _ _ _ _ E).
  destruct (appends_spec L HL ds _ l w1 Hl Hz) as (l2 & w2 & E2 & Hl2 & Hp2 & Hr2). rewrite (ST_bind_eq _ _ _ _ _ E2).
  destruct (log_destroy_spec _ l2 w2 Hl2) as (w3 & E3 & Hc). exists w3. rewrite Hp2, Hp in Hc. rewrite Hr in Hc.
  split; [done|]. split; [done|]. split; [apply kept_suffix|apply kept_short].
Qed.

(** A library that takes at most four characters a call and passes on three. *)
Definition small_takes : Disk.libc :=
  Disk.mk_libc (fun _ _ => true) (fun _ _ => true) (fun _ _ => true) (fun _ d => Z.min 4 (zlen d)) (fun _ _ => 3).

Lemma small_takes_ok : Disk.ok small_takes.
Proof.
  split; try done. intros k d. cbn. pose proof (zlen_nonneg d). split; [lia|]. intros Hd.
  destruct d; [done|]. rewrite zlen_cons in *. pose proof (zlen_nonneg d). lia.
Qed.

Lemma log_file_rolls_witness : exists w',
  (l ← LogFile.LogFile small_takes (lit "a.log") 10; l' ← LogFile.appends small_takes [lit "first"; lit "second"; lit "third"] l;
   LogFile.destroy l') (Disk.mk ∅ ∅ 0) = Ret (tt, w') /\ Disk.content (lit "a.log") w' = Some (lit "third").
Proof.
  destruct (log_file_rolls small_takes (lit "a.log") 10 [lit "first"; lit "second"; lit "third"] (Disk.mk ∅ ∅ 0))
    as (w' & E & Hc & _); [exact small_takes_ok|done|by vm_compute|]. exists w'. split; [exact E|]. exact Hc.
Defined.

(** ** Failures of the library *)

(** When [fwrite] takes nothing, the line is lost, and counted. *)
Lemma append_full L d f w : (forall k x, Disk.takes L k x = 0) -> 0 < zlen d < 2 ^ 64 ->
  exists f' w', AppendFile.append L d f w = Ret (f', w') /\ stored f' w' = stored f w
    /\ AppendFile.m_writtenBytes f' = s64 (AppendFile.m_writtenBytes f + zlen d).
Proof.
  intros HL Hd. assert (forall x g v, exists g' v', AppendFile.write L x g v = Ret ((0, g'), v') /\ stored g' v' = stored g v
    /\ AppendFile.m_writtenBytes g' = AppendFile.m_writtenBytes g) as H.
  { intros x g v. unfold AppendFile.write, mbind, ST_bind, mret, ST_ret, modify, Disk.tick. rewrite HL. do 2 eexists.
    split; [reflexivity|]. unfold stored. cbn. rewrite data_set_inode, ztake_0, app_nil_r, <- app_assoc. by rewrite ztake_zdrop. }
  destruct (H d f w) as (f1 & w1 & E1 & Hs1 & Hb1). destruct (H (zdrop 0 d) f1 w1) as (f2 & w2 & E2 & Hs2 & Hb2).
  unfold AppendFile.append. rewrite (ST_bind_eq _ _ _ _ _ E1).
  assert (AppendFile.append_loop L (length d) d 0 f1 w1 = Ret (f2, w2)) as E.
  { destruct d as [|c d]; [change (zlen (@nil ascii)) with 0 in Hd; lia|]. cbn [length AppendFile.append_loop].
    rewrite wrapu_small by range_lia. rewrite Z.gtb_ltb, (proj2 (Z.ltb_lt _ _)) by lia. by rewrite (ST_bind_eq _ _ _ _ _ E2). }
  rewrite (ST_bind_eq _ _ _ _ _ E). do 2 eexists. split; [reflexivity|]. unfold stored in *. cbn. rewrite Hs2, Hs1, Hb2, Hb1. done.
Qed.

(** When the file has to be rolled and cannot be removed (its name is gone, or
    the directory is not writable), the assertion around [remove] ends the
    program. *)
Theorem roll_aborts L d acc l w (HW : Disk.writes L) (Hr : forall k p, Disk.removes L k p = false)
    (Hl : log_ok acc l w) (Hz : zlen (acc ++ d) < 2 ^ 63) (Hlong : LogFile.m_roolSize l < zlen (acc ++ d)) :
  LogFile.append L d l w = Crash AssertFailure.
Proof.
  destruct (log_grows L HW d acc l w Hl Hz) as (f & w1 & E & Hb & _).
  unfold LogFile.append, LogFile.append_unlocked. rewrite (ST_bind_eq _ _ _ _ _ E), Hb.
  rewrite Z.gtb_ltb, (proj2 (Z.ltb_lt _ _)) by lia. unfold LogFile.rollFile. cbn [LogFile.m_file LogFile.m_roolSize LogFile.m_filePath].
  rewrite Hb, (proj2 (Z.ltb_ge _ _)) by lia. unfold LogFile.remove, mbind, ST_bind, gets, Disk.tick. cbn. by rewrite Hr.
Qed.
