(* ===== verification/LogUtil.v ===== *)
(** Logger/ptr_vector.h: the vector that owns what its pointers refer to, and
    Logger/Thread: a thread that is started and joined or detached once. *)
From S2P Require Import Prelude.

(** ** [myself::ptr_vector<T>]: the objects it owns; [ASSERT] aborts

    A pointer given to it or taken from it is the object, a null pointer is
    [None]. [size()] is an [unsigned int]: no vector gets near 2^32 here. *)
Module ptr_vector.
Section vec.
Context {T : Type}.

Definition clear (_ : list T) : list T := [].
Definition push_back (v : option T) (m_vector : list T) : outcome (list T) :=
  match v with Some x => Ret (m_vector ++ [x]) | None => Crash AssertFailure end.
Definition pop_back (m_vector : list T) : outcome (T * list T) :=
  match rev m_vector with [] => Crash AssertFailure | x :: r => Ret (x, rev r) end.
Definition empty (m_vector : list T) : bool := match m_vector with [] => true | _ => false end.
Definition size (m_vector : list T) : Z := zlen m_vector.
(** [operator[]] *)
Definition nth (n : Z) (m_vector : list T) : outcome T :=
  if (0 <=? n) && (n <? size m_vector) then deref (m_vector !! Z.to_nat n) else Crash AssertFailure.

(** New objects are made by [T()]. *)
Fixpoint grow (make : T) (n : nat) (m_vector : list T) : outcome (list T) :=
  match n with O => Ret m_vector | S n' => v ← push_back (Some make) m_vector; grow make n' v end.
Definition resize (make : T) (s : Z) (m_vector : list T) : outcome (list T) :=
  let size0 := size m_vector in
  v ← (if s <? size0 then Ret (ztake s m_vector)
       else if s >? size0 then grow make (Z.to_nat (s - size0)) m_vector else Ret m_vector);
  _ ← cassert (s =? size v);
  Ret v.
Definition swap (m_vector v : list T) : list T * list T := (v, m_vector).

Lemma pop_back_snoc v x : pop_back (v ++ [x]) = Ret (x, v).
Proof. unfold pop_back. rewrite rev_app_distr. cbn. by rewrite rev_involutive. Qed.

Lemma pop_back_spec v : v <> [] -> exists x v', v = v' ++ [x] /\ pop_back v = Ret (x, v').
Proof. intros Hv. destruct v as [|x v' _] using rev_ind; [done|]. exists x, v'. by rewrite pop_back_snoc. Qed.

Lemma grow_spec make n v : grow make n v = Ret (v ++ replicate n make).
Proof.
  revert v. induction n as [|n IH]; intros v; cbn [grow replicate]; [by rewrite app_nil_r|].
  cbn [push_back mbind outcome_bind]. by rewrite IH, <- app_assoc.
Qed.

(** [resize] never fails its own assertion. *)
Lemma resize_spec make s v : 0 <= s ->
  resize make s v = Ret (ztake s v ++ replicate (Z.to_nat (s - zlen v)) make).
Proof.
  intros Hs. unfold resize, size. destruct (Z.ltb_spec s (zlen v)) as [H|H].
  - cbn [mbind outcome_bind]. rewrite zlen_ztake, Z.eqb_refl by lia. replace (Z.to_nat (s - zlen v)) with 0%nat by lia.
    by rewrite app_nil_r.
  - rewrite Z.gtb_ltb. rewrite ztake_all by done. destruct (Z.ltb_spec (zlen v) s) as [H1|H1].
    + rewrite grow_spec. cbn [mbind outcome_bind]. rewrite zlen_app, zlen_replicate by lia.
      by rewrite (proj2 (Z.eqb_eq _ _)) by lia.
    + assert (s = zlen v) as -> by lia. cbn [mbind outcome_bind]. rewrite Z.eqb_refl, Z.sub_diag. by rewrite app_nil_r.
Qed.
End vec.
End ptr_vector.

(** ** [Thread] *)
Module Thread.

(** What [p_thread] refers to, when it is set: a [std::thread] that can be
    joined or not. *)
Record t := mk { m_isStarted : bool; m_isJoined : bool; p_thread : option bool }.

Definition Thread : t := mk false false None.

Definition start (th : t) : outcome t :=
  _ ← cassert (negb (m_isStarted th));
  _ ← cassert (bool_decide (p_thread th = None));
  Ret (mk true (m_isJoined th) (Some true)).

(** [std::thread::join] and [detach] throw when the thread is not joinable. *)
Definition release (p : option bool) : outcome (option bool) :=
  joinable ← deref p; if joinable : bool then Ret (Some false) else Crash UncaughtException.

Definition join (th : t) : outcome t :=
  _ ← cassert (m_isStarted th);
  _ ← cassert (negb (m_isJoined th));
  p ← release (p_thread th);
  Ret (mk (m_isStarted th) true p).

Definition detach (th : t) : outcome t :=
  _ ← cassert (m_isStarted th);
  _ ← cassert (negb (m_isJoined th));
  p ← release (p_thread th);
  Ret (mk (m_isStarted th) (m_isJoined th) p).

(** [~Thread]; a [std::thread] destroyed while joinable terminates. *)
Definition destroy (th : t) : outcome unit :=
  p ← (if m_isStarted th && negb (m_isJoined th) then release (p_thread th) else Ret (p_thread th));
  match p with Some true => Crash UncaughtException | _ => Ret tt end.

Inductive op := OStart | OJoin | ODetach.
Definition apply (o : op) : t -> outcome t := match o with OStart => start | OJoin => join | ODetach => detach end.
Fixpoint run (os : list op) (th : t) : outcome t :=
  match os with [] => Ret th | o :: os' => th' ← apply o th; run os' th' end.

(** A thread's life, destructor included, is clean exactly if it is never
    started, or started and then left alone or joined once: a thread that is
    detached is detached again by its destructor, which throws. *)
Theorem thread_life os : (th ← run os Thread; destroy th) = Ret tt <-> os = [] \/ os = [OStart] \/ os = [OStart; OJoin].
Proof.
  split; [|intros [->|[->| ->]]; reflexivity].
  destruct os as [|o os]; [auto|]. destruct o; cbn; try done.
  destruct os as [|o os]; cbn; [auto|]. destruct o; cbn; try done.
  - destruct os as [|o os]; cbn; [auto|]. by destruct o.
  - destruct os as [|o os]; cbn; [done|]. by destruct o.
Qed.
End Thread.
