(* ===== verification/AsyncLogging.v ===== *)
(** Logger/AsyncLogging: the threads that log fill buffers, the logging thread
    swaps them out and writes them to the log file. *)
From S2P Require Import Prelude Cxx LogStream LogFile LogUtil.

Module AsyncLogging.

(** What [m_mutex] protects, and the thread. *)
Record t := mk {
  m_isRunning : bool;
  m_thread : Thread.t;
  m_currentBuffer : option LogBuffer.t;
  m_nextBuffer : option LogBuffer.t;
  m_buffers : list LogBuffer.t
}.

(** Where [threadRoutine] stands: not begun, at its first line, at the test of the
    loop, before it takes the lock, in [waitForSeconds] (which gives the lock
    back), past the critical section, returned. *)
Inductive pc := Idle | Begin | Test | Lock | Wait | Work | Done.
#[export] Instance pc_eq_dec : EqDecision pc.
Proof. solve_decision. Defined.

(** Its local variables. *)
Record routine := mkRoutine {
  at_ : pc;
  output : option LogFile.t;
  backupBuffer1 : option LogBuffer.t;
  backupBuffer2 : option LogBuffer.t;
  buffersToWrite : list LogBuffer.t
}.

Record state := mkState { sh : t; th : routine; disk : Disk.t }.

Section async.
(** [kLargeBuffer] in the program. *)
Context (SIZE : Z).
Context (m_filePath : bytes) (m_rollSize : Z) (L : Disk.libc).

Definition new_Buffer : LogBuffer.t := LogBuffer.init SIZE.

Definition AsyncLogging : t := mk false Thread.Thread (Some new_Buffer) (Some new_Buffer) [].

(** [start()]: the new thread is at its first line. *)
Definition start (s : state) : outcome state :=
  if m_isRunning (sh s) then Ret s
  else
    t' ← Thread.start (m_thread (sh s));
    Ret (mkState (mk true t' (m_currentBuffer (sh s)) (m_nextBuffer (sh s)) (m_buffers (sh s)))
      (mkRoutine Begin None None None []) (disk s)).

(** [stop()] up to the join: it returns when the thread has. *)
Definition stop (s : state) : outcome state :=
  t' ← Thread.join (m_thread (sh s));
  Ret (mkState (mk false t' (m_currentBuffer (sh s)) (m_nextBuffer (sh s)) (m_buffers (sh s))) (th s) (disk s)).

Definition append (logline : bytes) (a : t) : outcome t :=
  cur ← deref (m_currentBuffer a);
  if LogBuffer.avail cur >? zlen logline
  then
    cur' ← LogBuffer.append logline cur;
    Ret (mk (m_isRunning a) (m_thread a) (Some cur') (m_nextBuffer a) (m_buffers a))
  else
    bs ← ptr_vector.push_back (Some cur) (m_buffers a);
    let '(cur1, next) := match m_nextBuffer a with Some b => (b, None) | None => (new_Buffer, None) end in
    cur' ← LogBuffer.append logline cur1;
    Ret (mk (m_isRunning a) (m_thread a) (Some cur') next bs).

(** The end of the critical section: the buffers change hands. *)
Definition exchange (a : t) (r : routine) : outcome (t * routine) :=
  bs ← ptr_vector.push_back (m_currentBuffer a) (m_buffers a);
  let cur := backupBuffer1 r in
  let '(bs, toWrite) := ptr_vector.swap bs (buffersToWrite r) in
  let '(next, backup2) :=
    match m_nextBuffer a with Some b => (Some b, backupBuffer2 r) | None => (backupBuffer2 r, None) end in
  Ret (mk (m_isRunning a) (m_thread a) cur next bs, mkRoutine Work (output r) None backup2 toWrite).

(** A backup buffer, taken back from the written ones if it was used. *)
Definition refill (backup : option LogBuffer.t) (v : list LogBuffer.t) : outcome (option LogBuffer.t * list LogBuffer.t) :=
  match backup with
  | Some b => Ret (Some b, v)
  | None =>
      _ ← cassert (negb (ptr_vector.empty v));
      '(b, v') ← ptr_vector.pop_back v;
      Ret (Some (LogBuffer.reset b), v')
  end.

(** From the critical section back to the test of the loop. *)
Definition work (r : routine) : ST Disk.t routine :=
  _ ← lift (cassert (negb (ptr_vector.empty (buffersToWrite r))));
  l ← lift (deref (output r));
  l ← LogFile.appends L (map LogBuffer.content (buffersToWrite r)) l;
  v ← lift (if ptr_vector.size (buffersToWrite r) >? 2 then ptr_vector.resize new_Buffer 2 (buffersToWrite r)
            else Ret (buffersToWrite r));
  '(b1, v) ← lift (refill (backupBuffer1 r) v);
  '(b2, v) ← lift (refill (backupBuffer2 r) v);
  l ← LogFile.flush l;
  mret (mkRoutine Test (Some l) b1 b2 (ptr_vector.clear v)).

(** The end of [threadRoutine]. *)
Definition finish (r : routine) : ST Disk.t routine :=
  l ← lift (deref (output r));
  l ← LogFile.flush l;
  _ ← LogFile.destroy l;
  mret (mkRoutine Done None None None []).

Definition on_disk (m : ST Disk.t routine) (s : state) : outcome state :=
  '(r, d) ← m (disk s); Ret (mkState (sh s) r d).

(** One step of the logging thread. *)
Definition step (s : state) : outcome state :=
  match at_ (th s) with
  | Idle | Done => Ret s
  | Begin =>
      _ ← cassert (m_isRunning (sh s));
      on_disk (l ← LogFile.LogFile L m_filePath m_rollSize;
               mret (mkRoutine Test (Some l) (Some new_Buffer) (Some new_Buffer) [])) s
  | Test =>
      if m_isRunning (sh s)
      then
        _ ← cassert (ptr_vector.empty (buffersToWrite (th s)));
        Ret (mkState (sh s) (mkRoutine Lock (output (th s)) (backupBuffer1 (th s)) (backupBuffer2 (th s)) (buffersToWrite (th s)))
               (disk s))
      else on_disk (finish (th s)) s
  | Lock =>
      if ptr_vector.empty (m_buffers (sh s))
      then Ret (mkState (sh s) (mkRoutine Wait (output (th s)) (backupBuffer1 (th s)) (backupBuffer2 (th s)) (buffersToWrite (th s)))
                  (disk s))
      else '(a, r) ← exchange (sh s) (th s); Ret (mkState a r (disk s))
  | Wait => '(a, r) ← exchange (sh s) (th s); Ret (mkState a r (disk s))
  | Work => on_disk (work (th s)) s
  end.

(** What happens: another thread logs, the logging thread goes on, a thread
    starts or stops the logging. *)
Inductive event := Append (d : bytes) | Step | Start | Stop.

Definition apply (e : event) (s : state) : outcome state :=
  match e with
  | Append d => a ← append d (sh s); Ret (mkState a (th s) (disk s))
  | Step => step s
  | Start => start s
  | Stop => stop s
  end.

Fixpoint run (es : list event) (s : state) : outcome state :=
  match es with [] => Ret s | e :: es' => s' ← apply e s; run es' s' end.

Definition init (d : Disk.t) : state := mkState AsyncLogging (mkRoutine Idle None None None []) d.

Lemma run_app es1 es2 s : run (es1 ++ es2) s = (s' ← run es1 s; run es2 s').
Proof.
  revert s. induction es1 as [|e es1 IH]; intros s; cbn; [done|]. destruct (apply e s); cbn; [apply IH|done].
Qed.
End async.

(** ** What was logged and where it is *)

(** Lines of [SIZE] characters or more are dropped. *)
Definition logged (SIZE : Z) (es : list event) : bytes :=
  concat (omap (fun e => match e with Append d => if zlen d <? SIZE then Some d else None | _ => None end) es).

(** What has not been handed to the log file. *)
Definition waiting (s : state) : bytes :=
  concat (map LogBuffer.content (buffersToWrite (th s))) ++ concat (map LogBuffer.content (m_buffers (sh s)))
    ++ match m_currentBuffer (sh s) with Some b => LogBuffer.content b | None => [] end.

(** ** The order of starts and stops *)
Inductive phase := Fresh | Started | Running | Stopped.

(** Logging is started once, and stopped at most once, when the thread has
    begun; a start in between does nothing. *)
Definition allowed (ph : phase) (e : event) : bool :=
  match e, ph with
  | Start, Stopped => false
  | Stop, Running => true
  | Stop, _ => false
  | _, _ => true
  end.
Definition next_phase (ph : phase) (e : event) : phase :=
  match e, ph with
  | Start, Fresh => Started
  | Step, Started => Running
  | Stop, _ => Stopped
  | _, _ => ph
  end.
Fixpoint proper (ph : phase) (es : list event) : bool :=
  match es with [] => true | e :: es' => allowed ph e && proper (next_phase ph e) es' end.
Fixpoint phase_after (ph : phase) (es : list event) : phase :=
  match es with [] => ph | e :: es' => phase_after (next_phase ph e) es' end.
Definition begun (ph : phase) : bool := match ph with Running | Stopped => true | _ => false end.

(** ** The buffers *)
Section buffers.
Context (SIZE : Z) (HS : 0 < SIZE < 2 ^ 63).
Implicit Types (a : t) (r : routine) (b : LogBuffer.t).

Definition sized b : Prop := LogBuffer.wf b /\ zlen (LogBuffer.m_data b) = SIZE.
Definition clean b : Prop := sized b /\ LogBuffer.content b = [].

Lemma new_clean : clean (new_Buffer SIZE).
Proof.
  destruct (LogBuffer.init_wf SIZE HS) as [Hwf Hc]. split; [split; [done|]|done].
  unfold new_Buffer, LogBuffer.init. cbn. by rewrite zlen_replicate by lia.
Qed.

Lemma reset_clean b : sized b -> clean (LogBuffer.reset b).
Proof. intros [Hwf Hz]. destruct (LogBuffer.reset_wf b Hwf) as [Hwf' Hc]. by split; [split|]. Qed.

(** The buffers the loggers see: when the spare one is gone a full one waits. *)
Record shared_ok a : Prop := {
  so_current : exists b, m_currentBuffer a = Some b /\ sized b;
  so_next : match m_nextBuffer a with Some b => clean b | None => m_buffers a <> [] end;
  so_buffers : Forall sized (m_buffers a)
}.

Definition pending a : bytes :=
  concat (map LogBuffer.content (m_buffers a)) ++ match m_currentBuffer a with Some b => LogBuffer.content b | None => [] end.

(** A line goes to the end of what is pending. *)
Lemma buffer_append d b : sized b -> exists b', LogBuffer.append d b = Ret b' /\ sized b'
  /\ LogBuffer.content b' = LogBuffer.content b ++ (if LogBuffer.avail b >? zlen d then d else []).
Proof.
  intros [Hwf Hz]. destruct (LogBuffer.append_whole d b Hwf) as (b' & E & Hwf' & Hz' & Hc & _).
  exists b'. split; [done|]. split; [split; [done|lia]|]. rewrite Hc, LogBuffer.avail_wf by done. by rewrite Z.gtb_ltb.
Qed.

Lemma avail_clean b : clean b -> LogBuffer.avail b = SIZE.
Proof.
  intros [[Hwf Hz] Hc]. rewrite LogBuffer.avail_wf, Hz by done. pose proof (LogBuffer.zlen_logged b Hwf) as H.
  rewrite Hc in H. change (zlen (@nil ascii)) with 0 in H. lia.
Qed.

Lemma append_ok d a : shared_ok a -> exists a', append SIZE d a = Ret a' /\ shared_ok a'
  /\ m_isRunning a' = m_isRunning a /\ m_thread a' = m_thread a
  /\ pending a' = pending a ++ (if zlen d <? SIZE then d else []).
Proof.
  intros [(b & Eb & Hb) Hn Hbs]. unfold append. rewrite Eb. cbn [deref mbind outcome_bind].
  destruct (LogBuffer.avail b >? zlen d) eqn:Ev.
  - destruct (buffer_append d b Hb) as (b' & -> & Hb' & Hc). rewrite Ev in Hc. cbn [mbind outcome_bind].
    eexists. split; [reflexivity|]. split; [split; cbn; [by exists b'|done|done]|]. split; [done|]. split; [done|].
    unfold pending. cbn. rewrite Eb, Hc, app_assoc. f_equal. destruct Hb as [Hwf Hz].
    rewrite LogBuffer.avail_wf in Ev by done. destruct Hwf. by rewrite (proj2 (Z.ltb_lt _ _)) by lia.
  - cbn [ptr_vector.push_back mbind outcome_bind].
    set (nb := match m_nextBuffer a with Some b1 => b1 | None => new_Buffer SIZE end).
    assert (clean nb) as Hnb by (unfold nb; destruct (m_nextBuffer a); [done|apply new_clean]).
    destruct (buffer_append d nb (proj1 Hnb)) as (b' & E' & Hb' & Hc). rewrite avail_clean, (proj2 Hnb), Z.gtb_ltb in Hc by done.
    assert ((match m_nextBuffer a with Some b1 => (b1, None) | None => (new_Buffer SIZE, None) end) = (nb, @None LogBuffer.t)) as ->
      by (unfold nb; by destruct (m_nextBuffer a)).
    rewrite E'. cbn [mbind outcome_bind]. eexists. split; [reflexivity|].
    split; [split; cbn; [by exists b'|by destruct (m_buffers a)|by apply Forall_app; split; [|constructor]]|].
    split; [done|]. split; [done|]. unfold pending. cbn. rewrite Eb, map_app, concat_app, Hc. cbn. by rewrite app_nil_r.
Qed.

(** What the thread holds outside and inside its pass. *)
Definition resting r : Prop :=
  buffersToWrite r = [] /\ (exists b, backupBuffer1 r = Some b /\ clean b) /\ (exists b, backupBuffer2 r = Some b /\ clean b).
Definition loaded r : Prop :=
  buffersToWrite r <> [] /\ Forall sized (buffersToWrite r) /\ backupBuffer1 r = None
  /\ match backupBuffer2 r with Some b => clean b | None => 2 <= zlen (buffersToWrite r) end.

(** The exchange leaves the loggers two empty buffers. *)
Lemma exchange_ok a r : shared_ok a -> resting r -> exists a' r', exchange a r = Ret (a', r') /\ shared_ok a' /\ loaded r'
  /\ m_isRunning a' = m_isRunning a /\ m_thread a' = m_thread a /\ at_ r' = Work /\ output r' = output r
  /\ concat (map LogBuffer.content (buffersToWrite r')) = pending a /\ pending a' = [].
Proof.
  intros [(b & Eb & Hb) Hn Hbs] (Er & (b1 & E1 & H1) & (b2 & E2 & H2)). unfold exchange. rewrite Eb, Er.
  cbn [ptr_vector.push_back ptr_vector.swap mbind outcome_bind].
  assert (Forall sized (m_buffers a ++ [b])) as Hall by (apply Forall_app; by split; [|constructor]).
  assert (m_buffers a ++ [b] <> []) as Hne by (by destruct (m_buffers a)).
  assert (concat (map LogBuffer.content (m_buffers a ++ [b])) = pending a) as Hp.
  { unfold pending. rewrite Eb, map_app, concat_app. cbn. by rewrite app_nil_r. }
  destruct (m_nextBuffer a) as [n|] eqn:En; do 2 eexists; (split; [reflexivity|]); cbn [at_ output m_isRunning m_thread buffersToWrite];
    rewrite Hp, E1, E2; unfold loaded, pending; cbn.
  - rewrite (proj2 H1). split; [split; cbn; [by exists b1; split; [|apply H1]|done|done]|]. by split_and!.
  - rewrite (proj2 H1). split; [split; cbn; [by exists b1; split; [|apply H1]|done|done]|]. split_and!; try done.
    rewrite zlen_app. change (zlen [b]) with 1. destruct (m_buffers a); [done|]. rewrite zlen_cons. pose proof (zlen_nonneg l). lia.
Qed.

Lemma refill_some b v : refill (Some b) v = Ret (Some b, v).
Proof. done. Qed.

Lemma refill_none v b : sized b -> refill None (v ++ [b]) = Ret (Some (LogBuffer.reset b), v).
Proof. intros Hb. unfold refill. rewrite ptr_vector.pop_back_snoc. by destruct v. Qed.

(** There are enough written buffers to refill both backups. *)
Lemma refills (b2 : option LogBuffer.t) v : v <> [] -> Forall sized v -> match b2 with Some b => clean b | None => 2 <= zlen v end ->
  exists c1 c2 v', ('(o1, v) ← refill None v; '(o2, v) ← refill b2 v; Ret (o1, o2, v)) = Ret (Some c1, Some c2, v')
    /\ clean c1 /\ clean c2.
Proof.
  intros Hne Hv Hb. destruct v as [|x v _] using rev_ind; [done|]. apply Forall_app in Hv as [Hv Hx]. apply Forall_cons in Hx as [Hx _].
  rewrite refill_none by done. cbn [mbind outcome_bind]. destruct b2 as [b|].
  - rewrite refill_some. cbn [mbind outcome_bind]. do 3 eexists. split; [reflexivity|]. split; [by apply reset_clean|done].
  - rewrite zlen_app in Hb. change (zlen [x]) with 1 in Hb.
    destruct v as [|y v _] using rev_ind; [change (zlen (@nil LogBuffer.t)) with 0 in Hb; lia|].
    apply Forall_app in Hv as [Hv Hy]. apply Forall_cons in Hy as [Hy _].
    rewrite refill_none by done. do 3 eexists. split; [reflexivity|]. split; by apply reset_clean.
Qed.

Lemma shrink v : Forall sized v -> v <> [] ->
  exists v', (if ptr_vector.size v >? 2 then ptr_vector.resize (new_Buffer SIZE) 2 v else Ret v) = Ret v'
    /\ Forall sized v' /\ v' <> [] /\ (2 <= zlen v -> 2 <= zlen v').
Proof.
  intros Hv Hne. unfold ptr_vector.size. rewrite Z.gtb_ltb. destruct (Z.ltb_spec 2 (zlen v)) as [H|H]; [|by exists v].
  rewrite ptr_vector.resize_spec by lia. replace (Z.to_nat (2 - zlen v)) with 0%nat by lia. rewrite app_nil_r.
  eexists. split; [reflexivity|]. split; [by apply Forall_take|]. assert (zlen (ztake 2 v) = 2) as Hz by (apply zlen_ztake; lia).
  split; [|lia]. intros E. by rewrite E in Hz.
Qed.

(** ** The log file *)
Context (path : bytes) (roll : Z) (L : Disk.libc) (HL : Disk.ok L) (c0 : bytes).
Abbreviation file := (fold_left (kept roll)).
Implicit Types (s : state) (l : LogFile.t).

(** The buffers written so far are [chunks]. *)
Definition logs (chunks : list bytes) l (d : Disk.t) : Prop :=
  log_ok (file chunks c0) l d /\ LogFile.m_filePath l = path /\ LogFile.m_roolSize l = roll.

Lemma logs_appends chunks ds l d : logs chunks l d -> zlen c0 + zlen (concat chunks) + zlen (concat ds) < 2 ^ 63 ->
  exists l' d', LogFile.appends L ds l d = Ret (l', d') /\ logs (chunks ++ ds) l' d'.
Proof.
  intros (Hl & Hp & Hr) Hz. pose proof (zlen_file roll chunks c0).
  destruct (appends_spec L HL ds _ l d Hl) as (l' & d' & E & Hl' & Hp' & Hr'); [lia|].
  exists l', d'. split; [done|]. unfold logs. rewrite fold_left_app. by rewrite Hr' , Hp', <- Hr at 1.
Qed.

Lemma logs_flush chunks l d : logs chunks l d ->
  exists l' d', LogFile.flush l d = Ret (l', d') /\ logs chunks l' d' /\ Disk.content path d' = Some (file chunks c0).
Proof.
  intros (Hl & Hp & Hr). destruct (log_flush_spec _ l d Hl) as (l' & d' & E & Hl' & Hc & Hp' & Hr').
  exists l', d'. rewrite Hp in Hc. unfold logs. by rewrite Hp', Hr'.
Qed.

Lemma work_ok r l d chunks : loaded r -> output r = Some l -> logs chunks l d ->
  zlen c0 + zlen (concat chunks) + zlen (concat (map LogBuffer.content (buffersToWrite r))) < 2 ^ 63 ->
  exists r' l' d', work SIZE L r d = Ret (r', d') /\ at_ r' = Test /\ resting r' /\ output r' = Some l'
    /\ logs (chunks ++ map LogBuffer.content (buffersToWrite r)) l' d'
    /\ Disk.content path d' = Some (file (chunks ++ map LogBuffer.content (buffersToWrite r)) c0).
Proof.
  intros (Hne & Hbs & H1 & H2) Ho Hl Hz. unfold work. rewrite assert_bind by (by destruct (buffersToWrite r)). rewrite Ho.
  rewrite (lift_bind (deref (Some l)) _ _ l eq_refl).
  destruct (logs_appends _ _ _ _ Hl Hz) as (l1 & d1 & E1 & Hl1). rewrite (ST_bind_eq _ _ _ _ _ E1).
  destruct (shrink _ Hbs Hne) as (v & Ev & Hv & Hvne & Hlen). rewrite (lift_bind _ _ _ _ Ev).
  destruct (refills (backupBuffer2 r) v) as (b1 & b2 & v' & E & Hb1 & Hb2); [done|done|by destruct (backupBuffer2 r); auto|].
  rewrite H1. apply bind_Ret_inv in E as ([o1 v1] & E2 & E). rewrite (lift_bind _ _ _ _ E2).
  apply bind_Ret_inv in E as ([o2 v2] & E3 & E). injection E as -> -> ->. rewrite (lift_bind _ _ _ _ E3).
  destruct (logs_flush _ _ _ Hl1) as (l2 & d2 & E4 & Hl2 & Hc). rewrite (ST_bind_eq _ _ _ _ _ E4).
  eexists _, l2, d2. split; [reflexivity|]. split; [done|]. split; [|done]. split; [done|]. cbn. split; by eexists.
Qed.

(** ** The states of a run *)

(** What the log file holds, once its stream is flushed. *)
Definition held s : option bytes :=
  if decide (at_ (th s) = Done) then Disk.content path (disk s)
  else l ← output (th s); Some (stored (LogFile.m_file l) (disk s)).

(** The logged lines [acc] are where they should be. *)
Record inv (acc : bytes) s : Prop := {
  inv_shared : shared_ok (sh s);
  inv_life : m_thread (sh s) = if m_isRunning (sh s) then Thread.mk true false (Some true) else Thread.mk true true (Some false);
  inv_routine : match at_ (th s) with
    | Idle | Begin => False
    | Test | Lock | Wait => resting (th s)
    | Work => loaded (th s)
    | Done => buffersToWrite (th s) = [] /\ m_isRunning (sh s) = false
    end;
  inv_log : exists chunks, acc = concat chunks ++ waiting s /\
    if decide (at_ (th s) = Done) then Disk.content path (disk s) = Some (file chunks c0)
    else exists l, output (th s) = Some l /\ logs chunks l (disk s)
}.

Lemma inv_held acc s : inv acc s -> exists chunks, acc = concat chunks ++ waiting s /\ held s = Some (file chunks c0).
Proof.
  intros [_ _ _ (chunks & E & Hl)]. exists chunks. split; [done|]. unfold held. case_decide; [done|].
  destruct Hl as (l & -> & Hl & _). cbn. f_equal. apply Hl.
Qed.

Lemma inv_append acc s d : inv acc s ->
  exists s', apply SIZE path roll L (Append d) s = Ret s' /\ inv (acc ++ if zlen d <? SIZE then d else []) s' /\ m_isRunning (sh s') = m_isRunning (sh s)
    /\ th s' = th s /\ disk s' = disk s /\ waiting s' = waiting s ++ if zlen d <? SIZE then d else [].
Proof.
  intros [Hsh Hlife Hth (chunks & E & Hl)]. destruct (append_ok d (sh s) Hsh) as (a & Ea & Ha & Hr & Ht & Hp).
  cbn [apply]. rewrite Ea. cbn [mbind outcome_bind].
  assert (waiting (mkState a (th s) (disk s)) = waiting s ++ if zlen d <? SIZE then d else []) as Hw.
  { unfold waiting. cbn [sh th]. unfold pending in Hp. by rewrite Hp, app_assoc. }
  eexists. split; [reflexivity|]. split; [|done]. split; cbn [sh th disk]; [done|by rewrite Hr, Ht|by rewrite Hr|].
  exists chunks. by rewrite Hw, E, <- app_assoc.
Qed.

Abbreviation stepping := (step SIZE path roll L).

(** A step that moves the routine only, outside its pass. *)
Definition outside (p : pc) : bool := match p with Test | Lock | Wait => true | _ => false end.

Lemma inv_move acc s p : inv acc s -> outside (at_ (th s)) = true -> outside p = true ->
  let r := th s in
  inv acc (mkState (sh s) (mkRoutine p (output r) (backupBuffer1 r) (backupBuffer2 r) (buffersToWrite r)) (disk s)).
Proof.
  intros [Hsh Hlife Hth (chunks & E & Hl)] Hs Hp. cbv zeta.
  assert (resting (th s)) as Hr by (by destruct (at_ (th s))).
  rewrite decide_False in Hl by (intros Hd; by rewrite Hd in Hs).
  split; cbn [sh th disk at_ output]; [done|done|by destruct p|].
  exists chunks. split; [done|]. rewrite decide_False by (by intros ->). done.
Qed.

Lemma inv_exchange acc s : inv acc s -> resting (th s) -> at_ (th s) <> Done ->
  exists a r, exchange (sh s) (th s) = Ret (a, r) /\ inv acc (mkState a r (disk s)) /\ at_ r = Work
    /\ m_isRunning a = m_isRunning (sh s) /\ pending a = [].
Proof.
  intros [Hsh Hlife _ (chunks & E & Hl)] Hr Hd. rewrite decide_False in Hl by done.
  destruct (exchange_ok (sh s) (th s) Hsh Hr) as (a & r & Ex & Ha & Hld & Hrun & Ht & Hat & Ho & Hw & Hp).
  exists a, r. split; [done|]. split; [|done]. split; cbn [sh th disk]; [done|by rewrite Hrun, Ht|by rewrite Hat|].
  exists chunks. rewrite Hat, Ho. split; [|done]. rewrite E. f_equal. unfold waiting. cbn [sh th]. rewrite Hw.
  unfold pending in Hp at 1. rewrite Hp, app_nil_r. destruct Hr as [-> _]. done.
Qed.

Lemma inv_work acc s : inv acc s -> at_ (th s) = Work -> zlen c0 + zlen acc < 2 ^ 63 ->
  exists s', stepping s = Ret s' /\ inv acc s' /\ at_ (th s') = Test /\ sh s' = sh s /\ waiting s' = pending (sh s)
    /\ Disk.content path (disk s') = held s'.
Proof.
  intros [Hsh Hlife Hth (chunks & E & Hl)] Hat Hz. rewrite Hat in Hth, Hl. rewrite decide_False in Hl by done.
  destruct Hl as (l & Ho & Hl). assert (zlen acc = zlen (concat chunks) + zlen (waiting s)) as Hza by (by rewrite E, zlen_app).
  unfold waiting in Hza. rewrite !zlen_app in Hza.
  pose proof (zlen_nonneg (concat (map LogBuffer.content (m_buffers (sh s))))).
  pose proof (zlen_nonneg (match m_currentBuffer (sh s) with Some b => LogBuffer.content b | None => [] end)).
  destruct (work_ok (th s) l (disk s) chunks Hth Ho Hl) as (r & l' & d & Ew & Hr & Hrest & Ho' & Hl' & Hc); [lia|].
  unfold step. rewrite Hat. unfold on_disk. rewrite Ew. cbn [mbind outcome_bind].
  assert (waiting (mkState (sh s) r d) = pending (sh s)) as Hw by (unfold waiting; cbn [sh th]; by rewrite (proj1 Hrest)).
  eexists. split; [reflexivity|]. split; [|split; [done|split; [done|split; [done|]]]].
  - split; cbn [sh th disk]; [done|done|by rewrite Hr|].
    eexists. split; [|rewrite decide_False by (by rewrite Hr); by exists l'].
    rewrite Hw, E, concat_app, <- app_assoc. done.
  - unfold held. cbn [th disk]. rewrite decide_False by (by rewrite Hr). rewrite Ho', Hc. cbn. f_equal. symmetry. apply Hl'.
Qed.

Lemma inv_finish acc s : inv acc s -> at_ (th s) = Test -> m_isRunning (sh s) = false ->
  exists s', stepping s = Ret s' /\ inv acc s' /\ at_ (th s') = Done /\ sh s' = sh s /\ waiting s' = waiting s /\ held s' = held s.
Proof.
  intros [Hsh Hlife Hth (chunks & E & Hl)] Hat Hrun. rewrite Hat in Hth, Hl. rewrite decide_False in Hl by done.
  destruct Hl as (l & Ho & Hl). destruct (logs_flush _ _ _ Hl) as (l1 & d1 & E1 & (Hl1 & Hp1 & Hr1) & _).
  destruct (log_destroy_spec _ _ _ Hl1) as (d2 & E2 & Hc). rewrite Hp1 in Hc.
  assert (finish (th s) (disk s) = Ret (mkRoutine Done None None None [], d2)) as Ef.
  { unfold finish. rewrite Ho, (lift_bind (deref (Some l)) _ _ l eq_refl), (ST_bind_eq _ _ _ _ _ E1), (ST_bind_eq _ _ _ _ _ E2). done. }
  unfold step. rewrite Hat, Hrun. unfold on_disk. rewrite Ef. cbn [mbind outcome_bind].
  assert (waiting (mkState (sh s) (mkRoutine Done None None None []) d2) = waiting s) as Hw.
  { unfold waiting. cbn [sh th buffersToWrite]. by rewrite (proj1 Hth). }
  eexists. split; [reflexivity|]. split; [|split; [done|split; [done|split; [done|]]]].
  - split; cbn [sh th disk at_]; [done|by rewrite Hrun in *|done|]. exists chunks. rewrite Hw. rewrite decide_True by done. done.
  - unfold held. cbn [th disk at_]. rewrite decide_True, decide_False, Ho by (done || by rewrite Hat). cbn.
    rewrite Hc. f_equal. symmetry. apply Hl.
Qed.

(** One step, and where it leads. *)
Definition next_pc s : pc :=
  match at_ (th s) with
  | Test => if m_isRunning (sh s) then Lock else Done
  | Lock => if ptr_vector.empty (m_buffers (sh s)) then Wait else Work
  | Wait => Work
  | Work => Test
  | p => p
  end.

Lemma inv_advance acc s : inv acc s -> zlen c0 + zlen acc < 2 ^ 63 ->
  exists s', stepping s = Ret s' /\ inv acc s' /\ at_ (th s') = next_pc s /\ m_isRunning (sh s') = m_isRunning (sh s)
    /\ (at_ (th s) <> Work -> at_ (th s') = Work -> pending (sh s') = []).
Proof.
  intros Hi Hz. pose proof (inv_routine _ _ Hi) as Hth. unfold next_pc. destruct (at_ (th s)) eqn:Hat; try done.
  - destruct (m_isRunning (sh s)) eqn:Hr.
    + unfold step. rewrite Hat, Hr, (proj1 Hth). cbn [ptr_vector.empty negb cassert mbind outcome_bind].
      eexists. split; [reflexivity|]. split; [|done]. rewrite <- (proj1 Hth). by apply inv_move; [|rewrite Hat|].
    + destruct (inv_finish _ _ Hi Hat Hr) as (s' & E & Hi' & Hp & Hsh & _). exists s'. split; [done|]. rewrite Hp, Hsh. done.
  - unfold step. rewrite Hat. destruct (ptr_vector.empty (m_buffers (sh s))).
    + eexists. split; [reflexivity|]. split; [|done]. by apply inv_move; [|rewrite Hat|].
    + destruct (inv_exchange _ _ Hi Hth) as (a & r & -> & Hi' & Hp & Hr & Hpe); [by rewrite Hat|]. by eexists.
  - unfold step. rewrite Hat. destruct (inv_exchange _ _ Hi Hth) as (a & r & -> & Hi' & Hp & Hr & Hpe); [by rewrite Hat|]. by eexists.
  - destruct (inv_work _ _ Hi Hat Hz) as (s' & E & Hi' & Hp & Hsh & _). exists s'. split; [done|]. rewrite Hsh. done.
  - unfold step. rewrite Hat. exists s. split; [done|]. split; [done|]. split; [done|]. split; [done|]. by rewrite Hat.
Qed.

(** [start] while it runs; [stop] while it runs, and nothing but logging after
    that. *)
Fixpoint orderly (running : bool) (es : list event) : Prop :=
  match es with
  | [] => True
  | Append _ :: es' | Step :: es' => orderly running es'
  | Start :: es' => running = true /\ orderly running es'
  | Stop :: es' => running = true /\ orderly false es'
  end.

Lemma logged_cons e es : logged SIZE (e :: es)
  = match e with Append d => if zlen d <? SIZE then d else [] | _ => [] end ++ logged SIZE es.
Proof. unfold logged. destruct e as [d| | |]; cbn [omap list_omap]; [by destruct (zlen d <? SIZE)|done..]. Qed.

Lemma logged_app es1 es2 : logged SIZE (es1 ++ es2) = logged SIZE es1 ++ logged SIZE es2.
Proof. unfold logged. by rewrite omap_app, concat_app. Qed.

Lemma inv_event acc s e : inv acc s -> orderly (m_isRunning (sh s)) [e] ->
  zlen c0 + zlen (acc ++ logged SIZE [e]) < 2 ^ 63 ->
  exists s', apply SIZE path roll L e s = Ret s' /\ inv (acc ++ logged SIZE [e]) s'
    /\ m_isRunning (sh s') = match e with Stop => false | _ => m_isRunning (sh s) end.
Proof.
  rewrite logged_cons. change (logged SIZE []) with (@nil ascii). rewrite app_nil_r. intros Hi He Hz. destruct e as [d| | |].
  - destruct (inv_append acc s d Hi) as (s' & E & Hi' & Hr & _). by exists s'.
  - rewrite app_nil_r in *. destruct (inv_advance acc s Hi Hz) as (s' & E & Hi' & _ & Hr & _). by exists s'.
  - rewrite app_nil_r in *. destruct He as [Hr _]. exists s. cbn [apply]. unfold start. by rewrite Hr.
  - rewrite app_nil_r in *. destruct He as [Hr _]. destruct Hi as [[Hc Hn Hb] Hlife Hth Hl]. cbn [apply]. unfold stop. rewrite Hlife, Hr.
    eexists. split; [reflexivity|]. split; [|done]. split; cbn [sh th disk m_isRunning]; [by split|done| |done].
    destruct (at_ (th s)); try done. by destruct Hth.
Qed.

Definition is_stop (e : event) : bool := match e with Stop => true | _ => false end.

Lemma inv_run es acc s : inv acc s -> orderly (m_isRunning (sh s)) es -> zlen c0 + zlen (acc ++ logged SIZE es) < 2 ^ 63 ->
  exists s', run SIZE path roll L es s = Ret s' /\ inv (acc ++ logged SIZE es) s'
    /\ m_isRunning (sh s') = (m_isRunning (sh s) && negb (existsb is_stop es)).
Proof.
  revert acc s. induction es as [|e es IH]; intros acc s Hi He Hz; cbn [run].
  - exists s. change (logged SIZE []) with (@nil ascii). rewrite app_nil_r. split; [done|]. split; [done|].
    cbn. by rewrite andb_true_r.
  - assert (logged SIZE (e :: es) = logged SIZE [e] ++ logged SIZE es) as El by apply (logged_app [e] es).
    rewrite El, app_assoc in *. rewrite zlen_app in Hz. pose proof (zlen_nonneg (logged SIZE es)).
    destruct (inv_event acc s e Hi) as (s1 & -> & Hi1 & Hr1); [by destruct e; cbn in *; naive_solver|lia|].
    cbn [mbind outcome_bind]. destruct (IH _ s1 Hi1) as (s' & E & Hi' & Hr').
    { rewrite Hr1. by destruct e; cbn in *; naive_solver. }
    { by rewrite zlen_app. }
    exists s'. split; [done|]. split; [done|]. rewrite Hr', Hr1. cbn [existsb]. destruct e; cbn; try done. by rewrite andb_false_r.
Qed.

(** The thread alone, [n] steps. *)
Abbreviation steps n s := (run SIZE path roll L (replicate n Step) s).

Lemma steps_S n s s' : stepping s = Ret s' -> steps (S n) s = steps n s'.
Proof. intros E. cbn [replicate run apply]. by rewrite E. Qed.

(** After a stop it is done in four. *)
Definition to_done (p : pc) : nat := match p with Lock => 4 | Wait => 3 | Work => 2 | Test => 1 | _ => 0 end.

Lemma steps_to_done n acc s : inv acc s -> m_isRunning (sh s) = false -> zlen c0 + zlen acc < 2 ^ 63 ->
  (to_done (at_ (th s)) <= n)%nat -> exists s', steps n s = Ret s' /\ inv acc s' /\ at_ (th s') = Done.
Proof.
  revert s. induction n as [|n IH]; intros s Hi Hr Hz Hn.
  - exists s. split; [done|]. split; [done|]. pose proof (inv_routine _ _ Hi) as Hth. destruct (at_ (th s)); cbn in Hn; lia || done.
  - destruct (inv_advance acc s Hi Hz) as (s1 & E & Hi1 & Hp & Hr1 & _). rewrite (steps_S _ _ _ E).
    apply IH; [done|by rewrite Hr1|done|]. rewrite Hp. unfold next_pc. rewrite Hr.
    destruct (at_ (th s)); cbn in *; try lia. destruct (ptr_vector.empty _); cbn; lia.
Qed.

(** While it runs, it comes to write all that was logged. *)
Lemma steps_to_work acc s : inv acc s -> zlen c0 + zlen acc < 2 ^ 63 -> at_ (th s) = Lock \/ at_ (th s) = Wait ->
  exists n s', (n <= 2)%nat /\ steps n s = Ret s' /\ inv acc s' /\ at_ (th s') = Work /\ pending (sh s') = [].
Proof.
  intros Hi Hz Hat. destruct (inv_advance acc s Hi Hz) as (s1 & E & Hi1 & Hp & _ & Hw). unfold next_pc in Hp.
  assert (at_ (th s) <> Work) as Hne by (destruct Hat; congruence).
  destruct (decide (at_ (th s1) = Work)) as [Ew|Ew].
  - exists 1%nat, s1. rewrite (steps_S 0 _ _ E). split; [lia|auto].
  - destruct Hat as [Hat|Hat]; rewrite Hat in Hp; [|done].
    destruct (ptr_vector.empty _); [|done]. destruct (inv_advance acc s1 Hi1 Hz) as (s2 & E2 & Hi2 & Hp2 & _ & Hw2).
    unfold next_pc in Hp2. rewrite Hp in Hp2. exists 2%nat, s2. rewrite (steps_S 1 _ _ E), (steps_S 0 _ _ E2). split; [lia|auto].
Qed.

Lemma steps_to_flush acc s : inv acc s -> zlen c0 + zlen acc < 2 ^ 63 -> m_isRunning (sh s) = true ->
  exists n s', (n <= 5)%nat /\ steps n s = Ret s' /\ inv acc s' /\ waiting s' = [] /\ Disk.content path (disk s') = held s'.
Proof.
  intros Hi Hz Hr.
  assert (forall s, inv acc s -> at_ (th s) = Lock \/ at_ (th s) = Wait -> exists n s', (n <= 3)%nat /\ steps n s = Ret s' /\ inv acc s'
    /\ waiting s' = [] /\ Disk.content path (disk s') = held s') as Hlock.
  { clear s Hi Hr. intros s Hi Hat. destruct (steps_to_work acc s Hi Hz Hat) as (n & s1 & Hn & E & Hi1 & Hp & Hpe).
    destruct (inv_work acc s1 Hi1 Hp Hz) as (s2 & E2 & Hi2 & _ & _ & Hw & Hd). rewrite Hpe in Hw.
    exists (n + 1)%nat, s2. rewrite replicate_add, run_app, E. cbn [mbind outcome_bind]. rewrite (steps_S 0 _ _ E2).
    split; [lia|]. by split_and!. }
  assert (forall s, inv acc s -> at_ (th s) = Test -> m_isRunning (sh s) = true -> exists n s', (n <= 4)%nat /\ steps n s = Ret s' /\ inv acc s'
    /\ waiting s' = [] /\ Disk.content path (disk s') = held s') as Htest.
  { clear s Hi Hr. intros s Hi Hat Hr. destruct (inv_advance acc s Hi Hz) as (s1 & E & Hi1 & Hp & _). unfold next_pc in Hp. rewrite Hat, Hr in Hp.
    destruct (Hlock s1 Hi1 (or_introl Hp)) as (n & s2 & Hn & E2 & H). exists (S n), s2. rewrite (steps_S _ _ _ E). split; [lia|done]. }
  pose proof (inv_routine _ _ Hi) as Hth. destruct (at_ (th s)) eqn:Hat; try done.
  - destruct (Htest s Hi Hat Hr) as (n & s' & Hn & H). exists n, s'. split; [lia|done].
  - destruct (Hlock s Hi (or_introl Hat)) as (n & s' & Hn & H). exists n, s'. split; [lia|done].
  - destruct (Hlock s Hi (or_intror Hat)) as (n & s' & Hn & H). exists n, s'. split; [lia|done].
  - destruct (inv_advance acc s Hi Hz) as (s1 & E & Hi1 & Hp & Hr1 & _). unfold next_pc in Hp. rewrite Hat in Hp.
    destruct (Htest s1 Hi1 Hp) as (n & s2 & Hn & E2 & H); [by rewrite Hr1|]. exists (S n), s2. rewrite (steps_S _ _ _ E). split; [lia|done].
  - destruct Hth as [_ Hth]. by rewrite Hr in Hth.
Qed.

(** *** The life of the logging *)

(** Before the thread's first line. *)
Record early (acc : bytes) (d : Disk.t) (p : pc) s : Prop := {
  early_shared : shared_ok (sh s);
  early_disk : disk s = d;
  early_waiting : waiting s = acc;
  early_routine : th s = mkRoutine p None None None []
}.

(** What a phase says of the state. *)
Definition reached (ph : phase) (acc : bytes) (d : Disk.t) s : Prop :=
  match ph with
  | Fresh => early acc d Idle s /\ m_isRunning (sh s) = false /\ m_thread (sh s) = Thread.Thread
  | Started => early acc d Begin s /\ m_isRunning (sh s) = true /\ m_thread (sh s) = Thread.mk true false (Some true)
  | Running => inv acc s /\ m_isRunning (sh s) = true
  | Stopped => inv acc s /\ m_isRunning (sh s) = false
  end.

Context (d : Disk.t) (Hd : forall i, Disk.dir d !! path = Some i -> i ∈ dom (Disk.inodes d))
  (Hc0 : c0 = default [] (Disk.content path d)).

Lemma reached_init : reached Fresh [] d (init SIZE d).
Proof.
  split; [|done]. pose proof new_clean as Hn. split; try done.
  split; cbn; [by eexists; split; [|apply Hn]|done|done].
Qed.

Lemma early_append acc p s x : early acc d p s -> exists s', apply SIZE path roll L (Append x) s = Ret s'
  /\ early (acc ++ if zlen x <? SIZE then x else []) d p s' /\ m_isRunning (sh s') = m_isRunning (sh s) /\ m_thread (sh s') = m_thread (sh s).
Proof.
  intros [Hsh Hdk Hw Hth]. destruct (append_ok x (sh s) Hsh) as (a & Ea & Ha & Hr & Ht & Hp). cbn [apply]. rewrite Ea. cbn [mbind outcome_bind].
  eexists. split; [reflexivity|]. split; [|done]. split; cbn [sh th disk]; [done|done| |done].
  rewrite <- Hw. unfold waiting in *. cbn [sh th]. unfold pending in Hp. by rewrite Hp, app_assoc.
Qed.

(** The thread's first line. *)
Lemma early_begin acc s : early acc d Begin s -> m_isRunning (sh s) = true -> m_thread (sh s) = Thread.mk true false (Some true) ->
  exists s', stepping s = Ret s' /\ inv acc s' /\ m_isRunning (sh s') = true.
Proof.
  intros [Hsh Hdk Hw Hth] Hr Ht. destruct (LogFile_spec L HL path roll d Hd) as (l & d1 & E & Hl & Hp & Hro). rewrite <- Hc0 in Hl.
  unfold step. rewrite Hth. cbn [at_]. rewrite Hr. cbn [cassert mbind outcome_bind]. unfold on_disk. rewrite Hdk, (ST_bind_eq _ _ _ _ _ E).
  cbn [mbind outcome_bind]. eexists. split; [reflexivity|]. split; [|done]. pose proof new_clean as Hn.
  split; cbn [sh th disk at_ output]; [done|by rewrite Hr, Ht|split; [done|split; by eexists]|].
  exists []. rewrite decide_False by done. split; [|by exists l]. rewrite <- Hw. unfold waiting. cbn [sh th buffersToWrite]. by rewrite Hth.
Qed.

Lemma reached_event ph acc s e : reached ph acc d s -> allowed ph e = true -> zlen c0 + zlen (acc ++ logged SIZE [e]) < 2 ^ 63 ->
  exists s', apply SIZE path roll L e s = Ret s' /\ reached (next_phase ph e) (acc ++ logged SIZE [e]) d s'.
Proof.
  intros Hs Ha Hz.
  assert (forall b : bool, inv acc s -> m_isRunning (sh s) = b -> orderly b [e] -> exists s', apply SIZE path roll L e s = Ret s'
    /\ inv (acc ++ logged SIZE [e]) s' /\ m_isRunning (sh s') = match e with Stop => false | _ => b end) as Hinv.
  { intros b Hi Hb He. subst b. by apply inv_event. }
  assert (logged SIZE [e] = match e with Append x => if zlen x <? SIZE then x else [] | _ => [] end) as El
    by (rewrite logged_cons; by destruct e; rewrite app_nil_r).
  destruct ph; cbn [reached] in Hs.
  - destruct Hs as (He & Hr & Ht). destruct e as [x| | |]; try done; rewrite El in *; rewrite ?app_nil_r in *; cbn [next_phase reached].
    + destruct (early_append acc Idle s x He) as (s' & E & He' & Hr' & Ht'). exists s'. rewrite Hr', Ht'. done.
    + exists s. split; [|done]. cbn [apply]. unfold step. by rewrite (early_routine _ _ _ _ He).
    + cbn [apply]. unfold start. rewrite Hr, Ht. cbn. eexists. split; [reflexivity|]. split; [|done]. destruct He as [[Hsh1 Hsh2 Hsh3] Hdk Hw Hth].
      split; cbn [sh th disk]; [by split|done| |done]. rewrite <- Hw. unfold waiting. cbn [sh th buffersToWrite]. by rewrite Hth.
  - destruct Hs as (He & Hr & Ht). destruct e as [x| | |]; try done; rewrite El in *; rewrite ?app_nil_r in *; cbn [next_phase reached].
    + destruct (early_append acc Begin s x He) as (s' & E & He' & Hr' & Ht'). exists s'. rewrite Hr', Ht'. done.
    + by apply early_begin.
    + exists s. split; [|done]. cbn [apply]. unfold start. by rewrite Hr.
  - destruct Hs as [Hi Hr]. destruct (Hinv true Hi Hr) as (s' & E & Hi' & Hr'); [by destruct e|]. exists s'. split; [done|]. by destruct e.
  - destruct Hs as [Hi Hr]. destruct (Hinv false Hi Hr) as (s' & E & Hi' & Hr'); [by destruct e|]. exists s'. split; [done|]. by destruct e.
Qed.

Lemma reached_run es : forall ph acc s, reached ph acc d s -> proper ph es = true -> zlen c0 + zlen (acc ++ logged SIZE es) < 2 ^ 63 ->
  exists s', run SIZE path roll L es s = Ret s' /\ reached (phase_after ph es) (acc ++ logged SIZE es) d s'.
Proof.
  induction es as [|e es IH]; intros ph acc s Hs Hp Hz; cbn [run].
  - exists s. change (logged SIZE []) with (@nil ascii). by rewrite app_nil_r.
  - assert (logged SIZE (e :: es) = logged SIZE [e] ++ logged SIZE es) as El by apply (logged_app [e] es).
    rewrite El, app_assoc in *. cbn [proper] in Hp. apply andb_true_iff in Hp as [Ha Hp].
    rewrite zlen_app in Hz. pose proof (zlen_nonneg (logged SIZE es)).
    destruct (reached_event ph acc s e Hs Ha) as (s1 & -> & Hs1); [lia|]. cbn [mbind outcome_bind phase_after].
    apply (IH _ _ s1 Hs1 Hp). by rewrite zlen_app.
Qed.

(** A run from the start. *)
Lemma reached_start es : proper Fresh es = true -> zlen c0 + zlen (logged SIZE es) < 2 ^ 63 ->
  exists s, run SIZE path roll L es (init SIZE d) = Ret s /\ reached (phase_after Fresh es) (logged SIZE es) d s.
Proof. intros Hp Hz. by apply (reached_run es Fresh [] (init SIZE d) reached_init). Qed.

(** Where the lines are. *)
Lemma reached_lines ph acc s : reached ph acc d s -> exists chunks, acc = concat chunks ++ waiting s
  /\ if begun ph then held s = Some (file chunks c0) else chunks = [] /\ disk s = d.
Proof.
  destruct ph; cbn [reached begun]; [intros [[_ ? <- _] _]; by exists []|intros [[_ ? <- _] _]; by exists []| |]; intros [Hi _]; by apply inv_held.
Qed.

Lemma reached_to_flush ph acc s : reached ph acc d s -> ph = Started \/ ph = Running -> zlen c0 + zlen acc < 2 ^ 63 ->
  exists n s', (n <= 6)%nat /\ steps n s = Ret s' /\ inv acc s' /\ waiting s' = [] /\ Disk.content path (disk s') = held s'.
Proof.
  intros Hs [->| ->] Hz; cbn [reached] in Hs.
  - destruct Hs as (He & Hr & Ht). destruct (early_begin acc s He Hr Ht) as (s1 & E1 & Hi & Hr1).
    destruct (steps_to_flush acc s1 Hi Hz Hr1) as (n & s' & Hn & E & H). exists (S n), s'. rewrite (steps_S _ _ _ E1). split; [lia|done].
  - destruct Hs as [Hi Hr]. destruct (steps_to_flush acc s Hi Hz Hr) as (n & s' & Hn & H). exists n, s'. split; [lia|done].
Qed.
End buffers.

(** ** A run from the start *)
Section runs.
Context (SIZE : Z) (path : bytes) (roll : Z) (L : Disk.libc) (d : Disk.t).
Abbreviation old := (default [] (Disk.content path d)).

(** Buffers of a size, a library whose calls succeed, a file system where the
    log file, if it is there, can be opened, and lines that fit in a file. *)
Record fit (es : list event) : Prop := {
  fit_size : 0 < SIZE < 2 ^ 63;
  fit_libc : Disk.ok L;
  fit_disk : forall i, Disk.dir d !! path = Some i -> i ∈ dom (Disk.inodes d);
  fit_file : zlen old + zlen (logged SIZE es) < 2 ^ 63
}.
End runs.

(** C17. Asynchronous logging loses nothing while it runs and keeps the order:
    in whatever order the threads log - before the start, after it, after the
    stop - and the logging thread takes its steps, with one start, then at most
    one stop after the thread's first step, and calls on the log file that
    succeed, no assertion fails, no null buffer is used, and the lines logged,
    those too long for a buffer left out, are the ones handed to the log file
    followed by the ones in the buffers. *)
Theorem async_in_order SIZE path roll L d es (Hf : fit SIZE path L d es) (He : proper Fresh es = true) :
  exists s chunks, run SIZE path roll L es (init SIZE d) = Ret s
    /\ logged SIZE es = concat chunks ++ waiting s
    /\ if begun (phase_after Fresh es)
       then held path s = Some (fold_left (kept roll) chunks (default [] (Disk.content path d)))
       else chunks = [] /\ disk s = d.
Proof.
  destruct Hf as [HS HL Hd Hz]. destruct (reached_start SIZE HS path roll L HL _ d Hd eq_refl es He Hz) as (s & E & Hs).
  destruct (reached_lines _ _ _ _ _ _ _ _ Hs) as (chunks & Ew & Hh). by exists s, chunks.
Qed.

(** What is logged reaches the disk: at any time between the start and a stop,
    at most six steps of the logging thread alone put every line into the
    file. *)
Theorem async_flushes SIZE path roll L d es (Hf : fit SIZE path L d es) (He : proper Fresh es = true)
    (Hs : phase_after Fresh es = Started \/ phase_after Fresh es = Running) :
  exists n s chunks, (n <= 6)%nat /\ run SIZE path roll L (es ++ replicate n Step) (init SIZE d) = Ret s
    /\ logged SIZE es = concat chunks
    /\ Disk.content path (disk s) = Some (fold_left (kept roll) chunks (default [] (Disk.content path d))).
Proof.
  destruct Hf as [HS HL Hd Hz]. destruct (reached_start SIZE HS path roll L HL _ d Hd eq_refl es He Hz) as (s1 & E1 & Hs1).
  destruct (reached_to_flush SIZE HS path roll L HL _ d Hd eq_refl _ _ s1 Hs1 Hs Hz) as (n & s & Hn & E & Hi & Hw & Hdisk).
  destruct (inv_held _ _ _ _ _ _ Hi) as (chunks & Ew & Hh). exists n, s, chunks. split; [done|].
  rewrite Hw, app_nil_r in Ew. rewrite Hdisk. split; [|done]. by rewrite run_app, E1.
Qed.

(** C19. After a stop that came when the thread had begun, the logging thread
    returns within four of its steps, so the join does, whatever is logged
    before and after the stop; the lines still in the buffers then are lost.
    [misuse_aborts] is about the stops that come too early. *)
Theorem async_stops SIZE path roll L d es (Hf : fit SIZE path L d es) (He : proper Fresh es = true) (Hs : phase_after Fresh es = Stopped) :
  exists s chunks, run SIZE path roll L (es ++ replicate 4 Step) (init SIZE d) = Ret s
    /\ at_ (th s) = Done /\ logged SIZE es = concat chunks ++ waiting s
    /\ Disk.content path (disk s) = Some (fold_left (kept roll) chunks (default [] (Disk.content path d))).
Proof.
  destruct Hf as [HS HL Hd Hz]. destruct (reached_start SIZE HS path roll L HL _ d Hd eq_refl es He Hz) as (s1 & E1 & Hs1).
  rewrite Hs in Hs1. destruct Hs1 as [Hi1 Hr1]. destruct (steps_to_done SIZE path roll L HL _ 4 _ _ Hi1 Hr1 Hz) as (s & E & Hi & Hdone);
    [destruct (at_ (th s1)); cbn; lia|].
  destruct (inv_held _ _ _ _ _ _ Hi) as (chunks & Ew & Hh). exists s, chunks. unfold held in Hh. rewrite decide_True in Hh by done.
  split; [|done]. by rewrite run_app, E1.
Qed.

(** A line logged after the thread's last pass is lost when the logging is
    stopped: the file stays as it was. *)
Theorem stop_loses_lines SIZE path roll L d es x s1 (Hf : fit SIZE path L d (es ++ [Append x])) (He : proper Fresh es = true)
    (Hs : phase_after Fresh es = Running) (Hx : zlen x < SIZE)
    (H1 : run SIZE path roll L es (init SIZE d) = Ret s1) (Ht : at_ (th s1) = Test) :
  exists s, run SIZE path roll L (es ++ [Append x; Stop; Step]) (init SIZE d) = Ret s
    /\ at_ (th s) = Done /\ waiting s = waiting s1 ++ x /\ Disk.content path (disk s) = held path s1.
Proof.
  destruct Hf as [HS HL Hd Hz]. rewrite logged_app, zlen_app in Hz. pose proof (zlen_nonneg (logged SIZE [Append x])).
  destruct (reached_start SIZE HS path roll L HL _ d Hd eq_refl es He) as (s1' & E1 & Hs1); [lia|].
  rewrite E1 in H1. injection H1 as ->. rewrite Hs in Hs1. destruct Hs1 as [Hi1 Hr1].
  destruct (inv_append SIZE HS path roll L _ _ s1 x Hi1) as (s2 & E2 & Hi2 & Hr2 & Hth2 & Hd2 & Hw2).
  rewrite (proj2 (Z.ltb_lt _ _) Hx) in *. rewrite <- Hr2 in Hr1.
  destruct (inv_event SIZE HS path roll L HL _ _ s2 Stop Hi2) as (s3 & E3 & Hi3 & Hr3); [done| |].
  { change (logged SIZE [Stop]) with (@nil ascii). rewrite app_nil_r. unfold logged in Hz at 2. cbn in Hz.
    rewrite (proj2 (Z.ltb_lt _ _) Hx) in Hz. cbn in Hz. rewrite app_nil_r in Hz. rewrite zlen_app. lia. }
  assert (th s3 = th s2 /\ disk s3 = disk s2 /\ m_buffers (sh s3) = m_buffers (sh s2)
    /\ m_currentBuffer (sh s3) = m_currentBuffer (sh s2)) as (Hth3 & Hd3 & Hb3 & Hc3).
  { cbn [apply] in E3. unfold stop in E3. destruct (Thread.join _); [|done]. by injection E3 as <-. }
  destruct (inv_finish SIZE path roll L _ _ s3 Hi3) as (s & E & _ & Hdone & _ & Hw & Hh); [by rewrite Hth3, Hth2|done|].
  exists s. split.
  { rewrite run_app, E1. cbn [mbind outcome_bind run]. rewrite E2. cbn [mbind outcome_bind]. rewrite E3. cbn [mbind outcome_bind apply].
    by rewrite E. }
  split; [done|]. split.
  - rewrite Hw. unfold waiting in *. rewrite Hth3, Hb3, Hc3. exact Hw2.
  - unfold held in *. rewrite decide_True in Hh by done. rewrite Hh. by rewrite Hth3, Hd3, Hth2, Hd2.
Qed.

(** A stop without a start, a stop that comes before the thread has begun, and a
    start after a stop fail an assertion. *)
Theorem misuse_aborts SIZE path roll L d :
  run SIZE path roll L [Stop] (init SIZE d) = Crash AssertFailure
  /\ run SIZE path roll L [Start; Stop; Step] (init SIZE d) = Crash AssertFailure
  /\ run SIZE path roll L [Start; Stop; Start] (init SIZE d) = Crash AssertFailure.
Proof. done. Qed.

(** ** A run with buffers of eight characters *)

(** A line before the start and one before the thread's first step, one too
    long for the buffers; the thread passes once, a fourth line comes, and the
    logging is stopped. *)
Definition demo : list event :=
  [Append (lit "one "); Start; Append (lit "three "); Append (lit "much too long "); Step; Step; Append (lit "two "); Step; Step; Append (lit "4 ")].

Lemma demo_fit es : zlen (logged 8 es) < 100 -> fit 8 (lit "log") small_takes (Disk.mk ∅ ∅ 0) es.
Proof. intros Hz. split; [done|apply small_takes_ok|done|]. change (0 + zlen (logged 8 es) < 9223372036854775808). lia. Qed.

Lemma async_in_order_witness : exists s chunks, run 8 (lit "log") 100 small_takes demo (init 8 (Disk.mk ∅ ∅ 0)) = Ret s
  /\ lit "one three two 4 " = concat chunks ++ waiting s /\ held (lit "log") s = Some (fold_left (kept 100) chunks []).
Proof.
  destruct (async_in_order 8 (lit "log") 100 small_takes (Disk.mk ∅ ∅ 0) demo) as (s & chunks & E & Hw & Hh);
    [by apply demo_fit; vm_compute|by vm_compute|].
  exists s, chunks. split; [exact E|]. split; [rewrite <- Hw; vm_compute; reflexivity|exact Hh].
Defined.

Lemma async_flushes_witness : exists n s chunks, (n <= 6)%nat
  /\ run 8 (lit "log") 100 small_takes (demo ++ replicate n Step) (init 8 (Disk.mk ∅ ∅ 0)) = Ret s
  /\ lit "one three two 4 " = concat chunks /\ Disk.content (lit "log") (disk s) = Some (fold_left (kept 100) chunks []).
Proof.
  destruct (async_flushes 8 (lit "log") 100 small_takes (Disk.mk ∅ ∅ 0) demo) as (n & s & chunks & Hn & E & Hw & Hc);
    [by apply demo_fit; vm_compute|by vm_compute|by right|].
  exists n, s, chunks. split; [exact Hn|]. split; [exact E|]. split; [rewrite <- Hw; vm_compute; reflexivity|exact Hc].
Defined.

Lemma async_stops_witness : exists s chunks,
  run 8 (lit "log") 100 small_takes ((demo ++ [Stop; Append (lit "5 ")]) ++ replicate 4 Step) (init 8 (Disk.mk ∅ ∅ 0)) = Ret s
  /\ at_ (th s) = Done /\ lit "one three two 4 5 " = concat chunks ++ waiting s
  /\ Disk.content (lit "log") (disk s) = Some (fold_left (kept 100) chunks []).
Proof.
  destruct (async_stops 8 (lit "log") 100 small_takes (Disk.mk ∅ ∅ 0) (demo ++ [Stop; Append (lit "5 ")])) as (s & chunks & E & Hd & Hw & Hc);
    [by apply demo_fit; vm_compute|by vm_compute|by vm_compute|].
  exists s, chunks. split; [exact E|]. split; [exact Hd|]. split; [rewrite <- Hw; vm_compute; reflexivity|exact Hc].
Defined.

Definition one_line : state := Eval vm_compute in
  match run 8 (lit "log") 100 small_takes [Start; Step; Append (lit "one ")] (init 8 (Disk.mk ∅ ∅ 0)) with
  | Ret s => s
  | Crash _ => init 8 (Disk.mk ∅ ∅ 0)
  end.
Lemma one_line_run : run 8 (lit "log") 100 small_takes [Start; Step; Append (lit "one ")] (init 8 (Disk.mk ∅ ∅ 0)) = Ret one_line.
Proof. vm_compute. reflexivity. Qed.

Lemma stop_loses_lines_witness : exists s,
  run 8 (lit "log") 100 small_takes [Start; Step; Append (lit "one "); Append (lit "lost "); Stop; Step] (init 8 (Disk.mk ∅ ∅ 0)) = Ret s
  /\ at_ (th s) = Done /\ waiting s = lit "one lost " /\ Disk.content (lit "log") (disk s) = Some [].
Proof.
  destruct (stop_loses_lines 8 (lit "log") 100 small_takes (Disk.mk ∅ ∅ 0) [Start; Step; Append (lit "one ")] (lit "lost ") one_line) as (s & Es & Hd & Hw & Hc);
    [by apply demo_fit; vm_compute|done|done|done|exact one_line_run|by vm_compute|].
  exists s. split; [exact Es|]. split; [exact Hd|]. rewrite Hw, Hc. vm_compute. split; reflexivity.
Defined.
End AsyncLogging.
