(* ===== verification/Logging.v ===== *)
(** Logger with the output it is given: from a log statement of any thread,
    over the asynchronous logging, to the bytes of the log file. *)
From S2P Require Import Prelude Cxx Timer LogStream Calendar Logger LogFile LogUtil AsyncLogging.
From Stdlib Require Import SpecFloat.

Module Logging.

(** The functions [g_output] and [g_flush] point to. *)
Inductive outputFunc := defaultOutput | asyncOutput.
Inductive flushFunc := defaultFlush | asyncFlush.

(** The globals of Logger.cpp, the standard output, the thread-local caches of
    the time, and the asynchronous logging. *)
Record state := mk {
  g_logLevel : Logger.LogLevel;
  g_output : outputFunc;
  g_flush : flushFunc;
  stdout : bytes;
  caches : gmap Z Logger.tls;
  async : AsyncLogging.state
}.

(** [LOG_X << v1 << ...;] in the thread [s_tid]. *)
Record statement := mkStatement {
  s_level : Logger.LogLevel;
  s_time : TimeStamp.t;
  s_tid : Z;
  s_file : bytes;
  s_line : Z;
  s_func : bytes;
  s_values : list LogStream.value
}.

Section logging.
Context (format_g : spec_float -> bytes) (pid : Z).
(** What [fwrite] takes of a message for the standard output. *)
Context (fwrite : bytes -> bytes).
Context (SIZE : Z) (filePath : bytes) (rollSize : Z) (L : Disk.libc).
Implicit Types s : state.

Definition setLogLevel (level : Logger.LogLevel) s : state := mk level (g_output s) (g_flush s) (stdout s) (caches s) (async s).
Definition getLogLevel s : Logger.LogLevel := g_logLevel s.
Definition setOutput (out : outputFunc) s : state := mk (g_logLevel s) out (g_flush s) (stdout s) (caches s) (async s).
Definition setFlush (flush : flushFunc) s : state := mk (g_logLevel s) (g_output s) flush (stdout s) (caches s) (async s).
Definition set_async (a : AsyncLogging.state) s : state := mk (g_logLevel s) (g_output s) (g_flush s) (stdout s) (caches s) a.

(** [setAsync(filePath, rollSize, flushInterval)] *)
Definition setAsync s : outcome state :=
  a ← AsyncLogging.start (async s);
  Ret (setFlush asyncFlush (setOutput asyncOutput (set_async a s))).

(** [g_output(msg, len)] *)
Definition output (msg : bytes) s : outcome state :=
  match g_output s with
  | defaultOutput => Ret (mk (g_logLevel s) (g_output s) (g_flush s) (stdout s ++ fwrite msg) (caches s) (async s))
  | asyncOutput => a ← AsyncLogging.apply SIZE filePath rollSize L (AsyncLogging.Append msg) (async s); Ret (set_async a s)
  end.

Definition statement_line (g : Logger.LogLevel) (x : statement) (c : Logger.tls) : outcome (Logger.tls * option bytes) :=
  Logger.log format_g g (s_level x) (s_time x) pid (s_tid x) (s_file x) (s_line x) (s_func x) (s_values x) c.

(** The macro, the constructor, the values and the destructor. *)
Definition LOG (x : statement) s : outcome state :=
  '(c, o) ← statement_line (getLogLevel s) x (default Logger.tls_init (caches s !! s_tid x));
  let s := mk (g_logLevel s) (g_output s) (g_flush s) (stdout s) (<[s_tid x := c]> (caches s)) (async s) in
  match o with Some msg => output msg s | None => Ret s end.

(** What happens in the process. *)
Inductive event := Log (x : statement) | Level (level : Logger.LogLevel) | Thread | Async.
Definition happen (e : event) s : outcome state :=
  match e with
  | Log x => LOG x s
  | Level l => Ret (setLogLevel l s)
  | Thread => a ← AsyncLogging.step SIZE filePath rollSize L (async s); Ret (set_async a s)
  | Async => setAsync s
  end.
Fixpoint run (es : list event) s : outcome state :=
  match es with [] => Ret s | e :: es' => s' ← happen e s; run es' s' end.

(** The program before its first statement. *)
Definition init (d : Disk.t) : state := mk Logger.TRACE defaultOutput defaultFlush [] ∅ (AsyncLogging.init SIZE d).

(** ** The lines of the statements *)

Definition whole (x : statement) : bytes :=
  Logger.time_text (s_time x)
    ++ concat (map (text format_g) (Logger.body pid (s_tid x) (s_file x) (s_line x) (s_level x) (s_func x) (s_values x))).
Definition enabled (g : Logger.LogLevel) (x : statement) : bool := Logger.level_value g <=? Logger.level_value (s_level x).
Fixpoint lines (g : Logger.LogLevel) (es : list event) : list bytes :=
  match es with
  | [] => []
  | Log x :: es' => if enabled g x then whole x :: lines g es' else lines g es'
  | Level l :: es' => lines l es'
  | _ :: es' => lines g es'
  end.

(** A statement whose line fits the buffer of a [LogStream]. *)
Record statement_ok (x : statement) : Prop := {
  ok_time : Logger.time_ok (s_time x);
  ok_values : Forall in_range (s_values x);
  ok_tid : in_s 64 (s_tid x);
  ok_line : in_s 32 (s_line x);
  ok_fits : zlen (whole x) + 32 <= kSmallBuffer
}.
Definition event_ok (e : event) : Prop := match e with Log x => statement_ok x | _ => True end.

(** The events of the asynchronous logging. *)
Fixpoint handed (g : Logger.LogLevel) (es : list event) : list AsyncLogging.event :=
  match es with
  | [] => []
  | Log x :: es' => if enabled g x then AsyncLogging.Append (whole x) :: handed g es' else handed g es'
  | Level l :: es' => handed l es'
  | Thread :: es' => AsyncLogging.Step :: handed g es'
  | Async :: es' => AsyncLogging.Start :: handed g es'
  end.

Context (format_g_short : forall x, zlen (format_g x) <= 19) (pid_int : in_s 32 pid).

Lemma statement_line_spec g x c : statement_ok x -> Logger.tls_ok c ->
  exists c', statement_line g x c = Ret (c', if enabled g x then Some (whole x) else None) /\ Logger.tls_ok c'.
Proof.
  intros [Ht Hv Htid Hln Hfit] Hc.
  destruct (Logger.log_line format_g format_g_short g (s_level x) (s_time x) pid (s_tid x) (s_file x) (s_line x) (s_func x)
    (s_values x) c Ht Hc Hv pid_int Htid Hln) as (c' & o & E & Hc' & Ho).
  exists c'. split; [|done]. unfold statement_line. rewrite E. unfold enabled. destruct o as [l|].
  - destruct Ho as (Hle & _ & Hl). rewrite (proj2 (Z.leb_le _ _) Hle). by rewrite Hl.
  - by rewrite (proj2 (Z.leb_gt _ _) Ho).
Qed.

Lemma statement_step x s : statement_ok x -> (forall t c, caches s !! t = Some c -> Logger.tls_ok c) ->
  exists c', statement_line (g_logLevel s) x (default Logger.tls_init (caches s !! s_tid x))
      = Ret (c', if enabled (g_logLevel s) x then Some (whole x) else None)
    /\ forall t c, <[s_tid x := c']> (caches s) !! t = Some c -> Logger.tls_ok c.
Proof.
  intros He Hc. destruct (statement_line_spec (g_logLevel s) x (default Logger.tls_init (caches s !! s_tid x)) He) as (c' & E & Hc').
  { destruct (caches s !! s_tid x) eqn:E; cbn; [by eapply Hc|by left]. }
  exists c'. split; [done|]. intros t c. destruct (decide (s_tid x = t)) as [<-|Hne].
  - rewrite lookup_insert_eq. by intros [= <-].
  - rewrite lookup_insert_ne by done. apply Hc.
Qed.

Lemma events_app es1 es2 s : run (es1 ++ es2) s = (s' ← run es1 s; run es2 s').
Proof.
  revert s. induction es1 as [|e es1 IH]; intros s; cbn; [done|]. destruct (happen e s); cbn; [apply IH|done].
Qed.

(** A process whose output is the asynchronous logging runs as that does. *)
Lemma run_handed es s a : g_output s = asyncOutput -> (forall t c, caches s !! t = Some c -> Logger.tls_ok c) ->
  Forall event_ok es ->
  AsyncLogging.run SIZE filePath rollSize L (handed (g_logLevel s) es) (async s) = Ret a ->
  exists s', run es s = Ret s' /\ async s' = a /\ stdout s' = stdout s.
Proof.
  intros Ho Hc Hok. revert s Ho Hc. induction Hok as [|e es He Hok IH]; intros s Ho Hc; [by intros [= <-]; exists s|].
  destruct e as [x|l| |]; cbn [handed run happen].
  - destruct (statement_step x s He Hc) as (c' & E & Hc1). unfold LOG, getLogLevel. rewrite E. cbn [mbind outcome_bind].
    set (s1 := mk _ _ _ _ _ _).
    destruct (enabled (g_logLevel s) x); [|exact (IH s1 Ho Hc1)]. cbn [AsyncLogging.run].
    unfold output. cbn [s1 g_output async]. rewrite Ho.
    destruct (AsyncLogging.apply _ _ _ _ _ (async s)) as [a1|]; [|done]. cbn [mbind outcome_bind].
    exact (IH (set_async a1 s1) Ho Hc1).
  - exact (IH (setLogLevel l s) Ho Hc).
  - cbn [AsyncLogging.run AsyncLogging.apply]. destruct (AsyncLogging.step _ _ _ _ (async s)) as [a1|]; [|done].
    cbn [mbind outcome_bind]. exact (IH (set_async a1 s) Ho Hc).
  - cbn [AsyncLogging.run AsyncLogging.apply]. unfold setAsync. destruct (AsyncLogging.start (async s)) as [a1|]; [|done].
    cbn [mbind outcome_bind]. exact (IH (setFlush asyncFlush (setOutput asyncOutput (set_async a1 s))) eq_refl Hc).
Qed.

(** *** Before [setAsync] *)
Definition before (e : event) : Prop := match e with Log x => statement_ok x | Level _ => True | _ => False end.
Fixpoint level_after (g : Logger.LogLevel) (es : list event) : Logger.LogLevel :=
  match es with [] => g | Level l :: es' => level_after l es' | _ :: es' => level_after g es' end.

Lemma run_default es s : g_output s = defaultOutput -> (forall t c, caches s !! t = Some c -> Logger.tls_ok c) -> Forall before es ->
  exists s', run es s = Ret s' /\ async s' = async s /\ g_output s' = defaultOutput
    /\ g_logLevel s' = level_after (g_logLevel s) es /\ (forall t c, caches s' !! t = Some c -> Logger.tls_ok c)
    /\ stdout s' = stdout s ++ concat (map fwrite (lines (g_logLevel s) es)).
Proof.
  intros Ho Hc Hb. revert s Ho Hc. induction Hb as [|e es He Hb IH]; intros s Ho Hc.
  - exists s. cbn. by rewrite app_nil_r.
  - destruct e as [x|l| |]; cbn [run happen lines level_after]; [| |done..].
    + destruct (statement_step x s He Hc) as (c' & E & Hc'). unfold LOG, getLogLevel. rewrite E. cbn [mbind outcome_bind].
      destruct (enabled (g_logLevel s) x); [|exact (IH (mk _ _ _ _ _ _) Ho Hc')].
      unfold output. cbn [g_output]. rewrite Ho. cbn [mbind outcome_bind g_logLevel stdout caches async].
      destruct (IH (mk (g_logLevel s) defaultOutput (g_flush s) (stdout s ++ fwrite (whole x)) (<[s_tid x := c']> (caches s)) (async s))
        eq_refl Hc') as (s' & Er & Ha & Ho' & Hl' & Hcs & Hout).
      exists s'. split; [exact Er|]. split_and!; try done. rewrite Hout. cbn [map concat stdout g_logLevel]. by rewrite app_assoc.
    + exact (IH (setLogLevel l s) Ho Hc).
Qed.

(** *** The lines reach the file *)
Lemma handed_proper g es ph : ph = AsyncLogging.Started \/ ph = AsyncLogging.Running ->
  AsyncLogging.proper ph (handed g es) = true
  /\ (AsyncLogging.phase_after ph (handed g es) = AsyncLogging.Started \/ AsyncLogging.phase_after ph (handed g es) = AsyncLogging.Running).
Proof.
  revert g ph. induction es as [|e es IH]; intros g ph Hph; [done|].
  destruct e as [x|l| |]; cbn [handed]; [destruct (enabled g x); [|by apply IH]|by apply IH| |];
    cbn [AsyncLogging.proper AsyncLogging.phase_after]; destruct Hph as [->| ->];
    cbn [AsyncLogging.allowed AsyncLogging.next_phase andb]; apply IH; auto.
Qed.

Lemma handed_logged g es : kSmallBuffer <= SIZE -> Forall event_ok es ->
  AsyncLogging.logged SIZE (handed g es) = concat (lines g es).
Proof.
  intros HS H. revert g. induction H as [|e es He H IH]; intros g; [done|].
  destruct e as [x|l| |]; cbn [handed lines]; [|apply IH|apply (IH g)|apply (IH g)].
  destruct (enabled g x); [|apply IH]. rewrite AsyncLogging.logged_cons, IH.
  pose proof (ok_fits x He). rewrite (proj2 (Z.ltb_lt _ _)) by lia. done.
Qed.

Lemma handed_steps g es n : handed g (es ++ replicate n Thread) = handed g es ++ replicate n AsyncLogging.Step.
Proof.
  revert g. induction es as [|e es IH]; intros g; cbn [app].
  - induction n as [|n IHn]; [done|]. cbn [replicate handed app]. by f_equal.
  - destruct e as [x|l| |]; cbn [handed]; [destruct (enabled g x)| | |]; rewrite IH; done.
Qed.

(** C18. What is logged is written: the lines of the enabled statements go to
    the standard output until [setAsync]; from then on, whatever the threads
    log and however the logging thread takes its turns, at most six more of
    its steps hand the lines of all of them, in the order they were logged,
    each whole and once, to the log file; the file holds all of them, after what
    it held, unless it grows past the roll size, which empties it on the way.
    This is for lines that leave 32 characters of the buffer of a [LogStream]
    and for calls on the log file that succeed. *)
Theorem statements_reach_file d es0 es : kSmallBuffer <= SIZE < 2 ^ 63 -> Disk.ok L ->
  (forall i, Disk.dir d !! filePath = Some i -> i ∈ dom (Disk.inodes d)) ->
  Forall before es0 -> Forall event_ok es ->
  let g := level_after Logger.TRACE es0 in let old := default [] (Disk.content filePath d) in
  zlen old + zlen (concat (lines g es)) < 2 ^ 63 ->
  exists n s chunks, (n <= 6)%nat /\ run (es0 ++ Async :: es ++ replicate n Thread) (init d) = Ret s
    /\ stdout s = concat (map fwrite (lines Logger.TRACE es0))
    /\ concat (lines g es) = concat chunks
    /\ Disk.content filePath (AsyncLogging.disk (async s)) = Some (fold_left (LogFile.kept rollSize) chunks old)
    /\ (zlen old + zlen (concat (lines g es)) <= rollSize ->
        Disk.content filePath (AsyncLogging.disk (async s)) = Some (old ++ concat (lines g es))).
Proof.
  intros HS HL Hd H0 Hok g old Hz. unfold kSmallBuffer in HS. pose proof (handed_logged g es ltac:(unfold kSmallBuffer; lia) Hok) as Hlog.
  assert (AsyncLogging.logged SIZE (AsyncLogging.Start :: handed g es) = concat (lines g es)) as Hlog' by (by rewrite AsyncLogging.logged_cons).
  destruct (handed_proper g es AsyncLogging.Started (or_introl eq_refl)) as [Hp Hph].
  destruct (AsyncLogging.async_flushes SIZE filePath rollSize L d (AsyncLogging.Start :: handed g es)) as (n & a & chunks & Hn & Ea & Hch & Hdisk);
    [split; [lia|done|done|by rewrite Hlog']|exact Hp|exact Hph|].
  destruct (run_default es0 (init d) eq_refl ltac:(done) H0) as (s0 & E0 & Ha0 & _ & Hl0 & Hc0 & Hout0).
  cbn [app AsyncLogging.run AsyncLogging.apply] in Ea.
  destruct (AsyncLogging.start (AsyncLogging.init SIZE d)) as [a0|e] eqn:Es; [|done].
  cbn [mbind outcome_bind] in Ea.
  set (s1 := setFlush asyncFlush (setOutput asyncOutput (set_async a0 s0))).
  destruct (run_handed (es ++ replicate n Thread) s1 a) as (s & E & Has & Hst).
  - done.
  - exact Hc0.
  - apply Forall_app. split; [done|]. apply Forall_replicate. done.
  - rewrite handed_steps. cbn [s1 g_logLevel setFlush setOutput set_async async]. rewrite Hl0. exact Ea.
  - exists n, s, chunks. rewrite Hlog' in Hch. split; [done|]. split_and!; [|by rewrite Hst|done|by rewrite Has|].
    + rewrite events_app, E0. cbn [mbind outcome_bind]. cbn [run happen] in E |- *. unfold setAsync. rewrite Ha0. cbn [init async].
      rewrite Es. exact E.
    + intros Hroll. rewrite Has, Hdisk, Hch. f_equal. apply LogFile.kept_all. by rewrite <- Hch.
Qed.
End logging.

(** ** A witness: a line for the standard output, then three statements of two
    threads of which one is disabled, with a step of the logging thread between. *)
Definition say (level : Logger.LogLevel) (t : Z) (word : bytes) : statement :=
  mkStatement level 1700000000123456 t (lit "src/a.cpp") 7 (lit "main") [LogStream.VCStr (Some word); LogStream.VInt 42].
Definition no_double (x : spec_float) : bytes := lit "1.5".

Lemma say_ok level t : level = Logger.INFO \/ level = Logger.ERROR -> t = 1 \/ t = 2 ->
  statement_ok no_double 9 (say level t (lit "hello")).
Proof. intros [->| ->] [->| ->]; (split; [by vm_compute|repeat constructor; by vm_compute|by vm_compute|by vm_compute|by vm_compute]). Qed.

Lemma statements_reach_file_witness : exists n s, (n <= 6)%nat
  /\ run no_double 9 id kLargeBuffer (lit "log") 10000 small_takes
      ([Log (say Logger.INFO 1 (lit "hello"))] ++ Async ::
       [Log (say Logger.INFO 2 (lit "hello")); Thread; Level Logger.WARN; Thread; Log (say Logger.INFO 1 (lit "hello"));
        Async; Log (say Logger.ERROR 1 (lit "hello"))] ++ replicate n Thread)
      (init kLargeBuffer (Disk.mk ∅ ∅ 0)) = Ret s
  /\ stdout s = whole no_double 9 (say Logger.INFO 1 (lit "hello"))
  /\ Disk.content (lit "log") (AsyncLogging.disk (async s))
     = Some (whole no_double 9 (say Logger.INFO 2 (lit "hello")) ++ whole no_double 9 (say Logger.ERROR 1 (lit "hello"))).
Proof.
  destruct (statements_reach_file no_double 9 id kLargeBuffer (lit "log") 10000 small_takes (fun _ => ltac:(by vm_compute)) ltac:(by vm_compute)
    (Disk.mk ∅ ∅ 0) [Log (say Logger.INFO 1 (lit "hello"))]
    [Log (say Logger.INFO 2 (lit "hello")); Thread; Level Logger.WARN; Thread; Log (say Logger.INFO 1 (lit "hello"));
     Async; Log (say Logger.ERROR 1 (lit "hello"))]) as (n & s & chunks & Hn & E & Hout & _ & _ & Hd).
  - by vm_compute.
  - exact small_takes_ok.
  - done.
  - apply Forall_singleton, say_ok; auto.
  - repeat (apply Forall_cons; split; [first [exact I|apply say_ok; auto]|]). apply Forall_nil_2.
  - by vm_compute.
  - exists n, s. split; [exact Hn|]. split; [exact E|]. split.
    + rewrite Hout. cbn. by rewrite app_nil_r.
    + rewrite Hd by (by vm_compute). cbn. by rewrite app_nil_r.
Defined.
End Logging.
