(* ===== verification/TimerQueue.v ===== *)
(** Reactor/TimerQueue.cpp: two ordered sets of pointers into a heap of
    [Timer] objects, the timer descriptor of the kernel, and the callbacks of
    the user, which may themselves add and cancel timers. *)
From S2P Require Import Prelude Cxx Ordered Timer.
From Stdlib Require Import SpecFloat.

(** ** TimerQueue *)
Module TimerQueue.

(** A pointer is its address; 0 is NULL. *)
Definition UINTPTR_MAX : Z := 2 ^ 64 - 1.

Abbreviation Entry := (Z * Z)%type.
Abbreviation ActiveTimer := (Z * Z)%type.
Abbreviation self := (fun x : Z * Z => x).

(** The members, the heap of timers with [Timer::s_numCreated], the value last
    given to timerfd_settime, the number of clock readings so far, and the
    sequence numbers of the timers run so far. *)
Record queue := mk {
  heap : gmap Z Timer.t;
  s_numCreated : Z;
  m_timers : list Entry;
  m_activeTimers : list ActiveTimer;
  m_callingExpiredTimers : bool;
  m_cancelingTimers : list ActiveTimer;
  timerfd : option (Z * Z);
  ticks : nat;
  fired : list Z
}.

Abbreviation M := (ST queue).

Definition set_heap x s := mk x (s_numCreated s) (m_timers s) (m_activeTimers s) (m_callingExpiredTimers s)
  (m_cancelingTimers s) (timerfd s) (ticks s) (fired s).
Definition set_created x s := mk (heap s) x (m_timers s) (m_activeTimers s) (m_callingExpiredTimers s)
  (m_cancelingTimers s) (timerfd s) (ticks s) (fired s).
Definition set_timers x s := mk (heap s) (s_numCreated s) x (m_activeTimers s) (m_callingExpiredTimers s)
  (m_cancelingTimers s) (timerfd s) (ticks s) (fired s).
Definition set_active x s := mk (heap s) (s_numCreated s) (m_timers s) x (m_callingExpiredTimers s)
  (m_cancelingTimers s) (timerfd s) (ticks s) (fired s).
Definition set_calling x s := mk (heap s) (s_numCreated s) (m_timers s) (m_activeTimers s) x
  (m_cancelingTimers s) (timerfd s) (ticks s) (fired s).
Definition set_canceling x s := mk (heap s) (s_numCreated s) (m_timers s) (m_activeTimers s)
  (m_callingExpiredTimers s) x (timerfd s) (ticks s) (fired s).
Definition set_timerfd x s := mk (heap s) (s_numCreated s) (m_timers s) (m_activeTimers s)
  (m_callingExpiredTimers s) (m_cancelingTimers s) x (ticks s) (fired s).
Definition set_ticks x s := mk (heap s) (s_numCreated s) (m_timers s) (m_activeTimers s)
  (m_callingExpiredTimers s) (m_cancelingTimers s) (timerfd s) x (fired s).
Definition set_fired x s := mk (heap s) (s_numCreated s) (m_timers s) (m_activeTimers s)
  (m_callingExpiredTimers s) (m_cancelingTimers s) (timerfd s) (ticks s) x.

(** The constructor. *)
Definition init : queue := mk ∅ 0 [] [] false [] None 0 [].

Definition load (a : Z) : M Timer.t := fun s => t ← deref (heap s !! a); Ret (t, s).
Definition store (a : Z) (t : Timer.t) : M unit := fun s =>
  _ ← deref (heap s !! a); Ret (tt, set_heap (<[a := t]> (heap s)) s).
Definition free (a : Z) : M unit := fun s =>
  _ ← deref (heap s !! a); Ret (tt, set_heap (delete a (heap s)) s).

Definition same_size : M unit := fun s =>
  _ ← cassert (zlen (m_timers s) =? zlen (m_activeTimers s)); Ret (tt, s).

(** A loop over a vector. *)
Fixpoint for_each {A} (f : A -> M unit) (l : list A) : M unit :=
  match l with [] => mret tt | x :: l' => _ ← f x; for_each f l' end.

Section queue.
(** The readings of gettimeofday, and what the user's callbacks do. *)
Context (clock : nat -> TimeStamp.t) (run : Timer.t -> M unit).

(** [TimeStamp::now] *)
Definition now : M TimeStamp.t := fun s => Ret (clock (ticks s), set_ticks (S (ticks s)) s).

(** timerfd_settime with valid arguments does not fail. *)
Definition resetTimerfd (expiration : TimeStamp.t) : M unit :=
  n ← now;
  ts ← lift (TimerFd.howMuchTimeFromNow expiration n);
  modify (set_timerfd (Some ts)).

Definition erase_active (e : Entry) : M unit :=
  t ← load e.2;
  s ← gets m_activeTimers;
  let '(l, n) := kerase self (e.2, Timer.sequence t) s in
  _ ← modify (set_active l);
  lift (cassert (n =? 1)).

Definition getExpired (now : TimeStamp.t) : M (list Entry) :=
  ts ← gets m_timers;
  let sentry := (now, UINTPTR_MAX) in
  let expired := kbelow self sentry ts in
  let rest := kfrom self sentry ts in
  _ ← lift (cassert (match rest with [] => true | e :: _ => now <? e.1 end));
  _ ← modify (set_timers rest);
  _ ← for_each erase_active expired;
  _ ← same_size;
  mret expired.

Definition insert (timer : Z) : M bool :=
  _ ← same_size;
  t ← load timer;
  let when := Timer.expiration t in
  ts ← gets m_timers;
  let earliestChanged := match ts with [] => true | e :: _ => when <? e.1 end in
  let '(ts', ok) := kinsert self (when, timer) ts in
  _ ← modify (set_timers ts');
  _ ← lift (cassert ok);
  act ← gets m_activeTimers;
  let '(act', ok') := kinsert self (timer, Timer.sequence t) act in
  _ ← modify (set_active act');
  _ ← lift (cassert ok');
  _ ← same_size;
  mret earliestChanged.

Definition addTimerInLoop (timer : Z) : M unit :=
  earliestChanged ← insert timer;
  if earliestChanged : bool then t ← load timer; resetTimerfd (Timer.expiration t) else mret tt.

(** [new Timer] at the address [a]. *)
Definition new_timer (a cb : Z) (when : TimeStamp.t) (interval : spec_float) : M unit :=
  c ← gets s_numCreated;
  let '(seq, c') := Atomic.incrementAndGet c in
  _ ← modify (set_created c');
  h ← gets heap;
  modify (set_heap (<[a := Timer.make cb when interval seq]> h)).

(** [runInLoop] is the event loop's. *)
Definition addTimer (runInLoop : M unit -> M unit) (a cb : Z) (when : TimeStamp.t) (interval : spec_float)
    : M (Z * Z) :=
  _ ← new_timer a cb when interval;
  _ ← runInLoop (addTimerInLoop a);
  t ← load a;
  mret (a, Timer.sequence t).

Definition cancelInLoop (timerId : Z * Z) : M unit :=
  _ ← same_size;
  act ← gets m_activeTimers;
  _ ← (match kfind self timerId act with
       | Some it =>
           t ← load it.1;
           ts ← gets m_timers;
           let '(ts', n) := kerase self (Timer.expiration t, it.1) ts in
           _ ← modify (set_timers ts');
           _ ← lift (cassert (n =? 1));
           free it.1
       | None =>
           c ← gets m_callingExpiredTimers;
           if c : bool then modify (fun s => set_canceling (kinsert self timerId (m_cancelingTimers s)).1 s)
           else mret tt
       end);
  same_size.

Definition cancel (runInLoop : M unit -> M unit) (timerId : Z * Z) : M unit := runInLoop (cancelInLoop timerId).

Definition reset_one (now : TimeStamp.t) (e : Entry) : M unit :=
  t ← load e.2;
  c ← gets m_cancelingTimers;
  if Timer.repeat t && negb (bool_decide (is_Some (kfind self (e.2, Timer.sequence t) c)))
  then
    t' ← lift (Timer.restart now t);
    _ ← store e.2 t';
    _ ← insert e.2;
    mret tt
  else free e.2.

Definition reset (expired : list Entry) (now : TimeStamp.t) : M unit :=
  _ ← for_each (reset_one now) expired;
  ts ← gets m_timers;
  nextExpire ← (match ts with
                | e :: _ => t ← load e.2; mret (Timer.expiration t)
                | [] => mret TimeStamp.invalid
                end);
  if TimeStamp.valid nextExpire then resetTimerfd nextExpire else mret tt.

(** [it->second->run()], recorded in [fired]. *)
Definition run_one (e : Entry) : M unit :=
  t ← load e.2;
  _ ← modify (fun s => set_fired (fired s ++ [Timer.sequence t]) s);
  run t.

Definition handleRead : M unit :=
  n ← now;
  expired ← getExpired n;
  _ ← modify (set_calling true);
  _ ← modify (set_canceling []);
  _ ← for_each run_one expired;
  _ ← modify (set_calling false);
  reset expired n.

(** The destructor's loop. *)
Definition destroy : M unit :=
  ts ← gets m_timers;
  for_each (fun e : Entry => free e.2) ts.

End queue.
(** ** The invariant *)

(** A repeated timer has an interval that can be added to a time. *)
Definition timer_ok (t : Timer.t) : Prop :=
  0 <= Timer.m_expiration t < 2 ^ 63 /\
  (Timer.m_repeat t = true -> exists d, TimeStamp.int64_of_double
     (SFmul 53 1024 (Timer.m_interval t) (TimeStamp.double_of_Z TimeStamp.kMicroSecondsPerSecond)) = Ret d
     /\ 0 <= d < 2 ^ 62).

(** The two sets hold the same timers; the heap holds these and the timers
    [X], which are in neither set. *)
Record inv (X : list Z) (s : queue) : Prop := mkInv {
  inv_timers : ksorted self (m_timers s);
  inv_active : ksorted self (m_activeTimers s);
  inv_tm : forall e a, (e, a) ∈ m_timers s -> exists t,
    heap s !! a = Some t /\ Timer.m_expiration t = e /\ (a, Timer.m_sequence t) ∈ m_activeTimers s;
  inv_act : forall a q, (a, q) ∈ m_activeTimers s -> exists t,
    heap s !! a = Some t /\ Timer.m_sequence t = q /\ (Timer.m_expiration t, a) ∈ m_timers s;
  inv_heap : forall a t, heap s !! a = Some t ->
    0 < a < UINTPTR_MAX /\ timer_ok t /\ (a ∈ X \/ (a, Timer.m_sequence t) ∈ m_activeTimers s);
  inv_X : forall a, a ∈ X -> is_Some (heap s !! a) /\ forall q, (a, q) ∉ m_activeTimers s;
  inv_canceling : ksorted self (m_cancelingTimers s)
}.

Lemma inv_size X s : inv X s -> zlen (m_timers s) = zlen (m_activeTimers s).
Proof.
  intros [Ht Ha Htm Hact _ _ _].
  assert (snd <$> m_timers s ≡ₚ fst <$> m_activeTimers s) as Hp.
  { apply NoDup_Permutation.
    - apply NoDup_fmap_2_strong; [|by apply (ksorted_NoDup self)].
      intros [e a] [e' a'] Hx Hy; cbn; intros ->.
      destruct (Htm _ _ Hx) as (t & H1 & <- & _), (Htm _ _ Hy) as (t' & H2 & <- & _). congruence.
    - apply NoDup_fmap_2_strong; [|by apply (ksorted_NoDup self)].
      intros [a q] [a' q'] Hx Hy; cbn; intros ->.
      destruct (Hact _ _ Hx) as (t & H1 & <- & _), (Hact _ _ Hy) as (t' & H2 & <- & _). congruence.
    - intros a. rewrite !list_elem_of_fmap. split.
      + intros ([e a'] & -> & Hx). destruct (Htm _ _ Hx) as (t & _ & _ & H). by eexists (_, _).
      + intros ([a' q] & -> & Hx). destruct (Hact _ _ Hx) as (t & _ & _ & H). by eexists (_, _). }
  apply Permutation_length in Hp. rewrite !length_fmap in Hp. unfold zlen. lia.
Qed.

Lemma run_same_size X s : inv X s -> same_size s = Ret (tt, s).
Proof. intros Hi. unfold same_size. rewrite (inv_size _ _ Hi), Z.eqb_refl. done. Qed.

Lemma run_load a t s : heap s !! a = Some t -> load a s = Ret (t, s).
Proof. intros H. unfold load. by rewrite H. Qed.

(** ** [insert] *)

(** Moving a timer of the heap into both sets. *)
Lemma insert_spec X s a t : inv (a :: X) s -> a ∉ X -> heap s !! a = Some t ->
  exists s', insert a s = Ret (match m_timers s with [] => true | e :: _ => Timer.m_expiration t <? e.1 end, s')
    /\ inv X s' /\ heap s' = heap s /\ m_timers s' ≡ₚ (Timer.m_expiration t, a) :: m_timers s
    /\ m_cancelingTimers s' = m_cancelingTimers s /\ fired s' = fired s /\ ticks s' = ticks s
    /\ m_callingExpiredTimers s' = m_callingExpiredTimers s /\ timerfd s' = timerfd s
    /\ s_numCreated s' = s_numCreated s.
Proof.
  intros Hi HaX Ht. pose proof Hi as [Hts Hac Htm Hact Hh HX Hcan].
  destruct (HX a ltac:(by left)) as [_ Hna].
  destruct (kinsert_spec self (Timer.m_expiration t, a) (m_timers s) Hts) as (ts' & E1 & Hs1 & Hp1).
  { intros [e a'] Hx [= -> ->]. destruct (Htm _ _ Hx) as (t' & _ & _ & Hin). by destruct (Hna _ Hin). }
  destruct (kinsert_spec self (a, Timer.m_sequence t) (m_activeTimers s) Hac) as (ac' & E2 & Hs2 & Hp2).
  { intros [a' q] Hx [= -> ->]. by destruct (Hna _ Hx). }
  set (s' := set_active ac' (set_timers ts' s)).
  assert (inv X s') as Hi'.
  { split; cbn; [done|done| | | | |done].
    - intros e a'. rewrite Hp1, elem_of_cons. intros [[= -> ->]|Hx].
      + exists t. rewrite Hp2. split_and!; [done|done|by left].
      + destruct (Htm _ _ Hx) as (t' & ? & ? & ?). exists t'. rewrite Hp2. split_and!; [done|done|by right].
    - intros a' q. rewrite Hp2, elem_of_cons. intros [[= -> ->]|Hx].
      + exists t. rewrite Hp1. split_and!; [done|done|by left].
      + destruct (Hact _ _ Hx) as (t' & ? & ? & ?). exists t'. rewrite Hp1. split_and!; [done|done|by right].
    - intros a' t' Ha'. destruct (Hh _ _ Ha') as (? & ? & Hor). split_and!; [lia|lia|done|].
      rewrite Hp2, elem_of_cons. rewrite elem_of_cons in Hor. destruct Hor as [[->|?]|?]; [|tauto|tauto].
      right; left. rewrite Ht in Ha'. by injection Ha' as ->.
    - intros a' Ha'. destruct (HX a' ltac:(by right)) as [? Hn']. split; [done|]. intros q.
      rewrite Hp2, elem_of_cons. intros [[= -> ->]|?]; [done|]. by destruct (Hn' q). }
  exists s'. unfold insert.
  rewrite (ST_bind_eq _ _ _ _ _ (run_same_size _ _ Hi)), (ST_bind_eq _ _ _ _ _ (run_load _ _ _ Ht)).
  rewrite (ST_bind_eq _ _ s (m_timers s) s) by done. unfold Timer.expiration. rewrite E1.
  rewrite (ST_bind_eq _ _ s tt (set_timers ts' s)) by done.
  rewrite (ST_bind_eq _ _ (set_timers ts' s) tt (set_timers ts' s)) by done.
  rewrite (ST_bind_eq _ _ (set_timers ts' s) (m_activeTimers s) (set_timers ts' s)) by done.
  unfold Timer.sequence. rewrite E2.
  rewrite (ST_bind_eq _ _ (set_timers ts' s) tt s') by done.
  rewrite (ST_bind_eq _ _ s' tt s') by done.
  rewrite (ST_bind_eq _ _ _ _ _ (run_same_size _ _ Hi')). by split_and!.
Qed.

(** ** [getExpired] *)
Lemma run_erase_active s e a t ac : heap s !! a = Some t ->
  kerase self (a, Timer.m_sequence t) (m_activeTimers s) = (ac, 1) ->
  erase_active (e, a) s = Ret (tt, set_active ac s).
Proof.
  intros Ht E. unfold erase_active. cbn [snd]. rewrite (ST_bind_eq _ _ _ _ _ (run_load _ _ _ Ht)).
  rewrite (ST_bind_eq _ _ s (m_activeTimers s) s) by done. unfold Timer.sequence. by rewrite E.
Qed.

Lemma erase_loop L s : ksorted self (m_activeTimers s) -> NoDup L.*2 ->
  (forall a q q', (a, q) ∈ m_activeTimers s -> (a, q') ∈ m_activeTimers s -> q = q') ->
  (forall e a, (e, a) ∈ L -> exists t, heap s !! a = Some t /\ (a, Timer.m_sequence t) ∈ m_activeTimers s) ->
  exists ac', for_each erase_active L s = Ret (tt, set_active ac' s) /\ ksorted self ac'
    /\ (forall a q, (a, q) ∈ ac' <-> (a, q) ∈ m_activeTimers s /\ a ∉ L.*2).
Proof.
  revert s. induction L as [|[e a] L IH]; intros s Hs Hnd Hu HL.
  - exists (m_activeTimers s). split; [by destruct s|]. split; [done|]. set_solver.
  - cbn in Hnd. apply NoDup_cons in Hnd as [HaL Hnd].
    destruct (HL e a ltac:(by left)) as (t & Ht & Hin).
    destruct (kerase_spec self _ _ Hs Hin) as (ac1 & E & Hs1 & Hel & _). cbn in E.
    destruct (IH (set_active ac1 s)) as (ac' & Hrun & Hs' & Hel'); cbn; [done|done| | |].
    + intros a' q q' H1%Hel H2%Hel. apply (Hu a'); tauto.
    + intros e' a' Hin'. destruct (HL e' a' ltac:(by right)) as (t' & ? & ?). exists t'. split; [done|].
      apply Hel. split; [done|]. intros [= -> _]. destruct HaL. apply list_elem_of_fmap. by exists (e', a).
    + exists ac'. split_and!; [|done|].
      * cbn [for_each]. by rewrite (ST_bind_eq _ _ _ _ _ (run_erase_active s e a t ac1 Ht E)).
      * intros a' q. rewrite Hel', Hel. cbn. rewrite elem_of_cons. split.
        -- intros [[? Hne] ?]. split; [done|]. intros [->|?]; [|done]. apply Hne. f_equal. by apply (Hu a).
        -- intros [? Hne]. split_and!; [done| |tauto]. intros [= -> _]. tauto.
Qed.

Lemma getExpired_spec X n s : inv X s ->
  let L := filter (fun e : Entry => e.1 <= n) (m_timers s) in
  exists s' rest, getExpired n s = Ret (L, s') /\ inv (L.*2 ++ X) s' /\ m_timers s = L ++ rest
    /\ m_timers s' = rest /\ Forall (fun e : Entry => n < e.1) rest
    /\ heap s' = heap s /\ fired s' = fired s /\ ticks s' = ticks s /\ timerfd s' = timerfd s
    /\ (forall e a, (e, a) ∈ L -> a ∉ X).
Proof.
  intros Hi L. pose proof Hi as [Hts Hac Htm Hact Hh HX Hcan].
  assert (forall e a, (e, a) ∈ m_timers s -> e <= n <-> ltb (e, a) (n, UINTPTR_MAX) = true) as Hlt.
  { intros e a Hin. destruct (Htm _ _ Hin) as (t & Ht & _). destruct (Hh _ _ Ht) as [Ha _].
    unfold ltb, prod_ltb, ltb, Z_ltb. cbn. rewrite orb_true_iff, andb_true_iff, negb_true_iff, !Z.ltb_lt, Z.ltb_ge. lia. }
  assert (kbelow self (n, UINTPTR_MAX) (m_timers s) = L) as HL.
  { apply (kbelow_filter self); [done|]. intros [e a]. apply Hlt. }
  set (rest := kfrom self (n, UINTPTR_MAX) (m_timers s)).
  assert (m_timers s = L ++ rest) as Hsplit by (rewrite <- HL; apply (kbelow_kfrom self)).
  assert (Forall (fun e : Entry => n < e.1) rest) as Hrest.
  { pose proof (kfrom_spec self (n, UINTPTR_MAX) _ Hts) as Hf. rewrite Forall_forall in *. intros [e a] Hin.
    specialize (Hf _ Hin). cbn. destruct (Z.ltb_spec n e); [done|].
    assert (ltb (e, a) (n, UINTPTR_MAX) = true) by (apply Hlt; [rewrite Hsplit; set_solver|lia]). congruence. }
  assert (NoDup (L ++ rest).*2) as Hnd.
  { rewrite <- Hsplit. apply NoDup_fmap_2_strong; [|by apply (ksorted_NoDup self)].
    intros [e a] [e' a'] Hx Hy; cbn; intros ->.
    destruct (Htm _ _ Hx) as (t & H1 & <- & _), (Htm _ _ Hy) as (t' & H2 & <- & _). congruence. }
  rewrite fmap_app in Hnd. apply NoDup_app in Hnd as (HndL & Hdis & _).
  destruct (erase_loop L (set_timers rest s)) as (ac' & Hrun & Hs' & Hel); cbn; [done|done| | |].
  { intros a q q' H1 H2. destruct (Hact _ _ H1) as (t & ? & <- & _), (Hact _ _ H2) as (t' & ? & <- & _). congruence. }
  { intros e a Hin. destruct (Htm e a) as (t & ? & _ & ?); [rewrite Hsplit; set_solver|]. by exists t. }
  cbn in Hel. set (s' := set_active ac' (set_timers rest s)).
  assert (inv (L.*2 ++ X) s') as Hi'.
  { split; cbn; [|done| | | | |done].
    - rewrite Hsplit in Hts. by eapply (ksorted_app_r self).
    - intros e a Hin. destruct (Htm e a) as (t & ? & ? & ?); [rewrite Hsplit; set_solver|].
      exists t. split_and!; [done|done|]. apply Hel. split; [done|]. intros Ha. apply (Hdis a Ha).
      apply list_elem_of_fmap. by exists (e, a).
    - intros a q [Hin Hn]%Hel. destruct (Hact _ _ Hin) as (t & ? & ? & Hin'). exists t. split_and!; [done|done|].
      rewrite Hsplit in Hin'. apply elem_of_app in Hin' as [Hin'|?]; [|done]. destruct Hn.
      apply list_elem_of_fmap. by eexists (_, _).
    - intros a t Ha. destruct (Hh _ _ Ha) as (? & ? & Hor). split_and!; [lia|lia|done|].
      rewrite elem_of_app, Hel. destruct (decide (a ∈ L.*2)); tauto.
    - intros a Ha. apply elem_of_app in Ha as [Ha|Ha].
      + split; [|intros q Hin; apply Hel in Hin; tauto].
        apply list_elem_of_fmap in Ha as ([e a'] & -> & Hin).
        destruct (Htm e a') as (t & Ht & _); [rewrite Hsplit; set_solver|]. cbn. by rewrite Ht.
      + destruct (HX a Ha) as [? Hn]. split; [done|]. intros q Hin%Hel. destruct (Hn q); tauto. }
  exists s', rest. split_and!; try done.
  - unfold getExpired. rewrite (ST_bind_eq _ _ s (m_timers s) s) by done. cbv zeta. fold rest. rewrite HL.
    rewrite (ST_bind_eq _ _ s tt s).
    2:{ unfold lift. destruct rest as [|[e a] r]; [done|]. inversion Hrest as [|? ? Hlt1]; subst. cbn in *.
        by rewrite (proj2 (Z.ltb_lt _ _) Hlt1). }
    rewrite (ST_bind_eq _ _ s tt (set_timers rest s)) by done.
    rewrite (ST_bind_eq _ _ _ _ _ Hrun), (ST_bind_eq _ _ _ _ _ (run_same_size _ _ Hi')). done.
  - intros e a Hin Ha. destruct (Htm e a) as (t & _ & _ & Hin'); [rewrite Hsplit; set_solver|].
    destruct (HX a Ha) as [_ Hn]. by apply (Hn _ Hin').
Qed.

(** ** [handleRead] *)

(** What a callback may do to the queue: anything that keeps the invariant,
    the timers that wait and the expired timers [X]. *)
Record quiet (X : list Z) (s s' : queue) : Prop := mkQuiet {
  quiet_inv : inv X s';
  quiet_X : forall a, a ∈ X -> heap s' !! a = heap s !! a;
  quiet_timers : forall e a, (e, a) ∈ m_timers s -> (e, a) ∈ m_timers s' /\ heap s' !! a = heap s !! a;
  quiet_fired : fired s' = fired s;
  quiet_calling : m_callingExpiredTimers s' = m_callingExpiredTimers s
}.

(** The sequence numbers of the timers of a list of entries. *)
Definition seqs (h : gmap Z Timer.t) (L : list Entry) : list Z :=
  omap (fun e : Entry => Timer.m_sequence <$> h !! e.2) L.

Lemma seqs_ext h h' L : (forall a, a ∈ L.*2 -> h' !! a = h !! a) -> seqs h' L = seqs h L.
Proof.
  unfold seqs. induction L as [|[e a] L IH]; intros H; [done|]. cbn. rewrite (H a) by by left.
  rewrite IH; [done|]. intros a' Ha. apply H. by right.
Qed.

Section handleRead.
Context (clock : nat -> TimeStamp.t) (run : Timer.t -> M unit).
Context (clock_ok : forall k, 0 <= clock k < 2 ^ 62).
(** A callback returns quietly, or fails in one of these ways. *)
Context (fails : fault -> Prop).
Context (run_ok : forall t X s, inv X s -> m_callingExpiredTimers s = true ->
  match run t s with Ret (_, s') => quiet X s s' | Crash f => fails f end).

Lemma inv_set_fired X x s : inv X s -> inv X (set_fired x s).
Proof. intros []. by split. Qed.
Lemma inv_set_calling X x s : inv X s -> inv X (set_calling x s).
Proof. intros []. by split. Qed.
Lemma inv_set_ticks X x s : inv X s -> inv X (set_ticks x s).
Proof. intros []. by split. Qed.
Lemma inv_set_timerfd X x s : inv X s -> inv X (set_timerfd x s).
Proof. intros []. by split. Qed.

Lemma run_loop X L s : inv X s -> m_callingExpiredTimers s = true -> (forall a, a ∈ L.*2 -> a ∈ X) ->
  match for_each (run_one run) L s with
  | Ret (_, s') => inv X s'
      /\ (forall a, a ∈ X -> heap s' !! a = heap s !! a)
      /\ (forall e a, (e, a) ∈ m_timers s -> (e, a) ∈ m_timers s' /\ heap s' !! a = heap s !! a)
      /\ fired s' = fired s ++ seqs (heap s) L
  | Crash f => fails f
  end.
Proof.
  revert s. induction L as [|[e a] L IH]; intros s Hi Hc HL.
  - cbn. by rewrite app_nil_r.
  - destruct (inv_X _ _ Hi a) as [[t Ht] _]; [apply HL; by left|].
    set (s1 := set_fired (fired s ++ [Timer.sequence t]) s).
    assert (run_one run (e, a) s = run t s1) as E.
    { unfold run_one. cbn [snd]. rewrite (ST_bind_eq _ _ _ _ _ (run_load _ _ _ Ht)). by rewrite (ST_bind_eq _ _ s tt s1). }
    pose proof (run_ok t X s1 (inv_set_fired _ _ _ Hi) Hc) as Hrun. cbn [for_each]. unfold mbind, ST_bind. rewrite E.
    destruct (run t s1) as [[[] s2]|f]; [|done]. destruct Hrun as [Hi2 HX2 Ht2 Hf2 Hc2]. cbn [mbind outcome_bind].
    specialize (IH s2 Hi2). rewrite Hc2 in IH. specialize (IH Hc ltac:(intros; apply HL; by right)).
    destruct (for_each (run_one run) L s2) as [[u s']|f]; [|done]. destruct IH as (Hi' & HX' & Ht' & Hf').
    split_and!.
    + done.
    + intros a' Ha'. by rewrite HX', HX2.
    + intros e' a' Hin. destruct (Ht2 e' a' Hin) as [Hin2 Heq]. destruct (Ht' e' a' Hin2) as [? ->]. done.
    + rewrite Hf', Hf2. cbn. rewrite Ht. cbn. rewrite <- app_assoc. cbn. do 2 f_equal.
      apply seqs_ext. intros a' Ha'. apply HX2, HL. by right.
Qed.

Definition canceled (s : queue) (a : Z) (t : Timer.t) : bool :=
  bool_decide (is_Some (kfind self (a, Timer.sequence t) (m_cancelingTimers s))).

(** What [reset] does to an expired timer [t] at [a]. *)
Definition settled (n : Z) (s s' : queue) (a : Z) (t : Timer.t) : Prop :=
  if Timer.m_repeat t && negb (canceled s a t)
  then exists e', TimeStamp.addTime n (Timer.m_interval t) = Ret e' /\ (e', a) ∈ m_timers s'
  else heap s' !! a = None.

Lemma settled_ext n s s' u u' a t : m_cancelingTimers u = m_cancelingTimers s -> heap u' = heap s' ->
  m_timers u' = m_timers s' -> settled n s s' a t -> settled n u u' a t.
Proof. unfold settled, canceled. by intros -> -> ->. Qed.

Lemma restart_ok n t : 0 <= n < 2 ^ 62 -> timer_ok t -> Timer.m_repeat t = true ->
  exists e', TimeStamp.addTime n (Timer.m_interval t) = Ret e'
    /\ Timer.restart n t = Ret (Timer.mk (Timer.m_callBack t) e' (Timer.m_interval t) true (Timer.m_sequence t))
    /\ timer_ok (Timer.mk (Timer.m_callBack t) e' (Timer.m_interval t) true (Timer.m_sequence t)).
Proof.
  intros Hn [He Hrep] Hr. destruct (Hrep Hr) as (d & Hd & Hb). exists (n + d).
  assert (TimeStamp.addTime n (Timer.m_interval t) = Ret (n + d)) as Ha.
  { unfold TimeStamp.addTime. rewrite Hd. cbn. unfold s64_add. rewrite bool_decide_true by lia. done. }
  split; [done|]. unfold Timer.restart. rewrite Hr, Ha. split; [done|].
  split; cbn; [lia|]. intros _. by exists d.
Qed.

Lemma free_spec X s a t : inv (a :: X) s -> a ∉ X -> heap s !! a = Some t ->
  free a s = Ret (tt, set_heap (delete a (heap s)) s) /\ inv X (set_heap (delete a (heap s)) s).
Proof.
  intros Hi HaX Ht. split; [unfold free; by rewrite Ht|]. destruct Hi as [Hts Hac Htm Hact Hh HX Hcan].
  destruct (HX a ltac:(by left)) as [_ Hna]. split; cbn; try done.
  - intros e' a' Hin. destruct (Htm _ _ Hin) as (t' & ? & ? & Hin'). exists t'.
    rewrite lookup_delete_ne; [done|]. intros ->. by apply (Hna _ Hin').
  - intros a' q Hin. destruct (Hact _ _ Hin) as (t' & ? & ? & ?). exists t'.
    rewrite lookup_delete_ne; [done|]. intros ->. by apply (Hna q).
  - intros a' t' [Hne Ha']%lookup_delete_Some. destruct (Hh _ _ Ha') as (? & ? & Hor).
    rewrite elem_of_cons in Hor. split_and!; [lia|lia|done|]. naive_solver.
  - intros a' Ha'. rewrite lookup_delete_ne by congruence. apply HX. by right.
Qed.

Lemma reset_one_spec n X s e a t : inv (a :: X) s -> a ∉ X -> heap s !! a = Some t -> 0 <= n < 2 ^ 62 ->
  exists s', reset_one n (e, a) s = Ret (tt, s') /\ inv X s' /\ settled n s s' a t
    /\ (forall a', a' <> a -> heap s' !! a' = heap s !! a')
    /\ (forall x, x ∈ m_timers s -> x ∈ m_timers s')
    /\ m_cancelingTimers s' = m_cancelingTimers s /\ fired s' = fired s.
Proof.
  intros Hi HaX Ht Hn. pose proof Hi as [Hts Hac Htm Hact Hh HX Hcan].
  destruct (HX a ltac:(by left)) as [_ Hna]. destruct (Hh a t Ht) as (Haddr & Hok & _).
  assert (forall e, (e, a) ∉ m_timers s) as Hnt.
  { intros e' Hin. destruct (Htm _ _ Hin) as (t' & _ & _ & Hin'). by destruct (Hna _ Hin'). }
  unfold reset_one, settled. cbn [snd]. rewrite (ST_bind_eq _ _ _ _ _ (run_load _ _ _ Ht)).
  rewrite (ST_bind_eq _ _ s (m_cancelingTimers s) s) by done. unfold Timer.repeat. fold (canceled s a t).
  destruct (Timer.m_repeat t) eqn:Hr; [destruct (canceled s a t)|]; cbn [andb negb].
  1, 3: (destruct (free_spec X s a t Hi HaX Ht) as [Hrun Hi'];
    eexists; split_and!; [exact Hrun|exact Hi'|cbn; by rewrite lookup_delete_eq
      |intros a' Hne; cbn; by rewrite lookup_delete_ne|done|done|done]).
  destruct (restart_ok n t Hn Hok Hr) as (e' & He & Hres & Hok').
  set (t' := Timer.mk (Timer.m_callBack t) e' (Timer.m_interval t) true (Timer.m_sequence t)) in *.
  set (s1 := set_heap (<[a := t']> (heap s)) s).
  assert (inv (a :: X) s1) as Hi1.
  { split; cbn; try done.
    - intros e1 a1 Hin. rewrite lookup_insert_ne; [by apply Htm|]. intros ->. by apply (Hnt e1).
    - intros a1 q Hin. rewrite lookup_insert_ne; [by apply Hact|]. intros ->. by apply (Hna q).
    - intros a1 t1. destruct (decide (a1 = a)) as [->|Hne].
      + rewrite lookup_insert_eq. intros [= <-]. split_and!; [lia|lia|done|]. left. by left.
      + rewrite lookup_insert_ne by done. apply Hh.
    - intros a1 Ha1. destruct (decide (a1 = a)) as [->|Hne].
      + rewrite lookup_insert_eq. by split.
      + rewrite lookup_insert_ne by done. by apply HX. }
  destruct (insert_spec X s1 a t' Hi1 HaX ltac:(cbn; by rewrite lookup_insert_eq))
    as (s' & Hrun & Hi' & Hheap & Hperm & Hcan' & Hf & _).
  exists s'. split_and!; try done.
  - rewrite (ST_bind_eq _ _ s t' s) by (unfold lift; by rewrite Hres).
    rewrite (ST_bind_eq _ _ s tt s1) by (unfold store; by rewrite Ht). by rewrite (ST_bind_eq _ _ _ _ _ Hrun).
  - exists e'. split; [done|]. rewrite Hperm. by left.
  - intros a1 Hne. rewrite Hheap. cbn. by rewrite lookup_insert_ne.
  - intros x Hx. rewrite Hperm. by right.
Qed.

Lemma reset_loop n X L s : inv (L.*2 ++ X) s -> NoDup L.*2 -> (forall a, a ∈ L.*2 -> a ∉ X) -> 0 <= n < 2 ^ 62 ->
  exists s', for_each (reset_one n) L s = Ret (tt, s') /\ inv X s'
    /\ (forall e a t, (e, a) ∈ L -> heap s !! a = Some t -> settled n s s' a t)
    /\ (forall a, a ∉ L.*2 -> heap s' !! a = heap s !! a)
    /\ (forall x, x ∈ m_timers s -> x ∈ m_timers s')
    /\ m_cancelingTimers s' = m_cancelingTimers s /\ fired s' = fired s.
Proof.
  revert s. induction L as [|[e a] L IH]; intros s Hi Hnd HX Hn.
  - exists s. split_and!; try done. intros e a t Hin. by apply not_elem_of_nil in Hin.
  - cbn in Hnd. apply NoDup_cons in Hnd as [HaL Hnd].
    destruct (inv_X _ _ Hi a ltac:(by left)) as [[t Ht] _].
    destruct (reset_one_spec n (L.*2 ++ X) s e a t Hi) as (s1 & Hrun & Hi1 & Hset & Hheap & Htim & Hcan & Hf);
      [intros [?|?]%elem_of_app; [done|]; apply (HX a); [by left|done]|done|done|].
    destruct (IH s1 Hi1 Hnd) as (s' & Hrun' & Hi' & Hset' & Hheap' & Htim' & Hcan' & Hf');
      [intros a' Ha'; apply HX; by right|done|].
    exists s'. split_and!.
    + cbn [for_each]. by rewrite (ST_bind_eq _ _ _ _ _ Hrun).
    + done.
    + intros e1 a1 t1 [[= -> ->]|Hin]%elem_of_cons Ht1.
      * rewrite Ht in Ht1. injection Ht1 as <-. unfold settled in *. destruct (_ && _).
        -- destruct Hset as (e' & ? & ?). exists e'. split; [done|by apply Htim'].
        -- by rewrite Hheap'.
      * assert (a1 <> a) as Hne by (intros ->; apply HaL, list_elem_of_fmap; by exists (e1, a)).
        specialize (Hset' e1 a1 t1 Hin ltac:(by rewrite Hheap)). unfold settled, canceled in *. by rewrite Hcan in Hset'.
    + intros a1. cbn. rewrite elem_of_cons. intros Hn1. rewrite Hheap' by tauto. apply Hheap. tauto.
    + intros x Hx. by apply Htim', Htim.
    + congruence.
    + congruence.
Qed.

Lemma resetTimerfd_spec X e s : 0 <= e < 2 ^ 63 -> inv X s -> exists s' ts, resetTimerfd clock e s = Ret (tt, s')
  /\ inv X s' /\ TimerFd.howMuchTimeFromNow e (clock (ticks s)) = Ret ts /\ timerfd s' = Some ts
  /\ heap s' = heap s /\ m_timers s' = m_timers s /\ fired s' = fired s /\ m_cancelingTimers s' = m_cancelingTimers s.
Proof.
  intros He Hi. pose proof (clock_ok (ticks s)) as Hc. unfold resetTimerfd.
  assert (exists ts, TimerFd.howMuchTimeFromNow e (clock (ticks s)) = Ret ts) as [ts Hts].
  { unfold TimerFd.howMuchTimeFromNow, s64_add. rewrite bool_decide_true by lia. cbn. by eexists. }
  set (s1 := set_ticks (S (ticks s)) s). exists (set_timerfd (Some ts) s1), ts.
  rewrite (ST_bind_eq _ _ s (clock (ticks s)) s1) by done.
  rewrite (ST_bind_eq _ _ s1 ts s1) by (unfold lift; by rewrite Hts).
  split_and!; try done. by apply inv_set_timerfd, inv_set_ticks.
Qed.

(** [addTimerInLoop] of a new timer: it enters both sets, and the descriptor
    is set again exactly when the new timer is the first to expire. *)
Lemma addTimerInLoop_spec X s a t : inv (a :: X) s -> a ∉ X -> heap s !! a = Some t ->
  exists s', addTimerInLoop clock a s = Ret (tt, s') /\ inv X s' /\ heap s' = heap s
    /\ m_timers s' ≡ₚ (Timer.m_expiration t, a) :: m_timers s /\ fired s' = fired s
    /\ (if forallb (fun e : Entry => Timer.m_expiration t <? e.1) (m_timers s)
        then exists ts k, TimerFd.howMuchTimeFromNow (Timer.m_expiration t) (clock k) = Ret ts /\ timerfd s' = Some ts
        else timerfd s' = timerfd s).
Proof.
  intros Hi HaX Ht. destruct (insert_spec X s a t Hi HaX Ht)
    as (s1 & Hrun & Hi1 & Hh & Hp & Hcan & Hf & Htk & Hcal & Hfd & _).
  destruct (inv_heap _ _ Hi _ _ Ht) as (_ & [He _] & _).
  assert (match m_timers s with [] => true | e :: _ => Timer.m_expiration t <? e.1 end
    = forallb (fun e : Entry => Timer.m_expiration t <? e.1) (m_timers s)) as Hall.
  { pose proof (inv_timers _ _ Hi) as Hs. destruct (m_timers s) as [|e l]; [done|]. cbn.
    apply ksorted_cons_inv in Hs as [Hs _].
    destruct (Z.ltb_spec (Timer.m_expiration t) e.1); [|done]. symmetry. cbn. apply forallb_forall. intros x Hx.
    apply list_elem_of_In in Hx. rewrite Forall_forall in Hs. specialize (Hs x Hx).
    unfold ltb, prod_ltb, ltb, Z_ltb in Hs. rewrite orb_true_iff, andb_true_iff, negb_true_iff, Z.ltb_lt, Z.ltb_ge in Hs.
    apply Z.ltb_lt. lia. }
  rewrite Hall in Hrun. unfold addTimerInLoop. rewrite (ST_bind_eq _ _ _ _ _ Hrun).
  destruct (forallb _ (m_timers s)).
  - rewrite (ST_bind_eq _ _ s1 t s1) by (apply run_load; by rewrite Hh).
    destruct (resetTimerfd_spec X _ _ He Hi1) as (s2 & ts & Hrun2 & Hi2 & Hts & Hfd2 & Hh2 & Htm2 & Hf2 & _).
    exists s2. unfold Timer.expiration. rewrite Hrun2, Htm2, Hf2, Hh2. split_and!; try done. by exists ts, (ticks s1).
  - exists s1. by split_and!.
Qed.
Lemma reset_spec n X L s : inv (L.*2 ++ X) s -> NoDup L.*2 -> (forall a, a ∈ L.*2 -> a ∉ X) -> 0 <= n < 2 ^ 62 ->
  exists s', reset clock L n s = Ret (tt, s') /\ inv X s'
    /\ (forall e a t, (e, a) ∈ L -> heap s !! a = Some t -> settled n s' s' a t)
    /\ (forall x, x ∈ m_timers s -> x ∈ m_timers s') /\ fired s' = fired s
    /\ (forall e a r, m_timers s' = (e, a) :: r -> 0 < e ->
        exists ts k, TimerFd.howMuchTimeFromNow e (clock k) = Ret ts /\ timerfd s' = Some ts).
Proof.
  intros Hi Hnd HX Hn.
  destruct (reset_loop n X L s Hi Hnd HX Hn) as (s1 & Hrun & Hi1 & Hset & _ & Htim & Hcan & Hf).
  unfold reset. rewrite (ST_bind_eq _ _ _ _ _ Hrun), (ST_bind_eq _ _ s1 (m_timers s1) s1) by done.
  destruct (m_timers s1) as [|[e a] r] eqn:Ets.
  - rewrite (ST_bind_eq _ _ s1 TimeStamp.invalid s1) by done. exists s1. cbn. rewrite Ets.
    split_and!; try done. intros e a t Hin Ht.
    by eapply settled_ext; [..|exact (Hset e a t Hin Ht)].
  - destruct (inv_tm _ _ Hi1 e a) as (t & Ht & He & _); [rewrite Ets; by left|].
    destruct (inv_heap _ _ Hi1 _ _ Ht) as (_ & [Hpos _] & _).
    rewrite (ST_bind_eq _ _ s1 e s1).
    2:{ cbn [snd]. rewrite (ST_bind_eq _ _ _ _ _ (run_load _ _ _ Ht)). unfold Timer.expiration. by rewrite He. }
    destruct (resetTimerfd_spec X e s1 ltac:(lia) Hi1) as (s2 & ts & Hrun2 & Hi2 & Hts & Hfd & Hh2 & Htm2 & Hf2 & Hcan2).
    assert (forall s2, heap s2 = heap s1 -> m_timers s2 = m_timers s1 -> m_cancelingTimers s2 = m_cancelingTimers s1 ->
      forall e a t, (e, a) ∈ L -> heap s !! a = Some t -> settled n s2 s2 a t) as Hset2.
    { intros s' Hh' Htm' Hcan' e1 a1 t1 Hin Ht1.
      eapply settled_ext; [..|exact (Hset e1 a1 t1 Hin Ht1)]; congruence. }
    unfold TimeStamp.valid. destruct (Z.ltb_spec 0 e).
    + exists s2. rewrite Ets in Htm2. split_and!; try done.
      * by apply Hset2; [|congruence|].
      * intros x Hx. rewrite Htm2. by apply Htim.
      * congruence.
      * intros e' a' r'. rewrite Htm2. intros [= <- <- <-] _. by exists ts, (ticks s1).
    + exists s1. split_and!; try done.
      * by apply Hset2.
      * by rewrite Ets.
      * intros e' a' r'. rewrite Ets. intros [= <- <- <-]. lia.
Qed.

(** What [handleRead] has done when it returns. *)
Definition served (s s' : queue) : Prop :=
  let n := clock (ticks s) in
  let L := filter (fun e : Entry => e.1 <= n) (m_timers s) in
  fired s' = fired s ++ seqs (heap s) L
  /\ (forall e a, (e, a) ∈ m_timers s -> n < e -> (e, a) ∈ m_timers s')
  /\ (forall e a t, (e, a) ∈ L -> heap s !! a = Some t -> settled n s' s' a t)
  /\ (forall e a r, m_timers s' = (e, a) :: r -> 0 < e ->
      exists ts k, TimerFd.howMuchTimeFromNow e (clock k) = Ret ts /\ timerfd s' = Some ts).

Lemma handleRead_serves X s : inv X s ->
  match handleRead clock run s with Ret (_, s') => inv X s' /\ served s s' | Crash f => fails f end.
Proof.
  intros Hi. unfold served. set (n := clock (ticks s)). set (L := filter _ (m_timers s)).
  pose proof (clock_ok (ticks s)) as Hn. fold n in Hn.
  set (s0 := set_ticks (S (ticks s)) s).
  destruct (getExpired_spec X n s0 (inv_set_ticks _ _ _ Hi))
    as (s1 & rest & Hrun1 & Hi1 & Hsplit & Hrest & Hlate & Hh1 & Hf1 & _ & _ & HX).
  cbn [m_timers s0 set_ticks heap fired] in *. fold L in Hrun1, Hi1, Hsplit, HX.
  set (s2 := set_canceling [] (set_calling true s1)).
  assert (inv (L.*2 ++ X) s2) as Hi2 by (destruct Hi1; split; cbn; done || constructor).
  assert (handleRead clock run s = (_ ← for_each (run_one run) L; _ ← modify (set_calling false); reset clock L n) s2) as ->.
  { unfold handleRead. rewrite (ST_bind_eq _ _ s n s0) by done.
    rewrite (ST_bind_eq _ _ _ _ _ Hrun1), (ST_bind_eq _ _ s1 tt (set_calling true s1)) by done.
    by rewrite (ST_bind_eq _ _ (set_calling true s1) tt s2). }
  pose proof (run_loop (L.*2 ++ X) L s2 Hi2 eq_refl ltac:(set_solver)) as Hloop.
  unfold mbind at 1, ST_bind at 1. destruct (for_each (run_one run) L s2) as [[[] s3]|f]; [|done].
  destruct Hloop as (Hi3 & HX3 & Ht3 & Hf3). cbn [mbind outcome_bind].
  destruct (reset_spec n X L (set_calling false s3)) as (s4 & Hrun4 & Hi4 & Hset & Htim & Hf4 & Harm).
  - by apply inv_set_calling.
  - destruct Hi as [Hts _ Htm _ _ _ _]. apply NoDup_fmap_2_strong.
    + intros [e a] [e' a'] Hx%list_elem_of_filter Hy%list_elem_of_filter; cbn; intros ->.
      destruct (Htm _ _ (proj2 Hx)) as (t & H1 & <- & _), (Htm _ _ (proj2 Hy)) as (t' & H2 & <- & _). congruence.
    + apply NoDup_filter. by apply (ksorted_NoDup self).
  - intros a ([e a'] & -> & Hin)%list_elem_of_fmap. by apply (HX e).
  - done.
  - rewrite (ST_bind_eq _ _ s3 tt (set_calling false s3)), Hrun4 by done. split_and!.
    + done.
    + rewrite Hf4. cbn. rewrite Hf3. cbn. by rewrite Hf1, Hh1.
    + intros e a Hin Hlt. apply Htim. cbn. apply Ht3. cbn. rewrite Hrest. rewrite Hsplit in Hin.
      apply elem_of_app in Hin as [Hin|?]; [|done]. apply list_elem_of_filter in Hin as [Hle _]. cbn in Hle. lia.
    + intros e a t Hin Ht. apply (Hset e); [done|]. cbn. rewrite HX3; [cbn; by rewrite Hh1|].
      apply elem_of_app. left. apply list_elem_of_fmap. by exists (e, a).
    + done.
Qed.

(** [addTimer] in the loop's thread draws the next number, enters the new
    timer in both sets and sets the descriptor exactly when the new timer is
    to run before every other. *)
Theorem addTimer_inserts X s a cb when interval : inv X s -> heap s !! a = None -> 0 < a < UINTPTR_MAX ->
  timer_ok (Timer.make cb when interval (s64 (s_numCreated s + 1))) ->
  exists s', addTimer clock (fun m => m) a cb when interval s = Ret ((a, s64 (s_numCreated s + 1)), s')
    /\ inv X s' /\ m_timers s' ≡ₚ (when, a) :: m_timers s
    /\ heap s' = <[a := Timer.make cb when interval (s64 (s_numCreated s + 1))]> (heap s)
    /\ (if forallb (fun e : Entry => when <? e.1) (m_timers s)
        then exists ts k, TimerFd.howMuchTimeFromNow when (clock k) = Ret ts /\ timerfd s' = Some ts
        else timerfd s' = timerfd s).
Proof.
  intros Hi Ha Hrange Hok. set (t := Timer.make cb when interval (s64 (s_numCreated s + 1))) in *.
  set (s1 := set_heap (<[a := t]> (heap s)) (set_created (s64 (s_numCreated s + 1)) s)).
  assert (inv (a :: X) s1) as Hi1.
  { destruct Hi as [Hts Hac Htm Hact Hh HX Hcan]. split; cbn; try done.
    - intros e a' Hin. destruct (Htm _ _ Hin) as (t' & ? & ?). exists t'. by rewrite lookup_insert_ne by congruence.
    - intros a' q Hin. destruct (Hact _ _ Hin) as (t' & ? & ?). exists t'. by rewrite lookup_insert_ne by congruence.
    - intros a' t'. destruct (decide (a' = a)) as [->|Hne].
      + rewrite lookup_insert_eq. intros [= <-]. split_and!; [lia|lia|done|]. left. by left.
      + rewrite lookup_insert_ne by done. intros Ha'. destruct (Hh _ _ Ha') as (? & ? & ?). rewrite elem_of_cons. naive_solver.
    - intros a' Hin. destruct (decide (a' = a)) as [->|Hne].
      + rewrite lookup_insert_eq. split; [done|]. intros q Hq. destruct (Hact _ _ Hq) as (? & ? & _). congruence.
      + rewrite lookup_insert_ne by done. apply HX. apply elem_of_cons in Hin. naive_solver. }
  assert (a ∉ X) as HaX.
  { intros Hin. destruct (inv_X _ _ Hi a Hin) as [[? ?] _]. congruence. }
  destruct (addTimerInLoop_spec X s1 a t Hi1 HaX ltac:(cbn; by rewrite lookup_insert_eq))
    as (s2 & Hrun & Hi2 & Hh2 & Hp & _ & Harm).
  exists s2. split_and!; [|done|exact Hp|exact Hh2|exact Harm].
  unfold addTimer, new_timer.
  rewrite (ST_bind_eq _ _ s tt s1) by done. rewrite (ST_bind_eq _ _ _ _ _ Hrun).
  rewrite (ST_bind_eq _ _ s2 t s2) by (apply run_load; rewrite Hh2; cbn; by rewrite lookup_insert_eq). done.
Qed.
End handleRead.

(** ** [cancel] *)

(** A cancellation of a timer that is not waiting (it ran already, its id
    is stale, or it is running) changes neither set; during the callbacks it
    is remembered for [reset]. *)
Theorem cancelInLoop_inactive X s id : inv X s -> id ∉ m_activeTimers s ->
  exists s', cancelInLoop id s = Ret (tt, s') /\ inv X s' /\ heap s' = heap s
    /\ m_timers s' = m_timers s /\ m_activeTimers s' = m_activeTimers s
    /\ forall x, x ∈ m_cancelingTimers s' <->
        x ∈ m_cancelingTimers s \/ (x = id /\ m_callingExpiredTimers s = true).
Proof.
  intros Hi Hid. pose proof (inv_active _ _ Hi) as Hac.
  assert (kfind self id (m_activeTimers s) = None) as Hnone.
  { apply (kfind_None self); [done|]. intros x Hx ->. done. }
  unfold cancelInLoop. rewrite (ST_bind_eq _ _ _ _ _ (run_same_size _ _ Hi)).
  rewrite (ST_bind_eq _ _ s (m_activeTimers s) s) by done. rewrite Hnone.
  destruct (m_callingExpiredTimers s) eqn:Hc.
  - set (s1 := set_canceling (kinsert self id (m_cancelingTimers s)).1 s).
    rewrite (ST_bind_eq _ _ s tt s1).
    2:{ rewrite (ST_bind_eq _ _ s true s) by (unfold gets; by rewrite Hc). done. }
    assert (ksorted self (m_cancelingTimers s1) /\
      forall x, x ∈ m_cancelingTimers s1 <-> x ∈ m_cancelingTimers s \/ x = id) as [Hsort Hel].
    { cbn. pose proof (inv_canceling _ _ Hi) as Hs. destruct (decide (id ∈ m_cancelingTimers s)) as [Hin|Hin].
      - rewrite (kinsert_dup self) by eauto. split; [done|]. intros x. cbn. naive_solver.
      - destruct (kinsert_spec self id _ Hs) as (l' & -> & Hs' & Hp); [intros x Hx ->; done|].
        split; [done|]. intros x. cbn. rewrite Hp, elem_of_cons. naive_solver. }
    assert (inv X s1) as Hi1 by (destruct Hi; by split).
    exists s1. rewrite (run_same_size _ _ Hi1). split_and!; try done. intros x. rewrite Hel. naive_solver.
  - rewrite (ST_bind_eq _ _ s tt s).
    2:{ rewrite (ST_bind_eq _ _ s false s) by (unfold gets; by rewrite Hc). done. }
    exists s. rewrite (run_same_size _ _ Hi). split_and!; try done. naive_solver.
Qed.

(** The cancellation of a waiting timer always fails: [cancelInLoop]
    erases the timer from [m_timers] and frees it, but it never erases it from
    [m_activeTimers], so the last assertion aborts the process. *)
Theorem cancelInLoop_active_aborts X s id : inv X s -> id ∈ m_activeTimers s ->
  cancelInLoop id s = Crash AssertFailure.
Proof.
  intros Hi Hid. destruct id as [a q]. destruct (inv_act _ _ Hi _ _ Hid) as (t & Ht & <- & Hin).
  assert (kfind self (a, Timer.m_sequence t) (m_activeTimers s) = Some (a, Timer.m_sequence t)) as Hsome.
  { apply (kfind_Some self); [apply (inv_active _ _ Hi)|done]. }
  destruct (kerase_spec self _ _ (inv_timers _ _ Hi) Hin) as (ts' & E & _ & _ & Hp).
  unfold cancelInLoop. rewrite (ST_bind_eq _ _ _ _ _ (run_same_size _ _ Hi)).
  rewrite (ST_bind_eq _ _ s (m_activeTimers s) s) by done. rewrite Hsome. cbn [fst].
  set (s1 := set_heap (delete a (heap s)) (set_timers ts' s)).
  rewrite (ST_bind_eq _ _ s tt s1).
  2:{ rewrite (ST_bind_eq _ _ _ _ _ (run_load _ _ _ Ht)), (ST_bind_eq _ _ s (m_timers s) s) by done.
      unfold Timer.expiration. rewrite E.
      rewrite (ST_bind_eq _ _ s tt (set_timers ts' s)) by done.
      rewrite (ST_bind_eq _ _ (set_timers ts' s) tt (set_timers ts' s)) by done.
      unfold free. cbn. by rewrite Ht. }
  unfold same_size. cbn. pose proof (inv_size _ _ Hi) as Hz. apply Permutation_length in Hp.
  unfold zlen in *. cbn in Hp. destruct (Z.eqb_spec (Z.of_nat (length ts')) (Z.of_nat (length (m_activeTimers s)))); [lia|done].
Qed.

(** ** Callbacks that add and cancel timers *)

(** Parts of the state nothing but [handleRead] writes. *)
Definition framed {A} (m : M A) : Prop :=
  forall s x s', m s = Ret (x, s') -> fired s' = fired s /\ m_callingExpiredTimers s' = m_callingExpiredTimers s.

Lemma framed_bind {A B} (m : M A) (f : A -> M B) : framed m -> (forall a, framed (f a)) -> framed (m ≫= f).
Proof.
  intros Hm Hf s x s'. unfold mbind, ST_bind, outcome_bind. destruct (m s) as [[a s1]|] eqn:E; [|done]. intros E2.
  destruct (Hm _ _ _ E) as [<- <-]. by apply (Hf a _ x).
Qed.
Lemma framed_lift {A} (o : outcome A) : framed (lift o : M A).
Proof. intros s x s'. unfold lift, mbind, outcome_bind. destruct o; [|done]. by intros [= _ <-]. Qed.
Lemma framed_ret {A} (a : A) : framed (mret a : M A).
Proof. intros s x s'. by intros [= _ <-]. Qed.
Lemma framed_gets {A} (f : queue -> A) : framed (gets f).
Proof. intros s x s'. by intros [= _ <-]. Qed.
Lemma framed_modify (f : queue -> queue) : (forall s, fired (f s) = fired s /\ m_callingExpiredTimers (f s) = m_callingExpiredTimers s) -> framed (modify f).
Proof. intros H s x s' [= _ <-]. apply H. Qed.
Lemma framed_same_size : framed same_size.
Proof. intros s x s'. unfold same_size. by destruct (_ =? _); [intros [= _ <-]|]. Qed.
Lemma framed_load a : framed (load a).
Proof. intros s x s'. unfold load. by destruct (heap s !! a); [intros [= _ <-]|]. Qed.
Lemma framed_now clock : framed (now clock).
Proof. intros s x s' [= _ <-]. done. Qed.

Ltac framing := repeat first
  [ apply framed_bind; [|intros ?] | apply framed_lift | apply framed_ret | apply framed_gets | apply framed_same_size
  | apply framed_load | apply framed_now | apply framed_modify; done | case_match ].

Lemma framed_addTimer clock a cb when interval : framed (addTimer clock (fun m => m) a cb when interval).
Proof. unfold addTimer, new_timer, addTimerInLoop, insert, resetTimerfd. framing. Qed.

(** What a callback does next, in view of the queue. *)
Inductive action := AAdd (cb : Z) (when : TimeStamp.t) (interval : spec_float) | ACancel (timerId : Z * Z).

Section callbacks.
Context (clock : nat -> TimeStamp.t) (clock_ok : forall k, 0 <= clock k < 2 ^ 62).
(** Where [new] finds room in a heap, if it does; otherwise it throws. *)
Context (alloc : gmap Z Timer.t -> option Z)
  (alloc_ok : forall h a, alloc h = Some a -> h !! a = None /\ 0 < a < UINTPTR_MAX).
(** The actions of the callback of a timer, and their arguments: times and
    intervals that can be added. *)
Context (callback : Timer.t -> list (queue -> action))
  (callback_ok : forall t f s cb when interval q, f ∈ callback t -> f s = AAdd cb when interval -> timer_ok (Timer.make cb when interval q)).

Definition act (a : action) : M unit :=
  match a with
  | AAdd cb when interval =>
      h ← gets heap;
      match alloc h with
      | Some p => _ ← addTimer clock (fun m => m) p cb when interval; mret tt
      | None => crash UncaughtException
      end
  | ACancel timerId => cancel (fun m => m) timerId
  end.
Fixpoint acts (fs : list (queue -> action)) : M unit :=
  match fs with [] => mret tt | f :: fs' => a ← gets f; _ ← act a; acts fs' end.
Definition run_callback (t : Timer.t) : M unit := acts (callback t).

(** A callback cancels a timer that waits. *)
Definition careless : Prop := exists t f s timerId, f ∈ callback t /\ f s = ACancel timerId /\ timerId ∈ m_activeTimers s.
Definition callback_fails (f : fault) : Prop := f = UncaughtException \/ f = AssertFailure /\ careless.

Lemma quiet_refl X s : inv X s -> quiet X s s.
Proof. by split. Qed.

Lemma quiet_trans X s1 s2 s3 : quiet X s1 s2 -> quiet X s2 s3 -> quiet X s1 s3.
Proof.
  intros [Hi HX Ht Hf Hc] [Hi' HX' Ht' Hf' Hc']. split; [done| | |congruence|congruence].
  - intros a Ha. by rewrite HX', HX.
  - intros e a Hin. destruct (Ht e a Hin) as [H1 H2]. destruct (Ht' e a H1) as [? ->]. done.
Qed.

Lemma act_quiet t f X s : f ∈ callback t -> inv X s ->
  match act (f s) s with Ret (_, s') => quiet X s s' | Crash e => callback_fails e end.
Proof.
  intros Hin Hi. destruct (f s) as [cb when interval|id] eqn:Ef; cbn [act].
  - rewrite gets_bind. destruct (alloc (heap s)) as [p|] eqn:Ep; [|by left]. destruct (alloc_ok _ _ Ep) as [Hp Hr].
    destruct (addTimer_inserts clock clock_ok X s p cb when interval Hi Hp Hr) as (s' & E & Hi' & Ht & Hh & _); [by eapply callback_ok|].
    rewrite (ST_bind_eq _ _ _ _ _ E). cbn. destruct (framed_addTimer _ _ _ _ _ _ _ _ E) as [Hf Hc]. split; [done| | |done|done].
    + intros a Ha. rewrite Hh. apply lookup_insert_ne. intros ->. destruct (inv_X _ _ Hi a Ha) as [[? ?] _]. congruence.
    + intros e a Hea. split; [rewrite Ht; by right|]. rewrite Hh. apply lookup_insert_ne. intros ->.
      destruct (inv_tm _ _ Hi _ _ Hea) as (? & ? & _). congruence.
  - unfold cancel. destruct (decide (id ∈ m_activeTimers s)) as [Ha|Ha].
    + rewrite (cancelInLoop_active_aborts X s id Hi Ha). right. split; [done|]. by exists t, f, s, id.
    + destruct (cancelInLoop_inactive X s id Hi Ha) as (s' & E & Hi' & Hh & Ht & _). rewrite E. cbn.
      assert (framed (cancelInLoop id)) as Hfr.
      { unfold cancelInLoop, free. framing. intros s0 x s0'. destruct (heap s0 !! _); [|done]. by intros [= _ <-]. }
      destruct (Hfr _ _ _ E) as [Hf Hc]. split; [done| | |done|done]; [by rewrite Hh|by rewrite Ht, Hh].
Qed.

Lemma run_callback_quiet t X s : inv X s -> m_callingExpiredTimers s = true ->
  match run_callback t s with Ret (_, s') => quiet X s s' | Crash e => callback_fails e end.
Proof.
  intros Hi _. unfold run_callback. assert (forall f, f ∈ callback t -> f ∈ callback t) as Hsub by done. revert Hsub Hi.
  generalize (callback t) at 1 3 as fs. intros fs. revert s. induction fs as [|f fs IH]; intros s Hsub Hi; cbn [acts]; [by apply quiet_refl|].
  rewrite gets_bind. pose proof (act_quiet t f X s (Hsub f ltac:(by left)) Hi) as Ha. unfold mbind, ST_bind.
  destruct (act (f s) s) as [[[] s1]|e]; [|done]. cbn [mbind outcome_bind].
  specialize (IH s1 (fun g Hg => Hsub g ltac:(by right)) (quiet_inv _ _ _ Ha)).
  destruct (acts fs s1) as [[[] s2]|e]; [|done]. by eapply quiet_trans.
Qed.

End callbacks.

(** ** The destructor *)
Lemma free_loop L s : NoDup L.*2 -> (forall a, a ∈ L.*2 -> is_Some (heap s !! a)) ->
  exists s', for_each (fun e : Entry => free e.2) L s = Ret (tt, s')
    /\ forall a, heap s' !! a = if decide (a ∈ L.*2) then None else heap s !! a.
Proof.
  revert s. induction L as [|[e a] L IH]; intros s Hnd HL.
  - exists s. split; [done|]. intros a. rewrite decide_False; [done|]. apply not_elem_of_nil.
  - cbn in Hnd. apply NoDup_cons in Hnd as [HaL Hnd]. destruct (HL a ltac:(by left)) as [t Ht].
    destruct (IH (set_heap (delete a (heap s)) s) Hnd) as (s' & Hrun & Hh).
    { intros a' Ha'. cbn. rewrite lookup_delete_ne by (intros ->; done). apply HL. by right. }
    exists s'. split.
    + cbn [for_each]. erewrite ST_bind_eq; [exact Hrun|]. unfold free. cbn. by rewrite Ht.
    + intros a'. rewrite Hh. cbn. destruct (decide (a' = a)) as [->|Hne].
      * rewrite lookup_delete_eq. rewrite (decide_True (P := a ∈ a :: L.*2)) by by left. by case_decide.
      * rewrite lookup_delete_ne by done. destruct (decide (a' ∈ L.*2)).
        -- rewrite decide_True by by right. done.
        -- rewrite decide_False by by rewrite elem_of_cons; naive_solver. done.
Qed.

(** The destructor frees every timer of the queue. *)
Theorem destroy_frees s : inv [] s -> exists s', destroy s = Ret (tt, s') /\ heap s' = ∅.
Proof.
  intros [Hts Hac Htm Hact Hh _ _].
  destruct (free_loop (m_timers s) s) as (s' & Hrun & Hheap).
  - apply NoDup_fmap_2_strong; [|by apply (ksorted_NoDup self)].
    intros [e a] [e' a'] Hx Hy; cbn; intros ->.
    destruct (Htm _ _ Hx) as (t & H1 & <- & _), (Htm _ _ Hy) as (t' & H2 & <- & _). congruence.
  - intros a ([e a'] & -> & Hin)%list_elem_of_fmap. destruct (Htm _ _ Hin) as (t & Ht & _). by exists t.
  - exists s'. split; [unfold destroy; by rewrite (ST_bind_eq _ _ s (m_timers s) s)|].
    apply map_empty. intros a. rewrite Hheap. case_decide as Hn; [done|]. destruct (heap s !! a) as [t|] eqn:Ht; [|done].
    destruct (Hh _ _ Ht) as (_ & _ & [Hin|Hin]); [by apply not_elem_of_nil in Hin|].
    destruct (Hact _ _ Hin) as (t' & _ & _ & Hin'). destruct Hn. apply list_elem_of_fmap. by eexists (_, _).
Qed.

(** ** A run *)
Definition demo_clock (k : nat) : TimeStamp.t := 1000000.

(** One second as a [double]. *)
Definition one_second : spec_float := TimeStamp.double_of_Z 1.

(** Three timers: two are due, one of them is repeated. *)
Definition demo : queue :=
  mk (list_to_map [(16, Timer.make 1 500000 (S754_zero false) 1); (48, Timer.make 2 900000 one_second 2);
                   (32, Timer.make 3 7000000 (S754_zero false) 3)])
     3 [(500000, 16); (900000, 48); (7000000, 32)] [(16, 1); (32, 3); (48, 2)] false [] None 0 [].

Lemma demo_inv : inv [] demo.
Proof.
  split; cbn [demo m_timers m_activeTimers m_cancelingTimers heap].
  - repeat constructor.
  - repeat constructor.
  - intros e a Hin. rewrite !elem_of_cons, elem_of_nil in Hin.
    destruct Hin as [[= -> ->]|[[= -> ->]|[[= -> ->]|[]]]]; (eexists; split_and!; [vm_compute; reflexivity|done|by_compute]).
  - intros a q Hin. rewrite !elem_of_cons, elem_of_nil in Hin.
    destruct Hin as [[= -> ->]|[[= -> ->]|[[= -> ->]|[]]]]; (eexists; split_and!; [vm_compute; reflexivity|done|by_compute]).
  - intros a t Ht. apply elem_of_list_to_map_2 in Ht. rewrite !elem_of_cons, elem_of_nil in Ht.
    destruct Ht as [[= -> ->]|[[= -> ->]|[[= -> ->]|[]]]];
      (split_and!; [done|done| |right; by_compute]); (split; [cbn; lia|]); [done| |done].
    intros _. exists 1000000. split; [vm_compute; reflexivity|lia].
  - intros a Ha. by apply not_elem_of_nil in Ha.
  - constructor.
Qed.

Lemma demo_clock_ok k : 0 <= demo_clock k < 2 ^ 62.
Proof. by unfold demo_clock. Qed.

(** An allocator with three places; the callback of the second timer cancels
    the timer itself, which is a repeated one, and adds another. *)
Definition demo_alloc (h : gmap Z Timer.t) : option Z :=
  snd <$> list_find (fun a => h !! a = None) [64; 80; 96].
Definition demo_callback (t : Timer.t) : list (queue -> action) :=
  if Timer.m_callBack t =? 2 then [fun _ => ACancel (48, 2); fun _ => AAdd 4 8000000 (S754_zero false)] else [].

Lemma demo_alloc_ok h a : demo_alloc h = Some a -> h !! a = None /\ 0 < a < UINTPTR_MAX.
Proof.
  unfold demo_alloc. intros ([i x] & E & Ea)%fmap_Some. cbn [snd] in Ea. subst x.
  apply list_find_Some in E as (H1 & H2 & _). split; [done|].
  apply list_elem_of_lookup_2 in H1. rewrite !elem_of_cons, elem_of_nil in H1. unfold UINTPTR_MAX. lia.
Qed.

Lemma demo_callback_ok t f s cb when interval q : f ∈ demo_callback t -> f s = AAdd cb when interval -> timer_ok (Timer.make cb when interval q).
Proof.
  unfold demo_callback. destruct (_ =? 2); rewrite ?elem_of_cons, elem_of_nil; [|done]. intros [->|[->|[]]]; [done|].
  intros [= <- <- <-]. split; [done|]. intros H. discriminate H.
Qed.


Lemma addTimer_inserts_witness : exists s', addTimer demo_clock (fun m => m) 64 9 200 (S754_zero false) demo = Ret ((64, 4), s')
  /\ m_timers s' ≡ₚ (200, 64) :: m_timers demo.
Proof.
  destruct (addTimer_inserts demo_clock demo_clock_ok [] demo 64 9 200 (S754_zero false) demo_inv)
    as (s' & Hrun & _ & Hp & _); [vm_compute; reflexivity|vm_compute; split; reflexivity| |].
  - split; [cbn; lia|]. intros H. discriminate H.
  - exists s'. split; [exact Hrun|exact Hp].
Defined.

Lemma cancelInLoop_inactive_witness : exists s', cancelInLoop (16, 99) demo = Ret (tt, s') /\ m_timers s' = m_timers demo.
Proof.
  destruct (cancelInLoop_inactive [] demo (16, 99) demo_inv) as (s' & Hrun & _ & _ & Ht & _); [by_compute|].
  exists s'. split; [exact Hrun|exact Ht].
Defined.

Lemma cancelInLoop_active_aborts_witness : (32, 3) ∈ m_activeTimers demo /\ cancelInLoop (32, 3) demo = Crash AssertFailure.
Proof.
  assert ((32, 3) ∈ m_activeTimers demo) as Hin by by_compute.
  split; [exact Hin|]. exact (cancelInLoop_active_aborts [] demo (32, 3) demo_inv Hin).
Defined.

Lemma destroy_frees_witness : exists s', destroy demo = Ret (tt, s') /\ heap s' = ∅.
Proof. exact (destroy_frees demo demo_inv). Defined.

End TimerQueue.
