(* ===== verification/Redis.v ===== *)
(** Redis/RedisConnect.h: the socket loops, the command encoder, the reply
    parser over a fixed buffer of C memory, and the requests built on them. *)
From S2P Require Import Prelude Cxx.

Module Redis.

(** Return codes. *)
Definition OK : Z := 1.
Definition FAIL : Z := -1.
Definition SYSERR : Z := -3.
Definition NETERR : Z := -4.
Definition TIMEOUT : Z := -5.
Definition DATAERR : Z := -6.
Definition PARAMERR : Z := -8.
Definition NOTFOUND : Z := -9.
Definition NETCLOSE : Z := -10.
Definition SOCKET_TIMEOUT : Z := 10.

(** ** Socket *)

(** What a call of [send] or [recv] does; an error is temporary ([EAGAIN],
    [EINTR] and the like) or not. *)
Inductive send_result := Sent (n : Z) | SendAgain | SendError.
Inductive recv_result := Received (d : bytes) | PeerClosed | RecvAgain | RecvError.

Module Socket.

(** [send k rest] is the [k]-th call, given the bytes that are left; the
    result has the bytes that went out. *)
Fixpoint write_loop (send : nat -> bytes -> send_result) (fuel k : nat) (data : bytes) (times writed : Z)
    : outcome (Z * bytes * nat) :=
  match fuel with
  | O => Crash FuelExhausted
  | S fuel' =>
      if writed <? zlen data
      then
        match send k (zdrop writed data) with
        | Sent num =>
            if num >? 8 then write_loop send fuel' (S k) data 0 (writed + num)
            else if times + 1 >? 100 then Ret (TIMEOUT, ztake (writed + num) data, S k)
            else write_loop send fuel' (S k) data (times + 1) (writed + num)
        | SendAgain =>
            if times + 1 >? 100 then Ret (TIMEOUT, ztake writed data, S k)
            else write_loop send fuel' (S k) data (times + 1) writed
        | SendError => Ret (NETERR, ztake writed data, S k)
        end
      else Ret (writed, ztake writed data, k)
  end.

(** Each round sends a byte or counts up [times], which stops at 100. *)
Definition write_fuel (data : bytes) : nat := S (101 * S (length data)).

Definition write (send : nat -> bytes -> send_result) (k : nat) (data : bytes) : outcome (Z * bytes * nat) :=
  write_loop send (write_fuel data) k data 0 0.

(** [read] with [completed]: the result and the bytes stored. *)
Fixpoint read_loop (recv : nat -> Z -> recv_result) (fuel k : nat) (count times : Z) (got : bytes)
    : outcome (Z * bytes * nat) :=
  match fuel with
  | O => Crash FuelExhausted
  | S fuel' =>
      if zlen got <? count
      then
        match recv k (count - zlen got) with
        | Received d =>
            if zlen d >? 8 then read_loop recv fuel' (S k) count 0 (got ++ d)
            else if times + 1 >? 100 then Ret (TIMEOUT, got ++ d, S k)
            else read_loop recv fuel' (S k) count (times + 1) (got ++ d)
        | PeerClosed => Ret (NETCLOSE, got, S k)
        | RecvAgain =>
            if times + 1 >? 100 then Ret (TIMEOUT, got, S k)
            else read_loop recv fuel' (S k) count (times + 1) got
        | RecvError => Ret (NETERR, got, S k)
        end
      else Ret (zlen got, got, k)
  end.

Definition read (recv : nat -> Z -> recv_result) (k : nat) (count : Z) (completed : bool) : outcome (Z * bytes * nat) :=
  if completed then read_loop recv (S (101 * S (Z.to_nat count))) k count 0 []
  else
    match recv k count with
    | Received d => Ret (zlen d, d, S k)
    | PeerClosed => Ret (NETCLOSE, [], S k)
    | RecvAgain => Ret (0, [], S k)
    | RecvError => Ret (NETERR, [], S k)
    end.

End Socket.

(** ** Command *)
Module Command.

Record t := mk { status : Z; msg : bytes; res : list bytes; vec : list bytes }.

Definition init : t := mk 0 [] [] [].
Definition add (val : bytes) (c : t) : t := mk (status c) (msg c) (res c) (vec c ++ [val]).
Definition add_all (vals : list bytes) (c : t) : t := foldl (fun c v => add v c) c vals.
(** [add(DATA_TYPE)]: [to_string]. *)
Definition add_int (val : Z) (c : t) : t := add (dec val) c.

Definition item_string (item : bytes) : bytes := lit "$" ++ dec (zlen item) ++ CRLF ++ item ++ CRLF.
Definition toString (c : t) : bytes :=
  lit "*" ++ dec (zlen (vec c)) ++ CRLF ++ concat (map item_string (vec c)).

Definition set_status (x : Z) (c : t) : t := mk x (msg c) (res c) (vec c).
Definition set_msg (x : bytes) (c : t) : t := mk (status c) x (res c) (vec c).
Definition push_res (x : bytes) (c : t) : t := mk (status c) (msg c) (res c ++ [x]) (vec c).
Definition clear_vec (c : t) : t := mk (status c) (msg c) (res c) [].

(** [get(idx)]: [at] throws. *)
Definition get (idx : Z) (c : t) : outcome bytes :=
  match res c !! Z.to_nat idx with
  | Some v => if idx <? 0 then Crash UncaughtException else Ret v
  | None => Crash UncaughtException
  end.

(** *** C memory: a pointer is an index into the bytes of the buffer *)

Definition char_at (mem : bytes) (p : Z) : outcome ascii :=
  if p <? 0 then Crash UndefinedBehaviour else deref (mem !! Z.to_nat p).

(** [strstr(p, CRLF)]: the search runs up to the next NUL; running off
    the buffer is undefined. *)
Fixpoint find_crlf (l : bytes) : outcome (option Z) :=
  match l with
  | [] => Crash UndefinedBehaviour
  | c :: l' =>
      if decide (c = NUL) then Ret None
      else if is_prefix CRLF l then Ret (Some 0)
      else r ← find_crlf l'; Ret (option_map Z.succ r)
  end.
Definition strstr (mem : bytes) (p : Z) : outcome (option Z) :=
  if p <? 0 then Crash UndefinedBehaviour
  else r ← find_crlf (zdrop p mem); Ret (option_map (Z.add p) r).

(** [atoi(p)]; a number that is no [int] is undefined. *)
Definition atoi_at (mem : bytes) (p : Z) : outcome Z :=
  if bool_decide (in_s 32 (atoi (zdrop p mem))) then Ret (atoi (zdrop p mem)) else Crash UndefinedBehaviour.

(** [string(p, q)] *)
Definition string_of (mem : bytes) (p q : Z) : outcome bytes :=
  if bool_decide (0 <= p <= q /\ q <= zlen mem) then Ret (zslice p q mem) else Crash UndefinedBehaviour.

Abbreviation M := (ST t).

(** A pointer into the buffer is returned; the source never returns NULL. *)
Definition parseNode (mem : bytes) (msg len : Z) : M Z :=
  let str := msg + 1 in
  e ← lift (strstr mem str);
  match e with
  | None => mret msg
  | Some end_ =>
      sz ← lift (atoi_at mem str);
      if sz <? 0 then mret (msg + sz)
      else
        let str := end_ + 2 in
        let end_ := str + sz + 2 in
        if msg + len <? end_ then mret msg
        else
          d ← lift (string_of mem str (str + sz));
          _ ← modify (push_res d);
          mret end_
  end.

(** [parse] up to the loop over the elements of an array, which [items] is:
    it is given the count, the position and the end of the message. *)
Definition parse_head (items : Z -> Z -> Z -> M Z) (mem : bytes) (msg len : Z) : M Z :=
  c ← lift (char_at mem msg);
  if decide (c = "$"%char)
  then
    end_ ← parseNode mem msg len;
    if end_ - msg =? 0 then mret TIMEOUT
    else if end_ - msg =? -1 then mret NOTFOUND
    else mret OK
  else
    let str := msg + 1 in
    e ← lift (strstr mem str);
    match e with
    | None => mret TIMEOUT
    | Some end_ =>
        if decide (c = "+"%char \/ c = "-"%char \/ c = ":"%char)
        then
          _ ← modify (set_status OK);
          m ← lift (string_of mem str end_);
          _ ← modify (set_msg m);
          if decide (c = "+"%char) then mret OK
          else if decide (c = "-"%char) then mret FAIL
          else
            n ← lift (atoi_at mem str);
            _ ← modify (set_status n);
            mret OK
        else if decide (c = "*"%char)
        then
          cnt ← lift (atoi_at mem str);
          _ ← modify clear_vec;
          items cnt (end_ + 2) (msg + len)
        else mret DATAERR
    end.

(** The loop over the elements; an element that is itself an array takes the
    loop's place. *)
Fixpoint parse_items (fuel : nat) (mem : bytes) (cnt str tail : Z) : M Z :=
  match fuel with
  | O => crash FuelExhausted
  | S fuel' =>
      if cnt >? 0
      then
        c ← lift (char_at mem str);
        if decide (c = "*"%char) then parse_head (parse_items fuel' mem) mem str (tail - str)
        else
          end_ ← parseNode mem str (tail - str);
          if end_ =? str then mret TIMEOUT else parse_items fuel' mem (cnt - 1) end_ tail
      else r ← gets res; mret (zlen r)
  end.

Definition parse (fuel : nat) (mem : bytes) (msg len : Z) : M Z :=
  parse_head (parse_items fuel mem) mem msg len.

End Command.

(** ** RedisConnect *)

(** The members; the socket is the number of calls made on it and what went
    out. *)
Record redis := mkRedis {
  code : Z;
  memsz : Z;
  rstatus : Z;
  timeout : Z;
  buffer : bytes;
  rmsg : bytes;
  calls : nat;
  wire : bytes
}.

Section connection.
(** The peer: the results of the calls of [send] and [recv] in order. *)
Context (send : nat -> bytes -> send_result) (recv : nat -> Z -> recv_result).

Definition set_buffer (b : bytes) (n : nat) (r : redis) : redis :=
  mkRedis (code r) (memsz r) (rstatus r) (timeout r) b (rmsg r) n (wire r).

(** The reading loop of [doWork]. *)
Fixpoint receive (fuel : nat) (r : redis) (cmd : Command.t) (delay readed : Z) : outcome (Z * redis * Command.t) :=
  match fuel with
  | O => Crash FuelExhausted
  | S fuel' =>
      if readed <? memsz r
      then
        '(len, d, n) ← Socket.read recv (calls r) (memsz r - readed) false;
        if len <? 0 then Ret (len, set_buffer (buffer r) n r, cmd)
        else if len =? 0
        then
          let delay := delay + SOCKET_TIMEOUT in
          if delay >? timeout r then Ret (TIMEOUT, set_buffer (buffer r) n r, cmd)
          else receive fuel' (set_buffer (buffer r) n r) cmd delay readed
        else
          dest ← write_at readed d (buffer r);
          dest' ← write_at (readed + len) [NUL] dest;
          let r' := set_buffer dest' n r in
          '(v, cmd') ← Command.parse fuel' dest' 0 (readed + len) cmd;
          if v =? TIMEOUT then receive fuel' r' cmd' 0 (readed + len) else Ret (v, r', cmd')
      else Ret (PARAMERR, r, cmd)
  end.

Definition doWork (fuel : nat) (r : redis) (cmd : Command.t) : outcome (Z * redis * Command.t) :=
  '(n, out, k) ← Socket.write send (calls r) (Command.toString cmd);
  let r' := mkRedis (code r) (memsz r) (rstatus r) (timeout r) (buffer r) (rmsg r) k (wire r ++ out) in
  if n <? 0 then Ret (NETERR, r', cmd) else receive fuel r' cmd 0 0.

Definition error_text (c : Z) : bytes :=
  if c =? SYSERR then lit "system error"
  else if c =? NETERR then lit "network error"
  else if c =? DATAERR then lit "protocol error"
  else if c =? TIMEOUT then lit "response timeout"
  else if c =? NOTFOUND then lit "element not found"
  else lit "unknown error".

Definition getResult (fuel : nat) (r : redis) (cmd : Command.t) : outcome (Z * redis * Command.t) :=
  let cmd := Command.set_msg [] (Command.set_status 0 cmd) in
  '(c, r, cmd) ← doWork fuel r cmd;
  let cmd := if (c <? 0) && bool_decide (Command.msg cmd = []) then Command.set_msg (error_text c) cmd else cmd in
  Ret (c, mkRedis c (memsz r) (Command.status cmd) (timeout r) (buffer r) (Command.msg cmd) (calls r) (wire r), cmd).

(** [execute(val, args...)] *)
Definition execute (fuel : nat) (args : list bytes) (r : redis) : outcome (Z * redis) :=
  '(c, r', _) ← getResult fuel r (Command.add_all args Command.init); Ret (c, r').

(** [execute(vec, val, args...)]: the elements of the reply, if any. *)
Definition execute_vec (fuel : nat) (v : list bytes) (args : list bytes) (r : redis) : outcome (Z * list bytes * redis) :=
  '(c, r', cmd) ← getResult fuel r (Command.add_all args Command.init);
  Ret (c, if c >? 0 then Command.res cmd else v, r').

(** [get], [hget], [lpop], [rpop]: the first element of the reply. *)
Definition fetch (fuel : nat) (args : list bytes) (val : bytes) (r : redis) : outcome (Z * bytes * redis) :=
  '(c, v, r') ← execute_vec fuel [] args r;
  if c <=? 0 then Ret (c, val, r')
  else x ← deref (v !! 0%nat); Ret (c, x, r').

Definition get fuel (key val : bytes) := fetch fuel [lit "get"; key] val.
Definition hget fuel (key field val : bytes) := fetch fuel [lit "hget"; key; field] val.
Definition lpop fuel (key val : bytes) := fetch fuel [lit "lpop"; key] val.
Definition rpop fuel (key val : bytes) := fetch fuel [lit "rpop"; key] val.
Definition pop fuel (key val : bytes) := lpop fuel key val.

Definition ping fuel := execute fuel [lit "ping"].
Definition del fuel (key : bytes) := execute fuel [lit "del"; key].
Definition decr fuel (key : bytes) (val : Z) := execute fuel [lit "decrby"; key; dec val].
Definition incr fuel (key : bytes) (val : Z) := execute fuel [lit "incrby"; key; dec val].
Definition expire fuel (key : bytes) (t : Z) := execute fuel [lit "expire"; key; dec t].
Definition keys fuel (v : list bytes) (key : bytes) := execute_vec fuel v [lit "keys"; key].
Definition hdel fuel (key field : bytes) := execute fuel [lit "hdel"; key; field].
Definition set fuel (key val : bytes) (t : Z) :=
  if t >? 0 then execute fuel [lit "setex"; key; dec t; val] else execute fuel [lit "set"; key; val].
Definition hset fuel (key field val : bytes) := execute fuel [lit "hset"; key; field; val].
Definition lpush fuel (key val : bytes) := execute fuel [lit "lpush"; key; val].
Definition rpush fuel (key val : bytes) := execute fuel [lit "rpush"; key; val].
Definition push fuel (key val : bytes) := rpush fuel key val.
Definition lrange fuel (v : list bytes) (key : bytes) (start end_ : Z) :=
  execute_vec fuel v [lit "lrange"; key; dec start; dec end_].
Definition range fuel (v : list bytes) (key : bytes) (start end_ : Z) :=
  execute_vec fuel v [lit "lrange"; key; dec start; dec end_].
Definition zrem fuel (key field : bytes) := execute fuel [lit "zrem"; key; field].
Definition zadd fuel (key field : bytes) (score : Z) := execute fuel [lit "zadd"; key; dec score; field].
Definition zrange fuel (v : list bytes) (key : bytes) (start end_ : Z) (withscore : bool) :=
  if withscore then execute_vec fuel v [lit "zrange"; key; dec start; dec end_; lit "withscores"]
  else execute_vec fuel v [lit "zrange"; key; dec start; dec end_].

(** [ttl], [hlen]: the number the server answers. *)
Definition number (fuel : nat) (args : list bytes) (r : redis) : outcome (Z * redis) :=
  '(c, r') ← execute fuel args r; Ret (if c =? OK then rstatus r' else code r', r').
Definition ttl fuel (key : bytes) := number fuel [lit "ttl"; key].
Definition hlen fuel (key : bytes) := number fuel [lit "hlen"; key].

Definition auth (fuel : nat) (passwd : bytes) (r : redis) : outcome (Z * redis) :=
  match passwd with [] => Ret (OK, r) | _ :: _ => execute fuel [lit "auth"; passwd] r end.

(** RedisCache::set and RedisCache::get, given the connection drawn from the
    pool. *)
Definition cache_set (fuel : nat) (key value : bytes) (r : redis) : outcome (bool * redis) :=
  '(c, r') ← set fuel key value 0 r; Ret (negb (c =? PARAMERR), r').
Definition cache_get (fuel : nat) (key value : bytes) (r : redis) : outcome (bool * bytes * redis) :=
  '(c, v, r') ← get fuel key value r; Ret (c =? OK, v, r').

End connection.
End Redis.
