(* ===== verification/RedisReply.v ===== *)
(** The replies of Redis.v: the parser against the encoder, replies that
    arrive in pieces, and the replies the parser gets wrong. *)
From S2P Require Import Prelude Cxx Redis.
Import Redis.

(** ** [Socket::write] *)

(** [send] takes at least one byte and no more than there are. *)
Definition send_ok (send : nat -> bytes -> send_result) : Prop :=
  forall k rest n, rest <> [] -> send k rest = Sent n -> 0 < n <= zlen rest.

Lemma write_loop_spec send data fuel k times writed : send_ok send ->
  0 <= writed <= zlen data -> 0 <= times <= 100 ->
  (101 * Z.to_nat (zlen data - writed) + Z.to_nat (101 - times) < fuel)%nat ->
  exists r n k', Socket.write_loop send fuel k data times writed = Ret (r, ztake n data, k')
    /\ writed <= n <= zlen data
    /\ ((r = zlen data /\ n = zlen data) \/ r = TIMEOUT \/ r = NETERR).
Proof.
  intros Hs. revert k times writed. induction fuel as [|fuel IH]; intros k times writed Hw Ht Hf; [lia|].
  cbn [Socket.write_loop]. destruct (Z.ltb_spec writed (zlen data)) as [Hlt|Hge].
  2:{ exists writed, writed, k. split; [done|]. split; [lia|]. left. lia. }
  assert (zlen (zdrop writed data) = zlen data - writed) as Hz by (apply zlen_zdrop; lia).
  destruct (send k (zdrop writed data)) as [n| |] eqn:Es.
  - apply Hs in Es; [|intros E; rewrite E, zlen_nil in Hz; lia]. rewrite Hz in Es.
    assert (forall times', 0 <= times' <= 100 -> exists r m k',
      Socket.write_loop send fuel (S k) data times' (writed + n) = Ret (r, ztake m data, k')
      /\ writed <= m <= zlen data /\ ((r = zlen data /\ m = zlen data) \/ r = TIMEOUT \/ r = NETERR)) as Hgo.
    { intros times' Ht'. destruct (IH (S k) times' (writed + n)) as (r & m & k' & ? & ? & ?); [lia|lia|lia|].
      exists r, m, k'. split; [done|]. split; [lia|done]. }
    destruct (n >? 8); [by apply Hgo|].
    destruct (Z.gtb_spec (times + 1) 100); [|apply Hgo; lia].
    exists TIMEOUT, (writed + n), (S k). split; [done|]. split; [lia|tauto].
  - destruct (Z.gtb_spec (times + 1) 100).
    + exists TIMEOUT, writed, (S k). split; [done|]. split; [lia|tauto].
    + apply IH; lia.
  - exists NETERR, writed, (S k). split; [done|]. split; [lia|tauto].
Qed.

(** [Socket::write] returns whatever the peer does: it sends all the data
    and returns its length, or it gives up with TIMEOUT or NETERR after a
    prefix; the time-out counter bounds the calls. *)
Theorem write_total send k data : send_ok send ->
  exists r n k', Socket.write send k data = Ret (r, ztake n data, k') /\ 0 <= n <= zlen data
    /\ ((r = zlen data /\ ztake n data = data) \/ r = TIMEOUT \/ r = NETERR).
Proof.
  intros Hs. unfold Socket.write, Socket.write_fuel. pose proof (zlen_nonneg data).
  destruct (write_loop_spec send data (S (101 * S (length data))) k 0 0 Hs) as (r & n & k' & H1 & H2 & H3);
    [lia|lia|unfold zlen; lia|].
  exists r, n, k'. split; [done|]. split; [lia|]. destruct H3 as [[-> ->]|H3]; [|tauto].
  left. split; [done|]. by apply ztake_all.
Qed.

(** A peer that is slow at first. *)
Definition slow_send (k : nat) (rest : bytes) : send_result :=
  match k with O => SendAgain | S _ => Sent 1 end.

Lemma write_total_witness : exists r n k', Socket.write slow_send 0 (lit "abc") = Ret (r, ztake n (lit "abc"), k')
  /\ 0 <= n <= 3 /\ ((r = 3 /\ ztake n (lit "abc") = lit "abc") \/ r = TIMEOUT \/ r = NETERR).
Proof.
  apply (write_total slow_send 0 (lit "abc")). intros [|k] rest n Hne E; [discriminate E|].
  injection E as <-. destruct rest as [|c rest]; [done|]. rewrite zlen_cons. pose proof (zlen_nonneg rest). lia.
Defined.

(** ** The parser on what the encoder writes *)
Definition plain (l : bytes) : Prop := Forall (fun c => c <> NUL /\ c <> CR) l.

Lemma plain_dec n : plain (dec n).
Proof.
  assert (forall m, plain (udec m)) as Hu.
  { intros m. eapply Forall_impl; [apply udec_digits|]. cbn beta. intros c Hc.
    split; [|by apply isdigit_not_sign]. intros ->. vm_compute in Hc. discriminate Hc. }
  unfold dec. case_decide; [|apply Hu]. constructor; [split; discriminate|apply Hu].
Qed.

Lemma not_crlf c l : c <> CR -> is_prefix CRLF (c :: l) = false.
Proof. intros Hc. unfold CRLF. cbn [is_prefix]. destruct (decide (CR = c)); [congruence|done]. Qed.

Lemma find_crlf_app l d : plain l -> Command.find_crlf (l ++ CRLF ++ d) = Ret (Some (zlen l)).
Proof.
  induction 1 as [|c l [Hn Hc] Hl IH]; [done|]. cbn [app Command.find_crlf]. rewrite decide_False by done.
  rewrite not_crlf by done. rewrite IH. cbn. by rewrite zlen_cons, Z.add_comm.
Qed.

Lemma find_crlf_none l d : plain l -> Command.find_crlf (l ++ NUL :: d) = Ret None
  /\ Command.find_crlf (l ++ CR :: NUL :: d) = Ret None.
Proof.
  induction 1 as [|c l [Hn Hc] Hl [IH1 IH2]]; [done|]. cbn [app Command.find_crlf]. rewrite !decide_False by done.
  rewrite !not_crlf by done. by rewrite IH1, IH2.
Qed.

Lemma strstr_at mem p l d q : plain l -> mem = q ++ l ++ CRLF ++ d -> zlen q = p ->
  Command.strstr mem p = Ret (Some (p + zlen l)).
Proof.
  intros Hl -> <-. unfold Command.strstr. pose proof (zlen_nonneg q). rewrite (proj2 (Z.ltb_ge _ _)) by lia.
  rewrite zdrop_app_exact by done. by rewrite find_crlf_app.
Qed.

Lemma atoi_at_dec mem p n d q : in_s 32 n -> mem = q ++ dec n ++ CRLF ++ d -> zlen q = p ->
  Command.atoi_at mem p = Ret n.
Proof.
  intros Hn -> <-. unfold Command.atoi_at. rewrite zdrop_app_exact by done.
  by rewrite atoi_dec, bool_decide_true.
Qed.

Lemma zlen_item d : zlen (Command.item_string d) = 1 + zlen (dec (zlen d)) + 2 + zlen d + 2.
Proof. unfold Command.item_string. rewrite !zlen_app. change (zlen (lit "$")) with 1. change (zlen CRLF) with 2. lia. Qed.

(** A complete bulk string is read and stored. *)
Lemma parseNode_item mem pre d post len c : mem = pre ++ Command.item_string d ++ post -> zlen d < 2 ^ 31 ->
  zlen (Command.item_string d) <= len ->
  Command.parseNode mem (zlen pre) len c = Ret (zlen pre + zlen (Command.item_string d), Command.push_res d c).
Proof.
  intros Hmem Hd Hlen. rewrite zlen_item in *. pose proof (zlen_nonneg d).
  assert (mem = (pre ++ lit "$") ++ dec (zlen d) ++ CRLF ++ (d ++ CRLF ++ post)) as Hm1.
  { rewrite Hmem. unfold Command.item_string. by rewrite <- !app_assoc. }
  assert (zlen (pre ++ lit "$") = zlen pre + 1) as Hz by (rewrite zlen_app; done).
  assert (Command.strstr mem (zlen pre + 1) = Ret (Some (zlen pre + 1 + zlen (dec (zlen d))))) as H1.
  { by eapply strstr_at; [apply plain_dec|..]. }
  assert (Command.atoi_at mem (zlen pre + 1) = Ret (zlen d)) as H2.
  { eapply atoi_at_dec; [|exact Hm1|done]. range_lia. }
  set (e := zlen pre + 1 + zlen (dec (zlen d))) in *.
  assert (Command.string_of mem (e + 2) (e + 2 + zlen d) = Ret d) as H3.
  { assert (mem = (pre ++ lit "$" ++ dec (zlen d) ++ CRLF) ++ d ++ (CRLF ++ post)) as Hm2.
    { rewrite Hm1. by rewrite <- !app_assoc. }
    assert (zlen (pre ++ lit "$" ++ dec (zlen d) ++ CRLF) = e + 2) as He.
    { rewrite !zlen_app. change (zlen (lit "$")) with 1. change (zlen CRLF) with 2. unfold e. lia. }
    unfold Command.string_of. rewrite bool_decide_true.
    - rewrite Hm2, <- He. by rewrite zslice_app_mid.
    - pose proof (zlen_nonneg (pre ++ lit "$" ++ dec (zlen d) ++ CRLF)). pose proof (zlen_nonneg (CRLF ++ post)).
      rewrite Hm2, !zlen_app in *. lia. }
  unfold Command.parseNode. rewrite (lift_bind _ _ _ _ H1), (lift_bind _ _ _ _ H2).
  rewrite (proj2 (Z.ltb_ge (zlen d) 0)) by lia. cbv zeta.
  rewrite (proj2 (Z.ltb_ge (zlen pre + len) _)) by (unfold e; lia). rewrite (lift_bind _ _ _ _ H3).
  rewrite (ST_bind_eq _ _ c tt (Command.push_res d c)) by done. unfold mret, ST_ret. do 2 f_equal. unfold e. lia.
Qed.

(** The complete bulk strings at the start of an array. *)
Lemma parse_items_prefix ds fuel n mem pre post tail c : mem = pre ++ concat (map Command.item_string ds) ++ post ->
  Forall (fun d => zlen d < 2 ^ 31) ds -> zlen pre + zlen (concat (map Command.item_string ds)) <= tail ->
  zlen ds <= n ->
  Command.parse_items (length ds + fuel) mem n (zlen pre) tail c
    = Command.parse_items fuel mem (n - zlen ds) (zlen pre + zlen (concat (map Command.item_string ds))) tail
        (Command.mk (Command.status c) (Command.msg c) (Command.res c ++ ds) (Command.vec c)).
Proof.
  revert n pre c. induction ds as [|d ds IH]; intros n pre c Hmem Hds Ht Hn.
  - cbn [length map concat Nat.add]. rewrite app_nil_r, zlen_nil, Z.sub_0_r, zlen_nil, Z.add_0_r. by destruct c.
  - apply Forall_cons in Hds as [Hd Hds]. cbn [map concat length Nat.add] in *. rewrite zlen_app in Ht.
    rewrite zlen_cons in *. pose proof (zlen_nonneg ds). pose proof (zlen_nonneg (concat (map Command.item_string ds))).
    rewrite <- app_assoc in Hmem. cbn [Command.parse_items]. rewrite (proj2 (Z.gtb_lt _ _)) by lia.
    assert (Command.char_at mem (zlen pre) = Ret "$"%char) as Hc.
    { unfold Command.char_at. pose proof (zlen_nonneg pre). rewrite (proj2 (Z.ltb_ge _ _)) by lia.
      rewrite Hmem. unfold zlen. rewrite Nat2Z.id, lookup_app_r, Nat.sub_diag by lia. done. }
    rewrite (lift_bind _ _ _ _ Hc), decide_False by done.
    rewrite (ST_bind_eq _ _ _ _ _ (parseNode_item mem pre d _ (tail - zlen pre) c Hmem Hd ltac:(lia))).
    pose proof (zlen_item d) as Hz. pose proof (zlen_nonneg d). pose proof (zlen_nonneg (dec (zlen d))).
    rewrite (proj2 (Z.eqb_neq _ _)) by lia. rewrite <- zlen_app.
    rewrite (IH (n - 1) (pre ++ Command.item_string d) (Command.push_res d c)); [|by rewrite <- app_assoc|done| |lia].
    + cbn. rewrite <- app_assoc. cbn. rewrite !zlen_app, Z.add_assoc. f_equal. lia.
    + rewrite zlen_app. lia.
Qed.

(** An array of bulk strings. *)
Lemma parse_items_array ds fuel mem pre post tail c : mem = pre ++ concat (map Command.item_string ds) ++ post ->
  Forall (fun d => zlen d < 2 ^ 31) ds -> zlen pre + zlen (concat (map Command.item_string ds)) <= tail ->
  (length ds < fuel)%nat ->
  Command.parse_items fuel mem (zlen ds) (zlen pre) tail c
    = Ret (zlen (Command.res c ++ ds), Command.mk (Command.status c) (Command.msg c) (Command.res c ++ ds) (Command.vec c)).
Proof.
  intros Hmem Hds Ht Hf. replace fuel with (length ds + S (fuel - length ds - 1))%nat by lia.
  rewrite (parse_items_prefix ds _ _ mem pre post) by done. by rewrite Z.sub_diag.
Qed.

(** Up to the first element of an array. *)
Lemma parse_head_array mem pre n d len c items : mem = pre ++ lit "*" ++ dec n ++ CRLF ++ d -> in_s 32 n ->
  Command.parse_head items mem (zlen pre) len c
    = items n (zlen pre + 1 + zlen (dec n) + 2) (zlen pre + len) (Command.clear_vec c).
Proof.
  intros Hmem Hn. assert (mem = (pre ++ lit "*") ++ dec n ++ CRLF ++ d) as Hm1 by (rewrite Hmem; by rewrite <- !app_assoc).
  assert (zlen (pre ++ lit "*") = zlen pre + 1) as Hz by (rewrite zlen_app; done).
  assert (Command.char_at mem (zlen pre) = Ret "*"%char) as Hc.
  { unfold Command.char_at. pose proof (zlen_nonneg pre). rewrite (proj2 (Z.ltb_ge _ _)) by lia.
    rewrite Hmem. unfold zlen. rewrite Nat2Z.id, lookup_app_r, Nat.sub_diag by lia. done. }
  assert (Command.strstr mem (zlen pre + 1) = Ret (Some (zlen pre + 1 + zlen (dec n)))) as H1.
  { by eapply strstr_at; [apply plain_dec|..]. }
  assert (Command.atoi_at mem (zlen pre + 1) = Ret n) as H2 by (by eapply atoi_at_dec).
  unfold Command.parse_head. rewrite (lift_bind _ _ _ _ Hc).
  rewrite (decide_False (P := "*"%char = "$"%char)) by done. rewrite (lift_bind _ _ _ _ H1).
  rewrite decide_False by (intros [?|[?|?]]; discriminate). rewrite decide_True by done.
  by rewrite (lift_bind _ _ _ _ H2).
Qed.

(** An array as the server, or the encoder, writes it. *)
Definition array_head (n : Z) : bytes := lit "*" ++ dec n ++ CRLF.
Definition array (ds : list bytes) : bytes := array_head (zlen ds) ++ concat (map Command.item_string ds).

Lemma array_toString cmd : Command.toString cmd = array (Command.vec cmd).
Proof. unfold Command.toString, array, array_head. by rewrite <- !app_assoc. Qed.

Lemma parse_items_start fuel n d len c : in_s 32 n ->
  Command.parse fuel (array_head n ++ d) 0 len c
    = Command.parse_items fuel (array_head n ++ d) n (zlen (array_head n)) len (Command.clear_vec c).
Proof.
  intros Hn. assert (zlen (array_head n) = 0 + 1 + zlen (dec n) + 2) as ->.
  { unfold array_head. rewrite !zlen_app. change (zlen (lit "*")) with 1. change (zlen CRLF) with 2. lia. }
  unfold Command.parse. apply (parse_head_array _ [] n d len c); [|done].
  unfold array_head. by rewrite <- !app_assoc.
Qed.

Lemma parse_array ds fuel post c : Forall (fun d => zlen d < 2 ^ 31) ds -> zlen ds < 2 ^ 31 -> (length ds < fuel)%nat ->
  Command.parse fuel (array ds ++ post) 0 (zlen (array ds)) c
    = Ret (zlen (Command.res c ++ ds), Command.mk (Command.status c) (Command.msg c) (Command.res c ++ ds) []).
Proof.
  intros Hds Hn Hf. pose proof (zlen_nonneg ds). unfold array. rewrite <- app_assoc, parse_items_start by range_lia.
  apply (parse_items_array ds fuel _ (array_head (zlen ds)) post); [done|done|rewrite zlen_app; lia|done].
Qed.

(** C27. The parser reads back every command the encoder writes, whatever bytes
    its arguments hold: the elements are stored in order and their number is
    the result. *)
Theorem parse_toString fuel cmd post c : Forall (fun d => zlen d < 2 ^ 31) (Command.vec cmd) ->
  zlen (Command.vec cmd) < 2 ^ 31 -> (length (Command.vec cmd) < fuel)%nat ->
  Command.parse fuel (Command.toString cmd ++ post) 0 (zlen (Command.toString cmd)) c
    = Ret (zlen (Command.res c ++ Command.vec cmd),
           Command.mk (Command.status c) (Command.msg c) (Command.res c ++ Command.vec cmd) []).
Proof. rewrite array_toString. apply parse_array. Qed.

Lemma parse_toString_witness :
  Command.parse 3 (lit "*2" ++ CRLF ++ lit "$3" ++ CRLF ++ lit "get" ++ CRLF ++ lit "$2" ++ CRLF ++ CRLF ++ CRLF) 0 23
    Command.init = Ret (2, Command.mk 0 [] [lit "get"; CRLF] []).
Proof.
  exact (parse_toString 3 (Command.mk 0 [] [] [lit "get"; CRLF]) [] Command.init
    ltac:(repeat constructor) ltac:(vm_compute; reflexivity) ltac:(vm_compute; lia)).
Defined.

(** ** Replies that arrive in pieces *)

(** The replies that are not arrays, as the server writes them. *)
Inductive reply := Bulk (v : bytes) | Nil | Simple (m : bytes) | Error (m : bytes) | Integer (n : Z).

Definition encode (x : reply) : bytes :=
  match x with
  | Bulk v => Command.item_string v
  | Nil => lit "$-1" ++ CRLF
  | Simple m => lit "+" ++ m ++ CRLF
  | Error m => lit "-" ++ m ++ CRLF
  | Integer n => lit ":" ++ dec n ++ CRLF
  end.

Definition reply_ok (x : reply) : Prop :=
  match x with
  | Bulk v => zlen v < 2 ^ 31
  | Nil => True
  | Simple m | Error m => plain m
  | Integer n => in_s 32 n
  end.

(** What the request gets for it. *)
Definition answer (x : reply) (c : Command.t) : Z * Command.t :=
  match x with
  | Bulk v => (OK, Command.push_res v c)
  | Nil => (NOTFOUND, c)
  | Simple m => (OK, Command.set_msg m (Command.set_status OK c))
  | Error m => (FAIL, Command.set_msg m (Command.set_status OK c))
  | Integer n => (OK, Command.set_status n (Command.set_msg (dec n) (Command.set_status OK c)))
  end.

(** The line that starts a reply. *)
Definition line (x : reply) : ascii * bytes :=
  match x with
  | Bulk v => ("$"%char, dec (zlen v))
  | Nil => ("$"%char, dec (-1))
  | Simple m => ("+"%char, m)
  | Error m => ("-"%char, m)
  | Integer n => (":"%char, dec n)
  end.
Definition body (x : reply) : bytes := match x with Bulk v => v ++ CRLF | _ => [] end.

Lemma encode_line x : encode x = (line x).1 :: (line x).2 ++ CRLF ++ body x.
Proof. destruct x; cbn [encode line body fst snd]; rewrite ?app_nil_r; done. Qed.

Lemma line_plain x : reply_ok x -> plain (line x).2.
Proof. destruct x; cbn; intros ?; try done; apply plain_dec. Qed.

Lemma char_at_0 c mem : Command.char_at (c :: mem) 0 = Ret c.
Proof. done. Qed.

(** A prefix of a line: the search for its end stops at the terminator. *)
Lemma find_crlf_prefix l p s rest : plain l -> p ++ s = l ++ CRLF -> s <> [] ->
  Command.find_crlf (p ++ NUL :: rest) = Ret None.
Proof.
  intros Hl E Hs. destruct (app_eq_inv _ _ _ _ E) as [(k & -> & Hk)|(k & -> & Hk)].
  - unfold CRLF in Hk. destruct k as [|c1 k].
    { rewrite app_nil_r. by apply find_crlf_none. }
    destruct k as [|c2 k].
    { injection Hk as <- _. rewrite <- app_assoc. by apply find_crlf_none. }
    injection Hk as _ _ Hk. destruct k, s; done.
  - apply find_crlf_none. by apply Forall_app in Hl as [? _].
Qed.

Lemma parse_short fuel c p rest cmd : Command.find_crlf (p ++ NUL :: rest) = Ret None ->
  Command.parse fuel (c :: p ++ NUL :: rest) 0 (1 + zlen p) cmd = Ret (TIMEOUT, cmd).
Proof.
  intros H. assert (Command.strstr (c :: p ++ NUL :: rest) 1 = Ret None) as H1.
  { unfold Command.strstr. change (zdrop 1 (c :: p ++ NUL :: rest)) with (p ++ NUL :: rest). by rewrite H. }
  unfold Command.parse, Command.parse_head. rewrite (lift_bind _ _ _ _ (char_at_0 c _)).
  case_decide.
  - unfold Command.parseNode. change (0 + 1) with 1. unfold mbind, ST_bind, lift. by rewrite H1.
  - change (0 + 1) with 1. by rewrite (lift_bind _ _ _ _ H1).
Qed.

(** A bulk string whose body is still incomplete. *)
Lemma parse_short_bulk fuel (v b mem : bytes) rest cmd : zlen v < 2 ^ 31 -> zlen b < zlen v + 2 ->
  mem = lit "$" ++ dec (zlen v) ++ CRLF ++ b ->
  Command.parse fuel (mem ++ rest) 0 (zlen mem) cmd = Ret (TIMEOUT, cmd).
Proof.
  intros Hv Hb Hmem. pose proof (zlen_nonneg v).
  assert (mem ++ rest = lit "$" ++ dec (zlen v) ++ CRLF ++ (b ++ rest)) as Hm by (rewrite Hmem; by rewrite <- !app_assoc).
  assert (Command.strstr (mem ++ rest) 1 = Ret (Some (1 + zlen (dec (zlen v))))) as H1.
  { by eapply strstr_at; [apply plain_dec|..]. }
  assert (Command.atoi_at (mem ++ rest) 1 = Ret (zlen v)) as H2.
  { eapply atoi_at_dec; [|exact Hm|done]. range_lia. }
  assert (zlen mem = 1 + zlen (dec (zlen v)) + 2 + zlen b) as Hz.
  { rewrite Hmem, !zlen_app. change (zlen (lit "$")) with 1. change (zlen CRLF) with 2. lia. }
  assert (Command.char_at (mem ++ rest) 0 = Ret "$"%char) as Hc by (by rewrite Hm).
  assert (Command.parseNode (mem ++ rest) 0 (zlen mem) cmd = Ret (0, cmd)) as Hp.
  { unfold Command.parseNode. change (0 + 1) with 1. rewrite (lift_bind _ _ _ _ H1), (lift_bind _ _ _ _ H2).
    rewrite (proj2 (Z.ltb_ge (zlen v) 0)) by lia. cbv zeta.
    by rewrite (proj2 (Z.ltb_lt (0 + zlen mem) _)) by lia. }
  unfold Command.parse, Command.parse_head. rewrite (lift_bind _ _ _ _ Hc), decide_True by done.
  by rewrite (ST_bind_eq _ _ _ _ _ Hp).
Qed.

(** A prefix of a reply asks for more, and changes nothing. *)
Lemma parse_prefix fuel x (p s : bytes) rest cmd : reply_ok x -> p <> [] -> s <> [] -> p ++ s = encode x ->
  Command.parse fuel (p ++ NUL :: rest) 0 (zlen p) cmd = Ret (TIMEOUT, cmd).
Proof.
  intros Hx Hp Hs E. rewrite encode_line in E. destruct p as [|c p]; [done|]. cbn [app] in E.
  apply (inj2 cons) in E as [-> E]. rewrite app_assoc in E.
  destruct (app_eq_inv _ _ _ _ E) as [(k & Ek & Hk)|(k & Ek & Hk)].
  - destruct x as [v| | | |]; cbn [body line fst snd] in *; try (by destruct k, s).
    apply (parse_short_bulk fuel v k ("$"%char :: p) (NUL :: rest)); [done| |by rewrite Ek, <- app_assoc].
    assert (zlen (v ++ CRLF) = zlen k + zlen s) as Hz by (by rewrite Hk, zlen_app).
    rewrite zlen_app in Hz. change (zlen CRLF) with 2 in Hz.
    destruct s; [done|]. rewrite zlen_cons in Hz. pose proof (zlen_nonneg s). lia.
  - destruct k as [|c k].
    + destruct x as [v| | | |]; cbn [body] in Hk; try by rewrite Hk in Hs.
      cbn [line fst snd] in *. rewrite app_nil_r in Ek.
      apply (parse_short_bulk fuel v [] ("$"%char :: p) (NUL :: rest)); [done| |by rewrite <- Ek, app_nil_r].
      rewrite zlen_nil. pose proof (zlen_nonneg v). lia.
    + cbn [app]. rewrite zlen_cons. apply parse_short.
      apply (find_crlf_prefix (line x).2 p (c :: k)); [by apply line_plain|done|done].
Qed.

(** Lines that start with [+], [-] or [:]. *)
Lemma parse_line fuel c l d len cmd : plain l -> c = "+"%char \/ c = "-"%char \/ c = ":"%char ->
  Command.parse fuel (c :: l ++ CRLF ++ d) 0 len cmd =
    (if decide (c = "+"%char) then mret OK
     else if decide (c = "-"%char) then mret FAIL
     else n ← lift (Command.atoi_at (c :: l ++ CRLF ++ d) 1); _ ← modify (Command.set_status n); mret OK)
    (Command.set_msg l (Command.set_status OK cmd)).
Proof.
  intros Hl Hc. set (mem := c :: l ++ CRLF ++ d).
  assert (Command.strstr mem 1 = Ret (Some (1 + zlen l))) as Hs by (by eapply (strstr_at _ 1 _ _ [c])).
  assert (Command.string_of mem 1 (1 + zlen l) = Ret l) as Hd.
  { unfold Command.string_of, mem. pose proof (zlen_nonneg l). rewrite bool_decide_true.
    - f_equal. apply (zslice_app_mid [c]).
    - rewrite zlen_cons, zlen_app. pose proof (zlen_nonneg (CRLF ++ d)). lia. }
  unfold Command.parse, Command.parse_head. rewrite (lift_bind _ _ _ _ (char_at_0 c (l ++ CRLF ++ d) : Command.char_at mem 0 = _)).
  rewrite (decide_False (P := c = "$"%char)) by (intros ->; naive_solver). change (0 + 1) with 1.
  rewrite (lift_bind _ _ _ _ Hs), decide_True by done.
  rewrite (ST_bind_eq _ _ cmd tt (Command.set_status OK cmd)) by done. rewrite (lift_bind _ _ _ _ Hd).
  by rewrite (ST_bind_eq _ _ _ tt (Command.set_msg l (Command.set_status OK cmd))) by done.
Qed.

(** A whole reply is answered. *)
Lemma parse_whole fuel x rest cmd : reply_ok x ->
  Command.parse fuel (encode x ++ rest) 0 (zlen (encode x)) cmd = Ret (answer x cmd).
Proof.
  intros Hx. assert (encode x ++ rest = (line x).1 :: (line x).2 ++ CRLF ++ (body x ++ rest)) as Hm.
  { rewrite encode_line. cbn [app]. by rewrite <- !app_assoc. }
  destruct x as [v| |m|m|n]; cbn [line fst snd] in Hm.
  - pose proof (parseNode_item _ [] v rest (zlen (encode (Bulk v))) cmd eq_refl Hx ltac:(cbn [encode]; lia)) as Hp.
    change (zlen []) with 0 in Hp. cbn [app] in Hp. unfold Command.parse, Command.parse_head.
    assert (Command.char_at (encode (Bulk v) ++ rest) 0 = Ret "$"%char) as Hc by (by rewrite Hm).
    rewrite (lift_bind _ _ _ _ Hc), decide_True by done. rewrite (ST_bind_eq _ _ _ _ _ Hp).
    cbn [encode answer]. rewrite zlen_item. pose proof (zlen_nonneg v). pose proof (zlen_nonneg (dec (zlen v))).
    rewrite (proj2 (Z.eqb_neq _ 0)), (proj2 (Z.eqb_neq _ (-1))) by lia. done.
  - done.
  - rewrite Hm, parse_line by (done || tauto). done.
  - rewrite Hm, parse_line by (done || tauto). done.
  - rewrite Hm, parse_line by (apply plain_dec || tauto). rewrite !decide_False by done.
    rewrite (lift_bind _ _ _ n); [done|]. by eapply (atoi_at_dec _ 1 _ _ [":"%char]).
Qed.

(** ** The loop of [doWork] *)

(** A piece is stored after what was read, and terminated. *)
Lemma store_piece (got d buf : bytes) : (exists tl, buf = got ++ tl) -> zlen got + zlen d + 1 <= zlen buf ->
  exists dest rest, write_at (zlen got) d buf = Ret dest
    /\ write_at (zlen got + zlen d) [NUL] dest = Ret ((got ++ d) ++ NUL :: rest)
    /\ zlen ((got ++ d) ++ NUL :: rest) = zlen buf.
Proof.
  intros [tl ->] Hl. rewrite zlen_app in Hl. pose proof (zlen_nonneg got). pose proof (zlen_nonneg d).
  assert (exists t1 x t2, tl = t1 ++ x :: t2 /\ zlen t1 = zlen d) as (t1 & x & t2 & -> & Ht).
  { exists (ztake (zlen d) tl). pose proof (zlen_zdrop (zlen d) tl ltac:(lia)) as Hz.
    destruct (zdrop (zlen d) tl) as [|x t2] eqn:E; [rewrite zlen_nil in Hz; lia|].
    exists x, t2. rewrite <- E, ztake_zdrop. split; [done|]. apply zlen_ztake. lia. }
  exists ((got ++ d) ++ x :: t2), t2. rewrite !zlen_app, zlen_cons in *. pose proof (zlen_nonneg t2).
  rewrite write_at_ok by (rewrite ?zlen_app, ?zlen_cons; lia).
  rewrite ztake_app_exact by done. rewrite (app_assoc got t1), zdrop_app_exact by (rewrite zlen_app; lia).
  split; [by rewrite <- app_assoc|]. split; [|rewrite zlen_cons; lia].
  change (zlen [NUL]) with 1. rewrite write_at_ok by (change (zlen [NUL]) with 1; rewrite ?zlen_app, ?zlen_cons; lia).
  rewrite ztake_app_exact by (by rewrite zlen_app). change (x :: t2) with ([x] ++ t2). rewrite (app_assoc _ [x]).
  change (zlen [NUL]) with 1. by rewrite zdrop_app_exact by (rewrite !zlen_app; done).
Qed.

(** The peer whose next calls of [recv] deliver these pieces, and whatever
    after. *)
Definition delivers (recv : nat -> Z -> recv_result) (k : nat) (ps : list bytes) : Prop :=
  forall i p n, ps !! i = Some p -> recv (k + i)%nat n = Received p.


Section receive.
Context (recv : nat -> Z -> recv_result).

(** One round of the loop. *)
Lemma receive_piece fuel r cmd delay got p ps :
  delivers recv (calls r) (p :: ps) -> p <> [] -> (exists tl, buffer r = got ++ tl) ->
  zlen (buffer r) = memsz r + 1 -> zlen got + zlen p <= memsz r ->
  exists rest r', receive recv (S fuel) r cmd delay (zlen got)
      = ('(v, cmd') ← Command.parse fuel (buffer r') 0 (zlen (got ++ p)) cmd;
         if v =? TIMEOUT then receive recv fuel r' cmd' 0 (zlen (got ++ p)) else Ret (v, r', cmd'))
    /\ r' = set_buffer ((got ++ p) ++ NUL :: rest) (S (calls r)) r /\ zlen (buffer r') = memsz r' + 1.
Proof.
  intros Hd Hp Hb Hz Hl. assert (0 < zlen p) as Hpos.
  { destruct p; [done|]. rewrite zlen_cons. pose proof (zlen_nonneg p). lia. }
  destruct (store_piece got p (buffer r) Hb ltac:(lia)) as (dest & rest & H1 & H2 & H3).
  exists rest, (set_buffer ((got ++ p) ++ NUL :: rest) (S (calls r)) r).
  split; [|by split; [|cbn [buffer memsz set_buffer]; lia]]. cbn [receive]. rewrite (proj2 (Z.ltb_lt (zlen got) (memsz r))) by lia.
  unfold Socket.read. pose proof (Hd 0%nat p (memsz r - zlen got) eq_refl) as Hr. rewrite Nat.add_0_r in Hr.
  rewrite Hr. cbn [mbind outcome_bind].
  rewrite (proj2 (Z.ltb_ge (zlen p) 0)), (proj2 (Z.eqb_neq (zlen p) 0)) by lia.
  rewrite H1. cbn [mbind outcome_bind]. rewrite H2. cbn [mbind outcome_bind]. by rewrite zlen_app.
Qed.

Lemma receive_pieces x ps got fuel r cmd delay : reply_ok x -> ps <> [] -> Forall (fun p => p <> []) ps ->
  got ++ concat ps = encode x -> delivers recv (calls r) ps -> (exists tl, buffer r = got ++ tl) ->
  zlen (buffer r) = memsz r + 1 -> zlen (encode x) <= memsz r -> (length ps <= fuel)%nat ->
  exists b, zlen b = memsz r + 1 /\ receive recv fuel r cmd delay (zlen got)
    = Ret ((answer x cmd).1, set_buffer b (calls r + length ps) r, (answer x cmd).2).
Proof.
  intros Hx. revert got fuel r delay.
  induction ps as [|p ps IH]; intros got fuel r delay Hne Hps E Hd Hb Hz Hl Hf; [done|].
  cbn [length] in Hf. destruct fuel as [|fuel]; [lia|]. apply Forall_cons in Hps as [Hp Hps]. cbn [concat] in E.
  assert (zlen got + zlen p + zlen (concat ps) = zlen (encode x)) as Hlen by (rewrite <- E, !zlen_app; lia).
  pose proof (zlen_nonneg (concat ps)).
  destruct (receive_piece fuel r cmd delay got p ps Hd Hp Hb Hz ltac:(lia)) as (rest & r' & -> & Hr' & Hz').
  assert (buffer r' = (got ++ p) ++ NUL :: rest) as -> by (by rewrite Hr'). rewrite app_assoc in E. destruct ps as [|p' ps].
  - cbn [concat] in E. rewrite app_nil_r in E. rewrite E, parse_whole by done.
    destruct (answer x cmd) as [v cmd'] eqn:Ea. cbn [mbind outcome_bind fst snd].
    assert (v <> TIMEOUT) as Hv by (destruct x; injection Ea as <- _; done).
    rewrite (proj2 (Z.eqb_neq v TIMEOUT)) by done. rewrite Hr' in Hz' |- *. eexists. split; [exact Hz'|]. by rewrite Nat.add_1_r.
  - rewrite (parse_prefix fuel x (got ++ p) (concat (p' :: ps))); [|done| | |done].
    + cbn [mbind outcome_bind]. change (TIMEOUT =? TIMEOUT) with true. cbv iota beta.
      destruct (IH (got ++ p) fuel r' 0) as (b & Hzb & Hb'); try done.
      * intros i q n Hi. rewrite Hr'. cbn [calls set_buffer]. rewrite Nat.add_succ_comm. by apply Hd.
      * rewrite Hr'. by exists (NUL :: rest).
      * rewrite Hr'. done.
      * lia.
      * exists b. split; [by rewrite Hzb, Hr'|]. rewrite Hb', Hr'.
        by replace (calls r + length (p :: p' :: ps))%nat with (S (calls r) + length (p' :: ps))%nat by (cbn; lia).
    + intros E'. apply app_eq_nil in E' as [_ ?]. done.
    + apply Forall_cons in Hps as [Hp' _]. cbn. by destruct p'.
Qed.
End receive.

Lemma getResult_pieces send recv x ps fuel r cmd n out k :
  reply_ok x -> Forall (fun p => p <> []) ps -> concat ps = encode x ->
  Socket.write send (calls r) (Command.toString cmd) = Ret (n, out, k) -> 0 <= n ->
  delivers recv k ps -> zlen (buffer r) = memsz r + 1 -> zlen (encode x) <= memsz r -> (length ps <= fuel)%nat ->
  let '(c, cmd') := answer x (Command.set_msg [] (Command.set_status 0 cmd)) in
  let m := if (c <? 0) && bool_decide (Command.msg cmd' = []) then error_text c else Command.msg cmd' in
  exists b, zlen b = memsz r + 1 /\ getResult send recv fuel r cmd
    = Ret (c, mkRedis c (memsz r) (Command.status cmd') (timeout r) b m (k + length ps) (wire r ++ out),
           Command.mk (Command.status cmd') m (Command.res cmd') (Command.vec cmd')).
Proof.
  intros Hx Hps E Hw Hn Hd Hz Hl Hf. set (cmd0 := Command.set_msg [] (Command.set_status 0 cmd)).
  set (r0 := mkRedis (code r) (memsz r) (rstatus r) (timeout r) (buffer r) (rmsg r) k (wire r ++ out)).
  assert (ps <> []) as Hne by (intros ->; rewrite encode_line in E; done).
  destruct (receive_pieces recv x ps [] fuel r0 cmd0 0 Hx Hne Hps E Hd) as (b & Hzb & Hb); try done; [by exists (buffer r)|].
  destruct (answer x cmd0) as [c cmd'] eqn:Ea. cbv zeta. exists b. split; [done|]. unfold getResult. fold cmd0.
  unfold doWork. change (Command.toString cmd0) with (Command.toString cmd). rewrite Hw. cbn [mbind outcome_bind].
  rewrite (proj2 (Z.ltb_ge n 0)) by done. fold r0. change (zlen []) with 0 in Hb. rewrite Hb. cbn [mbind outcome_bind fst snd].
  unfold set_buffer. destruct cmd' as [st ms re ve]. by destruct ((c <? 0) && _).
Qed.

(** C24. A reply that is not an array is answered the same way however the
    network cuts it: after a request went out, [getResult] reads the pieces,
    asks for more while the reply is incomplete, and gives the code, the
    element, the message and the number of the whole reply. *)
Theorem reply_segmentation send recv x ps fuel r cmd n out k :
  reply_ok x -> Forall (fun p => p <> []) ps -> concat ps = encode x ->
  Socket.write send (calls r) (Command.toString cmd) = Ret (n, out, k) -> 0 <= n ->
  delivers recv k ps -> zlen (buffer r) = memsz r + 1 -> zlen (encode x) <= memsz r -> (length ps <= fuel)%nat ->
  let '(c, cmd') := answer x (Command.set_msg [] (Command.set_status 0 cmd)) in
  let m := if (c <? 0) && bool_decide (Command.msg cmd' = []) then error_text c else Command.msg cmd' in
  exists b, zlen b = memsz r + 1 /\ getResult send recv fuel r cmd
    = Ret (c, mkRedis c (memsz r) (Command.status cmd') (timeout r) b m (k + length ps) (wire r ++ out),
           Command.mk (Command.status cmd') m (Command.res cmd') (Command.vec cmd')).
Proof. apply getResult_pieces. Qed.

(** A peer that takes the request whole and answers in two pieces. *)
Definition good_send (k : nat) (rest : bytes) : send_result := Sent (zlen rest).
Definition two_pieces (a b : bytes) (k : nat) (n : Z) : recv_result :=
  match k with 1%nat => Received a | 2%nat => Received b | _ => PeerClosed end.
Definition fresh (n : Z) : redis := mkRedis 0 n 0 1000 (replicate (Z.to_nat (n + 1)) NUL) [] 0 [].

Lemma two_pieces_delivers a b : delivers (two_pieces a b) 1 [a; b].
Proof. by intros [|[|i]] p n; [intros [= <-]..|]. Qed.

Lemma reply_segmentation_witness :
  exists b, zlen b = 65 /\ getResult good_send (two_pieces (lit "$5" ++ [CR]) ([LF] ++ lit "hello" ++ CRLF)) 2 (fresh 64)
      (Command.mk 0 [] [] [lit "get"; lit "k"])
    = Ret (OK, mkRedis OK 64 0 1000 b [] 3 (Command.toString (Command.mk 0 [] [] [lit "get"; lit "k"])),
           Command.mk 0 [] [lit "hello"] [lit "get"; lit "k"]).
Proof.
  refine (reply_segmentation good_send _ (Bulk (lit "hello")) [lit "$5" ++ [CR]; [LF] ++ lit "hello" ++ CRLF] 2 (fresh 64)
    (Command.mk 0 [] [] [lit "get"; lit "k"]) 20 (Command.toString (Command.mk 0 [] [] [lit "get"; lit "k"])) 1
    _ _ _ _ _ (two_pieces_delivers _ _) _ _ _); try done.
  repeat constructor; done.
Defined.

(** ** Arrays that arrive in pieces *)

(** The first bytes of an array, up to the [$] of an element. *)
Definition array_part (n : Z) (xs : list bytes) : bytes :=
  array_head n ++ concat (map Command.item_string xs) ++ lit "$".

Lemma parse_array_part fuel n xs rest c : in_s 32 n -> zlen xs < n -> Forall (fun d => zlen d < 2 ^ 31) xs ->
  (length xs < fuel)%nat ->
  Command.parse fuel (array_part n xs ++ NUL :: rest) 0 (zlen (array_part n xs)) c
    = Ret (TIMEOUT, Command.mk (Command.status c) (Command.msg c) (Command.res c ++ xs) []).
Proof.
  intros Hn Hl Hxs Hf. replace fuel with (length xs + S (fuel - length xs - 1))%nat by lia. set (its := concat (map Command.item_string xs)).
  assert (array_part n xs ++ NUL :: rest = array_head n ++ its ++ (lit "$" ++ NUL :: rest)) as Hm.
  { unfold array_part. fold its. by rewrite <- !app_assoc. }
  assert (zlen (array_part n xs) = zlen (array_head n) + zlen its + 1) as Hz.
  { unfold array_part. fold its. rewrite !zlen_app. change (zlen (lit "$")) with 1. lia. }
  rewrite Hm, parse_items_start by done. rewrite <- Hm.
  rewrite (parse_items_prefix xs _ n _ _ _ _ _ Hm Hxs) by (fold its; lia). fold its.
  set (p := zlen (array_head n) + zlen its). set (mem := array_part n xs ++ NUL :: rest).
  assert (mem = (array_head n ++ its) ++ lit "$" ++ NUL :: rest) as Hm' by (unfold mem; rewrite Hm; by rewrite app_assoc).
  assert (zlen (array_head n ++ its) = p) as Hp by (by rewrite zlen_app).
  pose proof (zlen_nonneg (array_head n ++ its)).
  assert (zdrop p mem = lit "$" ++ NUL :: rest) as Hd by (rewrite Hm'; by apply zdrop_app_exact).
  assert (Command.char_at mem p = Ret "$"%char) as Hc.
  { unfold Command.char_at. rewrite (proj2 (Z.ltb_ge _ _)) by lia. rewrite Hm', <- Hp. unfold zlen.
    rewrite Nat2Z.id, lookup_app_r, Nat.sub_diag by lia. done. }
  assert (Command.strstr mem (p + 1) = Ret None) as Hs.
  { unfold Command.strstr. rewrite (proj2 (Z.ltb_ge _ _)) by lia. rewrite <- zdrop_zdrop by lia. by rewrite Hd. }
  cbn [Command.parse_items]. rewrite (proj2 (Z.gtb_lt _ _)) by lia.
  rewrite (lift_bind _ _ _ _ Hc), decide_False by done. unfold Command.parseNode.
  rewrite (ST_bind_eq _ _ _ p _ (lift_bind _ _ _ _ Hs)). by rewrite Z.eqb_refl.
Qed.

Lemma array_part_rest n xs ys rest2 : ys <> [] -> n = zlen (xs ++ ys) -> array_part n xs ++ rest2 = array (xs ++ ys) -> rest2 <> [].
Proof.
  intros Hys -> E ->. rewrite app_nil_r in E. unfold array_part, array in E. apply app_inv_head in E.
  rewrite map_app, concat_app in E. apply app_inv_head in E. destruct ys as [|y ys]; [done|]. cbn [map concat] in E.
  apply (f_equal zlen) in E. rewrite zlen_app, zlen_item in E. change (zlen (lit "$")) with 1 in E.
  pose proof (zlen_nonneg y). pose proof (zlen_nonneg (dec (zlen y))).
  pose proof (zlen_nonneg (concat (map Command.item_string ys))). lia.
Qed.

(** An array that arrives cut before the end is misread: every parse
    starts from the first element and appends again to the elements stored by
    the parse before, so the elements of the first piece are in the result
    twice. *)
Theorem array_reply_duplicates recv xs ys rest2 fuel r cmd :
  Forall (fun d => zlen d < 2 ^ 31) (xs ++ ys) -> zlen (xs ++ ys) < 2 ^ 31 -> ys <> [] ->
  array_part (zlen (xs ++ ys)) xs ++ rest2 = array (xs ++ ys) ->
  delivers recv (calls r) [array_part (zlen (xs ++ ys)) xs; rest2] ->
  zlen (buffer r) = memsz r + 1 -> zlen (array (xs ++ ys)) <= memsz r -> (length (xs ++ ys) + 3 <= fuel)%nat ->
  exists r', receive recv fuel r cmd 0 0
    = Ret (zlen (Command.res cmd ++ xs ++ xs ++ ys), r',
           Command.mk (Command.status cmd) (Command.msg cmd) (Command.res cmd ++ xs ++ xs ++ ys) []).
Proof.
  intros Hds Hn Hys E Hd Hz Hl Hf. set (n := zlen (xs ++ ys)) in *. set (p := array_part n xs) in *.
  assert (zlen p + zlen rest2 = zlen (array (xs ++ ys))) as Hlen by (by rewrite <- E, zlen_app).
  pose proof (zlen_nonneg rest2). pose proof (zlen_nonneg (xs ++ ys)).
  assert (zlen xs < n) as Hxs.
  { unfold n. rewrite zlen_app. destruct ys; [done|]. rewrite zlen_cons. pose proof (zlen_nonneg ys). lia. }
  destruct fuel as [|[|fuel]]; [lia|lia|].
  destruct (receive_piece recv (S fuel) r cmd 0 [] p [rest2]) as (t & r1 & H1 & Hr1 & Hz1);
    [done|by destruct n|by exists (buffer r)|done|change (zlen []) with 0; lia|].
  change (zlen []) with 0 in H1. cbn [app] in *. rewrite H1.
  assert (buffer r1 = p ++ NUL :: t) as -> by (by rewrite Hr1). rewrite length_app in Hf.
  apply Forall_app in Hds as [Hd1 Hd2].
  pose proof (parse_array_part (S fuel) n xs t cmd ltac:(range_lia) Hxs Hd1 ltac:(lia)) as Hp1. fold p in Hp1. rewrite Hp1.
  set (c1 := Command.mk _ _ _ _). cbn [mbind outcome_bind]. change (TIMEOUT =? TIMEOUT) with true. cbv iota.
  destruct (receive_piece recv fuel r1 c1 0 p rest2 []) as (t2 & r2 & H2 & Hr2 & Hz2);
    [|by apply (array_part_rest n xs ys)|rewrite Hr1; by exists (NUL :: t)|done|rewrite Hr1; cbn [memsz set_buffer]; lia|].
  { intros [|i] q m Hi; [injection Hi as <-|done]. rewrite Hr1. cbn [calls set_buffer].
    rewrite Nat.add_0_r, <- (Nat.add_1_r (calls r)). by apply Hd. }
  rewrite H2. assert (buffer r2 = array (xs ++ ys) ++ NUL :: t2) as -> by (by rewrite Hr2, <- E).
  rewrite E, parse_array; [|by apply Forall_app|done|rewrite length_app; lia].
  cbn [mbind outcome_bind]. rewrite (proj2 (Z.eqb_neq _ TIMEOUT)).
  - exists r2. unfold c1. cbn. by rewrite <- !app_assoc.
  - pose proof (zlen_nonneg (Command.res c1 ++ xs ++ ys)). unfold TIMEOUT. lia.
Qed.

(** [lrange] of a list of two, cut inside the second element. *)
Lemma array_reply_duplicates_witness :
  exists r', receive (two_pieces (array_part 2 [lit "a"]) (lit "1" ++ CRLF ++ lit "b" ++ CRLF)) 5
      (mkRedis 0 64 0 1000 (replicate 65 NUL) [] 1 []) Command.init 0 0
    = Ret (3, r', Command.mk 0 [] [lit "a"; lit "a"; lit "b"] []).
Proof.
  refine (array_reply_duplicates _ [lit "a"] [lit "b"] _ 5 (mkRedis 0 64 0 1000 (replicate 65 NUL) [] 1 [])
    Command.init _ _ _ _ (two_pieces_delivers _ _) _ _ _); try done.
  repeat constructor; done.
Defined.

(** A negative length moves the parser back: a server that answers the
    array of two elements [*2 $-4] makes [parse] call itself on the same bytes
    for ever. *)
Theorem negative_length_recurses fuel d len c :
  Command.parse fuel (array_head 2 ++ lit "$-4" ++ CRLF ++ d) 0 len c = Crash FuelExhausted.
Proof.
  set (mem := array_head 2 ++ lit "$-4" ++ CRLF ++ d). unfold Command.parse. revert len c.
  induction fuel as [fuel IH] using lt_wf_ind. intros len c.
  assert (forall items, Command.parse_head items mem 0 len c = items 2 4 len (Command.clear_vec c)) as Hhead.
  { intros items. apply (parse_head_array mem [] 2 (lit "$-4" ++ CRLF ++ d) len c items eq_refl). range_lia. }
  rewrite Hhead. destruct fuel as [|fuel]; [done|]. cbn [Command.parse_items]. change (2 >? 0) with true. cbv iota.
  rewrite (lift_bind (Command.char_at mem 4) _ _ "$"%char) by done. rewrite decide_False by done.
  assert (Command.parseNode mem 4 (len - 4) (Command.clear_vec c) = Ret (0, Command.clear_vec c)) as Hn by done.
  rewrite (ST_bind_eq _ _ _ _ _ Hn). change (0 =? 4) with false. cbv iota. destruct fuel as [|fuel]; [done|].
  cbn [Command.parse_items]. change (2 - 1 >? 0) with true. cbv iota.
  rewrite (lift_bind (Command.char_at mem 0) _ _ "*"%char) by done.
  rewrite decide_True by done. rewrite Z.sub_0_r. apply IH. lia.
Qed.

(** [RedisCache::set] answers true for whatever goes wrong but PARAMERR:
    a request of which the network took no byte is a success to its caller. *)
Theorem cache_set_hides_errors recv fuel key value r :
  exists r', cache_set (fun _ _ => SendError) recv fuel key value r = Ret (true, r')
    /\ code r' = NETERR /\ wire r' = wire r.
Proof.
  unfold cache_set, set, execute. change (0 >? 0) with false. cbv iota.
  set (cmd := Command.add_all _ _). unfold getResult, doWork. set (cmd0 := Command.set_msg [] _).
  assert (Socket.write (fun _ _ => SendError) (calls r) (Command.toString cmd0) = Ret (NETERR, [], S (calls r))) as ->.
  { unfold Socket.write, Socket.write_fuel. cbn [Socket.write_loop].
    rewrite array_toString. unfold array, array_head.
    rewrite (proj2 (Z.ltb_lt 0 _)); [by rewrite ztake_0|]. rewrite !zlen_app. change (zlen (lit "*")) with 1.
    pose proof (zlen_nonneg (dec (zlen (Command.vec cmd0)))). pose proof (zlen_nonneg CRLF).
    pose proof (zlen_nonneg (concat (map Command.item_string (Command.vec cmd0)))). lia. }
  cbn. eexists. split; [done|]. split; [done|]. by rewrite app_nil_r.
Qed.
