(* ===== verification/RedisSocket.v ===== *)
(** The socket of Redis/RedisConnect.h: connecting with a time limit, closing, and
    the connection object that owns the socket and the buffer. *)
From S2P Require Import Prelude Cxx.

(** ** The system calls *)

(** Each gives its result and the state it leaves: a descriptor or -1; whether
    [connect] returned 0; the events of the socket when [epoll_wait] reports any. *)
Class NetOs (K : Type) := {
  net_socket : K -> Z * K;
  net_connect : Z -> bytes -> Z -> K -> bool * K;
  net_epoll_create : K -> Z * K;
  net_epoll_ctl : Z -> Z -> Z -> K -> unit * K;
  net_epoll_wait : Z -> Z -> K -> option Z * K;
  net_so_error : Z -> Z -> K -> Z * K;
  net_fionbio : Z -> bool -> K -> unit * K;
  net_timeout : Z -> Z -> K -> unit * K;
  net_close : Z -> K -> unit * K
}.

(** What their documentation promises of the open descriptors, and of those that do
    not block. *)
Class NetOsSpec (K : Type) `{!NetOs K} := {
  opened : K -> gset Z;
  nonblocking : K -> gset Z;
  net_ok : K -> Prop;
  same (k k' : K) : Prop := net_ok k' /\ opened k' = opened k /\ nonblocking k' = nonblocking k;
  new_fd (fd : Z) (k k' : K) : Prop :=
    net_ok k' /\ nonblocking k' = nonblocking k /\
    (fd = -1 /\ opened k' = opened k \/ 0 <= fd /\ fd ∉ opened k /\ fd ∉ nonblocking k /\ opened k' = {[fd]} ∪ opened k);
  socket_spec : forall k, net_ok k -> new_fd (fst (net_socket k)) k (snd (net_socket k));
  epoll_create_spec : forall k, net_ok k -> new_fd (fst (net_epoll_create k)) k (snd (net_epoll_create k));
  connect_same : forall s a p k, net_ok k -> same k (snd (net_connect s a p k));
  epoll_ctl_same : forall h s e k, net_ok k -> same k (snd (net_epoll_ctl h s e k));
  epoll_wait_same : forall h t k, net_ok k -> same k (snd (net_epoll_wait h t k));
  so_error_same : forall s r k, net_ok k -> same k (snd (net_so_error s r k));
  timeout_same : forall s t k, net_ok k -> same k (snd (net_timeout s t k));
  fionbio_spec : forall s b k, net_ok k -> s ∈ opened k -> let k' := snd (net_fionbio s b k) in
    net_ok k' /\ opened k' = opened k /\ nonblocking k' = if b then {[s]} ∪ nonblocking k else nonblocking k ∖ {[s]};
  close_spec : forall s k, net_ok k -> let k' := snd (net_close s k) in
    net_ok k' /\ opened k' = opened k ∖ {[s]} /\ nonblocking k' = nonblocking k ∖ {[s]}
}.

(** ** [RedisConnect::Socket] *)
Module RedisSocket.

Definition INVALID_SOCKET : Z := -1.
Definition EPOLLOUT : Z := 4.
Definition EPOLLERR : Z := 8.
Definition EPOLLHUP : Z := 16.
Definition FAIL : Z := -1.
Definition SOCKET_TIMEOUT : Z := 10.

Definition IsSocketClosed (sock : Z) : bool := (sock =? INVALID_SOCKET) || (sock <? 0).

Section socket.
Context {K : Type} `{!NetOs K}.
Definition call {A} (f : K -> A * K) : ST K A := fun k => Ret (f k).

Definition SocketClose (sock : Z) : ST K unit := if IsSocketClosed sock then mret tt else call (net_close sock).

Definition SocketConnectTimeout (ip : bytes) (port timeout : Z) : ST K Z :=
  sock ← call net_socket;
  if IsSocketClosed sock then mret INVALID_SOCKET
  else
    _ ← call (net_fionbio sock true);
    connected ← call (net_connect sock ip port);
    if connected : bool
    then _ ← call (net_fionbio sock false); mret sock
    else
      handle ← call net_epoll_create;
      if handle <? 0 then _ ← SocketClose sock; mret INVALID_SOCKET
      else
        _ ← call (net_epoll_ctl handle sock (EPOLLOUT .| EPOLLERR .| EPOLLHUP)%cxx);
        events ← call (net_epoll_wait handle timeout);
        good ← match events with
               | Some ev =>
                   if negb ((ev .& EPOLLOUT)%cxx =? 0)
                   then
                     res ← call (net_so_error sock FAIL);
                     _ ← call (net_fionbio sock false);
                     mret (res =? 0)
                   else mret false
               | None => mret false
               end;
        _ ← call (net_close handle);
        if good : bool then mret sock else _ ← SocketClose sock; mret INVALID_SOCKET.

(** The member functions, on the descriptor [sock]. *)
Definition close (sock : Z) : ST K Z := _ ← SocketClose sock; mret INVALID_SOCKET.
Definition isClosed (sock : Z) : bool := IsSocketClosed sock.
Definition connect (ip : bytes) (port timeout : Z) (sock : Z) : ST K (bool * Z) :=
  _ ← close sock;
  sock ← SocketConnectTimeout (cstr ip) port timeout;
  mret (negb (IsSocketClosed sock), sock).

(** *** Descriptors *)
Context `{!NetOsSpec K}.
Implicit Types k : K.

(** A run that leaves the descriptors [O] open and [N] of them without blocking. *)
Definition leaves {A} (m : ST K A) k (P : A -> gset Z -> gset Z -> Prop) : Prop :=
  exists a k', m k = Ret (a, k') /\ net_ok k' /\ P a (opened k') (nonblocking k').

Lemma leaves_bind {A B} (m : ST K A) (f : A -> ST K B) k P Q : leaves m k P ->
  (forall a k', net_ok k' -> P a (opened k') (nonblocking k') -> leaves (f a) k' Q) -> leaves (m ≫= f) k Q.
Proof.
  intros (a & k' & E & Hk & HP) H. destruct (H a k' Hk HP) as (b & k2 & E2 & H2). exists b, k2. split; [|done].
  by rewrite (ST_bind_eq _ _ _ _ _ E).
Qed.

Lemma leaves_ret {A} (a : A) k (P : A -> gset Z -> gset Z -> Prop) : net_ok k -> P a (opened k) (nonblocking k) -> leaves (mret a) k P.
Proof. intros Hk HP. by exists a, k. Qed.

Lemma leaves_same {A} (f : K -> A * K) k : same k (snd (f k)) -> leaves (call f) k (fun _ O N => O = opened k /\ N = nonblocking k).
Proof. intros (Hk & Ho & Hn). unfold call. exists (fst (f k)), (snd (f k)). by destruct (f k). Qed.

Lemma leaves_call {A} (f : K -> A * K) k (P : A -> gset Z -> gset Z -> Prop) :
  net_ok (snd (f k)) -> P (fst (f k)) (opened (snd (f k))) (nonblocking (snd (f k))) -> leaves (call f) k P.
Proof. intros Hk HP. unfold call. exists (fst (f k)), (snd (f k)). by destruct (f k). Qed.

Lemma leaves_mono {A} (m : ST K A) k (P Q : A -> gset Z -> gset Z -> Prop) : leaves m k P -> (forall a O N, P a O N -> Q a O N) -> leaves m k Q.
Proof. intros (a & k' & E & Hk & HP) H. exists a, k'. auto. Qed.

(** A new descriptor, or none. *)
Definition made (O N : gset Z) (a : Z) (O' N' : gset Z) : Prop :=
  a = -1 /\ O' = O /\ N' = N \/ 0 <= a /\ a ∉ O /\ O' = {[a]} ∪ O /\ N' = N.

Lemma closed_neg s : IsSocketClosed s = true <-> s < 0.
Proof. unfold IsSocketClosed, INVALID_SOCKET. rewrite orb_true_iff, Z.eqb_eq, Z.ltb_lt. lia. Qed.
Lemma closed_nonneg s : 0 <= s -> IsSocketClosed s = false.
Proof. intros. apply not_true_iff_false. rewrite closed_neg. lia. Qed.

Lemma close_leaves s k : net_ok k -> leaves (SocketClose s) k (fun _ O N =>
  O = (if IsSocketClosed s then opened k else opened k ∖ {[s]}) /\ N = (if IsSocketClosed s then nonblocking k else nonblocking k ∖ {[s]})).
Proof.
  intros Hk. unfold SocketClose. destruct (IsSocketClosed s); [by apply leaves_ret|].
  destruct (close_spec s k Hk) as (H1 & H2 & H3). by apply leaves_call.
Qed.

(** Giving up: the socket is closed. *)
Lemma abandon O N sock k : net_ok k -> 0 <= sock -> sock ∉ O -> opened k = {[sock]} ∪ O -> nonblocking k ∖ {[sock]} = N ->
  leaves (_ ← SocketClose sock; mret INVALID_SOCKET) k (made O N).
Proof.
  intros Hk Hs Hn Ho Hb. eapply leaves_bind; [by apply close_leaves|]. intros _ k1 Hk1 [Ho1 Hb1]. rewrite closed_nonneg in Ho1, Hb1 by done.
  apply leaves_ret; [done|]. left. split; [done|]. rewrite Ho1, Hb1, Ho. split; [set_solver|done].
Qed.

(** What [epoll_wait] reported, looked at. *)
Lemma look_leaves events sock k : net_ok k -> sock ∈ opened k ->
  leaves (match events with
          | Some ev =>
              if negb ((ev .& EPOLLOUT)%cxx =? 0)
              then
                res ← call (net_so_error sock FAIL);
                _ ← call (net_fionbio sock false);
                mret (res =? 0)
              else mret false
          | None => mret false
          end) k (fun good O N => O = opened k /\ N ∖ {[sock]} = nonblocking k ∖ {[sock]} /\ (good = true -> sock ∉ N)).
Proof.
  intros Hk Hin. destruct events as [ev|]; [|by apply leaves_ret]. destruct (negb _); [|by apply leaves_ret].
  eapply leaves_bind; [by apply leaves_same, so_error_same|]. intros res k1 Hk1 [Ho1 Hn1].
  destruct (fionbio_spec sock false k1 Hk1 ltac:(by rewrite Ho1)) as (Hk2 & Ho2 & Hn2).
  eapply leaves_bind; [apply leaves_call with (P := fun _ O N => O = opened k /\ N = nonblocking k ∖ {[sock]}); [done|by rewrite Ho2, Hn2, Ho1, Hn1]|].
  intros _ k3 Hk3 [Ho3 Hn3]. apply leaves_ret; [done|]. rewrite Ho3, Hn3. split; [done|]. set_solver.
Qed.

Lemma SocketConnectTimeout_leaves ip port timeout k : net_ok k ->
  leaves (SocketConnectTimeout ip port timeout) k (made (opened k) (nonblocking k)).
Proof.
  intros Hk. unfold SocketConnectTimeout. destruct (socket_spec k Hk) as (Hk1 & Hn1 & Ho1).
  eapply leaves_bind; [apply leaves_call with (P := fun sock O N => N = nonblocking k /\
    (sock = -1 /\ O = opened k \/ 0 <= sock /\ sock ∉ opened k /\ sock ∉ nonblocking k /\ O = {[sock]} ∪ opened k)); [done|by split]|].
  clear Hk1 Hn1 Ho1. intros sock k1 Hk1 [Hn1 [[-> Ho1]|(Hs & Hns & Hnn & Ho1)]]; [apply leaves_ret; [done|by left]|].
  rewrite closed_nonneg by done. destruct (fionbio_spec sock true k1 Hk1 ltac:(rewrite Ho1; set_solver)) as (Hk2 & Ho2 & Hn2).
  eapply leaves_bind; [apply leaves_call with (P := fun _ O N => O = {[sock]} ∪ opened k /\ N = {[sock]} ∪ nonblocking k); [done|by rewrite Ho2, Hn2, Ho1, Hn1]|].
  clear Hk2 Ho2 Hn2. intros _ k2 Hk2 [Ho2 Hn2].
  eapply leaves_bind; [by apply leaves_same, connect_same|]. intros connected k3 Hk3 [Ho3 Hn3]. rewrite Ho2 in Ho3. rewrite Hn2 in Hn3. clear k2 Hk2 Ho2 Hn2. destruct connected.
  { destruct (fionbio_spec sock false k3 Hk3 ltac:(rewrite Ho3; set_solver)) as (Hk4 & Ho4 & Hn4).
    eapply leaves_bind; [apply leaves_call with (P := fun _ O N => O = {[sock]} ∪ opened k /\ N = nonblocking k); [done|rewrite Ho4, Hn4, Ho3, Hn3; split; [done|set_solver]]|].
    intros _ k5 Hk5 [Ho5 Hn5]. apply leaves_ret; [done|]. by right. }
  destruct (epoll_create_spec k3 Hk3) as (Hk4 & Hn4 & Ho4).
  eapply leaves_bind; [apply leaves_call with (P := fun handle O N => N = nonblocking k3 /\
    (handle = -1 /\ O = opened k3 \/ 0 <= handle /\ handle ∉ opened k3 /\ handle ∉ nonblocking k3 /\ O = {[handle]} ∪ opened k3)); [done|by split]|].
  clear Hk4 Hn4 Ho4. intros handle k4 Hk4 [Hn4 [[-> Ho4]|(Hh & Hnh & Hnb & Ho4)]].
  { cbn [Z.ltb Z.compare]. apply abandon; [done|done|done|by rewrite Ho4, Ho3|rewrite Hn4, Hn3; set_solver]. }
  rewrite (proj2 (Z.ltb_ge _ _)) by done. rewrite Ho3 in Ho4, Hnh. rewrite Hn3 in Hn4, Hnb.
  eapply leaves_bind; [by apply leaves_same, epoll_ctl_same|]. intros _ k5 Hk5 [Ho5 Hn5].
  eapply leaves_bind; [by apply leaves_same, epoll_wait_same|]. intros events k6 Hk6 [Ho6 Hn6].
  eapply leaves_bind; [apply look_leaves; [done|rewrite Ho6, Ho5, Ho4; set_solver]|]. intros good k7 Hk7 (Ho7 & Hn7 & Hg).
  destruct (close_spec handle k7 Hk7) as (Hk8 & Ho8 & Hn8). rewrite Ho7, Ho6, Ho5, Ho4 in Ho8. rewrite Hn6, Hn5, Hn4 in Hn7.
  eapply leaves_bind; [apply leaves_call with (P := fun _ O N => O = {[sock]} ∪ opened k /\ N ∖ {[sock]} = nonblocking k /\ (good = true -> sock ∉ N)); [done|]|].
  { rewrite Ho8, Hn8. split; [set_solver|]. split; [|set_solver].
    assert (nonblocking k7 ∖ {[handle]} ∖ {[sock]} = (nonblocking k7 ∖ {[sock]}) ∖ {[handle]}) as -> by set_solver. rewrite Hn7. set_solver. }
  intros _ k9 Hk9 (Ho9 & Hn9 & Hg9). destruct good; [|by apply abandon].
  apply leaves_ret; [done|]. right. split_and!; try done. specialize (Hg9 eq_refl). rewrite <- Hn9. set_solver.
Qed.

(** What is left of the descriptors when [sock] is given back. *)
Definition without (sock : Z) (O : gset Z) : gset Z := if isClosed sock then O else O ∖ {[sock]}.

Lemma connect_leaves ip port timeout sock k : net_ok k ->
  leaves (connect ip port timeout sock) k
    (fun r O N => fst r = negb (isClosed (snd r)) /\ made (without sock (opened k)) (without sock (nonblocking k)) (snd r) O N).
Proof.
  intros Hk. unfold connect, close.
  eapply (leaves_bind _ _ _ (fun _ O N => O = without sock (opened k) /\ N = without sock (nonblocking k)));
    [eapply leaves_bind; [by apply close_leaves|intros u k1 Hk1 H1; by apply leaves_ret]|].
  intros u k1 Hk1 [Ho1 Hn1]. eapply leaves_bind; [by apply SocketConnectTimeout_leaves|]. intros s2 k2 Hk2 Hm.
  apply leaves_ret; [done|]. cbn [fst snd]. split; [done|]. by rewrite <- Ho1, <- Hn1.
Qed.

(** C25. [Socket::connect] closes the socket it held and, whatever the system calls
    answer, leaves either one new descriptor, open and blocking, and returns true,
    or none; nothing else stays open. *)
Theorem connect_descriptors ip port timeout sock k : net_ok k ->
  exists ok sock' k', connect ip port timeout sock k = Ret ((ok, sock'), k') /\ ok = negb (isClosed sock') /\
  if ok : bool
  then 0 <= sock' /\ sock' ∉ without sock (opened k) /\ opened k' = {[sock']} ∪ without sock (opened k)
       /\ nonblocking k' = without sock (nonblocking k)
  else opened k' = without sock (opened k) /\ nonblocking k' = without sock (nonblocking k).
Proof.
  intros Hk. destruct (connect_leaves ip port timeout sock k Hk) as ([ok s'] & k' & E & _ & Hok & Hm).
  exists ok, s', k'. split; [exact E|]. split; [done|]. cbn [fst snd] in Hok, Hm. subst ok. unfold isClosed at 1.
  destruct Hm as [(-> & HO & HN)|(Hs & Hn & HO & HN)]; [done|]. by rewrite closed_nonneg.
Qed.

(** ** [RedisConnect]: the connection with its buffer *)

(** The members [connect] and [close] work on; the buffer is its size. *)
Record t := mk { sock : Z; buffer : option Z; host : bytes; port : Z; memsz : Z; timeout : Z }.

Definition close_connection (c : t) : ST K t := s ← close (sock c); mret (mk s None (host c) (port c) (memsz c) (timeout c)).

(** [new char[memsz + 1]] *)
Definition new_buffer (memsz : Z) : outcome Z :=
  if memsz =? 2 ^ 31 - 1 then Crash UndefinedBehaviour else if memsz + 1 <? 0 then Crash UncaughtException else Ret (memsz + 1).

Definition connect_connection (h : bytes) (p tmo mem : Z) (c : t) : ST K (bool * t) :=
  c ← close_connection c;
  '(ok, s) ← connect h p tmo (sock c);
  if ok : bool
  then
    _ ← call (net_timeout s SOCKET_TIMEOUT);
    _ ← call (net_timeout s SOCKET_TIMEOUT);
    b ← lift (new_buffer mem);
    mret (true, mk s (Some b) h p mem tmo)
  else mret (false, mk s (buffer c) (host c) (port c) (memsz c) (timeout c)).

(** Connecting gives back the old socket and buffer, and leaves the connection
    with a new socket and a buffer of [memsz + 1] bytes and its parameters set, or
    with neither and its parameters as they were. *)
Theorem connection_whole h p tmo mem c k : net_ok k -> 0 <= mem < 2 ^ 31 - 1 ->
  exists ok c' k', connect_connection h p tmo mem c k = Ret ((ok, c'), k') /\ ok = negb (isClosed (sock c')) /\
  buffer c' = (if ok then Some (mem + 1) else None) /\
  (host c', port c', memsz c', timeout c') = (if ok then (h, p, mem, tmo) else (host c, port c, memsz c, timeout c)) /\
  opened k' = (if ok then {[sock c']} else ∅) ∪ without (sock c) (opened k).
Proof.
  intros Hk Hm.
  assert (leaves (connect_connection h p tmo mem c) k (fun r O _ => fst r = negb (isClosed (sock (snd r))) /\
    buffer (snd r) = (if fst r then Some (mem + 1) else None) /\
    (host (snd r), port (snd r), memsz (snd r), timeout (snd r)) = (if fst r then (h, p, mem, tmo) else (host c, port c, memsz c, timeout c)) /\
    O = (if fst r then {[sock (snd r)]} else ∅) ∪ without (sock c) (opened k))) as ([ok c'] & k' & E & _ & H); [|by exists ok, c', k'].
  unfold connect_connection, close_connection, close.
  eapply (leaves_bind _ _ _ (fun c' O N => c' = mk INVALID_SOCKET None (host c) (port c) (memsz c) (timeout c) /\ O = without (sock c) (opened k))).
  { eapply (leaves_bind _ _ _ (fun s O N => s = INVALID_SOCKET /\ O = without (sock c) (opened k)));
      [eapply leaves_bind; [by apply close_leaves|intros u k1 Hk1 [H1 _]; by apply leaves_ret]|].
    intros s k1 Hk1 [-> H1]. by apply leaves_ret. }
  intros c1 k1 Hk1 [-> Ho1]. cbn [sock]. eapply leaves_bind; [by apply connect_leaves|]. intros [ok s] k2 Hk2 [Hok Hd].
  cbn [fst snd] in Hok, Hd. unfold without in Hd at 1. cbn [isClosed IsSocketClosed] in Hd. rewrite Ho1 in Hd. destruct Hd as [(-> & HO & _)|(Hs & _ & HO & _)].
  - subst ok. apply leaves_ret; [done|]. cbn. split_and!; try done. rewrite HO. set_solver.
  - unfold isClosed in Hok. rewrite closed_nonneg in Hok by done. subst ok. cbn [negb].
    eapply leaves_bind; [by apply leaves_same, timeout_same|]. intros _ k3 Hk3 [Ho3 _].
    eapply leaves_bind; [by apply leaves_same, timeout_same|]. intros _ k4 Hk4 [Ho4 _].
    unfold new_buffer. rewrite (proj2 (Z.eqb_neq _ _)), (proj2 (Z.ltb_ge _ _)) by lia.
    eapply (leaves_bind _ _ _ (fun b O _ => b = mem + 1 /\ O = opened k4)); [by exists (mem + 1), k4|]. intros b k5 Hk5 [-> Ho5].
    apply leaves_ret; [done|]. cbn. rewrite closed_nonneg by done. split_and!; try done. by rewrite Ho5, Ho4, Ho3, HO.
Qed.
End socket.

(** ** A table of descriptors whose peer answers a little later, or not *)
Record table := mkTable { t_open : gset Z; t_nonblocking : gset Z; t_next : Z; t_answer : option Z }.
Definition t_new (k : table) : Z * table :=
  (t_next k, mkTable ({[t_next k]} ∪ t_open k) (t_nonblocking k) (t_next k + 1) (t_answer k)).

#[export] Instance table_os : NetOs table := {
  net_socket := t_new;
  net_connect _ _ _ k := (false, k);
  net_epoll_create := t_new;
  net_epoll_ctl _ _ _ k := (tt, k);
  net_epoll_wait _ _ k := (t_answer k, k);
  net_so_error _ _ k := (0, k);
  net_fionbio s b k := (tt, mkTable (t_open k) (if b : bool then {[s]} ∪ t_nonblocking k else t_nonblocking k ∖ {[s]}) (t_next k) (t_answer k));
  net_timeout _ _ k := (tt, k);
  net_close s k := (tt, mkTable (t_open k ∖ {[s]}) (t_nonblocking k ∖ {[s]}) (t_next k) (t_answer k))
}.

Record table_ok (k : table) : Prop := {
  tk_next : 0 <= t_next k;
  tk_open : forall x, x ∈ t_open k -> x < t_next k;
  tk_nonblocking : forall x, x ∈ t_nonblocking k -> x ∈ t_open k
}.

#[export, refine] Instance table_spec : NetOsSpec table := { opened := t_open; nonblocking := t_nonblocking; net_ok := table_ok }.
Proof.
  1, 2: intros k [H1 H2 H3]; cbn; (split; [split; cbn; [lia|intros x Hx; apply elem_of_union in Hx as [->%elem_of_singleton|Hx%H2]; lia|set_solver]|]);
    (split; [done|]); right; (split; [done|]); (split; [intros Hx%H2; lia|]); split; [intros Hx%H3%H2; lia|done].
  1, 2, 3, 4, 5: by intros.
  - intros s b k [H1 H2 H3] Hs. cbn. split; [|by destruct b]. split; cbn; [done|done|]. destruct b; set_solver.
  - intros s k [H1 H2 H3]. cbn. split; [|done]. split; cbn; [done| |]; set_solver.
Defined.

(** The peer accepts while [epoll_wait] waits; the old socket 3 is closed. *)
Definition accepting : table := mkTable {[ 3 ]} ∅ 5 (Some 4).
Definition silent : table := mkTable {[ 3 ]} ∅ 5 None.
Lemma accepting_ok : net_ok accepting.
Proof. split; cbn; [done|intros x; rewrite elem_of_singleton; lia|set_solver]. Qed.
Lemma silent_ok : net_ok silent.
Proof. split; cbn; [done|intros x; rewrite elem_of_singleton; lia|set_solver]. Qed.

Lemma connect_descriptors_witness : net_ok accepting /\ exists k', connect (lit "127.0.0.1") 6379 3000 3 accepting = Ret ((true, 5), k') /\
  opened k' = {[ 5 ]}.
Proof.
  split; [exact accepting_ok|].
  destruct (connect_descriptors (lit "127.0.0.1") 6379 3000 3 accepting accepting_ok) as (ok & s & k' & E & _ & H).
  pose proof E as E'. vm_compute in E'. injection E' as <- <- _. destruct H as (_ & _ & Ho & _).
  exists k'. split; [exact E|]. rewrite Ho. reflexivity.
Defined.

Lemma connection_whole_witness : net_ok silent /\ exists c' k',
  connect_connection (lit "127.0.0.1") 6379 3000 100 (mk 3 (Some 11) [] 0 10 0) silent = Ret ((false, c'), k') /\
  buffer c' = None /\ opened k' = ∅.
Proof.
  split; [exact silent_ok|].
  destruct (connection_whole (lit "127.0.0.1") 6379 3000 100 (mk 3 (Some 11) [] 0 10 0) silent silent_ok ltac:(lia)) as (ok & c' & k' & E & _ & Hb & _ & Ho).
  pose proof E as E'. vm_compute in E'. injection E' as <- _ _.
  exists c', k'. split; [exact E|]. split; [exact Hb|]. rewrite Ho. reflexivity.
Defined.
End RedisSocket.
