(* ===== verification/RedisClient.v ===== *)
(** The whole object of Redis/RedisConnect.h: socket, buffer, code and password
    together, from [Setup] and [connect] to the answers of a session. *)
From S2P Require Import Prelude Cxx Redis RedisReply RedisSocket.

Module RedisClient.

(** The members of RedisConnect; a null [buffer] is [None]. *)
Record t := mk {
  code : Z; port : Z; memsz : Z; status : Z; timeout : Z; buffer : option bytes;
  msg : bytes; host : bytes; sock : Z; passwd : bytes
}.
Definition init : t := mk 0 0 0 0 0 None [] [] RedisSocket.INVALID_SOCKET [].

(** The system, the number of calls of [send] and [recv] so far, and what was
    sent. *)
Record net (K : Type) := mkNet { os : K; calls : nat; sent : bytes }.
Arguments mkNet {K}. Arguments os {K}. Arguments calls {K}. Arguments sent {K}.

Section client.
Context {K : Type} `{!NetOs K}.
(** The peer of an open socket, and what is in new memory. *)
Context (send : nat -> bytes -> Redis.send_result) (recv : nat -> Z -> Redis.recv_result) (garbage : Z -> bytes).
Abbreviation M := (ST (net K)).
Implicit Types c : t.

(** The members the socket part and the request part work on. *)
Definition as_socket c : RedisSocket.t := RedisSocket.mk (sock c) (zlen <$> buffer c) (host c) (port c) (memsz c) (timeout c).
Definition as_redis c (w : net K) : Redis.redis :=
  Redis.mkRedis (code c) (memsz c) (status c) (timeout c) (default [] (buffer c)) (msg c) (calls w) (sent w).

Definition of_socket c (s : RedisSocket.t) : t :=
  mk (code c) (RedisSocket.port s) (RedisSocket.memsz s) (status c) (RedisSocket.timeout s)
    (garbage <$> RedisSocket.buffer s) (msg c) (RedisSocket.host s) (RedisSocket.sock s) (passwd c).
Definition of_redis c (r : Redis.redis) : t :=
  mk (Redis.code r) (port c) (memsz c) (Redis.rstatus r) (timeout c)
    (match buffer c with Some _ => Some (Redis.buffer r) | None => None end) (Redis.rmsg r) (host c) (sock c) (passwd c).

Definition close c : M t := fun w =>
  '(s, k) ← RedisSocket.close_connection (as_socket c) (os w); Ret (of_socket c s, mkNet k (calls w) (sent w)).
Definition connect (h : bytes) (p tmo mem : Z) c : M (bool * t) := fun w =>
  '(ok, s, k) ← RedisSocket.connect_connection h p tmo mem (as_socket c) (os w);
  Ret ((ok, of_socket c s), mkNet k (calls w) (sent w)).

(** A request, on the socket; the calls fail on a closed one. *)
Definition request {A} (f : (nat -> bytes -> Redis.send_result) -> (nat -> Z -> Redis.recv_result) ->
    Redis.redis -> outcome (A * Redis.redis)) c : M (A * t) := fun w =>
  let closed := RedisSocket.isClosed (sock c) in
  '(a, r) ← f (if closed then fun _ _ => Redis.SendError else send) (if closed then fun _ _ => Redis.RecvError else recv) (as_redis c w);
  Ret ((a, of_redis c r), mkNet (os w) (Redis.calls r) (Redis.wire r)).

Definition set_passwd (pw : bytes) c : t :=
  mk (code c) (port c) (memsz c) (status c) (timeout c) (buffer c) (msg c) (host c) (sock c) pw.
Definition auth (fuel : nat) (pw : bytes) c : M (Z * t) := request (fun sd rv => Redis.auth sd rv fuel pw) (set_passwd pw c).

Definition reconnect (fuel : nat) c : M (bool * t) :=
  if decide (host c = []) then mret (false, c)
  else
    '(ok, c) ← connect (host c) (port c) (timeout c) (memsz c) c;
    if ok : bool then '(n, c) ← auth fuel (passwd c) c; mret (n >? 0, c) else mret (false, c).

(** [execute(vec, args...)] *)
Definition execute_vec (fuel : nat) (args : list bytes) c : M (Z * list bytes * t) :=
  '(a, c) ← request (fun sd rv r => '(n, v, r) ← Redis.execute_vec sd rv fuel [] args r; Ret ((n, v), r)) c;
  mret (a, c).

Definition getStatus c : Z := status c.
Definition getErrorCode c : Z := if RedisSocket.isClosed (sock c) then Redis.FAIL else if code c <? 0 then code c else 0.
Definition getErrorString c : bytes := msg c.

(** ** The template and the pool's creator *)
Definition Setup (h : bytes) (p : Z) (pw : bytes) (tmo mem : Z) c : t :=
  mk (code c) p mem (status c) tmo (buffer c) (msg c) h (sock c) pw.
Definition CanUse (template : t) : bool := port template >? 0.
Definition SetMaxConnCount (maxlen POOL_MAXLEN : Z) : Z := if maxlen >? 0 then maxlen else POOL_MAXLEN.

(** The function [grasp] gives its pool: a new object, connected with the
    parameters of the template. *)
Definition creator (fuel : nat) (template : t) : M (option t) :=
  '(ok, c) ← connect (host template) (port template) (timeout template) (memsz template) init;
  if ok : bool
  then '(n, c) ← auth fuel (passwd template) c; mret (if n =? 0 then None else Some c)
  else mret None.

(** ** A session

    What a client asks, what the server answers, and the pieces the answer
    comes in. *)
Record exchange := mkExchange { ask : list bytes; answer : reply; cut : list bytes }.
Definition question (e : exchange) : bytes := array (ask e).
Definition elements (x : reply) : list bytes := match x with Bulk v => [v] | _ => [] end.
Definition code_of (x : reply) : Z := match x with Nil => Redis.NOTFOUND | Error _ => Redis.FAIL | _ => Redis.OK end.
Definition result (e : exchange) : Z * list bytes := (code_of (answer e), elements (answer e)).

(** A reply of the protocol that fits the buffer. *)
Definition fits (mem : Z) (e : exchange) : Prop :=
  reply_ok (answer e) /\ Forall (fun p => p <> []) (cut e) /\ concat (cut e) = encode (answer e) /\ zlen (encode (answer e)) <= mem.
(** The peer takes the data [d] from the [k]-th call on, in parts: never more
    than 100 calls in a row that take 8 bytes or less, or none for now; [times]
    such calls came before, and [k'] is the next call. *)
Inductive goes_out : nat -> bytes -> Z -> nat -> Prop :=
| out_done k times : goes_out k [] times k
| out_many k d times n k' : send k d = Redis.Sent n -> 8 < n <= zlen d -> goes_out (S k) (zdrop n d) 0 k' -> goes_out k d times k'
| out_few k d times n k' : send k d = Redis.Sent n -> 0 < n <= 8 -> n <= zlen d -> times < 100 ->
    goes_out (S k) (zdrop n d) (times + 1) k' -> goes_out k d times k'
| out_again k d times k' : send k d = Redis.SendAgain -> d <> [] -> times < 100 -> goes_out (S k) d (times + 1) k' -> goes_out k d times k'.
(** Each question goes out, then its answer comes, a [recv] for each piece;
    [k'] is the call after the last. *)
Fixpoint answered (k : nat) (es : list exchange) (k' : nat) : Prop :=
  match es with
  | [] => k' = k
  | e :: es' => exists k1, goes_out k (question e) 0 k1 /\ delivers recv k1 (cut e) /\ answered (k1 + length (cut e)) es' k'
  end.

Fixpoint queries (fuel : nat) (asks : list (list bytes)) c : M (list (Z * list bytes) * t) :=
  match asks with
  | [] => mret ([], c)
  | a :: asks' => '(r, c) ← execute_vec fuel a c; '(rs, c) ← queries fuel asks' c; mret (r :: rs, c)
  end.

Context `{!NetOsSpec K}.
Hypothesis new_memory : forall n, 0 <= n -> zlen (garbage n) = n.

(** A socket, and a buffer for replies of [memsz] bytes. *)
Record connected c : Prop := {
  co_open : RedisSocket.isClosed (sock c) = false;
  co_buffer : exists b, buffer c = Some b /\ zlen b = memsz c + 1
}.

Lemma connect_run h p tmo mem c w : net_ok (os w) -> 0 <= mem < 2 ^ 31 - 1 ->
  exists ok c' k, connect h p tmo mem c w = Ret ((ok, c'), mkNet k (calls w) (sent w))
    /\ opened k = (if ok then {[sock c']} else ∅) ∪ RedisSocket.without (sock c) (opened (os w))
    /\ code c' = code c /\ passwd c' = passwd c
    /\ if ok : bool then connected c' /\ memsz c' = mem /\ host c' = h else RedisSocket.isClosed (sock c') = true /\ buffer c' = None.
Proof.
  intros Hk Hmem. destruct (RedisSocket.connection_whole h p tmo mem (as_socket c) (os w) Hk Hmem) as (ok & s & k & E & Hok & Hb & Hp & Ho).
  exists ok, (of_socket c s), k. split; [unfold connect; by rewrite E|]. split; [exact Ho|]. split; [done|]. split; [done|].
  unfold of_socket. cbn [sock buffer memsz host]. destruct ok; rewrite Hb in *; cbn [fmap option_fmap option_map].
  - injection Hp as Hh _ Hm _. split; [|by rewrite Hm, Hh]. split; cbn [sock buffer memsz]; [by apply negb_true_iff|].
    eexists. split; [done|]. rewrite new_memory by lia. by rewrite Hm.
  - split; [by destruct (RedisSocket.isClosed _)|done].
Qed.

Lemma write_loop_out k d times k' : goes_out k d times k' -> forall fuel data writed, 0 <= writed <= zlen data -> d = zdrop writed data ->
  0 <= times <= 100 -> (101 * length d + Z.to_nat (100 - times) < fuel)%nat ->
  Redis.Socket.write_loop send fuel k data times writed = Ret (zlen data, data, k').
Proof.
  induction 1 as [k times|k d times n k' Es Hn _ IH|k d times n k' Es Hn Hnd Ht _ IH|k d times k' Es Hd Ht _ IH];
    intros fuel data writed Hw Hdd Htm Hf; (destruct fuel as [|fuel]; [lia|]); cbn [Redis.Socket.write_loop].
  all: assert (zlen (zdrop writed data) = zlen data - writed) as Hz by (apply zlen_zdrop; lia).
  - destruct (Z.ltb_spec writed (zlen data)) as [H|H].
    + rewrite <- Hdd in Hz. change (zlen []) with 0 in Hz. lia.
    + replace writed with (zlen data) by lia. by rewrite ztake_all by lia.
  - subst d. rewrite (proj2 (Z.ltb_lt _ _)), Es, (proj2 (Z.gtb_lt _ _)) by lia. apply IH; [lia|by rewrite zdrop_zdrop by lia|lia|].
    unfold zdrop at 1. rewrite length_drop. unfold zlen in *. lia.
  - subst d. rewrite (proj2 (Z.ltb_lt _ _)), Es by lia. destruct (Z.gtb_spec n 8); [lia|]. destruct (Z.gtb_spec (times + 1) 100); [lia|].
    apply IH; [lia|by rewrite zdrop_zdrop by lia|lia|]. unfold zdrop at 1. rewrite length_drop. unfold zlen in *. lia.
  - subst d. assert (0 < zlen (zdrop writed data)) as Hp by (unfold zlen; destruct (zdrop writed data); [done|cbn; lia]).
    rewrite (proj2 (Z.ltb_lt _ _)), Es by lia. destruct (Z.gtb_spec (times + 1) 100); [lia|]. apply IH; [lia|done|lia|lia].
Qed.

Lemma write_whole k d k' : goes_out k d 0 k' -> Redis.Socket.write send k d = Ret (zlen d, d, k').
Proof.
  intros H. pose proof (zlen_nonneg d). apply (write_loop_out k d 0 k' H); [lia|by rewrite zdrop_0|lia|].
  unfold Redis.Socket.write_fuel. lia.
Qed.

Lemma command_eq args : Redis.Command.add_all args Redis.Command.init = Redis.Command.mk 0 [] [] args.
Proof.
  assert (forall l, Redis.Command.add_all args (Redis.Command.mk 0 [] [] l) = Redis.Command.mk 0 [] [] (l ++ args)) as H; [|apply H].
  unfold Redis.Command.add_all. induction args as [|a args IH]; intros l; cbn [foldl]; [by rewrite app_nil_r|].
  unfold Redis.Command.add at 2. cbn [Redis.Command.status Redis.Command.msg Redis.Command.res Redis.Command.vec].
  by rewrite IH, <- app_assoc.
Qed.

(** A request on a connected client. *)
Lemma query_run fuel e c w k : connected c -> fits (memsz c) e -> (length (cut e) <= fuel)%nat ->
  goes_out (calls w) (question e) 0 k -> delivers recv k (cut e) ->
  exists c', execute_vec fuel (ask e) c w = Ret ((result e, c'), mkNet (os w) (k + length (cut e)) (sent w ++ question e))
    /\ connected c' /\ code c' = code_of (answer e) /\ sock c' = sock c /\ memsz c' = memsz c /\ passwd c' = passwd c.
Proof.
  intros [Hopen (b & Hb & Hz)] (Hx & Hps & Hcat & Hfit) Hf Hgo Hd. set (cmd := Redis.Command.mk 0 [] [] (ask e)).
  pose proof (getResult_pieces send recv (answer e) (cut e) fuel (as_redis c w) cmd (zlen (question e)) (question e) k Hx Hps Hcat) as H.
  assert (Redis.Socket.write send (calls w) (Redis.Command.toString cmd) = Ret (zlen (question e), question e, k)) as Hw.
  { rewrite array_toString. by apply write_whole. }
  cbn [as_redis Redis.calls Redis.buffer Redis.memsz] in H. rewrite Hb in H. specialize (H Hw (zlen_nonneg _) Hd Hz Hfit Hf).
  set (cmd0 := Redis.Command.set_msg [] (Redis.Command.set_status 0 cmd)) in H.
  assert ((RedisReply.answer (answer e) cmd0).1 = code_of (answer e) /\ 
    (if code_of (answer e) >? 0 then Redis.Command.res (RedisReply.answer (answer e) cmd0).2 else []) = elements (answer e)) as [Hcode Hres] by (by destruct (answer e)).
  destruct (RedisReply.answer (answer e) cmd0) as [n cmd']. cbn [fst snd] in Hcode, Hres. subst n. cbv zeta in H.
  destruct H as (b' & Hz' & E). match type of E with _ = Ret (_, ?r, _) => set (r' := r) in E end.
  exists (of_redis c r'). split; [|split; [|done]].
  - unfold execute_vec, request. unfold mbind at 1, ST_bind at 1. rewrite Hopen. unfold Redis.execute_vec. rewrite command_eq. fold cmd.
    rewrite E. cbn [mbind outcome_bind Redis.Command.res]. unfold result. by rewrite Hres.
  - split; [done|]. exists b'. unfold of_redis. cbn [buffer memsz]. by rewrite Hb.
Qed.

Lemma queries_run fuel es c w k : connected c -> Forall (fits (memsz c)) es -> Forall (fun e => (length (cut e) <= fuel)%nat) es ->
  answered (calls w) es k ->
  exists c', queries fuel (map ask es) c w
      = Ret ((map result es, c'), mkNet (os w) k (sent w ++ concat (map question es)))
    /\ connected c' /\ sock c' = sock c.
Proof.
  revert c w. induction es as [|e es IH]; intros c w Hc Hfits Hfuel Hans.
  - exists c. cbn in *. subst k. rewrite app_nil_r. by destruct w.
  - apply Forall_cons in Hfits as [He Hfits], Hfuel as [Hf Hfuel]. destruct Hans as (k1 & Hgo & Hd & Hans).
    destruct (query_run fuel e c w k1 Hc He Hf Hgo Hd) as (c1 & E1 & Hc1 & _ & Hs1 & Hm1 & _).
    destruct (IH c1 (mkNet (os w) (k1 + length (cut e)) (sent w ++ question e))) as (c2 & E2 & Hc2 & Hs2); [done|by rewrite Hm1|done|done|].
    exists c2. split; [|split; [done|congruence]]. cbn [map queries]. rewrite (ST_bind_eq _ _ _ _ _ E1). rewrite (ST_bind_eq _ _ _ _ _ E2).
    cbn [os calls sent concat map]. by rewrite <- app_assoc.
Qed.

(** The exchange of [auth], if there is a password. *)
Definition login (pw : bytes) (m : bytes) (ps : list bytes) : list exchange :=
  match pw with [] => [] | _ :: _ => [mkExchange [lit "auth"; pw] (Simple m) ps] end.

Lemma auth_none fuel c w : connected c -> passwd c = [] -> auth fuel [] c w = Ret ((Redis.OK, c), w).
Proof.
  intros [Hopen (b & Hb & _)] Hp. destruct c as [co po me st ti bu ms ho so pw], w as [o k s]. cbn in Hp, Hb, Hopen. subst pw bu.
  unfold auth, request. cbn [set_passwd sock]. by rewrite Hopen.
Qed.

Lemma auth_query fuel c w : passwd c <> [] ->
  auth fuel (passwd c) c w = ('(r, c') ← execute_vec fuel [lit "auth"; passwd c] c; mret (r.1, c')) w.
Proof.
  intros Hp. unfold auth, execute_vec, request, mbind, ST_bind. assert (set_passwd (passwd c) c = c) as -> by (by destruct c).
  unfold Redis.auth. destruct (passwd c) as [|x pw]; [done|]. unfold Redis.execute, Redis.execute_vec.
  by destruct (Redis.getResult _ _ _ _ _) as [[[n r] cmd]|].
Qed.

(** Authentication of a connected client. *)
Lemma auth_run fuel c w m ps k : connected c -> Forall (fits (memsz c)) (login (passwd c) m ps) ->
  Forall (fun e => (length (cut e) <= fuel)%nat) (login (passwd c) m ps) -> answered (calls w) (login (passwd c) m ps) k -> 0 <= code c ->
  exists c', auth fuel (passwd c) c w = Ret ((Redis.OK, c'), mkNet (os w) k
      (sent w ++ concat (map question (login (passwd c) m ps))))
    /\ connected c' /\ 0 <= code c' /\ sock c' = sock c /\ memsz c' = memsz c.
Proof.
  intros Hc Hfits Hfuel Hans Hcode. destruct (decide (passwd c = [])) as [Hp|Hp].
  - rewrite Hp in *. cbn in Hans. subst k. rewrite auth_none by done. cbn. rewrite app_nil_r. exists c. by destruct w.
  - rewrite auth_query by done. unfold login in *. destruct (passwd c) as [|x pw] eqn:Epw; [done|]. rewrite <- Epw in *.
    apply Forall_cons in Hfits as [Hfit _], Hfuel as [Hf _]. destruct Hans as (k1 & Hgo & Hd & ->).
    destruct (query_run fuel _ c w k1 Hc Hfit Hf Hgo Hd) as (c1 & E1 & Hc1 & Hcode1 & Hs1 & Hm1 & _). cbn [ask] in E1.
    exists c1. rewrite (ST_bind_eq _ _ _ _ _ E1). split; [|by rewrite Hcode1].
    cbn [map concat result fst cut]. by rewrite app_nil_r.
Qed.

Lemma answered_app k es fs k' : answered k (es ++ fs) k' <-> exists k1, answered k es k1 /\ answered k1 fs k'.
Proof.
  revert k. induction es as [|e es IH]; intros k; cbn [app answered]; [by split; [intros H; exists k|intros (? & -> & H)]|]. split.
  - intros (k1 & Hgo & Hd & (k2 & H1 & H2)%IH). exists k2. split; [|done]. by exists k1.
  - intros (k2 & (k1 & Hgo & Hd & H1) & H2). exists k1. split; [done|]. split; [done|]. apply IH. by exists k2.
Qed.

(** C37. A session of the Redis client over the whole object: [reconnect] on a
    new or a used connection either finds no server - then no socket and no
    buffer are left - or connects and authenticates; then every request sent
    one after the other gets the answer of its own reply, however the requests
    go out - short and temporarily refused sends included, as long as no more
    than 100 in a row take 8 bytes or less - and the replies are cut; the
    socket it held before is closed and the server has received the password
    and the requests in order, and nothing else.  The replies are scalar (an
    array that comes in pieces is answered wrongly, [array_reply_duplicates])
    and fit the buffer, and the password, if any, is answered by a status. *)
Theorem redis_session fuel c w m ps es k' : net_ok (os w) -> host c <> [] -> 0 <= memsz c < 2 ^ 31 - 1 -> 0 <= code c ->
  Forall (fits (memsz c)) (login (passwd c) m ps ++ es) -> Forall (fun e => (length (cut e) <= fuel)%nat) (login (passwd c) m ps ++ es) ->
  answered (calls w) (login (passwd c) m ps ++ es) k' ->
  exists ok c1 w1, reconnect fuel c w = Ret ((ok, c1), w1)
    /\ opened (os w1) = (if ok then {[sock c1]} else ∅) ∪ RedisSocket.without (sock c) (opened (os w))
    /\ if ok : bool
       then getErrorCode c1 = 0 /\ exists c2 w2, queries fuel (map ask es) c1 w1 = Ret ((map result es, c2), w2)
         /\ sent w2 = sent w ++ concat (map question (login (passwd c) m ps ++ es)) /\ sock c2 = sock c1 /\ os w2 = os w1
       else getErrorCode c1 = Redis.FAIL /\ buffer c1 = None /\ sent w1 = sent w.
Proof.
  intros Hk Hh Hmem Hcode [Hfl Hfe]%Forall_app [Hul Hue]%Forall_app (k1 & Hal & Hae)%answered_app.
  destruct (connect_run (host c) (port c) (timeout c) (memsz c) c w Hk Hmem) as (ok & c1 & k & E1 & Ho & Hco & Hpw & Hc1).
  unfold reconnect. rewrite decide_False by done. rewrite (ST_bind_eq _ _ _ _ _ E1). cbv iota beta. destruct ok.
  - destruct Hc1 as (Hc1 & Hm1 & _). rewrite <- Hpw in *. rewrite <- Hm1 in *.
    destruct (auth_run fuel c1 (mkNet k (calls w) (sent w)) m ps k1 Hc1 Hfl Hul Hal) as (c2 & E2 & Hc2 & Hco2 & Hs2 & Hm2); [lia|].
    set (w2 := mkNet _ _ _) in E2 at 2. exists true, c2, w2. split; [rewrite (ST_bind_eq _ _ _ _ _ E2); reflexivity|].
    split; [by rewrite Hs2|]. split.
    { unfold getErrorCode. rewrite (co_open _ Hc2). by rewrite (proj2 (Z.ltb_ge _ _)). }
    destruct (queries_run fuel es c2 w2 k' Hc2) as (c3 & E3 & _ & Hs3); [by rewrite Hm2|done|done|].
    exists c3. eexists. split; [exact E3|]. split; [|done]. cbn [sent w2]. by rewrite map_app, concat_app, <- app_assoc.
  - destruct Hc1 as [Hcl Hb]. exists false, c1, (mkNet k (calls w) (sent w)). split; [done|]. split; [done|].
    split; [unfold getErrorCode; by rewrite Hcl|done].
Qed.

(** A connection in error stays in error when it is connected again without a
    password: nothing resets the code, so that a pool throws it away. *)
Theorem reconnect_keeps_error fuel c w : net_ok (os w) -> host c <> [] -> 0 <= memsz c < 2 ^ 31 - 1 -> passwd c = [] -> code c < 0 ->
  exists ok c1 w1, reconnect fuel c w = Ret ((ok, c1), w1)
    /\ getErrorCode c1 = if ok : bool then code c else Redis.FAIL.
Proof.
  intros Hk Hh Hmem Hp Hcode.
  destruct (connect_run (host c) (port c) (timeout c) (memsz c) c w Hk Hmem) as (ok & c1 & k & E1 & _ & Hco & Hpw & Hc1).
  unfold reconnect. rewrite decide_False by done. rewrite (ST_bind_eq _ _ _ _ _ E1). cbv iota beta. destruct ok.
  - destruct Hc1 as (Hc1 & _ & _). rewrite Hp in Hpw. rewrite Hpw.
    exists true, c1, (mkNet k (calls w) (sent w)). rewrite (ST_bind_eq _ _ _ _ _ (auth_none fuel c1 _ Hc1 Hpw)). split; [done|].
    unfold getErrorCode. rewrite (co_open _ Hc1), Hco. by rewrite (proj2 (Z.ltb_lt _ _)).
  - exists false, c1, (mkNet k (calls w) (sent w)). split; [done|]. unfold getErrorCode. by rewrite (proj1 Hc1).
Qed.
End client.

(** ** Witnesses: a used connection, a server that wants a password. *)
#[local] Existing Instances RedisSocket.table_os RedisSocket.table_spec.
Definition whole (k : nat) (d : bytes) : Redis.send_result := Redis.Sent (zlen d).
(** The second request goes out in three calls, the first of which is refused. *)
Definition slow (k : nat) (d : bytes) : Redis.send_result :=
  match k with 3%nat => Redis.SendAgain | 4%nat => Redis.Sent 5 | _ => Redis.Sent (zlen d) end.
Definition script (k : nat) (_ : Z) : Redis.recv_result :=
  Redis.Received (nth k [[]; lit "+O"; lit "K" ++ CRLF; []; []; []; lit "$5" ++ CRLF ++ lit "hel"; lit "lo" ++ CRLF; []; lit "$-1" ++ CRLF] []).
Definition zeroes (n : Z) : bytes := replicate (Z.to_nat n) NUL.
Definition used : t := mk 0 6379 64 0 3000 (Some (zeroes 65)) [] (lit "127.0.0.1") 3 (lit "pw").
Definition get_key : exchange := mkExchange [lit "get"; lit "key"] (Bulk (lit "hello")) [lit "$5" ++ CRLF ++ lit "hel"; lit "lo" ++ CRLF].
Definition get_none : exchange := mkExchange [lit "get"; lit "none"] Nil [lit "$-1" ++ CRLF].
Definition ok_pieces : list bytes := [lit "+O"; lit "K" ++ CRLF].

Lemma zlen_zeroes n : 0 <= n -> zlen (zeroes n) = n.
Proof. intros. unfold zeroes. by rewrite zlen_replicate. Qed.

Lemma plain_ok : plain (lit "OK").
Proof. repeat constructor; done. Qed.

Lemma redis_session_witness : exists c1 w1 c2 w2,
  reconnect slow script zeroes 5 used (mkNet RedisSocket.accepting 0 []) = Ret ((true, c1), w1) /\ opened (os w1) = {[ 5 ]}
  /\ queries slow script 5 [ask get_key; ask get_none] c1 w1 = Ret (([(Redis.OK, [lit "hello"]); (Redis.NOTFOUND, [])], c2), w2)
  /\ sent w2 = array [lit "auth"; lit "pw"] ++ array [lit "get"; lit "key"] ++ array [lit "get"; lit "none"].
Proof.
  destruct (redis_session slow script zeroes zlen_zeroes 5 used (mkNet RedisSocket.accepting 0 []) (lit "OK") ok_pieces
    [get_key; get_none] 10) as (ok & c1 & w1 & E & Ho & H).
  1: exact RedisSocket.accepting_ok.
  1: done.
  1: done.
  1: done.
  1: { pose proof plain_ok. repeat constructor; try done; by_compute. }
  1: repeat constructor.
  1: { assert (forall k d, k <> 3%nat -> k <> 4%nat -> d <> [] -> zlen d > 8 -> goes_out slow k d 0 (S k)) as Hone.
       { intros k d H3 H4 Hd Hz. apply (out_many _ k d 0 (zlen d)); [unfold slow; do 5 (destruct k as [|k]; [done|]); done|lia|].
         unfold zdrop, zlen. rewrite drop_ge by lia. constructor. }
       exists 1%nat. split; [by apply Hone|]. split; [intros [|[|i]] p n; cbn; intros [= <-]; done|].
       exists 6%nat. split; [|split; [intros [|[|i]] p n; cbn; intros [= <-]; done|]].
       - apply out_again; [reflexivity|done|lia|]. apply (out_few _ 4 _ _ 5); [reflexivity|lia|by_compute|lia|].
         apply (out_many _ 5 _ _ (zlen (zdrop 5 (question get_key)))); [reflexivity|by_compute|]. constructor.
       - exists 9%nat. split; [by apply Hone|]. split; [intros [|i] p n; cbn; intros [= <-]; done|reflexivity]. }
  pose proof E as E'. vm_compute in E'. injection E' as <- Hc1 _.
  destruct H as (_ & c2 & w2 & E2 & Hs & _). exists c1, w1, c2, w2. split; [exact E|].
  split; [rewrite Ho, <- Hc1; vm_compute; reflexivity|]. split; [exact E2|exact Hs].
Defined.

Definition broken : t := mk Redis.NETCLOSE 6379 64 0 3000 None [] (lit "127.0.0.1") 3 [].
Lemma reconnect_keeps_error_witness : exists c1 w1,
  reconnect whole script zeroes 5 broken (mkNet RedisSocket.accepting 0 []) = Ret ((true, c1), w1) /\ getErrorCode c1 = Redis.NETCLOSE.
Proof.
  destruct (reconnect_keeps_error whole script zeroes zlen_zeroes 5 broken (mkNet RedisSocket.accepting 0 [])) as (ok & c1 & w1 & E & H);
    [exact RedisSocket.accepting_ok|done|done|done|done|].
  pose proof E as E'. vm_compute in E'. injection E' as <- _ _. exists c1, w1. split; [exact E|exact H].
Defined.
End RedisClient.
