(* ===== verification/ResPool.v ===== *)
(** Redis/ResPool.h and the connection pool of Redis/RedisConnect.h: the
    locked regions of [get] and the interleavings of the threads that use the
    pool. *)
From S2P Require Import Prelude Cxx Redis RedisReply.

Module ResPool.

(** A resource is a name; a [shared_ptr] to it lives in the pool, with a
    client, or in the variable [tmp] of a scan. *)
Abbreviation ident := nat.

Record Data := mkData { num : Z; utime : Z; data : option ident }.

(** [held] are the pointers of the clients; [made] counts the resources
    [func] made. *)
Record pool := mkPool { maxlen : Z; timeout : Z; vec : list Data; held : list ident; made : nat }.

Definition init (maxlen timeout : Z) : pool := mkPool maxlen timeout [] [] 0.

Definition set_vec (v : list Data) (p : pool) : pool := mkPool (maxlen p) (timeout p) v (held p) (made p).
Definition give (x : ident) (p : pool) : pool := mkPool (maxlen p) (timeout p) (vec p) (x :: held p) (made p).

Definition of_data (now : Z) (x : ident) : Data := mkData 0 now (Some x).

Definition pooled (p : pool) : list ident := omap data (vec p).

(** [use_count()] of the pointer in the pool. *)
Definition use_count (tmp : option ident) (x : ident) (p : pool) : Z :=
  Z.of_nat (length (filter (x =.) (pooled p)) + length (filter (x =.) (held p))
    + (if decide (tmp = Some x) then 1 else 0)).

(** [func()]: a new resource, or none. *)
Definition func (ok : bool) (p : pool) : option ident * pool :=
  if ok then (Some (made p), mkPool (maxlen p) (timeout p) (vec p) (held p) (S (made p))) else (None, p).

(** The scan under the lock: [n] items are left from [i] on. [now2] is the
    clock that [Data::get] reads. *)
Fixpoint scan (now now2 : Z) (n i : nat) (tmp : option ident) (idx : Z) (p : pool)
    : outcome (option ident * Z * pool) :=
  match n with
  | O => Ret (None, idx, p)
  | S n' =>
      item ← deref (vec p !! i);
      match data item with
      | None => scan now now2 n' (S i) None (Z.of_nat i) p
      | Some x =>
          if use_count tmp x p =? 1
          then
            if (num item <? 100) && (utime item + timeout p >? now)
            then Ret (Some x, idx, give x (set_vec (<[i := mkData (num item + 1) now2 (Some x)]> (vec p)) p))
            else
              scan now now2 n' (S i) (Some x) (Z.of_nat i)
                (set_vec (<[i := mkData (num item) (utime item) None]> (vec p)) p)
          else scan now now2 n' (S i) tmp idx p
      end
  end.

(** What a thread does after the scan: it holds a resource, gives up, or has
    one made for a new place or for the place [idx]. *)
Inductive phase := Hit (x : ident) | Full | Grow | Replace (idx : nat).

Definition grasp_scan (now now2 : Z) (p : pool) : outcome (phase * pool) :=
  let len := length (vec p) in
  '(r, idx, p') ← scan now now2 len 0 None (-1) p;
  match r with
  | Some x => Ret (Hit x, p')
  | None =>
      if idx <? 0
      then if Z.of_nat len >=? maxlen p' then Ret (Full, p') else Ret (Grow, p')
      else Ret (Replace (Z.to_nat idx), p')
  end.

(** The second locked region; [vec.size() < maxlen] compares as [size_t]. *)
Definition grow (now : Z) (x : ident) (p : pool) : pool :=
  give x (if zlen (vec p) <? u64 (maxlen p) then set_vec (vec p ++ [of_data now x]) p else p).
Definition replace (now : Z) (idx : nat) (x : ident) (p : pool) : outcome pool :=
  _ ← deref (vec p !! idx); Ret (give x (set_vec (<[idx := of_data now x]> (vec p)) p)).

(** What follows the scan: [ok] tells whether [func] gives a resource. *)
Definition grasp_finish (ph : phase) (ok : bool) (now : Z) (p : pool) : outcome (option ident * pool) :=
  match ph with
  | Hit x => Ret (Some x, p)
  | Full => Ret (None, p)
  | Grow =>
      match func ok p with
      | (None, p') => Ret (None, p')
      | (Some x, p') => Ret (Some x, grow now x p')
      end
  | Replace idx =>
      match func ok p with
      | (None, p') => Ret (None, p')
      | (Some x, p') => p'' ← replace now idx x p'; Ret (Some x, p'')
      end
  end.

(** [grasp] of a thread alone; the clock is read once before the lock and
    once by the [Data] that is handed out. *)
Definition grasp (now now2 : Z) (ok : bool) (p : pool) : outcome (option ident * pool) :=
  '(ph, p') ← grasp_scan now now2 p; grasp_finish ph ok now2 p'.

(** The attempts of [get], every one after a sleep in which other threads
    change the pool; the clock is read before and after. *)
Fixpoint retry (env : nat -> pool -> pool) (clock : nat -> Z) (ok : nat -> bool) (endtime : Z) (fuel k : nat) (p : pool)
    : outcome (option ident * pool) :=
  match fuel with
  | O => Crash FuelExhausted
  | S fuel' =>
      '(r, p') ← grasp (clock k) (clock k) (ok k) (env k p);
      match r with
      | Some x => Ret (Some x, p')
      | None => if endtime <? clock (S k) then Ret (None, p') else retry env clock ok endtime fuel' (S k) p'
      end
  end.

Definition get (env : nat -> pool -> pool) (clock : nat -> Z) (ok : nat -> bool) (fuel : nat) (p : pool)
    : outcome (option ident * pool) :=
  if timeout p <=? 0
  then match func (ok 0%nat) p with (Some x, p') => Ret (Some x, give x p') | (None, p') => Ret (None, p') end
  else
    '(r, p') ← grasp (clock 0%nat) (clock 0%nat) (ok 0%nat) p;
    match r with
    | Some x => Ret (Some x, p')
    | None => retry env clock ok (clock 1%nat + 3) fuel 1 p'
    end.

Definition clear (p : pool) : pool := set_vec [] p.

Fixpoint disable_in (x : ident) (v : list Data) : list Data :=
  match v with
  | [] => []
  | item :: v' =>
      if decide (data item = Some x) then mkData (num item) (utime item) None :: v' else item :: disable_in x v'
  end.
Definition disable (x : ident) (p : pool) : pool := set_vec (disable_in x (vec p)) p.

Definition setLength (n : Z) (p : pool) : pool :=
  mkPool n (timeout p) (if zlen (vec p) >? u64 n then [] else vec p) (held p) (made p).
Definition setTimeout (n : Z) (p : pool) : pool :=
  mkPool (maxlen p) n (if n <=? 0 then [] else vec p) (held p) (made p).
Definition setCreator (p : pool) : pool := clear p.

(** A client drops one of its pointers, or copies it. *)
Fixpoint remove_one (x : ident) (l : list ident) : list ident :=
  match l with
  | [] => []
  | y :: l' => if decide (x = y) then l' else y :: remove_one x l'
  end.
Definition release (x : ident) (p : pool) : pool :=
  mkPool (maxlen p) (timeout p) (vec p) (remove_one x (held p)) (made p).
Definition copy (x : ident) (p : pool) : pool := if decide (x ∈ held p) then give x p else p.

(** ** Threads

    A thread is between its two locked regions when it has an entry in
    [pending]; what the other threads do then is a sequence of steps. *)
Record sys := mkSys { the_pool : pool; pending : gmap nat phase }.

Inductive op :=
| OScan (tid : nat) (now now2 : Z)
| OFinish (tid : nat) (ok : bool) (now : Z)
| ORelease (x : ident)
| OCopy (x : ident)
| ODisable (x : ident)
| OClear
| OSetLength (n : Z)
| OSetTimeout (n : Z).

(** The step, and the resource it hands to a client. *)
Definition step (o : op) (s : sys) : outcome (option ident * sys) :=
  let on f := Ret (None, mkSys (f (the_pool s)) (pending s)) in
  match o with
  | OScan tid now now2 =>
      match pending s !! tid with
      | Some _ => Ret (None, s)
      | None =>
          '(ph, p) ← grasp_scan now now2 (the_pool s);
          match ph with
          | Hit x => Ret (Some x, mkSys p (pending s))
          | Full => Ret (None, mkSys p (pending s))
          | Grow | Replace _ => Ret (None, mkSys p (<[tid := ph]> (pending s)))
          end
      end
  | OFinish tid ok now =>
      match pending s !! tid with
      | None => Ret (None, s)
      | Some ph =>
          '(r, p) ← grasp_finish ph ok now (the_pool s);
          Ret (r, mkSys p (delete tid (pending s)))
      end
  | ORelease x => on (release x)
  | OCopy x => on (copy x)
  | ODisable x => on (disable x)
  | OClear => on clear
  | OSetLength n => on (setLength n)
  | OSetTimeout n => on (setTimeout n)
  end.

Fixpoint run (os : list op) (s : sys) : outcome (list (option ident) * sys) :=
  match os with
  | [] => Ret ([], s)
  | o :: os' => '(r, s') ← step o s; '(rs, s'') ← run os' s'; Ret (r :: rs, s'')
  end.
End ResPool.

(** ** RedisConnect::grasp *)
Module RedisPool.
Import Redis.

Section creator.
Context (send : nat -> bytes -> send_result) (recv : nat -> Z -> recv_result).

(** The function the pool makes connections with: [connected] is the result
    of [connect], [r] the new object. *)
Definition create (fuel : nat) (passwd : bytes) (connected : bool) (r : redis) : outcome (option redis) :=
  if connected
  then
    '(c, r') ← auth send recv fuel passwd r;
    if c =? 0 then Ret None else Ret (Some r')
  else Ret None.

(** [getErrorCode] of an open connection. *)
Definition getErrorCode (r : redis) : Z := if code r <? 0 then code r else 0.
End creator.

(** [grasp]: a connection drawn from the pool that is in error is disabled,
    and the call repeats. [conns] are the objects behind the pointers;
    [conn k] is what [create] gives during the [k]-th call, [clock k] what
    [time] reads. *)
Fixpoint grasp (clock : nat -> nat -> Z) (conn : nat -> option redis) (fuel k : nat) (p : ResPool.pool)
    (conns : gmap ResPool.ident redis) : outcome (option ResPool.ident * ResPool.pool * gmap ResPool.ident redis) :=
  match fuel with
  | O => Crash FuelExhausted
  | S fuel' =>
      '(x, p') ← ResPool.get (fun _ q => q) (clock k) (fun _ => bool_decide (is_Some (conn k))) fuel' p;
      match x with
      | None => Ret (None, p', conns)
      | Some x =>
          let conns' := match conn k with
            | Some c => if (ResPool.made p <? ResPool.made p')%nat then <[x := c]> conns else conns
            | None => conns end in
          c ← deref (conns' !! x);
          if getErrorCode c =? 0 then Ret (Some x, p', conns')
          else grasp clock conn fuel' (S k) (ResPool.disable x p') conns'
      end
  end.
End RedisPool.

(** ** Proofs *)
Import ResPool.

(** The pool never holds a resource twice, every resource was made, no place
    counts more than 100 uses. *)
Record pool_ok (p : pool) : Prop := {
  ok_nodup : NoDup (pooled p);
  ok_pooled : Forall (fun x => x < made p)%nat (pooled p);
  ok_held : Forall (fun x => x < made p)%nat (held p);
  ok_num : Forall (fun d => 0 <= num d <= 100) (vec p);
  ok_len : zlen (vec p) <= u64 (maxlen p)
}.

Lemma pooled_split (v : list Data) i item item' : v !! i = Some item ->
  omap data v = omap data (take i v) ++ omap data [item] ++ omap data (drop (S i) v)
  /\ omap data (<[i := item']> v) = omap data (take i v) ++ omap data [item'] ++ omap data (drop (S i) v).
Proof.
  intros Hi. split.
  - rewrite <- (take_drop_middle v i item Hi) at 1. rewrite omap_app. f_equal. exact (omap_app _ [item] _).
  - rewrite (insert_take_drop v i item') by (by eapply lookup_lt_Some).
    rewrite omap_app. f_equal. exact (omap_app _ [item'] _).
Qed.

(** A place gives up its resource. *)
Lemma pool_ok_clear i item p : vec p !! i = Some item -> pool_ok p ->
  pool_ok (set_vec (<[i := mkData (num item) (utime item) None]> (vec p)) p).
Proof.
  intros Hi [H1 H2 H3 H4 H5]. destruct (pooled_split _ _ _ (mkData (num item) (utime item) None) Hi) as [E1 E2].
  unfold pooled in *. rewrite E1 in H1, H2.
  split; cbn; unfold pooled; cbn; [| |done| |by unfold zlen in *; rewrite length_insert].
  - rewrite E2. apply NoDup_app in H1 as (Ha & Hb & Hc). apply NoDup_app in Hc as (_ & _ & Hc).
    apply NoDup_app. split; [done|]. split; [|done]. intros x Hx Hin. apply (Hb x Hx). rewrite elem_of_app. by right.
  - rewrite E2. rewrite !Forall_app in *. cbn. naive_solver.
  - apply Forall_insert; [done|]. cbn. by apply (Forall_lookup_1 _ _ _ _ H4 Hi).
Qed.

(** A place whose resource stays, with another use count. *)
Lemma pool_ok_touch i item x now p : vec p !! i = Some item -> data item = Some x -> num item < 100 -> pool_ok p ->
  pool_ok (give x (set_vec (<[i := mkData (num item + 1) now (Some x)]> (vec p)) p)).
Proof.
  intros Hi Hx Hn [H1 H2 H3 H4 H5]. destruct (pooled_split _ _ _ (mkData (num item + 1) now (Some x)) Hi) as [E1 E2].
  assert (omap data [item] = [x]) as E3 by (cbn; by rewrite Hx).
  assert (omap data [mkData (num item + 1) now (Some x)] = [x]) as E4 by done.
  unfold pooled in *. rewrite E3 in E1. rewrite E4, <- E1 in E2.
  split; cbn; unfold pooled; cbn; [by rewrite E2|by rewrite E2| | |by unfold zlen in *; rewrite length_insert].
  - constructor; [|done]. rewrite Forall_forall in H2. apply H2. rewrite E1. rewrite !elem_of_app. right. left. by left.
  - apply Forall_insert; [done|]. cbn. pose proof (Forall_lookup_1 _ _ _ _ H4 Hi). cbn in *. lia.
Qed.

Lemma use_count_one tmp x p : x ∈ pooled p -> use_count tmp x p = 1 -> x ∉ held p.
Proof.
  intros Hin Hc Hh. unfold use_count in Hc.
  assert (forall l, x ∈ l -> (1 <= length (filter (x =.) l))%nat) as Hl.
  { intros l Hl. assert (x ∈ filter (x =.) l) as Hf by (by apply list_elem_of_filter).
    destruct (filter (x =.) l); [by apply elem_of_nil in Hf|cbn; lia]. }
  pose proof (Hl _ Hin). pose proof (Hl _ Hh). case_decide; lia.
Qed.

(** What a scan leaves, and what it hands out. *)
Definition scanned (p : pool) (idx : Z) (r : option ident) (idx' : Z) (p' : pool) : Prop :=
  pool_ok p' /\ length (vec p') = length (vec p) /\ maxlen p' = maxlen p /\ made p' = made p
  /\ (idx' = idx \/ 0 <= idx' < zlen (vec p))
  /\ match r with
     | None => held p' = held p
     | Some x => held p' = x :: held p /\ x ∉ held p /\ x ∈ pooled p
     end.

Lemma scan_spec now now2 n i tmp idx p : pool_ok p -> length (vec p) = (i + n)%nat ->
  exists r idx' p', scan now now2 n i tmp idx p = Ret (r, idx', p') /\ scanned p idx r idx' p'.
Proof.
  revert i tmp idx p. induction n as [|n IH]; intros i tmp idx p Hok Hl; cbn [scan].
  { exists None, idx, p. split; [done|]. unfold scanned. naive_solver. }
  destruct (lookup_lt_is_Some_2 (vec p) i ltac:(lia)) as [item Hi]. rewrite Hi. cbn [deref mbind outcome_bind].
  assert (forall tmp' idx' p', pool_ok p' -> length (vec p') = length (vec p) -> maxlen p' = maxlen p -> made p' = made p ->
    held p' = held p -> (forall x, x ∈ pooled p' -> x ∈ pooled p) -> (idx' = idx \/ idx' = Z.of_nat i) ->
    exists r idx'' p'', scan now now2 n (S i) tmp' idx' p' = Ret (r, idx'', p'') /\ scanned p idx r idx'' p'') as Hgo.
  { intros tmp' idx' p' Hok' Hl' Hm Hmd Hh Hp Hidx.
    destruct (IH (S i) tmp' idx' p' Hok' ltac:(lia)) as (r & idx'' & p'' & E & H1 & H2 & H3 & H4 & H5 & H6).
    exists r, idx'', p''. split; [done|]. unfold scanned, zlen in *. split; [done|]. split; [lia|]. split; [congruence|].
    split; [congruence|]. split; [destruct Hidx; lia|]. destruct r; [|congruence]. rewrite Hh in H6. naive_solver. }
  destruct (data item) as [x|] eqn:Hx; [|apply Hgo; try done; by right].
  destruct (use_count tmp x p =? 1) eqn:Hc; [|apply Hgo; try done; by left]. apply Z.eqb_eq in Hc.
  assert (x ∈ pooled p) as Hin by (unfold pooled; apply list_elem_of_omap; exists item; split; [by eapply list_elem_of_lookup_2|done]).
  destruct ((num item <? 100) && _) eqn:Hf.
  - apply andb_true_iff in Hf as [Hf _]. apply Z.ltb_lt in Hf. eexists _, _, _. split; [done|]. split.
    + by apply pool_ok_touch.
    + cbn. rewrite length_insert. pose proof (use_count_one _ _ _ Hin Hc). naive_solver.
  - apply Hgo; try done; cbn; [by apply pool_ok_clear|by rewrite length_insert| |by right].
    intros y. unfold pooled. cbn. destruct (pooled_split _ _ _ (mkData (num item) (utime item) None) Hi) as [-> ->].
    change (omap data [mkData (num item) (utime item) None]) with (@nil ident). rewrite app_nil_l, !elem_of_app. tauto.
Qed.

(** ** The threads *)

(** Between its locked regions a thread waits for a resource to be made. *)
Definition waits (ph : phase) : Prop := match ph with Grow | Replace _ => True | _ => False end.
Definition sys_ok (s : sys) : Prop := pool_ok (the_pool s) /\ map_Forall (fun _ ph => waits ph) (pending s).

(** A handed-out resource had no owner. *)
Definition unowned (r : option ident) (p : pool) : Prop :=
  match r with None => True | Some x => x ∉ held p end.

Lemma grasp_scan_spec now now2 p : pool_ok p ->
  exists ph p', grasp_scan now now2 p = Ret (ph, p') /\ pool_ok p' /\ maxlen p' = maxlen p
    /\ match ph with Hit x => x ∉ held p | Full => True | Grow => True | Replace idx => Z.of_nat idx < zlen (vec p') end.
Proof.
  intros Hok. unfold grasp_scan.
  destruct (scan_spec now now2 (length (vec p)) 0 None (-1) p Hok eq_refl) as (r & idx & p' & -> & H1 & H2 & H3 & H4 & H5 & H6).
  cbn [mbind outcome_bind]. unfold zlen in *. destruct r as [x|]; [eexists _, _; split; [done|]; naive_solver|].
  destruct (Z.ltb_spec idx 0); [destruct (_ >=? _); eexists _, _; split; done|].
  eexists _, _. split; [done|]. split; [done|]. split; [done|]. rewrite Z2Nat.id; lia.
Qed.

(** A resource just made. *)
Lemma made_fresh p : pool_ok p -> made p ∉ held p /\ made p ∉ pooled p.
Proof.
  intros [_ H2 H3 _ _]. rewrite Forall_forall in H2, H3.
  split; intros Hin; [apply H3 in Hin|apply H2 in Hin]; lia.
Qed.

Lemma func_ok p : pool_ok p -> pool_ok (func true p).2.
Proof.
  intros [H1 H2 H3 H4 H5]. split; try done; (eapply Forall_impl; [done|cbn; lia]).
Qed.

Lemma grow_ok now p : pool_ok p -> pool_ok (grow now (made p) (func true p).2).
Proof.
  intros Hok. pose proof (made_fresh p Hok) as [Hf1 Hf2]. destruct (func_ok p Hok) as [H1 H2 H3 H4 H5].
  unfold grow. cbn [vec func snd maxlen] in *. destruct (Z.ltb_spec (zlen (vec p)) (u64 (maxlen p))) as [Hl|Hl].
  - split; cbn in *; unfold pooled in *; cbn [vec set_vec give] in *; rewrite ?omap_app.
    + apply NoDup_app. split; [done|]. split; [|apply NoDup_singleton].
      intros x Hx ->%list_elem_of_singleton. by apply Hf2.
    + apply Forall_app. split; [done|]. apply Forall_singleton. lia.
    + constructor; [lia|done].
    + apply Forall_app. split; [done|]. apply Forall_singleton. cbn. lia.
    + rewrite zlen_app. change (zlen [of_data now (made p)]) with 1. lia.
  - split; cbn in *; try done. constructor; [lia|done].
Qed.

Lemma replace_ok now idx p : pool_ok p ->
  match replace now idx (made p) (func true p).2 with
  | Ret p' => pool_ok p' /\ maxlen p' = maxlen p
  | Crash f => f = UndefinedBehaviour /\ zlen (vec p) <= Z.of_nat idx
  end.
Proof.
  intros Hok. pose proof (made_fresh p Hok) as [Hf1 Hf2]. destruct (func_ok p Hok) as [H1 H2 H3 H4 H5].
  unfold replace. cbn [vec func snd] in *. destruct (vec p !! idx) as [item|] eqn:Hi; cbn.
  2:{ split; [done|]. apply lookup_ge_None_1 in Hi. unfold zlen. lia. }
  destruct (pooled_split _ _ _ (of_data now (made p)) Hi) as [E1 E2]. unfold pooled in *. cbn [vec func snd] in *.
  split; [|done]. split; cbn in *; unfold pooled; cbn [vec set_vec give]; rewrite ?E2.
  - rewrite E1 in H1, Hf2. apply NoDup_app in H1 as (Ha & Hb & Hc). apply NoDup_app in Hc as (_ & _ & Hc).
    rewrite !elem_of_app in Hf2. apply NoDup_app. split; [done|]. split.
    + intros x Hx [->|Hx']%elem_of_cons; [tauto|]. apply (Hb x Hx), elem_of_app. by right.
    + apply NoDup_cons. tauto.
  - rewrite E1 in H2. rewrite !Forall_app in *. destruct H2 as (? & _ & ?). split; [done|].
    constructor; [lia|done].
  - constructor; [lia|done].
  - apply Forall_insert; [done|]. cbn. lia.
  - unfold zlen in *. by rewrite length_insert.
Qed.

Lemma grasp_finish_spec ph ok now p : pool_ok p -> waits ph ->
  match grasp_finish ph ok now p with
  | Ret (r, p') => pool_ok p' /\ unowned r p
  | Crash f => f = UndefinedBehaviour /\ ok = true /\ exists idx, ph = Replace idx /\ zlen (vec p) <= Z.of_nat idx
  end.
Proof.
  intros Hok Hw. pose proof (made_fresh p Hok) as [Hf _]. destruct ph as [x| | |idx]; try done; destruct ok; try done.
  - cbn. split; [|done]. by apply (grow_ok now p).
  - unfold grasp_finish. change (func true p) with (Some (made p), (func true p).2). cbv iota beta.
    pose proof (replace_ok now idx p Hok) as H. destruct (replace _ _ _ _); cbn; naive_solver.
Qed.

Lemma disable_in_sub x v : omap data (disable_in x v) `sublist_of` omap data v
  /\ length (disable_in x v) = length v /\ (forall P : Z -> Prop, Forall (fun d => P (num d)) v -> Forall (fun d => P (num d)) (disable_in x v)).
Proof.
  induction v as [|item v (IH1 & IH2 & IH3)]; [done|]. cbn [disable_in]. case_decide as Hx.
  - cbn. rewrite Hx. split; [by constructor|]. split; [done|]. intros P HP. by apply Forall_cons in HP as [? ?]; constructor.
  - cbn. split; [destruct (data item); by try constructor|]. split; [by rewrite IH2|]. intros P HP.
    apply Forall_cons in HP as [? ?]. constructor; [done|]. by apply IH3.
Qed.

Lemma remove_one_incl x l : forall y, y ∈ remove_one x l -> y ∈ l.
Proof.
  induction l as [|z l IH]; [done|]. cbn. case_decide; intros y; [by right|].
  rewrite !elem_of_cons. naive_solver.
Qed.

(** The operations of the clients keep the pool well formed. *)
Lemma client_ok p x n : pool_ok p ->
  pool_ok (release x p) /\ pool_ok (copy x p) /\ pool_ok (disable x p) /\ pool_ok (clear p)
  /\ pool_ok (setLength n p) /\ pool_ok (setTimeout n p).
Proof.
  intros Hok. pose proof Hok as [H1 H2 H3 H4 H5].
  assert (forall m t, pool_ok (mkPool m t [] (held p) (made p))) as Hnil.
  { intros m t. split; cbn; [constructor|constructor|done|constructor|]. apply (wrapu_range 64). lia. }
  split_and!.
  - split; try done. rewrite Forall_forall in H3 |- *. intros y Hy. by apply H3, remove_one_incl in Hy || apply H3, (remove_one_incl x).
  - unfold copy. case_decide as Hin; [|done]. split; try done. constructor; [|done]. rewrite Forall_forall in H3. by apply H3.
  - destruct (disable_in_sub x (vec p)) as (Ha & Hb & Hc). split; cbn; unfold pooled in *; cbn in *.
    + by eapply sublist_NoDup.
    + rewrite Forall_forall in H2 |- *. intros y Hy. apply H2. by eapply elem_of_sublist.
    + done.
    + by apply (Hc (fun z => 0 <= z <= 100)).
    + unfold zlen in *. by rewrite Hb.
  - apply Hnil.
  - unfold setLength. destruct (Z.gtb_spec (zlen (vec p)) (u64 n)); [apply Hnil|]. by split.
  - unfold setTimeout. destruct (n <=? 0); [apply Hnil|]. by split.
Qed.

(** What a step of a thread can do. *)
Definition step_safe (o : op) (s : sys) : Prop :=
  match step o s with
  | Ret (r, s') => sys_ok s' /\ unowned r (the_pool s)
  | Crash f => f = UndefinedBehaviour /\ exists tid now idx, o = OFinish tid true now
      /\ pending s !! tid = Some (Replace idx) /\ zlen (vec (the_pool s)) <= Z.of_nat idx
  end.

Lemma step_ok o s : sys_ok s -> step_safe o s.
Proof.
  intros [Hok Hp]. unfold step_safe. pose proof (client_ok (the_pool s)) as Hcl.
  destruct o as [tid now now2|tid ok now|x|x|x| |n|n]; cbn [step].
  - destruct (pending s !! tid) eqn:Ht; [done|].
    destruct (grasp_scan_spec now now2 (the_pool s) Hok) as (ph & p' & -> & Hok' & _ & Hph). cbn [mbind outcome_bind].
    destruct ph; (split; [split; [done|]|done]); try done; by apply map_Forall_insert_2.
  - destruct (pending s !! tid) as [ph|] eqn:Ht; [|done].
    pose proof (grasp_finish_spec ph ok now (the_pool s) Hok (Hp _ _ Ht)) as H.
    destruct (grasp_finish ph ok now (the_pool s)) as [[r p']|f]; cbn.
    + destruct H as [H1 H2]. split; [split; [done|]|done]. by apply map_Forall_delete.
    + destruct H as (-> & -> & idx & -> & Hl). split; [done|]. by exists tid, now, idx.
  - split; [|done]. by split; [apply (Hcl x 0)|].
  - split; [|done]. by split; [apply (Hcl x 0)|].
  - split; [|done]. by split; [apply (Hcl x 0)|].
  - split; [|done]. by split; [apply (Hcl 0%nat 0)|].
  - split; [|done]. by split; [apply (Hcl 0%nat n)|].
  - split; [|done]. by split; [apply (Hcl 0%nat n)|].
Qed.

Lemma run_ok os s : sys_ok s -> match run os s with Ret (_, s') => sys_ok s' | Crash f => f = UndefinedBehaviour end.
Proof.
  revert s. induction os as [|o os IH]; intros s Hok; [done|]. cbn [run].
  pose proof (step_ok o s Hok) as H. unfold step_safe in H. destruct (step o s) as [[r s1]|f]; cbn [mbind outcome_bind].
  - destruct H as [H1 _]. specialize (IH s1 H1). by destruct (run os s1) as [[rs s2]|f].
  - by destruct H as [-> _].
Qed.

(** *** How often a resource is handed out *)
Definition times (x : ident) (h : list (option ident)) : nat := length (filter (Some x =.) h).

Lemma times_snoc x h r : times x (h ++ [r]) = (times x h + (if decide (r = Some x) then 1 else 0))%nat.
Proof.
  unfold times. rewrite filter_app, length_app, filter_cons. destruct (decide (r = Some x)) as [->|Hr].
  - by rewrite decide_True.
  - by rewrite decide_False by congruence.
Qed.

(** After the history [h] no resource was handed out more than 101 times, one
    that is not made yet never, and a place has counted all but the first. *)
Definition used (h : list (option ident)) (p : pool) : Prop := forall x,
  (times x h <= 101)%nat /\ (made p <= x -> times x h = 0)%nat
  /\ Forall (fun d => data d = Some x -> Z.of_nat (times x h) <= num d + 1) (vec p).

(** Places are emptied. *)
Definition shrinks (v' v : list Data) : Prop := Forall (fun d => data d = None \/ d ∈ v) v'.

Lemma shrinks_refl v : shrinks v v.
Proof. unfold shrinks. apply Forall_forall. auto. Qed.

Lemma shrinks_insert v i item : shrinks v v -> v !! i = Some item -> shrinks (<[i := mkData (num item) (utime item) None]> v) v.
Proof. intros H _. apply Forall_insert; [done|by left]. Qed.

Lemma shrinks_disable x v : shrinks (disable_in x v) v.
Proof.
  induction v as [|d v IH]; [constructor|]. cbn. case_decide.
  - constructor; [by left|]. apply Forall_forall. intros y Hy. right. by right.
  - constructor; [right; by left|]. eapply Forall_impl; [exact IH|]. intros y [?|?]; [by left|right; by right].
Qed.

Lemma used_shrinks h p p' : shrinks (vec p') (vec p) -> (made p <= made p')%nat -> used h p -> used h p'.
Proof.
  intros Hs Hm Hu x. destruct (Hu x) as (H1 & H2 & H3). split; [done|]. split; [intros; apply H2; lia|].
  rewrite Forall_forall in H3. eapply Forall_impl; [exact Hs|]. intros d [Hd|Hd]; [by rewrite Hd|by apply H3].
Qed.

Lemma used_none h p : used h p -> used (h ++ [None]) p.
Proof. intros Hu x. rewrite times_snoc. destruct (decide (None = Some x)); [done|]. rewrite Nat.add_0_r. apply Hu. Qed.

(** A resource is in one place. *)
Lemma pooled_once v i j a b x : NoDup (omap data v) -> v !! i = Some a -> v !! j = Some b ->
  data a = Some x -> data b = Some x -> i = j.
Proof.
  intros Hnd Hi Hj Ha Hb. destruct (decide (i = j)) as [|Hne]; [done|]. exfalso.
  destruct (pooled_split v i a a Hi) as [E _]. rewrite E in Hnd. assert (omap data [a] = [x]) as Ea by (cbn; by rewrite Ha).
  rewrite Ea in Hnd. apply NoDup_app in Hnd as (_ & H1 & H2). apply NoDup_cons in H2 as [H2 _].
  assert (j < i \/ i < j)%nat as [Hlt|Hlt] by lia.
  - apply (H1 x); [|by left]. apply list_elem_of_omap. exists b. split; [|done]. eapply list_elem_of_lookup_2. by rewrite lookup_take_lt.
  - apply H2. apply list_elem_of_omap. exists b. split; [|done]. apply (list_elem_of_lookup_2 _ (j - S i)). rewrite lookup_drop. by replace (S i + (j - S i))%nat with j by lia.
Qed.

(** A place hands out its resource again. *)
Lemma used_touch h i item x now p : pool_ok p -> vec p !! i = Some item -> data item = Some x -> num item < 100 -> used h p ->
  used (h ++ [Some x]) (give x (set_vec (<[i := mkData (num item + 1) now (Some x)]> (vec p)) p)).
Proof.
  intros Hok Hi Hx Hn Hu y. destruct (Hu y) as (H1 & H2 & H3). rewrite times_snoc. cbn [made vec set_vec give].
  pose proof (Forall_lookup_1 _ _ _ _ H3 Hi) as Hc. cbn in Hc.
  destruct (decide (Some x = Some y)) as [[= ->]|Hne].
  - specialize (Hc Hx). split; [lia|]. split.
    + intros Hm. pose proof (ok_pooled p Hok) as Hp. rewrite Forall_forall in Hp. assert (y < made p)%nat; [|lia].
      apply Hp. apply list_elem_of_omap. exists item. split; [by eapply list_elem_of_lookup_2|done].
    + apply Forall_lookup. intros j d Hj Hd. destruct (decide (i = j)) as [->|Hij].
      * rewrite list_lookup_insert_eq in Hj by (by eapply lookup_lt_Some). injection Hj as <-. cbn. lia.
      * rewrite list_lookup_insert_ne in Hj by done. destruct Hij. exact (pooled_once _ _ _ _ _ _ (ok_nodup p Hok) Hi Hj Hx Hd).
  - rewrite Nat.add_0_r. split; [done|]. split; [done|]. apply Forall_insert; [done|]. cbn. intros [= ->]. done.
Qed.

Lemma scan_used h now now2 n i tmp idx p r idx' p' : pool_ok p -> used h p -> scan now now2 n i tmp idx p = Ret (r, idx', p') ->
  used (h ++ [r]) p'.
Proof.
  revert i tmp idx p. induction n as [|n IH]; intros i tmp idx p Hok Hu; cbn [scan]; [intros [= <- _ <-]; by apply used_none|].
  destruct (vec p !! i) as [item|] eqn:Hi; [|done]. cbn [deref mbind outcome_bind].
  destruct (data item) as [x|] eqn:Hx; [|by apply IH]. destruct (_ =? 1); [|by apply IH].
  destruct ((num item <? 100) && _) eqn:Hf.
  - apply andb_true_iff in Hf as [Hf%Z.ltb_lt _]. intros H. injection H as <- _ Ep. rewrite <- Ep. by apply (used_touch h i item).
  - apply IH; [by apply pool_ok_clear|]. apply (used_shrinks h p); [|done|exact Hu]. cbn. by apply shrinks_insert; [apply shrinks_refl|].
Qed.

(** A new resource is handed out. *)
Lemma used_new h p p' : pool_ok p -> used h p -> made p' = S (made p) ->
  Forall (fun d => d ∈ vec p \/ d = mkData 0 (utime d) (Some (made p))) (vec p') -> used (h ++ [Some (made p)]) p'.
Proof.
  intros Hok Hu Hm Hv y. destruct (Hu y) as (H1 & H2 & H3). rewrite times_snoc, Hm. rewrite Forall_forall in H3.
  destruct (decide (Some (made p) = Some y)) as [[= <-]|Hne].
  - rewrite H2 by lia. split; [lia|]. split; [lia|]. eapply Forall_impl; [exact Hv|]. intros d [Hd| ->] Hx; [|cbn; lia].
    exfalso. apply (made_fresh p Hok). apply list_elem_of_omap. by exists d.
  - rewrite Nat.add_0_r. split; [done|]. split; [intros; apply H2; lia|]. eapply Forall_impl; [exact Hv|].
    intros d [Hd| ->] Hx; [by apply H3|]. cbn in Hx. congruence.
Qed.

Lemma elem_or_new v x : Forall (fun d : Data => d ∈ v \/ d = mkData 0 (utime d) (Some x)) v.
Proof. apply Forall_forall. auto. Qed.

Lemma finish_used h ph ok now p r p' : pool_ok p -> waits ph -> used h p -> grasp_finish ph ok now p = Ret (r, p') -> used (h ++ [r]) p'.
Proof.
  intros Hok Hw Hu. destruct ph as [x| | |idx]; try done; unfold grasp_finish; destruct ok; cbn [func];
    try (intros [= <- <-]; by apply used_none).
  - intros [= <- <-]. apply (used_new h p); [done|done|unfold grow; by destruct (_ <? _)|].
    unfold grow. cbn [vec maxlen]. destruct (_ <? _); cbn [vec give set_vec]; [|apply elem_or_new].
    apply Forall_app. split; [apply elem_or_new|]. constructor; [by right|constructor].
  - unfold replace. cbn [vec]. destruct (vec p !! idx); [|done]. cbn [deref mbind outcome_bind]. intros [= <- <-].
    apply (used_new h p); [done|done|done|]. cbn [vec give set_vec]. apply Forall_insert; [apply elem_or_new|by right].
Qed.

Lemma step_used h o s r s' : sys_ok s -> used h (the_pool s) -> step o s = Ret (r, s') -> used (h ++ [r]) (the_pool s').
Proof.
  intros [Hok Hp] Hu.
  assert (forall q, shrinks (vec q) (vec (the_pool s)) -> made q = made (the_pool s) -> used (h ++ [None]) q) as Hsh.
  { intros q Hs Hm. apply used_none. apply (used_shrinks h (the_pool s)); [exact Hs|by rewrite Hm|done]. }
  assert (shrinks [] (vec (the_pool s))) as Hnil by constructor.
  destruct o as [tid now now2|tid ok now|x|x|x| |n|n]; cbn [step].
  - destruct (pending s !! tid); [intros [= <- <-]; by apply used_none|]. unfold grasp_scan.
    destruct (scan _ _ _ _ _ _ _) as [[[r0 idx] p']|] eqn:E; [|done]. cbn [mbind outcome_bind].
    pose proof (scan_used h _ _ _ _ _ _ _ _ _ _ Hok Hu E) as H. destruct r0 as [x|]; cbn; [by intros [= <- <-]|].
    destruct (idx <? 0); [destruct (_ >=? _)|]; cbn; by intros [= <- <-].
  - destruct (pending s !! tid) as [ph|] eqn:Ht; [|intros [= <- <-]; by apply used_none].
    destruct (grasp_finish _ _ _ _) as [[r0 p']|] eqn:E; [|done]. cbn [mbind outcome_bind]. intros [= <- <-].
    exact (finish_used h ph ok now _ _ _ Hok (Hp _ _ Ht) Hu E).
  - intros [= <- <-]. apply Hsh; [apply shrinks_refl|done].
  - intros [= <- <-]. apply Hsh; cbn; unfold copy; case_decide; try done; apply shrinks_refl.
  - intros [= <- <-]. apply Hsh; [apply shrinks_disable|done].
  - intros [= <- <-]. by apply Hsh.
  - intros [= <- <-]. apply Hsh; cbn; [|done]. destruct (_ >? _); [done|apply shrinks_refl].
  - intros [= <- <-]. apply Hsh; cbn; [|done]. destruct (_ <=? _); [done|apply shrinks_refl].
Qed.

Lemma run_used os h s rs s' : sys_ok s -> used h (the_pool s) -> run os s = Ret (rs, s') -> used (h ++ rs) (the_pool s').
Proof.
  revert h s rs. induction os as [|o os IH]; intros h s rs Hok Hu; cbn [run]; [intros [= <- <-]; by rewrite app_nil_r|].
  pose proof (step_ok o s Hok) as Hs. unfold step_safe in Hs. destruct (step o s) as [[r s1]|] eqn:E; [|done]. cbn [mbind outcome_bind].
  destruct (run os s1) as [[rs1 s2]|] eqn:E2; [|done]. cbn [mbind outcome_bind]. intros [= <- <-].
  rewrite cons_middle, app_assoc. eapply IH; [apply Hs|by eapply step_used|done].
Qed.

(** C14. Whatever the threads that share a pool do and however they interleave,
    in every state they reach: the places of the pool hold different resources,
    they are no more than [maxlen], and no resource was handed out more than
    101 times, the time it was made and 100 times from its place; and the next
    step hands a client a resource nobody else owns, the only undefined
    behaviour being the replacement of a place that is gone. *)
Theorem pool_exclusive n t os :
  match run os (mkSys (init n t) ∅) with
  | Ret (rs, s) => NoDup (pooled (the_pool s)) /\ zlen (vec (the_pool s)) <= u64 (maxlen (the_pool s))
      /\ (forall x, (times x rs <= 101)%nat) /\ Forall (fun d => num d <= 100) (vec (the_pool s))
      /\ forall o, step_safe o s
  | Crash f => f = UndefinedBehaviour
  end.
Proof.
  assert (sys_ok (mkSys (init n t) ∅)) as Hi.
  { split; [|apply map_Forall_empty]. split; cbn; try constructor. apply (wrapu_range 64). lia. }
  pose proof (run_ok os _ Hi) as H. destruct (run os _) as [[rs s]|f] eqn:E; [|done].
  split; [apply H|]. split; [apply H|]. split.
  - intros x. assert (used [] (init n t)) as Hu by (intros y; split; [cbn; lia|split; [done|constructor]]).
    apply (run_used os [] _ _ _ Hi Hu E x).
  - split; [|intros o; by apply step_ok]. eapply Forall_impl; [apply H|]. cbn. lia.
Qed.

(** The 101 are reached: a resource comes back a hundred times. *)
Fixpoint come_back (k : nat) : list op := match k with O => [] | S k' => ORelease 0 :: OScan 1 0 0 :: come_back k' end.
Example handed_out_101 : option_map (fun x => times 0%nat x.1) (match run (OScan 1 0 0 :: OFinish 1 true 0 :: come_back 120) (mkSys (init 8 60) ∅) with Ret x => Some x | Crash _ => None end) = Some 101%nat.
Proof. vm_compute. reflexivity. Qed.

(** The place chosen by the scan can be gone when its new resource is
    ready: [clear], [setLength], [setTimeout] or [setCreator] in another thread
    between the two locked regions makes [vec[idx]] undefined behaviour. *)
Theorem replace_after_clear now :
  run [OScan 1 now now; OFinish 1 true now; ORelease 0; ODisable 0; OScan 1 now now; OClear; OFinish 1 true now]
    (mkSys (init 8 60) ∅) = Crash UndefinedBehaviour.
Proof. reflexivity. Qed.

(** ** Reuse *)

(** A place a scan can hand out. *)
Definition idle (now : Z) (p : pool) (j : nat) : Prop :=
  exists item x, vec p !! j = Some item /\ data item = Some x /\ x ∉ held p /\ num item < 100
    /\ utime item + timeout p > now.

Lemma filter_eq_fresh (x : ident) l : x ∉ l -> filter (x =.) l = [].
Proof. intros Hx. apply filter_none. intros y Hy <-. done. Qed.

Lemma use_count_idle tmp x p : pool_ok p -> x ∈ pooled p -> x ∉ held p -> tmp <> Some x -> use_count tmp x p = 1.
Proof.
  intros [Hnd _ _ _ _] Hin Hh Ht. unfold use_count. rewrite (filter_eq_fresh x (held p)) by done.
  rewrite decide_False by done. apply list_elem_of_split in Hin as (l1 & l2 & E). rewrite E in Hnd |- *.
  apply NoDup_app in Hnd as (_ & H1 & H2). apply NoDup_cons in H2 as [H2 _].
  rewrite filter_app, filter_cons_True by done. rewrite !filter_eq_fresh; [done|done|].
  intros Hx. apply (H1 x Hx). by left.
Qed.

Lemma cleared_pooled i item x p : pool_ok p -> vec p !! i = Some item -> data item = Some x ->
  x ∉ pooled (set_vec (<[i := mkData (num item) (utime item) None]> (vec p)) p).
Proof.
  intros [Hnd _ _ _ _] Hi Hx. unfold pooled in *. cbn [vec set_vec].
  destruct (pooled_split _ _ _ (mkData (num item) (utime item) None) Hi) as [E1 E2].
  rewrite E1 in Hnd. rewrite E2. assert (omap data [item] = [x]) as E3 by (cbn; by rewrite Hx). rewrite E3 in Hnd.
  apply NoDup_app in Hnd as (_ & H1 & H2). apply NoDup_cons in H2 as [H2 _].
  change (omap data [mkData (num item) (utime item) None]) with (@nil ident). rewrite app_nil_l, elem_of_app.
  intros [Hin|Hin]; [apply (H1 x Hin); by left|done].
Qed.

Lemma scan_reuses now now2 n i tmp idx p j : pool_ok p -> length (vec p) = (i + n)%nat -> (i <= j)%nat -> idle now p j ->
  (forall y, tmp = Some y -> y ∉ pooled p) ->
  exists x idx' p', scan now now2 n i tmp idx p = Ret (Some x, idx', p').
Proof.
  revert i tmp idx p. induction n as [|n IH]; intros i tmp idx p Hok Hl Hij Hidle Htmp.
  { destruct Hidle as (item & x & Hj & _). apply lookup_lt_Some in Hj. lia. }
  destruct Hidle as (item & x & Hj & Hx & Hh & Hnum & Hage).
  cbn [scan]. destruct (lookup_lt_is_Some_2 (vec p) i ltac:(lia)) as [it Hi]. rewrite Hi. cbn [deref mbind outcome_bind].
  assert (forall y it' k, vec p !! k = Some it' -> data it' = Some y -> y ∈ pooled p) as Hpool.
  { intros y it' k Hk Hy. unfold pooled. apply list_elem_of_omap. exists it'. split; [by eapply list_elem_of_lookup_2|done]. }
  destruct (decide (i = j)) as [->|Hne].
  - rewrite Hj in Hi. injection Hi as <-. rewrite Hx, use_count_idle; try done; [|by eapply Hpool|].
    2:{ intros ->. by apply (Htmp x); [done|eapply Hpool]. }
    rewrite Z.eqb_refl, (proj2 (Z.ltb_lt _ _)), (proj2 (Z.gtb_lt _ _)) by lia. cbn. by eexists _, _, _.
  - assert (forall tmp' idx', (forall y, tmp' = Some y -> y ∉ pooled p) ->
      exists x' idx'' p', scan now now2 n (S i) tmp' idx' p = Ret (Some x', idx'', p')) as Hgo.
    { intros tmp' idx' Ht. apply IH; [done|lia|lia| |done]. by exists item, x. }
    destruct (data it) as [y|] eqn:Hy; [|by apply Hgo]. destruct (use_count tmp y p =? 1); [|by apply Hgo].
    destruct ((num it <? 100) && _); [by eexists _, _, _|]. apply IH.
    + by apply pool_ok_clear.
    + cbn. rewrite length_insert. lia.
    + lia.
    + exists item, x. cbn. by rewrite list_lookup_insert_ne.
    + intros z [= <-]. by apply cleared_pooled.
Qed.

(** While the pool has an idle place that is not worn out, [grasp] opens
    no new connection: it hands out a pooled resource without an owner. *)
Theorem grasp_reuses now now2 ok p j : pool_ok p -> idle now p j ->
  exists x p', grasp now now2 ok p = Ret (Some x, p') /\ x ∈ pooled p /\ x ∉ held p /\ made p' = made p
    /\ held p' = x :: held p.
Proof.
  intros Hok Hidle. unfold grasp, grasp_scan.
  destruct (scan_reuses now now2 (length (vec p)) 0 None (-1) p j Hok eq_refl ltac:(lia) Hidle ltac:(done)) as (x & idx & p' & E).
  destruct (scan_spec now now2 (length (vec p)) 0 None (-1) p Hok eq_refl) as (r & idx' & p'' & E' & _ & _ & _ & Hm & _ & Hr).
  rewrite E in E'. injection E' as <- <- <-. rewrite E. cbn. exists x, p'. naive_solver.
Qed.

(** A pool with a worn-out place, an owned one and an idle one. *)
Definition demo : pool := mkPool 8 60 [mkData 100 0 (Some 0%nat); mkData 1 0 (Some 1%nat); mkData 1 0 (Some 2%nat)] [1%nat] 3.

Lemma grasp_reuses_witness :
  exists x p', grasp 5 6 false demo = Ret (Some x, p') /\ x ∈ pooled demo /\ x ∉ held demo /\ made p' = 3%nat
    /\ held p' = x :: held demo.
Proof.
  apply (grasp_reuses 5 6 false demo 2).
  - split; cbn; [by_compute|by_compute|by_compute| |vm_compute; discriminate]. repeat constructor; cbn; lia.
  - exists (mkData 1 0 (Some 2%nat)), 2%nat. split; [done|]. split; [done|]. split; [by_compute|]. cbn. lia.
Defined.

(** ** A password the server refuses *)
Import Redis RedisPool ResPool.

(** The pool after such calls: no place, or one without a connection. *)
Definition barren (n t : Z) (p : pool) : Prop :=
  maxlen p = n /\ timeout p = t /\ (vec p = [] \/ exists a b, vec p = [mkData a b None]).

Lemma disable_last n t now x h md : barren n t (disable x (mkPool n t [of_data now x] h md)).
Proof.
  unfold disable, barren. cbn [vec disable_in]. rewrite decide_True by done. cbn. split_and!; [done|done|].
  right. by eexists _, _.
Qed.

Lemma barren_get n t clock fuel p : 0 < n < 2 ^ 31 -> 0 < t -> barren n t p ->
  exists p', get (fun _ q => q) clock (fun _ => true) fuel p = Ret (Some (made p), p')
    /\ made p' = S (made p) /\ barren n t (disable (made p) p').
Proof.
  intros Hn Ht (E1 & E2 & Hv). unfold get. rewrite E2, (proj2 (Z.leb_gt _ _)) by lia.
  unfold grasp. destruct p as [m t' v h md]. cbn [maxlen timeout vec made] in *. subst m t'.
  destruct Hv as [->|(a & b & ->)].
  - unfold grasp_scan. cbn. rewrite Z.geb_leb, (proj2 (Z.leb_gt _ _)) by lia.
    cbn. unfold grow. cbn [vec maxlen]. change (zlen (@nil Data)) with 0.
    rewrite (proj2 (Z.ltb_lt 0 _)) by (unwrap; lia). eexists. split; [done|]. split; [done|]. apply disable_last.
  - cbn. eexists. split; [done|]. split; [done|]. apply disable_last.
Qed.

Lemma grasp_barren n t clock c fuel k p conns : 0 < n < 2 ^ 31 -> 0 < t -> barren n t p -> getErrorCode c <> 0 ->
  RedisPool.grasp clock (fun _ => Some c) fuel k p conns = Crash FuelExhausted.
Proof.
  intros Hn Ht Hb Hc. revert k p conns Hb. induction fuel as [|fuel IH]; intros k p conns Hb; [done|].
  cbn [RedisPool.grasp]. rewrite bool_decide_true by (by eexists).
  destruct (barren_get n t (clock k) fuel p Hn Ht Hb) as (p' & -> & Hm & Hb'). cbn [mbind outcome_bind].
  rewrite Hm, (proj2 (Nat.ltb_lt _ _)) by lia. rewrite lookup_insert_eq. cbn [deref mbind outcome_bind].
  rewrite (proj2 (Z.eqb_neq _ 0)) by done. by apply IH.
Qed.

(** A wrong password makes [RedisConnect::Instance] call itself for ever:
    the function of the pool takes the error code of [auth] for success (only
    0 is refused), the connection in error is thrown away by [grasp], and the
    next call makes the next one. *)
Theorem refused_password_recurses send recv passwd r m ps fuel n out k maxlen timeout :
  passwd <> [] -> plain m -> Forall (fun p => p <> []) ps -> concat ps = encode (Error m) ->
  Socket.write send (calls r) (Command.toString (Command.add_all [lit "auth"; passwd] Command.init)) = Ret (n, out, k) ->
  0 <= n -> delivers recv k ps -> zlen (buffer r) = memsz r + 1 -> zlen (encode (Error m)) <= memsz r ->
  (length ps <= fuel)%nat -> 0 < maxlen < 2 ^ 31 -> 0 < timeout ->
  exists c, create send recv fuel passwd true r = Ret (Some c) /\ getErrorCode c = FAIL
    /\ forall clock fuel', RedisPool.grasp clock (fun _ => Some c) fuel' 0 (init maxlen timeout) ∅ = Crash FuelExhausted.
Proof.
  intros Hp Hm Hps E Hw Hn Hd Hz Hl Hf Hmax Ht.
  destruct (getResult_pieces send recv (Error m) ps fuel r (Command.add_all [lit "auth"; passwd] Command.init)
    n out k Hm Hps E Hw Hn Hd Hz Hl Hf) as (b & _ & Hb).
  unfold create, auth, execute. destruct passwd as [|ch passwd]; [done|]. rewrite Hb. cbn [mbind outcome_bind].
  eexists. split; [done|]. split; [done|]. intros clock fuel'. apply (grasp_barren maxlen timeout); [done|done| |done].
  split; [done|]. split; [done|]. by left.
Qed.

Lemma refused_password_recurses_witness :
  exists c, create good_send (two_pieces (lit "-ERR") CRLF) 2 (lit "pw") true (fresh 64) = Ret (Some c)
    /\ getErrorCode c = FAIL
    /\ forall clock fuel', RedisPool.grasp clock (fun _ => Some c) fuel' 0 (init 8 60) ∅ = Crash FuelExhausted.
Proof.
  refine (refused_password_recurses good_send _ (lit "pw") (fresh 64) (lit "ERR") [lit "-ERR"; CRLF] 2 22
    (Command.toString (Command.add_all [lit "auth"; lit "pw"] Command.init)) 1 8 60
    _ _ _ _ _ _ (two_pieces_delivers _ _) _ _ _ _ _); try done; by_compute || (repeat constructor; done).
Defined.
