(* ===== verification/Address.v ===== *)
(** common/Endian.h, Socket/InetAddress and the address functions of
    Socket/SocketHelp: socket addresses as the bytes the kernel sees. *)
From S2P Require Import Prelude Cxx.

(** ** Endian.h, on a little-endian host: [htobe] and [betoh] reverse the bytes *)
Module Endian.
Definition bswap16 (x : Z) : Z := (Z.shiftl (x .& 255) 8 .| Z.shiftr x 8)%cxx.
Definition bswap32 (x : Z) : Z := (Z.shiftl (bswap16 (x .& 65535)) 16 .| bswap16 (Z.shiftr x 16))%cxx.
Definition bswap64 (x : Z) : Z := (Z.shiftl (bswap32 (x .& 4294967295)) 32 .| bswap32 (Z.shiftr x 32))%cxx.

Definition hostToNetwork64 (host64 : Z) : Z := bswap64 host64.
Definition hostToNetwork32 (host32 : Z) : Z := bswap32 host32.
Definition hostToNetwork16 (host16 : Z) : Z := bswap16 host16.
Definition networkToHost64 (net64 : Z) : Z := bswap64 net64.
Definition networkToHost32 (net32 : Z) : Z := bswap32 net32.
Definition networkToHost16 (net16 : Z) : Z := bswap16 net16.

(** The shift and the mask of one half. *)
Lemma split_half n x : 0 <= n -> (x .& (2 ^ n - 1))%cxx = x mod 2 ^ n /\ Z.shiftr x n = x / 2 ^ n.
Proof. intros Hn. split; [rewrite <- Z.land_ones by done; f_equal; by rewrite Z.ones_equiv, Z.sub_1_r|by apply Z.shiftr_div_pow2]. Qed.

Lemma join_half n hi lo : 0 <= n -> 0 <= lo < 2 ^ n -> (Z.shiftl hi n .| lo)%cxx = hi * 2 ^ n + lo.
Proof.
  intros Hn Hlo. assert (Z.land (Z.shiftl hi n) lo = 0) as E.
  { apply Z.bits_inj'. intros i Hi. rewrite Z.land_spec, Z.bits_0. destruct (Z.ltb_spec i n) as [H|H].
    - by rewrite Z.shiftl_spec_low.
    - replace lo with (lo mod 2 ^ n) by (by apply Z.mod_small). by rewrite Z.mod_pow2_bits_high, andb_false_r by lia. }
  rewrite <- Z.lxor_lor by done. rewrite <- Z.add_nocarry_lxor by done. by rewrite Z.shiftl_mul_pow2.
Qed.

(** The halves change places. *)
Lemma bswap16_eq x : 0 <= x < 2 ^ 16 -> bswap16 x = x mod 256 * 256 + x / 256.
Proof.
  intros Hx. unfold bswap16. destruct (split_half 8 x ltac:(lia)) as [E1 E2]. change (2 ^ 8 - 1) with 255 in E1.
  change (2 ^ 8) with 256 in *. change (2 ^ 16) with 65536 in *. rewrite E1, E2. apply (join_half 8); [lia|].
  change (2 ^ 8) with 256. Z.div_mod_to_equations. lia.
Qed.

Lemma bswap16_range x : 0 <= x < 2 ^ 16 -> 0 <= bswap16 x < 2 ^ 16.
Proof. intros Hx. rewrite bswap16_eq by done. change (2 ^ 16) with 65536 in *. Z.div_mod_to_equations. lia. Qed.

Lemma bswap16_twice x : 0 <= x < 2 ^ 16 -> bswap16 (bswap16 x) = x.
Proof.
  intros Hx. pose proof (bswap16_range x Hx) as Hr. rewrite (bswap16_eq (bswap16 x)), bswap16_eq by done.
  change (2 ^ 16) with 65536 in *. Z.div_mod_to_equations. lia.
Qed.

(** A swap of [2 n] bits from a swap [f] of [n]. *)
Section double.
Context (n : Z) (f g : Z -> Z) (Hn : 0 <= n).
Context (f_range : forall x, 0 <= x < 2 ^ n -> 0 <= f x < 2 ^ n) (f_twice : forall x, 0 <= x < 2 ^ n -> f (f x) = x).
Context (g_eq : forall x, g x = (Z.shiftl (f (x .& (2 ^ n - 1))) n .| f (Z.shiftr x n))%cxx).

Lemma halves x : 0 <= x < 2 ^ (n + n) -> 0 <= x mod 2 ^ n < 2 ^ n /\ 0 <= x / 2 ^ n < 2 ^ n.
Proof.
  intros Hx. pose proof (Z.pow_pos_nonneg 2 n ltac:(lia) Hn). rewrite Z.pow_add_r in Hx by lia.
  split; [apply Z.mod_pos_bound; lia|]. split; [apply Z.div_pos; lia|apply Z.div_lt_upper_bound; lia].
Qed.

Lemma double_eq x : 0 <= x < 2 ^ (n + n) -> g x = f (x mod 2 ^ n) * 2 ^ n + f (x / 2 ^ n).
Proof.
  intros Hx. destruct (halves x Hx) as [H1 H2]. rewrite g_eq. destruct (split_half n x Hn) as [-> ->].
  apply join_half; [done|auto].
Qed.

Lemma double_range x : 0 <= x < 2 ^ (n + n) -> 0 <= g x < 2 ^ (n + n).
Proof.
  intros Hx. destruct (halves x Hx) as [H1 H2]. rewrite double_eq by done. pose proof (f_range _ H1). pose proof (f_range _ H2).
  rewrite Z.pow_add_r by lia. nia.
Qed.

Lemma double_twice x : 0 <= x < 2 ^ (n + n) -> g (g x) = x.
Proof.
  intros Hx. destruct (halves x Hx) as [H1 H2]. rewrite (double_eq (g x)) by (by apply double_range). rewrite (double_eq x) by done.
  pose proof (f_range _ H2) as H3. pose proof (Z.pow_pos_nonneg 2 n ltac:(lia) Hn).
  assert (forall a b, 0 <= b < 2 ^ n -> (a * 2 ^ n + b) mod 2 ^ n = b /\ (a * 2 ^ n + b) / 2 ^ n = a) as E.
  { intros a b Hb. rewrite Z.div_add_l, (Z.div_small b), Z.add_comm, Z.mod_add, Z.mod_small by lia. lia. }
  destruct (E (f (x mod 2 ^ n)) (f (x / 2 ^ n)) H3) as [-> ->].
  rewrite !f_twice by done. pose proof (Z.div_mod x (2 ^ n) ltac:(lia)). lia.
Qed.
End double.

Lemma bswap32_swap : (forall x, 0 <= x < 2 ^ 32 -> 0 <= bswap32 x < 2 ^ 32) /\ (forall x, 0 <= x < 2 ^ 32 -> bswap32 (bswap32 x) = x).
Proof.
  split; intros x Hx; [apply (double_range 16 bswap16)|apply (double_twice 16 bswap16)];
    auto using bswap16_range, bswap16_twice; done.
Qed.
Lemma bswap64_swap : (forall x, 0 <= x < 2 ^ 64 -> 0 <= bswap64 x < 2 ^ 64) /\ (forall x, 0 <= x < 2 ^ 64 -> bswap64 (bswap64 x) = x).
Proof.
  destruct bswap32_swap. split; intros x Hx; [apply (double_range 32 bswap32)|apply (double_twice 32 bswap32)]; auto; done.
Qed.
End Endian.

(** ** Integers in memory, the least significant byte first *)
Fixpoint to_le (n : nat) (v : Z) : bytes :=
  match n with O => [] | S n' => chr (v mod 256) :: to_le n' (v / 256) end.
Fixpoint of_le (l : bytes) : Z := match l with [] => 0 | c :: l' => ord c + 256 * of_le l' end.

Definition load (off n : Z) (mem : bytes) : outcome Z :=
  if off + n <=? zlen mem then Ret (of_le (zslice off (off + n) mem)) else Crash UndefinedBehaviour.
Definition store (off : Z) (n : nat) (v : Z) (mem : bytes) : outcome bytes := write_at off (to_le n v) mem.
Definition bzero (off n : Z) (mem : bytes) : outcome bytes := write_at off (replicate (Z.to_nat n) NUL) mem.

(** ** [InetAddress]: the 28 bytes of the union of [sockaddr_in] and
    [sockaddr_in6]

    The family is at 0, the port at 2 in both; [sin_addr] is at 4, [sin6_addr]
    at 8; a [sockaddr_in] takes 16 bytes. *)
Module InetAddress.

Definition AF_INET : Z := 2.
Definition AF_INET6 : Z := 10.
Definition kInaddrAny : Z := 0.
Definition kInaddrLoopback : Z := 2130706433.
Definition in6addr_any : bytes := replicate 16 NUL.
Definition in6addr_loopback : bytes := replicate 15 NUL ++ [chr 1].

Abbreviation t := bytes.

(** [InetAddress(port, loopbackOnly, ipv6)]; [mem] is what the memory held. *)
Definition of_port (mem : t) (port : Z) (loopbackOnly ipv6 : bool) : outcome t :=
  if ipv6
  then
    m ← bzero 0 28 mem;
    m ← store 0 2 AF_INET6 m;
    m ← write_at 8 (if loopbackOnly then in6addr_loopback else in6addr_any) m;
    store 2 2 (Endian.hostToNetwork16 port) m
  else
    m ← bzero 0 16 mem;
    m ← store 0 2 AF_INET m;
    m ← store 4 4 (Endian.hostToNetwork32 (if loopbackOnly then kInaddrLoopback else kInaddrAny)) m;
    store 2 2 (Endian.hostToNetwork16 port) m.

Definition family (a : t) : outcome Z := load 0 2 a.
Definition toPort (a : t) : outcome Z := p ← load 2 2 a; Ret (Endian.networkToHost16 p).
Definition ipNetEndian (a : t) : outcome Z := f ← family a; _ ← cassert (f =? AF_INET); load 4 4 a.

Section text.
(** [inet_ntop] of the bytes of an address, and [inet_pton] of [AF_INET]. *)
Context (inet_ntop : Z -> bytes -> bytes) (inet_pton : bytes -> option bytes).

Definition fromIpPort (ip : bytes) (port : Z) (addr : t) : outcome t :=
  m ← store 0 2 AF_INET addr;
  m ← store 2 2 (Endian.hostToNetwork16 port) m;
  match inet_pton (cstr ip) with Some x => write_at 4 x m | None => Ret m end.

(** [InetAddress(ip, port, ipv6)] *)
Definition of_ip (mem : t) (ip : bytes) (port : Z) (ipv6 : bool) : outcome t :=
  if ipv6 then Ret mem else m ← bzero 0 16 mem; fromIpPort ip port m.

(** [inet_ntop] leaves the buffer alone when the text and its NUL do not fit. *)
Definition put_text (s : bytes) (buf : bytes) : outcome bytes :=
  if zlen s <? zlen buf then write_at 0 (s ++ [NUL]) buf else Ret buf.

Definition sockets_toIp (buf : bytes) (addr : t) : outcome bytes :=
  f ← family addr;
  if f =? AF_INET
  then
    _ ← cassert (zlen buf >=? 16);
    _ ← load 4 4 addr;
    put_text (inet_ntop AF_INET (zslice 4 8 addr)) buf
  else if f =? AF_INET6
  then
    _ ← cassert (zlen buf >=? 46);
    _ ← load 8 16 addr;
    put_text (inet_ntop AF_INET6 (zslice 8 24 addr)) buf
  else Ret buf.

Definition sockets_toIpPort (buf : bytes) (addr : t) : outcome bytes :=
  buf ← sockets_toIp buf addr;
  let end_ := zlen (cstr buf) in
  p ← load 2 2 addr;
  let port := Endian.networkToHost16 p in
  _ ← cassert (zlen buf >? end_);
  write_at end_ (snprintf (zlen buf - end_) (lit ":" ++ udec port) ++ [NUL]) buf.

Definition toIpPort (a : t) : outcome bytes := buf ← sockets_toIpPort (replicate 64 NUL) a; Ret (cstr buf).
Definition toIp (a : t) : outcome bytes := buf ← sockets_toIp (replicate 64 NUL) a; Ret (cstr buf).
End text.
End InetAddress.

(** ** Memory *)
Lemma length_to_le n v : length (to_le n v) = n.
Proof. revert v. induction n; intros v; cbn; auto. Qed.

Lemma zlen_to_le n v : zlen (to_le n v) = Z.of_nat n.
Proof. unfold zlen. by rewrite length_to_le. Qed.

Lemma of_to_le n v : 0 <= v < 256 ^ Z.of_nat n -> of_le (to_le n v) = v.
Proof.
  revert v. induction n as [|n IH]; intros v Hv; cbn [to_le of_le]; [cbn in Hv; lia|].
  rewrite Nat2Z.inj_succ, Z.pow_succ_r in Hv by lia. pose proof (Z.mod_pos_bound v 256 ltac:(lia)).
  rewrite ord_chr by lia. rewrite IH by (split; [apply Z.div_pos; lia|apply Z.div_lt_upper_bound; lia]).
  pose proof (Z.div_mod v 256 ltac:(lia)). lia.
Qed.

Lemma of_le_range l : 0 <= of_le l < 256 ^ zlen l.
Proof.
  induction l as [|c l IH]; cbn [of_le]; [done|]. rewrite zlen_cons, Z.pow_add_r by (try apply zlen_nonneg; lia).
  pose proof (ord_range c). lia.
Qed.

Lemma load_mid off n pre m post : off = zlen pre -> n = zlen m -> load off n (pre ++ m ++ post) = Ret (of_le m).
Proof.
  intros -> ->. unfold load. rewrite !zlen_app. pose proof (zlen_nonneg post). rewrite (proj2 (Z.leb_le _ _)) by lia.
  by rewrite zslice_app_mid.
Qed.

Lemma write_mid {A} off (d pre old post : list A) : off = zlen pre -> zlen d = zlen old ->
  write_at off d (pre ++ old ++ post) = Ret (pre ++ d ++ post).
Proof.
  intros -> Hd. pose proof (zlen_nonneg post). pose proof (zlen_nonneg pre).
  rewrite write_at_ok by (rewrite ?zlen_app; lia). rewrite ztake_app_exact by done. rewrite (app_assoc pre old), zdrop_app_exact by (rewrite zlen_app; lia).
  done.
Qed.

Lemma store_mid off n v pre old post : off = zlen pre -> zlen old = Z.of_nat n ->
  store off n v (pre ++ old ++ post) = Ret (pre ++ to_le n v ++ post).
Proof. intros -> Ho. apply write_mid; [done|]. by rewrite zlen_to_le. Qed.

(** ** An IPv4 address in memory *)
Section ipv4.
Import InetAddress.

(** Family, port, address and the rest. *)
Definition image (f p : Z) (x r : bytes) : t := to_le 2 f ++ to_le 2 p ++ x ++ r.

Lemma image_fields f p x r : 0 <= f < 2 ^ 16 -> 0 <= p < 2 ^ 16 -> zlen x = 4 ->
  family (image f p x r) = Ret f /\ load 2 2 (image f p x r) = Ret p /\ load 4 4 (image f p x r) = Ret (of_le x)
  /\ zslice 4 8 (image f p x r) = x.
Proof.
  intros Hf Hp Hx. unfold image, family. split.
  { change (to_le 2 f ++ ?l) with ([] ++ to_le 2 f ++ l). rewrite (load_mid 0 2 []) by done. by rewrite of_to_le by done. }
  split; [rewrite (load_mid 2 2 (to_le 2 f)) by done; by rewrite of_to_le by done|].
  rewrite app_assoc. split; [by rewrite load_mid|].
  pose proof (zslice_app_mid (to_le 2 f ++ to_le 2 p) x r) as E. rewrite Hx in E. exact E.
Qed.

(** Zeroing a [sockaddr_in]. *)
Lemma bzero_16 mem : zlen mem = 28 -> bzero 0 16 mem = Ret (image 0 0 (replicate 4 NUL) (replicate 8 NUL ++ zdrop 16 mem)).
Proof.
  intros Hm. rewrite <- (ztake_zdrop 16 mem) at 1. unfold bzero.
  pose proof (write_mid 0 (replicate (Z.to_nat 16) NUL) [] (ztake 16 mem) (zdrop 16 mem) eq_refl) as E. cbn [app] in E.
  rewrite E by (rewrite zlen_ztake by lia; done). done.
Qed.

Lemma of_port_image mem port loopbackOnly : zlen mem = 28 ->
  of_port mem port loopbackOnly false = Ret (image AF_INET (Endian.hostToNetwork16 port)
    (to_le 4 (Endian.hostToNetwork32 (if loopbackOnly then kInaddrLoopback else kInaddrAny))) (replicate 8 NUL ++ zdrop 16 mem)).
Proof.
  intros Hm. unfold of_port. rewrite bzero_16 by done. cbn [mbind outcome_bind]. unfold image.
  change (to_le 2 0 ++ ?l) with ([] ++ to_le 2 0 ++ l). rewrite store_mid by done. cbn [mbind outcome_bind app].
  rewrite (app_assoc (to_le 2 AF_INET)), store_mid by done. cbn [mbind outcome_bind]. rewrite <- app_assoc. by rewrite store_mid by done.
Qed.

Section text.
Context (inet_ntop : Z -> bytes -> bytes) (inet_pton : bytes -> option bytes).
(** An IPv4 address has four bytes; its text at most 15 characters, that of an
    IPv6 address at most 45, and no NUL. *)
Context (pton_4 : forall s x, inet_pton s = Some x -> zlen x = 4).
Context (ntop_short : forall f x, zlen (inet_ntop f x) <= if f =? AF_INET then 15 else 45).
Context (ntop_text : forall f x, NUL ∉ inet_ntop f x).

Lemma of_ip_image mem ip port : zlen mem = 28 ->
  of_ip inet_pton mem ip port false = Ret (image AF_INET (Endian.hostToNetwork16 port)
    (default (replicate 4 NUL) (inet_pton (cstr ip))) (replicate 8 NUL ++ zdrop 16 mem)).
Proof.
  intros Hm. unfold of_ip. rewrite bzero_16 by done. cbn [mbind outcome_bind]. unfold fromIpPort, image.
  change (to_le 2 0 ++ ?l) with ([] ++ to_le 2 0 ++ l). rewrite store_mid by done. cbn [mbind outcome_bind app].
  rewrite store_mid by done. cbn [mbind outcome_bind]. destruct (inet_pton (cstr ip)) as [x|] eqn:E; cbn [default]; [|done].
  rewrite !(app_assoc (to_le 2 AF_INET)). rewrite write_mid; [done|by rewrite zlen_app, !zlen_to_le|]. by rewrite (pton_4 _ _ E).
Qed.

(** The text of the buffer once a text that fits is in it. *)
Lemma put_text_spec s size : NUL ∉ s -> zlen s < size ->
  put_text s (replicate (Z.to_nat size) NUL) = Ret (s ++ NUL :: replicate (Z.to_nat (size - zlen s - 1)) NUL).
Proof.
  intros Hs Hz. unfold put_text. pose proof (zlen_nonneg s). rewrite zlen_replicate, (proj2 (Z.ltb_lt _ _)) by lia.
  replace (replicate (Z.to_nat size) NUL) with ([] ++ replicate (Z.to_nat (zlen s + 1)) NUL ++ replicate (Z.to_nat (size - zlen s - 1)) NUL).
  - rewrite write_mid; [cbn [app]; by rewrite <- app_assoc|done|]. rewrite zlen_replicate, zlen_app by lia. done.
  - cbn [app]. rewrite <- replicate_add. f_equal. lia.
Qed.

Lemma cstr_text s n : NUL ∉ s -> cstr (s ++ NUL :: replicate n NUL) = s.
Proof. intros Hs. rewrite cstr_app by done. cbn. by rewrite app_nil_r. Qed.

(** The address as text, by family. *)
Definition address_text (a : t) : bytes :=
  let f := of_le (zslice 0 2 a) in
  if f =? AF_INET then inet_ntop AF_INET (zslice 4 8 a)
  else if f =? AF_INET6 then inet_ntop AF_INET6 (zslice 8 24 a) else [].
Definition port_of (a : t) : Z := Endian.networkToHost16 (of_le (zslice 2 4 a)).

Lemma load_ok off n a : zlen a = 28 -> off + n <= 28 -> load off n a = Ret (of_le (zslice off (off + n) a)).
Proof. intros Ha Hn. unfold load. by rewrite Ha, (proj2 (Z.leb_le _ _)). Qed.

Lemma address_text_short a : NUL ∉ address_text a /\ zlen (address_text a) <= 45.
Proof.
  unfold address_text. cbv zeta. repeat case_match; try (split; [apply ntop_text|]).
  - pose proof (ntop_short AF_INET (zslice 4 8 a)) as H1. cbn [Z.eqb AF_INET Pos.eqb] in H1. lia.
  - apply ntop_short.
  - split; [apply not_elem_of_nil|done].
Qed.

Lemma toIp_buffer a : zlen a = 28 -> let s := address_text a in
  sockets_toIp inet_ntop (replicate 64 NUL) a = Ret (s ++ NUL :: replicate (Z.to_nat (64 - zlen s - 1)) NUL).
Proof.
  intros Ha. cbv zeta. unfold sockets_toIp, family. rewrite (load_ok 0 2) by done. cbn [mbind outcome_bind].
  destruct (address_text_short a) as [Hn Hs]. revert Hn Hs. unfold address_text. change (0 + 2) with 2.
  destruct (of_le (zslice 0 2 a) =? AF_INET); [|destruct (of_le (zslice 0 2 a) =? AF_INET6)]; intros Hn Hs; [| |reflexivity].
  - rewrite cassert_true by done. cbn [mbind outcome_bind]. rewrite load_ok by done. cbn [mbind outcome_bind].
    change 64%nat with (Z.to_nat 64) at 1. apply put_text_spec; [done|lia].
  - rewrite cassert_true by done. cbn [mbind outcome_bind]. rewrite load_ok by done. cbn [mbind outcome_bind].
    change 64%nat with (Z.to_nat 64) at 1. apply put_text_spec; [done|lia].
Qed.

Lemma port_range a : zlen a = 28 -> 0 <= port_of a < 2 ^ 16.
Proof.
  intros Ha. apply Endian.bswap16_range. pose proof (of_le_range (zslice 2 4 a)) as Hr.
  rewrite zlen_zslice in Hr by lia. exact Hr.
Qed.

Lemma toIpPort_text a : zlen a = 28 -> toIpPort inet_ntop a = Ret (address_text a ++ lit ":" ++ udec (port_of a)).
Proof.
  intros Ha. unfold toIpPort, sockets_toIpPort. rewrite toIp_buffer by done. cbn [mbind outcome_bind].
  destruct (address_text_short a) as [Hn Hs]. set (s := address_text a) in *. pose proof (zlen_nonneg s).
  rewrite cstr_text by done. rewrite load_ok by done. cbn [mbind outcome_bind]. change (Endian.networkToHost16 (of_le (zslice 2 (2 + 2) a))) with (port_of a).
  set (p := lit ":" ++ udec (port_of a)).
  assert (zlen p <= 6 /\ NUL ∉ p) as [Hp Hpn].
  { pose proof (port_range a Ha) as Hr. change (2 ^ 16) with 65536 in Hr. unfold p. split.
    - rewrite zlen_app. change (zlen (lit ":")) with 1. pose proof (zlen_udec (port_of a) 5 ltac:(lia) ltac:(lia)). lia.
    - rewrite not_elem_of_app. split; [by_compute|apply udec_no_nul]. }
  assert (zlen (s ++ NUL :: replicate (Z.to_nat (64 - zlen s - 1)) NUL) = 64) as Hz by (rewrite zlen_app, zlen_cons, zlen_replicate; lia).
  rewrite Hz, cassert_true by lia. cbn [mbind outcome_bind]. rewrite snprintf_fits by lia. pose proof (zlen_nonneg p).
  assert (NUL :: replicate (Z.to_nat (64 - zlen s - 1)) NUL
    = replicate (Z.to_nat (zlen p + 1)) NUL ++ replicate (Z.to_nat (64 - zlen s - zlen p - 1)) NUL) as ->.
  { rewrite <- replicate_add. change (NUL :: replicate ?n NUL) with (replicate (S n) NUL). f_equal. lia. }
  rewrite write_mid by (rewrite ?zlen_app, ?zlen_replicate by lia; done). cbn [mbind outcome_bind].
  rewrite <- app_assoc. cbn [app]. rewrite app_assoc, cstr_text; [done|]. rewrite not_elem_of_app. done.
Qed.

Lemma toIp_text a : zlen a = 28 -> toIp inet_ntop a = Ret (address_text a).
Proof.
  intros Ha. unfold toIp. rewrite toIp_buffer by done. cbn [mbind outcome_bind]. destruct (address_text_short a). by rewrite cstr_text.
Qed.
End text.
End ipv4.

(** ** Addresses and their text *)

(** The dotted quad of an IPv4 address in network order. *)
Definition dotted (x : bytes) : bytes :=
  match x with
  | [a; b; c; d] => udec (ord a) ++ lit "." ++ udec (ord b) ++ lit "." ++ udec (ord c) ++ lit "." ++ udec (ord d)
  | _ => lit "?"
  end.
(** What is relied on of [inet_ntop] and [inet_pton], as POSIX documents
    them: the text of an IPv4 address is its dotted quad, which reads back. *)
Record inet_laws (inet_ntop : Z -> bytes -> bytes) (inet_pton : bytes -> option bytes) : Prop := {
  pton_size : forall s x, inet_pton s = Some x -> zlen x = 4;
  ntop_size : forall f x, zlen (inet_ntop f x) <= if f =? InetAddress.AF_INET then 15 else 45;
  ntop_chars : forall f x, NUL ∉ inet_ntop f x;
  ntop_dotted : forall x, zlen x = 4 -> inet_ntop InetAddress.AF_INET x = dotted x;
  pton_dotted : forall x, zlen x = 4 -> inet_pton (dotted x) = Some x
}.

(** The text of an address is written inside its buffer of 64 characters,
    whatever the address: an IPv4 or IPv6 address or anything else. *)
Theorem address_text_total inet_ntop inet_pton a (Hl : inet_laws inet_ntop inet_pton) (Ha : zlen a = 28) :
  InetAddress.toIp inet_ntop a = Ret (address_text inet_ntop a)
  /\ InetAddress.toIpPort inet_ntop a = Ret (address_text inet_ntop a ++ lit ":" ++ udec (port_of a))
  /\ zlen (address_text inet_ntop a ++ lit ":" ++ udec (port_of a)) < 64 /\ 0 <= port_of a < 2 ^ 16.
Proof.
  destruct Hl as [H1 H2 H3 _ _]. split; [by apply toIp_text|]. split; [by apply toIpPort_text|]. pose proof (port_range a Ha) as Hr.
  split; [|done]. change (2 ^ 16) with 65536 in Hr. destruct (address_text_short inet_ntop H2 H3 a) as [_ Hs].
  rewrite !zlen_app. change (zlen (lit ":")) with 1. pose proof (zlen_udec (port_of a) 5 ltac:(lia) ltac:(lia)). lia.
Qed.

(** C36. An address made from the dotted quad of an IPv4 address and a port
    gives both back, in host order, and prints as "quad:port"; text that is
    not an address gives 0.0.0.0. *)
Theorem ip_port_roundtrip inet_ntop inet_pton mem ip x port (Hl : inet_laws inet_ntop inet_pton)
    (Hm : zlen mem = 28) (Hport : in_u 16 port) (Hip : NUL ∉ ip)
    (Hx : zlen x = 4 /\ ip = dotted x \/ inet_pton ip = None /\ x = replicate 4 NUL) :
  exists a, InetAddress.of_ip inet_pton mem ip port false = Ret a /\ zlen a = 28
    /\ InetAddress.family a = Ret InetAddress.AF_INET /\ InetAddress.toPort a = Ret port
    /\ InetAddress.ipNetEndian a = Ret (of_le x)
    /\ InetAddress.toIp inet_ntop a = Ret (dotted x)
    /\ InetAddress.toIpPort inet_ntop a = Ret (dotted x ++ lit ":" ++ udec port).
Proof.
  destruct Hl as [H1 H2 H3 Hntop Hpton]. rewrite (of_ip_image inet_pton H1) by done. rewrite cstr_id by done.
  assert (zlen x = 4 /\ default (replicate 4 NUL) (inet_pton ip) = x) as [Hx4 ->].
  { destruct Hx as [[Hx ->]|[-> ->]]; [by rewrite Hpton|done]. }
  clear Hx. rewrite <- (Hntop x Hx4).
  set (r := replicate 8 NUL ++ zdrop 16 mem).
  pose proof (Endian.bswap16_range port Hport) as Hp. pose proof (Endian.bswap16_twice port Hport) as Hpp.
  destruct (image_fields InetAddress.AF_INET (Endian.hostToNetwork16 port) x r) as (Ef & Ep & Ex & Es); [done|exact Hp|done|].
  eexists. split; [reflexivity|]. set (a := image _ _ _ _) in *.
  assert (zlen a = 28) as Ha.
  { unfold a, image, r. rewrite !zlen_app, !zlen_to_le, Hx4, zlen_zdrop by lia. rewrite Hm. done. }
  clearbody a. assert (port_of a = port) as Epo.
  { unfold port_of. pose proof Ep as E. rewrite load_ok in E by done. injection E as E. change (2 + 2) with 4 in E. rewrite E. exact Hpp. }
  assert (address_text inet_ntop a = inet_ntop InetAddress.AF_INET x) as Et.
  { unfold address_text. pose proof Ef as E. unfold InetAddress.family in E. rewrite load_ok in E by done. injection E as E.
    change (0 + 2) with 2 in E. rewrite E, Es. done. }
  split; [done|]. split; [done|]. split; [unfold InetAddress.toPort; rewrite Ep; cbn [mbind outcome_bind]; f_equal; exact Hpp|].
  split; [unfold InetAddress.ipNetEndian; rewrite Ef; exact Ex|].
  rewrite toIp_text, toIpPort_text by done. by rewrite Et, Epo.
Qed.

(** A reader of dotted quads. *)
Definition read_quad (s : bytes) : option bytes :=
  let next l := let d := digit_prefix l in (chr (digits_val 0 d), drop (S (length d)) l) in
  let '(a, s1) := next s in let '(b, s2) := next s1 in let '(c, s3) := next s2 in let '(d, _) := next s3 in
  if decide (dotted [a; b; c; d] = s) then Some [a; b; c; d] else None.
Definition text_of (f : Z) (x : bytes) : bytes := if f =? InetAddress.AF_INET then dotted x else lit "::".

Lemma read_quad_dotted x : zlen x = 4 -> read_quad (dotted x) = Some x.
Proof.
  destruct x as [|a [|b [|c [|d [|e x]]]]]; try done; [intros _|intros H; rewrite !zlen_cons in H; pose proof (zlen_nonneg x); lia].
  assert (forall y r, match r with z :: _ => isdigit z = false | [] => True end ->
    digit_prefix (udec (ord y) ++ r) = udec (ord y) /\ chr (digits_val 0 (udec (ord y))) = y) as Hn.
  { intros y r Hr. pose proof (ord_range y). split; [apply digit_prefix_app; [apply udec_digits; lia|done]|]. rewrite udec_val by lia. apply chr_ord. }
  assert (forall y r, drop (S (length (udec (ord y)))) (udec (ord y) ++ lit "." ++ r) = r) as Hdrop.
  { intros y r. rewrite drop_app_ge by lia. replace (S _ - _)%nat with 1%nat by lia. done. }
  unfold read_quad. cbn [dotted]. rewrite <- (app_nil_r (udec (ord d))).
  do 3 (match goal with |- context [digit_prefix (udec (ord ?y) ++ ?r)] => destruct (Hn y r eq_refl) as [-> ->] end; cbv iota beta; rewrite Hdrop).
  destruct (Hn d [] I) as [-> ->]. rewrite app_nil_r. by rewrite decide_True by done.
Qed.

Lemma read_quad_laws : inet_laws text_of read_quad.
Proof.
  assert (forall c, zlen (udec (ord c)) <= 3 /\ NUL ∉ udec (ord c)) as Hd.
  { intros c. pose proof (ord_range c). split; [apply (zlen_udec _ 3); lia|apply udec_no_nul]. }
  split.
  - intros s x. unfold read_quad. case_decide; [|done]. by intros [= <-].
  - intros f x. unfold text_of. case_match; [|by vm_compute]. destruct x as [|a [|b [|c [|d [|e x]]]]]; try (by vm_compute).
    cbn [dotted]. rewrite !zlen_app. change (zlen (lit ".")) with 1. pose proof (Hd a). pose proof (Hd b). pose proof (Hd c). pose proof (Hd d). lia.
  - intros f x. unfold text_of. case_match; [|by_compute]. destruct x as [|a [|b [|c [|d [|e x]]]]]; try by_compute.
    cbn [dotted]. rewrite !not_elem_of_app. pose proof (Hd a). pose proof (Hd b). pose proof (Hd c). pose proof (Hd d).
    split_and!; first [apply Hd|by_compute].
  - done.
  - exact read_quad_dotted.
Qed.

Lemma address_text_total_witness : InetAddress.toIpPort text_of (replicate 28 (chr 2)) = Ret (lit ":514").
Proof.
  destruct (address_text_total text_of read_quad (replicate 28 (chr 2)) read_quad_laws eq_refl) as (_ & E & _).
  rewrite E. vm_compute. reflexivity.
Defined.

Lemma ip_port_roundtrip_witness : exists a, InetAddress.of_ip read_quad (replicate 28 (chr 9)) (lit "127.0.0.1") 8080 false = Ret a
  /\ InetAddress.toPort a = Ret 8080 /\ InetAddress.toIpPort text_of a = Ret (lit "127.0.0.1:8080").
Proof.
  destruct (ip_port_roundtrip text_of read_quad (replicate 28 (chr 9)) (lit "127.0.0.1") [chr 127; chr 0; chr 0; chr 1] 8080 read_quad_laws eq_refl)
    as (a & E & _ & _ & Hp & _ & _ & Ht); [by vm_compute|by_compute|left; split; reflexivity|].
  exists a. split; [exact E|]. split; [exact Hp|]. rewrite Ht. vm_compute. reflexivity.
Defined.

(** A name in place of an address: every address of the host. *)
Lemma name_is_any port mem : zlen mem = 28 ->
  InetAddress.of_ip read_quad mem (lit "localhost") port false = InetAddress.of_port mem port false false.
Proof.
  intros Hm. rewrite (of_ip_image read_quad (pton_size _ _ read_quad_laws)), of_port_image by done.
  assert (read_quad (cstr (lit "localhost")) = None) as -> by (vm_compute; reflexivity). reflexivity.
Qed.

(** The constructor from text does nothing for IPv6: the address is what the
    memory held. *)
Lemma ipv6_text_ignored pton mem ip port : InetAddress.of_ip pton mem ip port true = Ret mem.
Proof. done. Qed.
