(* ===== verification/Sockets.v ===== *)
(** Socket/Socket and the socket calls of Socket/SocketHelp: what the wrappers
    ask of the kernel, where a server set up with them listens, and how a
    connection learns its addresses and its state. *)
From S2P Require Import Prelude Cxx Address.

(** ** The system calls *)

(** The fields of [tcp_info] the code reads. *)
Record tcp_info := mkTcpInfo {
  tcpi_retransmits : Z; tcpi_rto : Z; tcpi_ato : Z; tcpi_snd_mss : Z; tcpi_rcv_mss : Z; tcpi_lost : Z;
  tcpi_retrans : Z; tcpi_rtt : Z; tcpi_rttvar : Z; tcpi_snd_ssthresh : Z; tcpi_snd_cwnd : Z; tcpi_total_retrans : Z
}.

(** A call gives a result, or [inr errno], and the state it leaves; an address is
    the bytes the call was given the length of. *)
Class SockOs (K : Type) := {
  so_socket : Z -> Z -> Z -> K -> (Z + Z) * K;
  so_fcntl : Z -> Z -> Z -> K -> Z * K;
  so_connect : Z -> bytes -> K -> Z * K;
  so_bind : Z -> bytes -> K -> Z * K;
  so_listen : Z -> Z -> K -> Z * K;
  so_getsockname : Z -> Z -> K -> option bytes * K;
  so_getpeername : Z -> Z -> K -> option bytes * K;
  so_setsockopt : Z -> Z -> Z -> Z -> K -> Z * K;
  so_getsockopt : Z -> Z -> Z -> K -> (Z + Z) * K;
  so_tcp_info : Z -> K -> option tcp_info * K;
  so_shutdown : Z -> Z -> K -> Z * K;
  so_close : Z -> K -> Z * K
}.

Definition SOCK_STREAM : Z := 1.
Definition SOCK_NONBLOCK : Z := 2048.
Definition SOCK_CLOEXEC : Z := 524288.
Definition IPPROTO_TCP : Z := 6.
Definition SOL_SOCKET : Z := 1.
Definition SOL_TCP : Z := 6.
Definition SO_REUSEADDR : Z := 2.
Definition SO_ERROR : Z := 4.
Definition SO_KEEPALIVE : Z := 9.
Definition SO_REUSEPORT : Z := 15.
Definition TCP_NODELAY : Z := 1.
Definition TCP_KEEPIDLE : Z := 4.
Definition TCP_KEEPINTVL : Z := 5.
Definition TCP_KEEPCNT : Z := 6.
Definition SHUT_WR : Z := 1.
Definition SOMAXCONN : Z := 4096.
Definition F_SETFD : Z := 2.
Definition FD_CLOEXEC : Z := 1.
Definition EINVAL : Z := 22.

(** ** [sockets]: Socket/SocketHelp *)
Module sockets.
Section calls.
Context {K : Type} `{!SockOs K}.
Abbreviation M := (ST K).
Definition call {A} (f : K -> A * K) : M A := fun k => Ret (f k).

(** A log statement is left out; [LOG_FATAL] only writes a line, too. *)
Definition createSocket (family : Z) : M Z :=
  r ← call (so_socket family (SOCK_STREAM .| SOCK_CLOEXEC)%cxx 0);
  match r with
  | inl sock => mret sock
  | inr errno =>
      if errno =? EINVAL
      then
        r ← call (so_socket family SOCK_STREAM 0);
        match r with
        | inl sock => _ ← call (so_fcntl sock F_SETFD FD_CLOEXEC); mret sock
        | inr _ => mret (-1)
        end
      else mret (-1)
  end.

(** The length passed is that of a [sockaddr], whatever the family. *)
Definition connect (sockfd : Z) (addr : bytes) : M Z := call (so_connect sockfd (ztake 16 addr)).

Definition createNonblockingOrDie (family : Z) : M Z :=
  r ← call (so_socket family (SOCK_STREAM .| SOCK_NONBLOCK .| SOCK_CLOEXEC)%cxx IPPROTO_TCP);
  mret (match r with inl sockfd => sockfd | inr _ => -1 end).

Definition bindOrDie (sockfd : Z) (addr : bytes) : M unit := _ ← call (so_bind sockfd (ztake 16 addr)); mret tt.
Definition listenOrDie (sockfd : Z) : M unit := _ ← call (so_listen sockfd SOMAXCONN); mret tt.
Definition shutdownWrite (sockfd : Z) : M unit := _ ← call (so_shutdown sockfd SHUT_WR); mret tt.
Definition close (sockfd : Z) : M unit := _ ← call (so_close sockfd); mret tt.

(** The 28 bytes of a [sockaddr_in6], zero where the kernel writes nothing. *)
Definition filled (d : option bytes) : outcome bytes :=
  match d with Some a => write_at 0 (ztake 28 a) (replicate 28 NUL) | None => Ret (replicate 28 NUL) end.
Definition getLocalAddr (sockfd : Z) : M bytes := a ← call (so_getsockname sockfd 28); lift (filled a).
Definition getPeerAddr (sockfd : Z) : M bytes := a ← call (so_getpeername sockfd 28); lift (filled a).

Definition getSocketError (sockfd : Z) : M Z :=
  r ← call (so_getsockopt sockfd SOL_SOCKET SO_ERROR);
  mret (match r with inl optval => optval | inr errno => errno end).
End calls.
End sockets.

(** ** [Socket]: Socket/Socket, a descriptor *)
Module Socket.
Import sockets.
Section socket.
Context {K : Type} `{!SockOs K}.
Abbreviation M := (ST K).

Definition destroy (m_sockfd : Z) : M unit := sockets.close m_sockfd.
Definition bindAddress (m_sockfd : Z) (addr : bytes) : M unit := bindOrDie m_sockfd addr.
Definition listen (m_sockfd : Z) : M unit := listenOrDie m_sockfd.
Definition shutdownWrite (m_sockfd : Z) : M unit := sockets.shutdownWrite m_sockfd.

Definition set_option (m_sockfd level name : Z) (on : bool) : M unit :=
  _ ← call (so_setsockopt m_sockfd level name (if on then 1 else 0)); mret tt.
Definition setTcpNoDelay (m_sockfd : Z) (on : bool) : M unit := set_option m_sockfd IPPROTO_TCP TCP_NODELAY on.
Definition setReuseAddr (m_sockfd : Z) (on : bool) : M unit := set_option m_sockfd SOL_SOCKET SO_REUSEADDR on.
Definition setReusePort (m_sockfd : Z) (on : bool) : M unit := set_option m_sockfd SOL_SOCKET SO_REUSEPORT on.
Definition setKeepAlive (m_sockfd : Z) (on : bool) : M unit :=
  _ ← set_option m_sockfd SOL_SOCKET SO_KEEPALIVE on;
  _ ← call (so_setsockopt m_sockfd SOL_TCP TCP_KEEPIDLE 30);
  _ ← call (so_setsockopt m_sockfd SOL_TCP TCP_KEEPINTVL 5);
  _ ← call (so_setsockopt m_sockfd SOL_TCP TCP_KEEPCNT 3);
  mret tt.

Definition getTcpInfo (m_sockfd : Z) : M (option tcp_info) := call (so_tcp_info m_sockfd).

Definition info_text (i : tcp_info) : bytes :=
  lit "unrecovered=" ++ udec (tcpi_retransmits i) ++ lit " rto=" ++ udec (tcpi_rto i) ++ lit " ato=" ++ udec (tcpi_ato i)
  ++ lit " snd_mss=" ++ udec (tcpi_snd_mss i) ++ lit " rcv_mss=" ++ udec (tcpi_rcv_mss i)
  ++ lit " lost=" ++ udec (tcpi_lost i) ++ lit " retrans=" ++ udec (tcpi_retrans i)
  ++ lit " rtt=" ++ udec (tcpi_rtt i) ++ lit " rttvar=" ++ udec (tcpi_rttvar i)
  ++ lit " sshthresh=" ++ udec (tcpi_snd_ssthresh i) ++ lit " cwnd=" ++ udec (tcpi_snd_cwnd i)
  ++ lit " total_retrans=" ++ udec (tcpi_total_retrans i).
(** [snprintf] takes [len] for a [size_t] and writes nothing when it is zero. *)
Definition getTcpInfoString (m_sockfd : Z) (buf : bytes) (len : Z) : M (bool * bytes) :=
  i ← getTcpInfo m_sockfd;
  match i with
  | Some i =>
      buf ← lift (if u64 len =? 0 then Ret buf else write_at 0 (snprintf (u64 len) (info_text i) ++ [NUL]) buf);
      mret (true, buf)
  | None => mret (false, buf)
  end.

(** What the constructor of Acceptor does to its socket, and [Acceptor::listen]. *)
Definition acceptSocket (listenAddr : bytes) (reuseport : bool) : M Z :=
  f ← lift (InetAddress.family listenAddr);
  sockfd ← createNonblockingOrDie f;
  _ ← setReuseAddr sockfd reuseport;
  _ ← bindAddress sockfd listenAddr;
  mret sockfd.
Definition listening (listenAddr : bytes) (reuseport : bool) : M Z :=
  sockfd ← acceptSocket listenAddr reuseport; _ ← listen sockfd; mret sockfd.
End socket.
End Socket.

(** ** What the documentation promises of the calls *)

(** A socket of the kernel; an address it did not get from the program is the
    kernel's choice. *)
Record sock := mkSock {
  s_domain : Z;
  s_nonblock : bool;
  s_cloexec : bool;
  s_local : option bytes;
  s_listening : bool;
  s_options : gmap (Z * Z) Z;
  s_error : Z
}.
Definition new_sock (domain type : Z) : sock :=
  mkSock domain (Z.testbit type 11) (Z.testbit type 19) None false ∅ 0.
Definition set_local (a : option bytes) (s : sock) : sock :=
  mkSock (s_domain s) (s_nonblock s) (s_cloexec s) a (s_listening s) (s_options s) (s_error s).
Definition set_listening (s : sock) : sock :=
  mkSock (s_domain s) (s_nonblock s) (s_cloexec s) (s_local s) true (s_options s) (s_error s).
Definition put_option (o : Z * Z) (v : Z) (s : sock) : sock :=
  mkSock (s_domain s) (s_nonblock s) (s_cloexec s) (s_local s) (s_listening s) (<[o := v]> (s_options s)) (s_error s).
Definition clear_error (s : sock) : sock :=
  mkSock (s_domain s) (s_nonblock s) (s_cloexec s) (s_local s) (s_listening s) (s_options s) 0.
Definition reuses (s : sock) : bool := bool_decide (s_options s !! (SOL_SOCKET, SO_REUSEADDR) = Some 1).
Definition family_of (a : bytes) : Z := of_le (zslice 0 2 a).

(** [available k reuse a]: nobody holds the address [a] as far as a socket that
    reuses addresses or not is concerned.  An address of the wrong length is
    refused by bind(2); [listen] gives a socket without an address one
    (ip(7)). [listenable k l]: listen(2) of a socket with the address [l], if
    any, is not refused (no other socket listens there, there are ports left). *)
Class SockOsSpec (K : Type) `{!SockOs K} := {
  table : K -> gmap Z sock;
  sk_ok : K -> Prop;
  available : K -> bool -> bytes -> bool;
  chosen : K -> Z -> bytes;
  listenable : K -> option bytes -> bool;
  supported : Z -> Z -> bool;
  keeps (k k' : K) (t : gmap Z sock) : Prop := sk_ok k' /\ table k' = t /\ available k' = available k /\ chosen k' = chosen k
    /\ listenable k' = listenable k;
  socket_law : forall d ty pr k, sk_ok k -> match so_socket d ty pr k with
    | (inl fd, k') => 0 <= fd /\ table k !! fd = None /\ keeps k k' (<[fd := new_sock d ty]> (table k))
    | (inr _, k') => k' = k
    end;
  option_law : forall fd l o v k s, sk_ok k -> table k !! fd = Some s -> supported l o = true ->
    exists k', so_setsockopt fd l o v k = (0, k') /\ keeps k k' (<[fd := put_option (l, o) v s]> (table k));
  bind_law : forall fd a k s, sk_ok k -> table k !! fd = Some s -> s_local s = None -> s_domain s = InetAddress.AF_INET ->
    zlen a = 16 -> family_of a = InetAddress.AF_INET -> of_le (zslice 2 4 a) <> 0 ->
    if available k (reuses s) a
    then exists k', so_bind fd a k = (0, k') /\ sk_ok k' /\ table k' = <[fd := set_local (Some a) s]> (table k)
      /\ listenable k' = listenable k
    else so_bind fd a k = (-1, k);
  bind_short : forall fd a k s, sk_ok k -> table k !! fd = Some s -> s_domain s = InetAddress.AF_INET6 -> zlen a < 24 ->
    so_bind fd a k = (-1, k);
  listen_law : forall fd n k s, sk_ok k -> table k !! fd = Some s ->
    if listenable k (s_local s)
    then exists k', so_listen fd n k = (0, k') /\ sk_ok k'
      /\ table k' = <[fd := set_listening (set_local (Some (default (chosen k (s_domain s)) (s_local s))) s)]> (table k)
    else so_listen fd n k = (-1, k);
  bad_descriptor : forall fd k, sk_ok k -> table k !! fd = None -> (forall l o v, so_setsockopt fd l o v k = (-1, k))
    /\ (forall a, so_bind fd a k = (-1, k)) /\ (forall n, so_listen fd n k = (-1, k));
  name_law : forall fd n k s a, sk_ok k -> table k !! fd = Some s -> s_local s = Some a -> so_getsockname fd n k = (Some (ztake n a), k);
  error_law : forall fd k s, sk_ok k -> table k !! fd = Some s ->
    exists k', so_getsockopt fd SOL_SOCKET SO_ERROR k = (inl (s_error s), k') /\ keeps k k' (<[fd := clear_error s]> (table k));
  no_negative : forall fd k, sk_ok k -> is_Some (table k !! fd) -> 0 <= fd
}.

Section proofs.
Context {K : Type} `{!SockOs K} `{!SockOsSpec K}.
Implicit Types k : K.

Lemma call_bind {A B} (f : K -> A * K) (g : A -> ST K B) k r k' : f k = (r, k') -> (sockets.call f ≫= g) k = g r k'.
Proof. intros E. unfold mbind, ST_bind, sockets.call. by rewrite E. Qed.

Lemma family_load a : zlen a = 28 -> InetAddress.family a = Ret (family_of a).
Proof. intros Ha. unfold InetAddress.family. by rewrite load_ok. Qed.

(** An option of an open socket. *)
Lemma set_option_run fd l o on k s : sk_ok k -> table k !! fd = Some s -> supported l o = true ->
  exists k', Socket.set_option fd l o on k = Ret (tt, k')
    /\ keeps k k' (<[fd := put_option (l, o) (if on : bool then 1 else 0) s]> (table k)).
Proof.
  intros Hk Hs Hsup. destruct (option_law fd l o (if on then 1 else 0) k s Hk Hs Hsup) as (k' & E & H).
  exists k'. split; [|done]. unfold Socket.set_option. by rewrite (call_bind _ _ _ _ _ E).
Qed.

(** Binding and listening, of an open socket. *)
Lemma bind_run fd a k s : sk_ok k -> table k !! fd = Some s -> s_local s = None -> s_domain s = family_of a ->
  s_domain s ∈ [InetAddress.AF_INET; InetAddress.AF_INET6] -> zlen a = 28 -> of_le (zslice 2 4 a) <> 0 ->
  exists k', Socket.bindAddress fd a k = Ret (tt, k') /\ sk_ok k'
    /\ let given := bool_decide (s_domain s = InetAddress.AF_INET) && available k (reuses s) (ztake 16 a) in
       table k' = <[fd := set_local (if given then Some (ztake 16 a) else None) s]> (table k) /\ (given = false -> k' = k)
       /\ listenable k' = listenable k.
Proof.
  intros Hk Hs Hl Hf Hd Ha Hp. cbv zeta. unfold Socket.bindAddress, sockets.bindOrDie.
  assert (zlen (ztake 16 a) = 16) as H16 by (rewrite zlen_ztake; lia).
  assert (set_local None s = s) as Hsame by (destruct s; cbn in *; by subst).
  assert (family_of (ztake 16 a) = family_of a /\ zslice 2 4 (ztake 16 a) = zslice 2 4 a) as [Hfa Hpa].
  { unfold family_of. rewrite <- (zslice_0 16 a), !zslice_zslice by lia. done. }
  apply elem_of_cons in Hd as [Hd|Hd%list_elem_of_singleton].
  - rewrite bool_decide_true by done. pose proof (bind_law fd (ztake 16 a) k s Hk Hs Hl Hd H16) as H.
    rewrite Hfa, Hpa in H. specialize (H ltac:(congruence) Hp). cbn [andb]. destruct (available k (reuses s) (ztake 16 a)).
    + destruct H as (k' & E & Hk' & Ht & Hls). exists k'. by rewrite (call_bind _ _ _ _ _ E).
    + exists k. rewrite (call_bind _ _ _ _ _ H), Hsame, insert_id by done. done.
  - rewrite bool_decide_false by (by rewrite Hd). cbn [andb]. exists k.
    rewrite (call_bind _ _ _ _ _ (bind_short fd (ztake 16 a) k s Hk Hs Hd ltac:(lia))), Hsame, insert_id by done. done.
Qed.

(** The socket of an acceptor after its constructor. *)
Lemma acceptSocket_run a reuse k : sk_ok k -> zlen a = 28 -> family_of a ∈ [InetAddress.AF_INET; InetAddress.AF_INET6] ->
  of_le (zslice 2 4 a) <> 0 -> supported SOL_SOCKET SO_REUSEADDR = true ->
  let given := bool_decide (family_of a = InetAddress.AF_INET) && available k reuse (ztake 16 a) in
  exists fd k', Socket.acceptSocket a reuse k = Ret (fd, k') /\ sk_ok k' /\
    (fd = -1 /\ k' = k \/
     0 <= fd /\ table k !! fd = None /\ (given = false -> chosen k' = chosen k) /\ listenable k' = listenable k /\ exists s, table k' = <[fd := s]> (table k)
       /\ s_nonblock s = true /\ s_cloexec s = true /\ s_domain s = family_of a /\ reuses s = reuse
       /\ s_listening s = false /\ s_local s = (if given then Some (ztake 16 a) else None)).
Proof.
  intros Hk Ha Hfam Hp Hsup. cbv zeta. unfold Socket.acceptSocket. rewrite (lift_bind _ _ _ _ (family_load a Ha)).
  unfold sockets.createNonblockingOrDie. set (ty := (SOCK_STREAM .| SOCK_NONBLOCK .| SOCK_CLOEXEC)%cxx).
  pose proof (socket_law (family_of a) ty IPPROTO_TCP k Hk) as Hsock.
  destruct (so_socket (family_of a) ty IPPROTO_TCP k) as [[fd|e] k1] eqn:Esock.
  - destruct Hsock as (Hfd & Hfree & Hk1 & Ht1 & Hav1 & Hch1 & Hls1).
    destruct (set_option_run fd SOL_SOCKET SO_REUSEADDR reuse k1 (new_sock (family_of a) ty) Hk1) as (k2 & E2 & Hk2 & Ht2 & Hav2 & Hch2 & Hls2);
      [rewrite Ht1; apply lookup_insert_eq|done|].
    set (s2 := put_option _ _ _) in Ht2. rewrite Ht1, insert_insert_eq in Ht2.
    assert (reuses s2 = reuse) as Hreuse by (unfold reuses; cbn; rewrite lookup_insert_eq; by destruct reuse).
    destruct (bind_run fd a k2 s2 Hk2) as (k3 & E3 & Hk3 & Ht3 & Hsame & Hls3); [rewrite Ht2; apply lookup_insert_eq|done..|].
    rewrite Hreuse, Hav2, Hav1 in Ht3, Hsame. change (s_domain s2) with (family_of a) in Ht3, Hsame.
    set (given := _ && _) in Ht3, Hsame |- *. rewrite Ht2, insert_insert_eq in Ht3. exists fd, k3. split; [|split; [done|right]].
    + rewrite (ST_bind_eq _ _ k fd k1) by (by rewrite (call_bind _ _ _ _ _ Esock)).
      rewrite (ST_bind_eq _ _ _ _ _ E2), (ST_bind_eq _ _ _ _ _ E3). done.
    + split_and!; try done.
      * intros Hg. by rewrite (Hsame Hg), Hch2.
      * by rewrite Hls3, Hls2.
      * eexists. split_and!; [exact Ht3|done..].
  - subst k1. exists (-1), k. split; [|split; [done|by left]].
    assert (table k !! (-1) = None) as Hbad.
    { apply eq_None_not_Some. intros Hs%(no_negative (-1) k Hk). lia. }
    destruct (bad_descriptor (-1) k Hk Hbad) as (H1 & H2 & _).
    rewrite (ST_bind_eq _ _ k (-1) k) by (by rewrite (call_bind _ _ _ _ _ Esock)).
    rewrite (ST_bind_eq (Socket.setReuseAddr _ _) _ k tt k)
      by (unfold Socket.setReuseAddr, Socket.set_option; by rewrite (call_bind _ _ _ _ _ (H1 _ _ _))).
    by rewrite (ST_bind_eq (Socket.bindAddress _ _) _ k tt k)
      by (unfold Socket.bindAddress, sockets.bindOrDie; by rewrite (call_bind _ _ _ _ _ (H2 _))).
Qed.


(** A connection is probed after 30 idle seconds, every 5 seconds, 3 times;
    [SO_KEEPALIVE] is what was asked for. *)
Theorem keepalive_options fd on s k : sk_ok k -> table k !! fd = Some s ->
  Forall (fun o => supported o.1 o.2 = true)
    [(SOL_SOCKET, SO_KEEPALIVE); (SOL_TCP, TCP_KEEPIDLE); (SOL_TCP, TCP_KEEPINTVL); (SOL_TCP, TCP_KEEPCNT)] ->
  exists k' s', Socket.setKeepAlive fd on k = Ret (tt, k') /\ table k' = <[fd := s']> (table k)
    /\ s_options s' = <[(SOL_TCP, TCP_KEEPCNT) := 3]> (<[(SOL_TCP, TCP_KEEPINTVL) := 5]> (<[(SOL_TCP, TCP_KEEPIDLE) := 30]>
        (<[(SOL_SOCKET, SO_KEEPALIVE) := if on : bool then 1 else 0]> (s_options s))))
    /\ s_local s' = s_local s /\ s_listening s' = s_listening s.
Proof.
  intros Hk Hs H. repeat (apply Forall_cons in H as [? H]). cbn [fst snd] in *.
  assert (forall l o v k1 s1, sk_ok k1 -> table k1 = <[fd := s1]> (table k) -> supported l o = true ->
    exists k2, so_setsockopt fd l o v k1 = (0, k2) /\ sk_ok k2 /\ table k2 = <[fd := put_option (l, o) v s1]> (table k)) as Hset.
  { intros l o v k1 s1 Hk1 Ht Hsup. destruct (option_law fd l o v k1 s1 Hk1) as (k2 & E & Hk2 & Ht2 & _); [rewrite Ht; apply lookup_insert_eq|done|].
    exists k2. by rewrite Ht2, Ht, insert_insert_eq. }
  destruct (Hset SOL_SOCKET SO_KEEPALIVE (if on then 1 else 0) k s) as (k1 & E1 & Hk1 & Ht1); [done|by rewrite insert_id|done|].
  destruct (Hset SOL_TCP TCP_KEEPIDLE 30 k1 _ Hk1 Ht1) as (k2 & E2 & Hk2 & Ht2); [done|].
  destruct (Hset SOL_TCP TCP_KEEPINTVL 5 k2 _ Hk2 Ht2) as (k3 & E3 & Hk3 & Ht3); [done|].
  destruct (Hset SOL_TCP TCP_KEEPCNT 3 k3 _ Hk3 Ht3) as (k4 & E4 & Hk4 & Ht4); [done|].
  exists k4. eexists. split; [|split; [exact Ht4|done]]. unfold Socket.setKeepAlive.
  rewrite (ST_bind_eq _ _ k tt k1) by (unfold Socket.set_option; by rewrite (call_bind _ _ _ _ _ E1)).
  rewrite (call_bind _ _ _ _ _ E2), (call_bind _ _ _ _ _ E3), (call_bind _ _ _ _ _ E4). done.
Qed.

(** The address a connection reports as its own is the one its socket has: an
    IPv4 address and port, as text. *)
Theorem local_address_text inet_ntop inet_pton fd k s x p rest : inet_laws inet_ntop inet_pton -> sk_ok k -> table k !! fd = Some s -> zlen x = 4 -> zlen rest = 8 -> 0 <= p < 2 ^ 16 ->
  s_local s = Some (image InetAddress.AF_INET (Endian.hostToNetwork16 p) x rest) ->
  exists a, sockets.getLocalAddr fd k = Ret (a, k)
    /\ InetAddress.toIpPort inet_ntop a = Ret (dotted x ++ lit ":" ++ udec p)
    /\ InetAddress.toPort a = Ret p.
Proof.
  intros Hlaws Hk Hs Hx Hr Hp Hl. set (n := Endian.hostToNetwork16 p) in *. set (d := image InetAddress.AF_INET n x rest) in *.
  pose proof (Endian.bswap16_range p Hp) as Hn.
  assert (zlen d = 16) as Hd by (unfold d, image; rewrite !zlen_app, !zlen_to_le; lia).
  set (a := image InetAddress.AF_INET n x (rest ++ replicate 12 NUL)).
  assert (a = d ++ replicate 12 NUL) as Ha by (unfold a, d, image; by rewrite <- !app_assoc).
  assert (sockets.filled (Some d) = Ret a) as Hfill.
  { unfold sockets.filled. rewrite ztake_all by lia. rewrite Ha.
    pose proof (write_mid 0 d [] (replicate 16 NUL) (replicate 12 NUL) eq_refl) as E. cbn [app] in E. rewrite <- E by done. done. }
  exists a. split.
  - unfold sockets.getLocalAddr. rewrite (call_bind _ _ _ _ _ (name_law fd 28 k s d Hk Hs Hl)), ztake_all by lia.
    unfold lift. by rewrite Hfill.
  - destruct (image_fields InetAddress.AF_INET n x (rest ++ replicate 12 NUL)) as (Hfam & Hport & _ & Hsl); [done|exact Hn|done|].
    fold a in Hfam, Hport, Hsl.
    assert (zlen a = 28) as Hla by (by rewrite Ha, zlen_app, Hd). clearbody a. rewrite load_ok in Hport by done. injection Hport as Hport.
    pose proof (family_load a Hla) as Hf2. rewrite Hfam in Hf2. injection Hf2 as Hf2.
    split.
    + destruct Hlaws as [_ Hshort Htext Hdot _]. rewrite (toIpPort_text inet_ntop Hshort Htext a Hla).
      unfold address_text. fold (family_of a). rewrite <- Hf2. cbn [Z.eqb InetAddress.AF_INET Pos.eqb]. rewrite Hsl. unfold port_of.
      change (2 + 2) with 4 in Hport. rewrite Hport. unfold n. by rewrite Endian.bswap16_twice, Hdot.
    + unfold InetAddress.toPort. rewrite load_ok by done. cbn [mbind outcome_bind]. rewrite Hport. unfold n, Endian.networkToHost16, Endian.hostToNetwork16.
      by rewrite Endian.bswap16_twice.
Qed.

(** *** The state of a connection as text *)
Record info_ok (i : tcp_info) : Prop := {
  ok_retransmits : 0 <= tcpi_retransmits i < 2 ^ 8;
  ok_others : Forall (fun v => 0 <= v < 2 ^ 32) [tcpi_rto i; tcpi_ato i; tcpi_snd_mss i; tcpi_rcv_mss i; tcpi_lost i; tcpi_retrans i;
    tcpi_rtt i; tcpi_rttvar i; tcpi_snd_ssthresh i; tcpi_snd_cwnd i; tcpi_total_retrans i]
}.

Lemma info_text_short i : info_ok i -> zlen (Socket.info_text i) <= 213.
Proof.
  intros [H0 H]. unfold Socket.info_text. rewrite !zlen_app.
  pose proof (zlen_udec (tcpi_retransmits i) 3 ltac:(cbn in *; lia) ltac:(lia)).
  repeat (apply Forall_cons in H as [? H]).
  repeat match goal with Hv : 0 <= ?v < 2 ^ 32 |- _ => pose proof (zlen_udec v 10 ltac:(cbn in *; lia) ltac:(lia)); clear Hv end.
  repeat match goal with |- context [zlen (lit ?s)] => let n := eval vm_compute in (zlen (lit s)) in change (zlen (lit s)) with n end.
  lia.
Qed.

Lemma info_text_no_nul i : NUL ∉ Socket.info_text i.
Proof. unfold Socket.info_text. rewrite !not_elem_of_app. split_and!; try apply udec_no_nul; by_compute. Qed.

(** [getTcpInfoString] stays inside the buffer and leaves a string in it: the
    state of the connection, cut to what fits; 214 characters are enough for
    any. *)
Theorem tcp_info_string fd buf len k k' i : so_tcp_info fd k = (Some i, k') -> info_ok i -> 0 < len <= zlen buf -> len < 2 ^ 31 ->
  exists buf', Socket.getTcpInfoString fd buf len k = Ret ((true, buf'), k')
    /\ zlen buf' = zlen buf /\ zdrop len buf' = zdrop len buf /\ cstr buf' = ztake (len - 1) (Socket.info_text i)
    /\ (214 <= len -> cstr buf' = Socket.info_text i).
Proof.
  intros Ei Hi [Hl0 Hl] Hl31. unfold Socket.getTcpInfoString, Socket.getTcpInfo. rewrite (call_bind _ _ _ _ _ Ei).
  change (2 ^ 31) with 2147483648 in Hl31. rewrite (wrapu_small 64 len) by range_lia. rewrite (proj2 (Z.eqb_neq _ _)) by lia.
  pose proof (info_text_short i Hi) as Hshort. pose proof (info_text_no_nul i) as Hnul.
  set (text := Socket.info_text i) in *. set (t := snprintf len text). pose proof (zlen_nonneg text).
  assert (zlen t <= len - 1 /\ NUL ∉ t) as [Ht Htn].
  { unfold t, snprintf. split; [unfold zlen, ztake; rewrite length_take; lia|]. intros Hin. apply Hnul.
    rewrite <- (ztake_zdrop (len - 1) text). apply elem_of_app. by left. }
  pose proof (zlen_nonneg t). exists (t ++ NUL :: zdrop (zlen t + 1) buf). split_and!.
  - rewrite (lift_bind _ _ _ (t ++ NUL :: zdrop (zlen t + 1) buf)); [done|].
    rewrite write_at_ok by (rewrite ?zlen_app; change (zlen [NUL]) with 1; lia). rewrite zlen_app. change (zlen [NUL]) with 1.
    cbn [app ztake]. rewrite <- app_assoc. done.
  - rewrite zlen_app, zlen_cons, zlen_zdrop by lia. lia.
  - unfold zdrop. change (t ++ NUL :: ?l) with (t ++ [NUL] ++ l). rewrite app_assoc, drop_app_ge, drop_drop, length_app by (rewrite length_app; unfold zlen in *; cbn; lia).
    f_equal. change (length [NUL]) with 1%nat. unfold zlen in *. lia.
  - rewrite cstr_app by done. cbn. by rewrite app_nil_r.
  - intros H214. rewrite cstr_app by done. cbn. rewrite app_nil_r. unfold t. apply snprintf_fits. lia.
Qed.
End proofs.

(** ** A kernel with one address in use *)
Record kernel := mkKernel { k_table : gmap Z sock; k_next : Z; k_taken : bytes }.
Definition k_put (fd : Z) (s : sock) (k : kernel) : kernel := mkKernel (<[fd := s]> (k_table k)) (k_next k) (k_taken k).
Definition k_chosen (domain : Z) : bytes := to_le 2 domain ++ to_le 2 (Endian.hostToNetwork16 40000) ++ replicate 12 NUL.
Definition on_sock (fd : Z) (f : sock -> option sock) (k : kernel) : Z * kernel :=
  match k_table k !! fd with
  | Some s => match f s with Some s' => (0, k_put fd s' k) | None => (-1, k) end
  | None => (-1, k)
  end.
Definition k_bind (k : kernel) (a : bytes) (s : sock) : option sock :=
  if bool_decide (s_domain s = InetAddress.AF_INET) && bool_decide (a <> k_taken k) then Some (set_local (Some a) s) else None.

#[export] Instance kernel_os : SockOs kernel := {
  so_socket d ty _ k := (inl (k_next k), mkKernel (<[k_next k := new_sock d ty]> (k_table k)) (k_next k + 1) (k_taken k));
  so_fcntl _ _ _ k := (0, k);
  so_connect _ _ k := (-1, k);
  so_bind fd a k := on_sock fd (k_bind k a) k;
  so_listen fd _ k := on_sock fd (fun s => Some (set_listening (set_local (Some (default (k_chosen (s_domain s)) (s_local s))) s))) k;
  so_getsockname fd n k := (s ← k_table k !! fd; a ← s_local s; Some (ztake n a), k);
  so_getpeername _ _ k := (None, k);
  so_setsockopt fd l o v k := on_sock fd (fun s => Some (put_option (l, o) v s)) k;
  so_getsockopt fd _ _ k := match k_table k !! fd with Some s => (inl (s_error s), k_put fd (clear_error s) k) | None => (inr EINVAL, k) end;
  so_tcp_info _ k := (None, k);
  so_shutdown _ _ k := (0, k);
  so_close fd k := (0, mkKernel (delete fd (k_table k)) (k_next k) (k_taken k))
}.

Definition kernel_ok (k : kernel) : Prop := 0 <= k_next k /\ forall fd, is_Some (k_table k !! fd) -> 0 <= fd < k_next k.

Lemma k_put_ok fd s s' k : kernel_ok k -> k_table k !! fd = Some s -> kernel_ok (k_put fd s' k).
Proof.
  intros [H1 H2] Hs. split; [done|]. cbn. intros g Hg. apply H2. destruct (decide (fd = g)) as [<-|Hne]; [by exists s|].
  by rewrite lookup_insert_ne in Hg.
Qed.

Lemma kernel_new d ty k : kernel_ok k -> 0 <= k_next k /\ k_table k !! k_next k = None
  /\ kernel_ok (mkKernel (<[k_next k := new_sock d ty]> (k_table k)) (k_next k + 1) (k_taken k)).
Proof.
  intros [H1 H2]. split; [done|]. split; [apply eq_None_not_Some; intros Hs%H2; lia|]. split; cbn; [lia|].
  intros g Hg. destruct (decide (k_next k = g)) as [<-|Hne]; [lia|]. rewrite lookup_insert_ne in Hg by done. apply H2 in Hg. lia.
Qed.

#[export, refine] Instance kernel_spec : SockOsSpec kernel := {
  table := k_table;
  sk_ok := kernel_ok;
  available k _ a := bool_decide (a <> k_taken k);
  chosen _ d := k_chosen d;
  listenable _ _ := true;
  supported _ _ := true
}.
Proof.
  - intros d ty pr k Hk. cbn. by destruct (kernel_new d ty k Hk) as (H1 & H2 & H3).
  - intros fd l o v k s Hk Hs _. exists (k_put fd (put_option (l, o) v s) k). cbn. unfold on_sock. rewrite Hs.
    split; [done|]. split; [by apply (k_put_ok fd s)|done].
  - intros fd a k s Hk Hs Hl Hd _ _ _. cbn. unfold on_sock, k_bind. rewrite Hs, (bool_decide_true (s_domain s = _)) by done. cbn [andb].
    destruct (bool_decide (a <> k_taken k)); [|done]. eexists. split; [done|]. split; [by apply (k_put_ok fd s)|done].
  - intros fd a k s Hk Hs Hd _. cbn. unfold on_sock, k_bind. by rewrite Hs, bool_decide_false by (by rewrite Hd).
  - intros fd n k s Hk Hs. cbn. unfold on_sock. rewrite Hs. eexists. split; [done|]. split; [by apply (k_put_ok fd s)|done].
  - intros fd k Hk Hs. cbn. unfold on_sock. by rewrite Hs.
  - intros fd n k s a Hk Hs Hl. cbn. by rewrite Hs; cbn; rewrite Hl.
  - intros fd k s Hk Hs. cbn. rewrite Hs. eexists. split; [done|]. split; [by apply (k_put_ok fd s)|done].
  - intros fd k [_ H2] Hs. by apply H2.
Defined.

(** Port 8080 of every address is in use: the server that asks for it listens
    on port 40000. *)
Definition on_port (p : Z) : bytes := to_le 2 InetAddress.AF_INET ++ to_le 2 (Endian.hostToNetwork16 p) ++ replicate 24 NUL.
Definition busy : kernel := mkKernel ∅ 5 (ztake 16 (on_port 8080)).
Lemma busy_ok : kernel_ok busy.
Proof. split; [done|by intros fd [s Hs]]. Qed.


Definition some_info : tcp_info := mkTcpInfo 0 204000 40000 1448 536 0 0 312 156 2147483647 10 0.

(** The kernel that reports it. *)
Definition reporting : SockOs unit := {|
  so_socket _ _ _ k := (inr EINVAL, k); so_fcntl _ _ _ k := (-1, k); so_connect _ _ k := (-1, k); so_bind _ _ k := (-1, k);
  so_listen _ _ k := (-1, k); so_getsockname _ _ k := (None, k); so_getpeername _ _ k := (None, k);
  so_setsockopt _ _ _ _ k := (-1, k); so_getsockopt _ _ _ k := (inr EINVAL, k); so_tcp_info _ k := (Some some_info, k);
  so_shutdown _ _ k := (-1, k); so_close _ k := (-1, k)
|}.

Lemma tcp_info_string_witness : exists buf',
  @Socket.getTcpInfoString unit reporting 5 (replicate 20 NUL) 20 tt = Ret ((true, buf'), tt)
  /\ cstr buf' = lit "unrecovered=0 rto=2".
Proof.
  destruct (@tcp_info_string unit reporting 5 (replicate 20 NUL) 20 tt tt some_info) as (buf' & E & _ & _ & Hc & _);
    [reflexivity|split; [done|repeat constructor; done]|done|done|].
  exists buf'. split; [exact E|]. rewrite Hc. reflexivity.
Defined.

Lemma keepalive_options_witness : exists k' s',
  Socket.setKeepAlive 5 true (mkKernel {[ 5 := new_sock InetAddress.AF_INET 1 ]} 6 []) = Ret (tt, k')
  /\ k_table k' !! 5 = Some s' /\ s_options s' !! (SOL_TCP, TCP_KEEPIDLE) = Some 30 /\ s_options s' !! (SOL_SOCKET, SO_KEEPALIVE) = Some 1.
Proof.
  destruct (keepalive_options 5 true (new_sock InetAddress.AF_INET 1) (mkKernel {[ 5 := new_sock InetAddress.AF_INET 1 ]} 6 []))
    as (k' & s' & E & Ht & Ho & _); [|reflexivity|repeat constructor|].
  { split; [done|]. cbn. intros fd [s Hs]. apply lookup_singleton_Some in Hs as [<- _]. lia. }
  exists k', s'. split; [exact E|]. cbn [table kernel_spec] in Ht. rewrite Ht, lookup_insert_eq. split; [reflexivity|]. rewrite Ho. split; reflexivity.
Defined.

Lemma local_address_text_witness : exists a,
  sockets.getLocalAddr 5 (mkKernel {[ 5 := set_local (Some (image InetAddress.AF_INET (Endian.hostToNetwork16 8080)
      [chr 10; chr 0; chr 0; chr 7] (replicate 8 NUL))) (new_sock InetAddress.AF_INET 1) ]} 6 []) =
    Ret (a, mkKernel {[ 5 := set_local (Some (image InetAddress.AF_INET (Endian.hostToNetwork16 8080)
      [chr 10; chr 0; chr 0; chr 7] (replicate 8 NUL))) (new_sock InetAddress.AF_INET 1) ]} 6 [])
  /\ InetAddress.toIpPort text_of a = Ret (lit "10.0.0.7:8080") /\ InetAddress.toPort a = Ret 8080.
Proof.
  apply (local_address_text text_of read_quad 5 _ (set_local (Some (image InetAddress.AF_INET (Endian.hostToNetwork16 8080)
      [chr 10; chr 0; chr 0; chr 7] (replicate 8 NUL))) (new_sock InetAddress.AF_INET 1))
    [chr 10; chr 0; chr 0; chr 7] 8080 (replicate 8 NUL)); [exact read_quad_laws| |reflexivity..|done|reflexivity].
  split; [done|]. cbn. intros fd [s Hs]. apply lookup_singleton_Some in Hs as [<- _]. lia.
Defined.
