(* ===== verification/Channel.v ===== *)
(** Reactor/Channel and Reactor/Poller: the interest of a channel in its
    descriptor, the dispatch of its events, and what every poller promises. *)
From S2P Require Import Prelude Cxx.

(** ** Events: the bits of epoll(7). *)
Module Channel.

Definition EVENTIN : Z := 1.
Definition EVENTPRI : Z := 2.
Definition EVENTOUT : Z := 4.
Definition EVENTERR : Z := 8.
Definition EVENTHUP : Z := 16.
Definition EVENTRDHUP : Z := 8192.

Definition kNoneEvent : Z := 0.
Definition kReadEvent : Z := (EVENTIN .| EVENTPRI)%cxx.
Definition kWriteEvent : Z := EVENTOUT.

(** A name for a channel object. *)
Abbreviation ptr := nat.

(** The callbacks are [std::function]s, empty or not. *)
Record t (C : Type) := mk {
  m_fd : Z;
  m_events : Z;
  m_revents : Z;
  m_index : Z;
  m_addedToLoop : bool;
  m_readCallBack : option C;
  m_writeCallBack : option C;
  m_errorCallBack : option C;
  m_closeCallBack : option C
}.
Arguments mk {C}.
Arguments m_fd {C}. Arguments m_events {C}. Arguments m_revents {C}. Arguments m_index {C}.
Arguments m_addedToLoop {C}. Arguments m_readCallBack {C}. Arguments m_writeCallBack {C}.
Arguments m_errorCallBack {C}. Arguments m_closeCallBack {C}.

Section channel.
Context {C : Type}.
Implicit Types c : t C.

Definition init (fd : Z) : t C := mk fd 0 0 (-1) false None None None None.

Definition set_events (e : Z) c : t C :=
  mk (m_fd c) e (m_revents c) (m_index c) (m_addedToLoop c)
    (m_readCallBack c) (m_writeCallBack c) (m_errorCallBack c) (m_closeCallBack c).
Definition set_revents (e : Z) c : t C :=
  mk (m_fd c) (m_events c) e (m_index c) (m_addedToLoop c)
    (m_readCallBack c) (m_writeCallBack c) (m_errorCallBack c) (m_closeCallBack c).
Definition set_index (i : Z) c : t C :=
  mk (m_fd c) (m_events c) (m_revents c) i (m_addedToLoop c)
    (m_readCallBack c) (m_writeCallBack c) (m_errorCallBack c) (m_closeCallBack c).
Definition set_added (b : bool) c : t C :=
  mk (m_fd c) (m_events c) (m_revents c) (m_index c) b
    (m_readCallBack c) (m_writeCallBack c) (m_errorCallBack c) (m_closeCallBack c).
Definition setReadCallBack (cb : C) c : t C :=
  mk (m_fd c) (m_events c) (m_revents c) (m_index c) (m_addedToLoop c)
    (Some cb) (m_writeCallBack c) (m_errorCallBack c) (m_closeCallBack c).
Definition setWriteCallBack (cb : C) c : t C :=
  mk (m_fd c) (m_events c) (m_revents c) (m_index c) (m_addedToLoop c)
    (m_readCallBack c) (Some cb) (m_errorCallBack c) (m_closeCallBack c).
Definition setErrorCallBack (cb : C) c : t C :=
  mk (m_fd c) (m_events c) (m_revents c) (m_index c) (m_addedToLoop c)
    (m_readCallBack c) (m_writeCallBack c) (Some cb) (m_closeCallBack c).
Definition setCloseCallBack (cb : C) c : t C :=
  mk (m_fd c) (m_events c) (m_revents c) (m_index c) (m_addedToLoop c)
    (m_readCallBack c) (m_writeCallBack c) (m_errorCallBack c) (Some cb).

Definition isNoneEvent c : bool := m_events c =? kNoneEvent.

(** [e & bits], as a condition. *)
Definition has (e bits : Z) : bool := negb ((e .& bits)%cxx =? 0).

(** [isWriting] and [isReading] assign: [m_events &= kWriteEvent]. *)
Definition isWriting c : bool * t C :=
  let e := (m_events c .& kWriteEvent)%cxx in (negb (e =? 0), set_events e c).
Definition isReading c : bool * t C :=
  let e := (m_events c .& kReadEvent)%cxx in (negb (e =? 0), set_events e c).

(** The callbacks [handleEvent] runs, in order (built with epoll). *)
Definition handleEvent c : list C :=
  let call (b : bool) (cb : option C) := if b then option_list cb else [] in
  let e := m_revents c in
  call (has e EVENTHUP && negb (has e EVENTIN)) (m_closeCallBack c)
  ++ call (has e EVENTERR) (m_errorCallBack c)
  ++ call (has e (EVENTIN .| EVENTPRI .| EVENTRDHUP)%cxx) (m_readCallBack c)
  ++ call (has e EVENTOUT) (m_writeCallBack c).

Definition eventsToString (fd ev : Z) : bytes :=
  let flag bits (s : bytes) := if has ev bits then s else [] in
  dec fd ++ lit ": " ++ flag EVENTIN (lit "IN ") ++ flag EVENTPRI (lit "PRI ") ++ flag EVENTOUT (lit "OUT ")
  ++ flag EVENTHUP (lit "HUP ") ++ flag EVENTRDHUP (lit "RDHUP ") ++ flag EVENTERR (lit "ERR ").
End channel.
End Channel.

(** ** Pollers

    The objects of one loop: its channels and its poller. *)
Record world (C P : Type) := mkWorld { channels : gmap Channel.ptr (Channel.t C); poller : P }.
Arguments mkWorld {C P}. Arguments channels {C P}. Arguments poller {C P}.

(** The channel a pointer names; a dangling pointer is undefined. *)
Definition get_channel {C P} (p : Channel.ptr) : ST (world C P) (Channel.t C) := fun w =>
  c ← deref (channels w !! p); Ret (c, w).
Definition put_channel {C P} (p : Channel.ptr) (c : Channel.t C) : ST (world C P) unit :=
  modify (fun w => mkWorld (<[p := c]> (channels w)) (poller w)).

(** The virtual functions of [Poller] that change it; [m_channels] is its map
    from descriptors to channels. *)
Class Poller (C P : Type) := {
  m_channels : P -> gmap Z Channel.ptr;
  updateChannel : Channel.ptr -> ST (world C P) unit;
  removeChannel : Channel.ptr -> ST (world C P) unit
}.
#[global] Hint Mode Poller - + : typeclass_instances.

Section operations.
Context {C P : Type} `{!Poller C P}.

Definition hasChannel (p : Channel.ptr) : ST (world C P) bool :=
  c ← get_channel p;
  w ← gets poller;
  mret (bool_decide (m_channels (C:=C) w !! Channel.m_fd c = Some p)).

(** EventLoop::updateChannel and removeChannel; a wrong thread is only
    logged. *)
Definition update (p : Channel.ptr) : ST (world C P) unit :=
  c ← get_channel p;
  _ ← put_channel p (Channel.set_added true c);
  updateChannel p.

Definition remove (p : Channel.ptr) : ST (world C P) unit :=
  c ← get_channel p;
  _ ← lift (cassert (Channel.isNoneEvent c));
  _ ← put_channel p (Channel.set_added false c);
  removeChannel p.

(** An assignment to [m_events], then [update]. *)
Definition with_events (f : Z -> Z) (p : Channel.ptr) : ST (world C P) unit :=
  c ← get_channel p;
  _ ← put_channel p (Channel.set_events (f (Channel.m_events c)) c);
  update p.

Definition enableReading := with_events (fun e => e .| Channel.kReadEvent)%cxx.
Definition disableReading := with_events (fun e => e .& u32 (.~ Channel.kReadEvent))%cxx.
Definition enableWriting := with_events (fun e => e .| Channel.kWriteEvent)%cxx.
Definition disableWriting := with_events (fun e => e .& u32 (.~ Channel.kWriteEvent))%cxx.
Definition disableAll := with_events (fun _ => Channel.kNoneEvent).

(** [isWriting] through a pointer. *)
Definition is_writing (p : Channel.ptr) : ST (world C P) bool :=
  c ← get_channel p;
  let '(b, c') := Channel.isWriting c in
  _ ← put_channel p c';
  mret b.
End operations.

(** *** The contract of a poller

    [interest] is what the kernel watches: the events of each descriptor. *)

(** A channel that may be registered, or is; a process has fewer than [2 ^ 30]
    descriptors. *)
Definition may_update {C P} `{!Poller C P} (w : world C P) (p : Channel.ptr) (c : Channel.t C) : Prop :=
  (Channel.m_index c < 0 /\ m_channels (C:=C) (poller w) !! Channel.m_fd c = None
    /\ Z.of_nat (size (m_channels (C:=C) (poller w))) < 2 ^ 30)
  \/ (0 <= Channel.m_index c /\ m_channels (C:=C) (poller w) !! Channel.m_fd c = Some p).

Class PollerSpec (C P : Type) `{!Poller C P} := {
  interest : P -> gmap Z Z;
  poller_ok : world C P -> Prop;
  (** The registered channels are alive. *)
  poller_ok_registered : forall w fd p, poller_ok w -> m_channels (C:=C) (poller w) !! fd = Some p ->
    exists c, channels w !! p = Some c /\ Channel.m_fd c = fd /\ 0 <= Channel.m_index c;
  (** A poller does not look at the events of a channel between calls. *)
  poller_ok_put : forall w p c c', poller_ok w -> channels w !! p = Some c ->
    Channel.m_fd c' = Channel.m_fd c -> Channel.m_index c' = Channel.m_index c ->
    poller_ok (mkWorld (<[p := c']> (channels w)) (poller w));
  (** A new channel does not concern it. *)
  poller_ok_new : forall w p c, poller_ok w -> channels w !! p = None ->
    poller_ok (mkWorld (<[p := c]> (channels w)) (poller w));
  updateChannel_spec : forall w p c, poller_ok w -> channels w !! p = Some c -> may_update w p c ->
    exists i w', updateChannel p w = Ret (tt, w') /\ poller_ok w' /\ 0 <= i
      /\ channels w' = <[p := Channel.set_index i c]> (channels w)
      /\ m_channels (C:=C) (poller w') = <[Channel.m_fd c := p]> (m_channels (C:=C) (poller w))
      /\ interest (poller w') = <[Channel.m_fd c := Channel.m_events c]> (interest (poller w));
  (** An update or removal that returns changes no channel but for an index. *)
  updateChannel_frame : forall (w : world C P) p w', updateChannel p w = Ret (tt, w') ->
    exists c i, channels w !! p = Some c /\ channels w' = <[p := Channel.set_index i c]> (channels w);
  removeChannel_frame : forall (w : world C P) p w', removeChannel p w = Ret (tt, w') -> channels w' = channels w;
  removeChannel_spec : forall w p c, poller_ok w -> channels w !! p = Some c ->
    m_channels (C:=C) (poller w) !! Channel.m_fd c = Some p -> Channel.m_events c = Channel.kNoneEvent ->
    exists w', removeChannel p w = Ret (tt, w') /\ poller_ok w' /\ channels w' = channels w
      /\ m_channels (C:=C) (poller w') = delete (Channel.m_fd c) (m_channels (C:=C) (poller w))
      /\ interest (poller w') = delete (Channel.m_fd c) (interest (poller w))
}.

Section contract.
Context {C P : Type} `{!Poller C P} `{!PollerSpec C P}.
Implicit Types w : world C P.

Lemma put_bind {B} p c (f : unit -> ST (world C P) B) w :
  (put_channel p c ≫= f) w = f tt (mkWorld (<[p := c]> (channels w)) (poller w)).
Proof. done. Qed.

Lemma get_channel_run w p c : channels w !! p = Some c -> get_channel p w = Ret (c, w).
Proof. intros H. unfold get_channel. by rewrite H. Qed.

(** An assignment to the events of a channel, then [update]: the kernel
    watches the new events. *)
Lemma with_events_spec f w p c : poller_ok w -> channels w !! p = Some c -> may_update w p c ->
  exists i w', with_events f p w = Ret (tt, w') /\ poller_ok w' /\ 0 <= i
    /\ channels w' = <[p := Channel.set_index i (Channel.set_added true (Channel.set_events (f (Channel.m_events c)) c))]> (channels w)
    /\ m_channels (C:=C) (poller w') = <[Channel.m_fd c := p]> (m_channels (C:=C) (poller w))
    /\ interest (poller w') = <[Channel.m_fd c := f (Channel.m_events c)]> (interest (poller w)).
Proof.
  intros Hok Hc Hm. set (c1 := Channel.set_added true (Channel.set_events (f (Channel.m_events c)) c)).
  set (w1 := mkWorld (<[p := c1]> (channels w)) (poller w)).
  assert (poller_ok w1) as Hok1 by (by apply (poller_ok_put w p c c1)).
  assert (channels w1 !! p = Some c1) as Hc1 by apply lookup_insert_eq.
  destruct (updateChannel_spec w1 p c1 Hok1 Hc1 Hm) as (i & w' & E & Hok' & Hi & Hch & Hmc & Hint).
  exists i, w'. split; [|split; [done|]; split; [done|]; split; [|done]].
  - unfold with_events. rewrite (ST_bind_eq _ _ _ _ _ (get_channel_run w p c Hc)).
    rewrite (ST_bind_eq (put_channel p _) _ w tt _ eq_refl). unfold update.
    rewrite (ST_bind_eq _ _ _ _ _ (get_channel_run _ p _ (lookup_insert_eq (channels w) p _))).
    rewrite (ST_bind_eq (put_channel p _) _ _ tt w1); [done|]. unfold put_channel, modify, w1. cbn.
    by rewrite insert_insert_eq.
  - rewrite Hch. unfold w1. cbn [channels]. by rewrite insert_insert_eq.
Qed.
End contract.
