(* ===== verification/Epoll.v ===== *)
(** Socket/Epoll: the poller of the event loop, over a kernel that keeps the
    interest list of epoll(7). *)
From S2P Require Import Prelude Channel.
Import Channel.

(** What epoll_ctl(2) does; an error is logged and changes nothing. *)
Inductive ctl := CTL_ADD | CTL_MOD | CTL_DEL.
Class Kernel (K : Type) := {
  epoll_ctl : ctl -> Z -> Z -> K -> option K;
  watched : K -> gmap Z Z;
  ctl_add : forall k fd ev, watched k !! fd = None ->
    exists k', epoll_ctl CTL_ADD fd ev k = Some k' /\ watched k' = <[fd := ev]> (watched k);
  ctl_mod : forall k fd ev, is_Some (watched k !! fd) ->
    exists k', epoll_ctl CTL_MOD fd ev k = Some k' /\ watched k' = <[fd := ev]> (watched k);
  ctl_del : forall k fd ev, is_Some (watched k !! fd) ->
    exists k', epoll_ctl CTL_DEL fd ev k = Some k' /\ watched k' = delete fd (watched k)
}.

(** A kernel that is its interest list. *)
Definition list_ctl (o : ctl) (fd ev : Z) (k : gmap Z Z) : option (gmap Z Z) :=
  match o, k !! fd with
  | CTL_ADD, None => Some (<[fd := ev]> k)
  | CTL_MOD, Some _ => Some (<[fd := ev]> k)
  | CTL_DEL, Some _ => Some (delete fd k)
  | _, _ => None
  end.
#[export] Instance list_kernel : Kernel (gmap Z Z).
Proof.
  refine {| epoll_ctl := list_ctl; watched k := k |}; unfold list_ctl; intros k fd ev H.
  - exists (<[fd := ev]> k). by rewrite H.
  - destruct H as [x H]. exists (<[fd := ev]> k). by rewrite H.
  - destruct H as [x H]. exists (delete fd k). by rewrite H.
Defined.

Module Epoll.

Definition kMaxEpollConcurrencySize : Z := 10000.
Definition kInitEpollEventsSize : Z := 1024.

(** The array of events has a size, which never changes, and a capacity. *)
Record t (K : Type) := mk {
  channel_map : gmap Z ptr;
  m_maxEventsSize : Z;
  size : Z;
  capacity : Z;
  kernel : K
}.
Arguments mk {K}. Arguments channel_map {K}. Arguments m_maxEventsSize {K}. Arguments size {K}.
Arguments capacity {K}. Arguments kernel {K}.

Section epoll.
Context {C K : Type} `{!Kernel K}.
Implicit Types e : t K.
Implicit Types w : world C (t K).

Definition init (k : K) : t K := mk ∅ 0 kInitEpollEventsSize kInitEpollEventsSize k.

(** epollRegister, epollUpdate, epollDelete *)
Definition control (o : ctl) (fd ev : Z) (k : K) : K :=
  match epoll_ctl o fd ev k with Some k' => k' | None => k end.

(** The end of [updateChannel]: [reserve]. *)
Definition make_room e : t K :=
  if m_maxEventsSize e + 1 =? capacity e
  then mk (channel_map e) (m_maxEventsSize e) (size e)
         (Z.max (capacity e) (Z.min (2 * capacity e) kMaxEpollConcurrencySize)) (kernel e)
  else e.

Definition set_poller e : ST (world C (t K)) unit := modify (fun w => mkWorld (channels w) e).

Definition updateChannel (p : ptr) : ST (world C (t K)) unit :=
  c ← get_channel p;
  e ← gets poller;
  let fd := m_fd c in
  if m_index c <? 0
  then
    _ ← lift (cassert (bool_decide (channel_map e !! fd = None)));
    let k := control CTL_ADD fd (m_events c) (kernel e) in
    let n := u64 (m_maxEventsSize e + 1) in
    _ ← put_channel p (set_index (s32 n) c);
    set_poller (make_room (mk (<[fd := p]> (channel_map e)) n (size e) (capacity e) k))
  else
    _ ← lift (cassert (bool_decide (is_Some (channel_map e !! fd))));
    _ ← lift (cassert (bool_decide (channel_map e !! fd = Some p)));
    let k := control CTL_MOD fd (m_events c) (kernel e) in
    set_poller (make_room (mk (channel_map e) (m_maxEventsSize e) (size e) (capacity e) k)).

Definition removeChannel (p : ptr) : ST (world C (t K)) unit :=
  c ← get_channel p;
  e ← gets poller;
  let fd := m_fd c in
  _ ← lift (cassert (bool_decide (is_Some (channel_map e !! fd))));
  _ ← lift (cassert (bool_decide (channel_map e !! fd = Some p)));
  _ ← lift (cassert (isNoneEvent c));
  let k := control CTL_DEL fd (m_events c) (kernel e) in
  set_poller (mk (delete fd (channel_map e)) (u64 (m_maxEventsSize e - 1)) (size e) (capacity e) k).

#[global] Instance epoll_poller : Poller C (t K) := {|
  m_channels := channel_map;
  Channel.updateChannel := updateChannel;
  Channel.removeChannel := removeChannel
|}.

(** The loop of [fillActiveChannels] over the array. *)
Fixpoint fillActiveChannels (numEvents : Z) (evs : list (Z * Z)) (active : list ptr) : ST (world C (t K)) (list ptr) :=
  match evs with
  | [] => mret active
  | (fd, ev) :: evs' =>
      if numEvents >? 0
      then
        _ ← lift (cassert (ev >? 0));
        e ← gets poller;
        _ ← lift (cassert (bool_decide (is_Some (channel_map e !! fd))));
        p ← lift (deref (channel_map e !! fd));
        c ← get_channel p;
        _ ← lift (cassert (m_fd c =? fd));
        _ ← put_channel p (set_revents ev c);
        fillActiveChannels (numEvents - 1) evs' (active ++ [p])
      else mret active
  end.

(** [epoll_wait n] is the result of the system call and the events it wrote:
    as many as the result says. The array is read up to its size. *)
Definition poll (epoll_wait : Z -> Z * list (Z * Z)) : ST (world C (t K)) (list ptr) :=
  e ← gets poller;
  _ ← lift (cassert (size e >? 0));
  let '(numEvents, evs) := epoll_wait (m_maxEventsSize e) in
  _ ← lift (if zlen evs <=? capacity e then Ret tt else Crash UndefinedBehaviour);
  if numEvents >? 0 then fillActiveChannels numEvents (ztake (size e) evs) [] else mret [].
End epoll.
End Epoll.

(** ** The epoll keeps the contract of a poller *)
Section spec.
Context {C K : Type} `{!Kernel K}.
Implicit Types w : world C (Epoll.t K).
Implicit Types e : Epoll.t K.

(** The counter counts the channels, the room is enough for it up to 10000
    channels, the kernel watches the registered descriptors. *)
Record epoll_inv w : Prop := {
  inv_count : Epoll.m_maxEventsSize (poller w) = Z.of_nat (size (Epoll.channel_map (poller w)));
  inv_small : Z.of_nat (size (Epoll.channel_map (poller w))) <= 2 ^ 30;
  inv_size : Epoll.size (poller w) = 1024;
  inv_cap : 1024 <= Epoll.capacity (poller w) <= 10000;
  inv_room : Epoll.m_maxEventsSize (poller w) + 1 < Epoll.capacity (poller w) \/ Epoll.capacity (poller w) = 10000;
  inv_kernel : dom (watched (Epoll.kernel (poller w))) = dom (Epoll.channel_map (poller w));
  inv_channels : forall fd p, Epoll.channel_map (poller w) !! fd = Some p ->
    exists c, channels w !! p = Some c /\ m_fd c = fd /\ 0 <= m_index c
}.

Lemma init_inv chs k : watched k = ∅ -> epoll_inv (mkWorld chs (Epoll.init k)).
Proof. intros Hk. split; cbn; rewrite ?map_size_empty, ?Hk; try done; try lia. set_solver. Qed.

Lemma epoll_inv_put w p c c' : epoll_inv w -> channels w !! p = Some c ->
  m_fd c' = m_fd c -> m_index c' = m_index c -> epoll_inv (mkWorld (<[p := c']> (channels w)) (poller w)).
Proof.
  intros [H1 H2 H3 H4 H5 H6 H7] Hc Hf Hi. split; try done. cbn [poller channels].
  intros fd q Hq. destruct (H7 fd q Hq) as (d & Hd & Hfd & Hid). destruct (decide (p = q)) as [->|Hne].
  - exists c'. rewrite lookup_insert_eq. split; [done|]. rewrite Hc in Hd. injection Hd as <-. rewrite Hf, Hi. done.
  - exists d. by rewrite lookup_insert_ne.
Qed.

Lemma epoll_inv_new w p c : epoll_inv w -> channels w !! p = None -> epoll_inv (mkWorld (<[p := c]> (channels w)) (poller w)).
Proof.
  intros [H1 H2 H3 H4 H5 H6 H7] Hp. split; try done. cbn. intros fd q Hq.
  destruct (H7 fd q Hq) as (d & Hd & ?). exists d. by rewrite lookup_insert_ne by congruence.
Qed.

Lemma epoll_inv_free w p : epoll_inv w -> (forall fd, Epoll.channel_map (poller w) !! fd <> Some p) ->
  epoll_inv (mkWorld (delete p (channels w)) (poller w)).
Proof.
  intros [H1 H2 H3 H4 H5 H6 H7] Hp. split; try done. cbn. intros fd q Hq.
  destruct (H7 fd q Hq) as (d & Hd & ?). exists d. rewrite lookup_delete_ne; [done|]. intros ->. by apply (Hp fd).
Qed.

(** After an update the array has room for another channel. *)
Lemma make_room_spec e : 1024 <= Epoll.capacity e <= 10000 ->
  Epoll.m_maxEventsSize e + 1 <= Epoll.capacity e \/ Epoll.capacity e = 10000 ->
  exists cap, Epoll.make_room e = Epoll.mk (Epoll.channel_map e) (Epoll.m_maxEventsSize e) (Epoll.size e) cap (Epoll.kernel e)
    /\ 1024 <= cap <= 10000 /\ (Epoll.m_maxEventsSize e + 1 < cap \/ cap = 10000).
Proof.
  intros Hc Hr. unfold Epoll.make_room, Epoll.kMaxEpollConcurrencySize. destruct (Z.eqb_spec (Epoll.m_maxEventsSize e + 1) (Epoll.capacity e)).
  - eexists. split; [done|]. lia.
  - exists (Epoll.capacity e). split; [by destruct e|]. lia.
Qed.

Lemma set_poller_run e w : Epoll.set_poller (C:=C) e w = Ret (tt, mkWorld (channels w) e).
Proof. done. Qed.

(** The registered channel whose descriptor a channel has is that channel. *)
Lemma epoll_update_spec w p c : epoll_inv w -> channels w !! p = Some c -> may_update w p c ->
  exists i w', Epoll.updateChannel p w = Ret (tt, w') /\ epoll_inv w' /\ 0 <= i
    /\ channels w' = <[p := set_index i c]> (channels w)
    /\ Epoll.channel_map (poller w') = <[m_fd c := p]> (Epoll.channel_map (poller w))
    /\ watched (Epoll.kernel (poller w')) = <[m_fd c := m_events c]> (watched (Epoll.kernel (poller w))).
Proof.
  intros [H1 H2 H3 H4 H5 H6 H7] Hc Hm. destruct w as [chs e]. cbn [channels poller] in *.
  unfold Epoll.updateChannel. rewrite (ST_bind_eq _ _ _ _ _ (get_channel_run (mkWorld chs e) p c Hc)).
  rewrite gets_bind. cbn [poller].
  destruct Hm as [(Hi & Hnone & Hsz)|[Hi Hsome]]; unfold m_channels in *; cbn [Epoll.epoll_poller poller] in *.
  - rewrite (proj2 (Z.ltb_lt _ _)) by done.
    rewrite assert_bind by (by apply bool_decide_true).
    assert (watched (Epoll.kernel e) !! m_fd c = None) as Hw.
    { apply not_elem_of_dom. rewrite H6. by apply not_elem_of_dom. }
    destruct (ctl_add (Epoll.kernel e) (m_fd c) (m_events c) Hw) as (k' & Hk & Hwk).
    unfold Epoll.control. rewrite Hk. assert (u64 (Epoll.m_maxEventsSize e + 1) = Epoll.m_maxEventsSize e + 1) as -> by (unwrap; lia).
    set (n := Epoll.m_maxEventsSize e + 1) in *. assert (s32 n = n) as -> by (unfold n; unwrap; lia).
    rewrite put_bind, set_poller_run. cbn [channels poller].
    set (e1 := Epoll.mk _ _ _ _ _). destruct (make_room_spec e1) as (cap & -> & Hcap & Hroom); [done|unfold e1, n; cbn; lia|].
    eexists n, _. split; [done|]. cbn [channels poller e1 Epoll.channel_map Epoll.kernel Epoll.m_maxEventsSize Epoll.size].
    split; [|split; [unfold n; lia|done]].
    assert (size (<[m_fd c := p]> (Epoll.channel_map e)) = S (size (Epoll.channel_map e))) as Hs by (by apply map_size_insert_None).
    split; cbn; rewrite ?Hs; try done; try (unfold n; lia).
    + rewrite Hwk, !dom_insert_L. by rewrite H6.
    + intros fd q. destruct (decide (fd = m_fd c)) as [->|Hne].
      * rewrite lookup_insert_eq. intros [= <-]. exists (set_index n c). rewrite lookup_insert_eq. unfold n. cbn. split_and!; [done|done|lia].
      * rewrite lookup_insert_ne by done. intros Hq. destruct (H7 fd q Hq) as (d & Hd & Hfd & Hid). exists d.
        rewrite lookup_insert_ne; [done|]. intros ->. rewrite Hc in Hd. injection Hd as <-. done.
  - rewrite (proj2 (Z.ltb_ge _ _)) by done.
    rewrite assert_bind by (apply bool_decide_true; by eexists).
    rewrite assert_bind by (by apply bool_decide_true).
    assert (is_Some (watched (Epoll.kernel e) !! m_fd c)) as Hw.
    { apply elem_of_dom. rewrite H6. apply elem_of_dom. by eexists. }
    destruct (ctl_mod (Epoll.kernel e) (m_fd c) (m_events c) Hw) as (k' & Hk & Hwk).
    unfold Epoll.control. rewrite Hk, set_poller_run.
    set (e1 := Epoll.mk _ _ _ _ _). destruct (make_room_spec e1) as (cap & -> & Hcap & Hroom); [done|unfold e1; cbn; lia|].
    exists (m_index c). eexists. split; [done|]. cbn [channels poller e1 Epoll.channel_map Epoll.kernel Epoll.m_maxEventsSize Epoll.size].
    split; [|split; [done|split; [|split; [by rewrite insert_id|done]]]].
    + split; cbn; try done. rewrite Hwk, dom_insert_L, H6. apply subseteq_union_1_L, singleton_subseteq_l. apply elem_of_dom. by eexists.
    + rewrite insert_id; [done|]. rewrite Hc. by destruct c.
Qed.

Lemma epoll_remove_spec w p c : epoll_inv w -> channels w !! p = Some c ->
  Epoll.channel_map (poller w) !! m_fd c = Some p -> m_events c = kNoneEvent ->
  exists w', Epoll.removeChannel p w = Ret (tt, w') /\ epoll_inv w' /\ channels w' = channels w
    /\ Epoll.channel_map (poller w') = delete (m_fd c) (Epoll.channel_map (poller w))
    /\ watched (Epoll.kernel (poller w')) = delete (m_fd c) (watched (Epoll.kernel (poller w))).
Proof.
  intros [H1 H2 H3 H4 H5 H6 H7] Hc Hm He. destruct w as [chs e]. cbn [channels poller] in *.
  unfold Epoll.removeChannel. rewrite (ST_bind_eq _ _ _ _ _ (get_channel_run (mkWorld chs e) p c Hc)), gets_bind.
  cbn [poller]. rewrite assert_bind by (apply bool_decide_true; by eexists).
  rewrite assert_bind by (by apply bool_decide_true). rewrite assert_bind by (unfold isNoneEvent; by apply Z.eqb_eq).
  assert (is_Some (watched (Epoll.kernel e) !! m_fd c)) as Hw.
  { apply elem_of_dom. rewrite H6. apply elem_of_dom. by eexists. }
  destruct (ctl_del (Epoll.kernel e) (m_fd c) (m_events c) Hw) as (k' & Hk & Hwk).
  unfold Epoll.control. rewrite Hk, set_poller_run. cbn [channels].
  assert (size (Epoll.channel_map e) = S (size (delete (m_fd c) (Epoll.channel_map e)))) as Hs.
  { rewrite <- (insert_delete_id _ _ _ Hm) at 1. rewrite map_size_insert_None; [done|]. apply lookup_delete_eq. }
  eexists. split; [done|]. cbn [channels poller Epoll.channel_map Epoll.kernel]. split; [|done].
  assert (u64 (Epoll.m_maxEventsSize e - 1) = Epoll.m_maxEventsSize e - 1) as Hu by (unwrap; lia).
  split; cbn; try done; rewrite ?Hu; try lia.
  - by rewrite Hwk, !dom_delete_L, H6.
  - intros fd q [_ Hq]%lookup_delete_Some. by apply (H7 fd q).
Qed.

(** An assertion of a run that returned held. *)
Lemma assert_inv {S B} b (g : unit -> ST S B) s x : (lift (cassert b) ≫= g) s = Ret x -> b = true /\ g tt s = Ret x.
Proof. by destruct b. Qed.

Lemma get_inv {B} p (g : t C -> ST (world C (Epoll.t K)) B) w x : (get_channel p ≫= g) w = Ret x ->
  exists c, channels w !! p = Some c /\ g c w = Ret x.
Proof. unfold mbind, ST_bind, get_channel. destruct (channels w !! p) as [c|]; [|done]. intros H. by exists c. Qed.

Lemma epoll_update_frame w p w' : Epoll.updateChannel p w = Ret (tt, w') ->
  exists c i, channels w !! p = Some c /\ channels w' = <[p := set_index i c]> (channels w).
Proof.
  intros H. apply get_inv in H as (c & Hc & H). rewrite gets_bind in H. exists c.
  destruct (m_index c <? 0).
  - apply assert_inv in H as [_ H]. rewrite put_bind in H. injection H as <-. eexists. split; [done|]. done.
  - apply assert_inv in H as [_ H]. apply assert_inv in H as [_ H]. injection H as <-. exists (m_index c). split; [done|].
    cbn [channels]. symmetry. apply insert_id. rewrite Hc. by destruct c.
Qed.

Lemma epoll_remove_frame w p w' : Epoll.removeChannel p w = Ret (tt, w') -> channels w' = channels w.
Proof.
  intros H. apply get_inv in H as (c & Hc & H). rewrite gets_bind in H. do 3 apply assert_inv in H as [_ H].
  by injection H as <-.
Qed.

#[global] Instance epoll_spec : PollerSpec C (Epoll.t K).
Proof.
  refine {| interest e := watched (Epoll.kernel e); poller_ok := epoll_inv |}.
  - intros w fd p Hok. apply (inv_channels _ Hok).
  - apply epoll_inv_put.
  - apply epoll_inv_new.
  - apply epoll_update_spec.
  - apply epoll_update_frame.
  - apply epoll_remove_frame.
  - apply epoll_remove_spec.
Defined.

(** *** [poll] *)

(** What a kernel reports: registered descriptors, each once, with an event. *)
Definition reported w (evs : list (Z * Z)) : Prop :=
  NoDup evs.*1 /\ Forall (fun '(fd, ev) => is_Some (Epoll.channel_map (poller w) !! fd) /\ 0 < ev) evs.

Lemma reported_length w evs : reported w evs -> (length evs <= size (Epoll.channel_map (poller w)))%nat.
Proof.
  intros [Hnd Hev]. rewrite <- size_dom, <- (length_fmap fst), <- (size_list_to_set (C:=gset Z)) by done.
  apply subseteq_size. intros fd Hfd%elem_of_list_to_set. apply list_elem_of_fmap in Hfd as ([fd' ev] & -> & Hin).
  rewrite Forall_forall in Hev. apply elem_of_dom. by destruct (Hev _ Hin).
Qed.

(** Each event is put into its channel, and the channels are listed in the
    order of the events. *)
Lemma fill_spec evs n active w : epoll_inv w -> reported w evs -> n >= zlen evs ->
  exists ps w', Epoll.fillActiveChannels n evs active w = Ret (active ++ ps, w') /\ epoll_inv w' /\ poller w' = poller w
    /\ Forall2 (fun '(fd, ev) p => Epoll.channel_map (poller w) !! fd = Some p) evs ps
    /\ Forall2 (fun '(fd, ev) p => exists c, channels w !! p = Some c /\ m_fd c = fd /\ channels w' !! p = Some (set_revents ev c)) evs ps
    /\ (forall p, p ∉ ps -> channels w' !! p = channels w !! p)
    /\ (forall p c, channels w !! p = Some c -> exists c', channels w' !! p = Some c' /\ m_events c' = m_events c).
Proof.
  revert n active w. induction evs as [|[fd ev] evs IH]; intros n active w Hok [Hnd Hrep] Hn.
  { exists [], w. rewrite app_nil_r. cbn. split_and!; try done. naive_solver. }
  cbn [fmap list_fmap fst] in Hnd. apply NoDup_cons in Hnd as [Hnin Hnd]. apply Forall_cons in Hrep as [[[p Hp] Hev] Hrep].
  rewrite zlen_cons in Hn. pose proof (zlen_nonneg evs).
  destruct (inv_channels _ Hok fd p Hp) as (c & Hc & Hfd & Hi).
  set (w1 := mkWorld (<[p := set_revents ev c]> (channels w)) (poller w)).
  destruct (IH (n - 1) (active ++ [p]) w1) as (ps & w' & E & Hok' & Hpo & Hps & Hpv & Hsame & Hevs);
    [by apply (epoll_inv_put w p c)|done|lia|].
  exists (p :: ps), w'. rewrite <- app_assoc in E.
  assert (p ∉ ps) as Hpn.
  { intros (j & Hj)%list_elem_of_lookup. destruct (Forall2_lookup_r _ _ _ _ _ Hps Hj) as ([fd' ev'] & Hj' & Hp').
    destruct (inv_channels _ Hok fd' p Hp') as (c' & Hc' & Hfd' & _). rewrite Hc in Hc'. injection Hc' as <-.
    apply Hnin. rewrite <- Hfd, Hfd'. apply list_elem_of_fmap. exists (fd', ev'). split; [done|]. by eapply list_elem_of_lookup_2. }
  split_and!; try done.
  - cbn [Epoll.fillActiveChannels]. rewrite (proj2 (Z.gtb_lt n 0)) by lia.
    rewrite assert_bind by (apply Z.gtb_lt; lia). rewrite gets_bind.
    rewrite assert_bind by (apply bool_decide_true; by eexists). rewrite Hp.
    rewrite (lift_bind (deref (Some p)) _ _ p) by done. rewrite (ST_bind_eq _ _ _ _ _ (get_channel_run w p c Hc)).
    rewrite assert_bind by (by apply Z.eqb_eq). rewrite put_bind. exact E.
  - by constructor.
  - constructor.
    + exists c. rewrite (Hsame p Hpn). split; [done|]. split; [done|]. unfold w1. cbn. by rewrite lookup_insert_eq.
    + eapply Forall2_impl_in; [exact Hpv|]. intros [fd' ev'] q _ Hq (d & Hd & Hfd' & Hd'). exists d. split; [|done].
      unfold w1 in Hd. cbn in Hd. rewrite lookup_insert_ne in Hd; [done|]. by intros <-.
  - intros q Hq. apply not_elem_of_cons in Hq as [Hqp Hq]. rewrite (Hsame q Hq). unfold w1. cbn. by rewrite lookup_insert_ne.
  - intros q d Hd. destruct (decide (p = q)) as [<-|Hne].
    + rewrite Hc in Hd. injection Hd as <-. destruct (Hevs p (set_revents ev c)) as (d & Hd & He); [apply lookup_insert_eq|].
      by exists d.
    + apply (Hevs q d). unfold w1. cbn. by rewrite lookup_insert_ne.
Qed.
End spec.

(** ** Theorems *)
Section theorems.
Context {C K : Type} `{!Kernel K}.
Implicit Types w : world C (Epoll.t K).

(** C13. An update of the events of a channel, new or registered, makes the
    kernel watch exactly those events, and the removal of a channel without
    events makes it forget the descriptor; the other descriptors stay. *)
Theorem epoll_watches f w p c : epoll_inv w -> channels w !! p = Some c -> may_update w p c ->
  exists i w', with_events f p w = Ret (tt, w') /\ epoll_inv w' /\ 0 <= i
    /\ channels w' = <[p := set_index i (set_added true (set_events (f (m_events c)) c))]> (channels w)
    /\ watched (Epoll.kernel (poller w')) = <[m_fd c := f (m_events c)]> (watched (Epoll.kernel (poller w)))
    /\ (f (m_events c) = kNoneEvent -> exists w'', remove p w' = Ret (tt, w'') /\ epoll_inv w''
        /\ watched (Epoll.kernel (poller w'')) = delete (m_fd c) (watched (Epoll.kernel (poller w)))).
Proof.
  intros Hok Hc Hm. assert (poller_ok w) as Hok1 by exact Hok.
  destruct (with_events_spec f w p c Hok1 Hc Hm) as (i & w' & E & Hok' & Hi & Hch & Hmc & Hint).
  exists i, w'. do 5 (split; [done|]). intros Hf. set (c1 := set_added true _) in Hch.
  set (c2 := set_index i c1) in *. assert (channels w' !! p = Some c2) as Hc2 by (rewrite Hch; apply lookup_insert_eq).
  set (w2 := mkWorld (<[p := set_added false c2]> (channels w')) (poller w')).
  assert (epoll_inv w2) as Hok2 by (by apply (epoll_inv_put w' p c2)).
  destruct (epoll_remove_spec w2 p (set_added false c2) Hok2) as (w3 & E3 & Hok3 & _ & _ & Hw3);
    [apply lookup_insert_eq|by change (m_channels (C:=C) (poller w') !! m_fd c = Some p); rewrite Hmc, lookup_insert_eq|exact Hf|].
  exists w3. split; [|split; [done|]].
  - unfold remove. rewrite (ST_bind_eq _ _ _ _ _ (get_channel_run w' p c2 Hc2)).
    rewrite assert_bind by (unfold isNoneEvent; by apply Z.eqb_eq). rewrite put_bind. exact E3.
  - rewrite Hw3. assert (watched (Epoll.kernel (poller w')) = <[m_fd c := f (m_events c)]> (watched (Epoll.kernel (poller w)))) as Hw by exact Hint.
    cbn [poller w2]. rewrite Hw. by rewrite delete_insert_eq.
Qed.

(** [poll] puts each reported event into the channel of its descriptor and
    lists those channels in the kernel's order, for the first 1024 events; the
    kernel's answer fits the array as long as there are at most 10000
    channels. *)
Theorem epoll_poll_dispatches wait evs w : epoll_inv w -> Z.of_nat (size (Epoll.channel_map (poller w))) <= 10000 ->
  reported w evs -> wait (Epoll.m_maxEventsSize (poller w)) = (zlen evs, evs) ->
  exists ps w', Epoll.poll wait w = Ret (ps, w') /\ epoll_inv w' /\ poller w' = poller w
    /\ Forall2 (fun '(fd, _) p => Epoll.channel_map (poller w) !! fd = Some p) (ztake 1024 evs) ps
    /\ Forall2 (fun '(fd, ev) p => exists c, channels w !! p = Some c /\ m_fd c = fd /\ channels w' !! p = Some (set_revents ev c)) (ztake 1024 evs) ps
    /\ (forall p, p ∉ ps -> channels w' !! p = channels w !! p).
Proof.
  intros Hok Hsz Hrep Hwait. pose proof (reported_length w evs Hrep) as Hlen. destruct Hok as [H1 H2 H3 H4 H5 H6 H7].
  assert (reported w (ztake 1024 evs)) as Hrep'.
  { destruct Hrep as [Hr1 Hr2]. split; [|by apply Forall_take]. unfold ztake. rewrite fmap_take.
    eapply sublist_NoDup; [done|]. apply sublist_take. }
  assert (zlen (ztake 1024 evs) <= zlen evs) as Hle by (unfold zlen, ztake; rewrite length_take; lia).
  destruct (fill_spec (ztake 1024 evs) (zlen evs) [] w) as (ps & w' & E & Hok' & Hpo & Hpm & Hpv & Hsame & _); [by split|done|lia|].
  unfold Epoll.poll. rewrite gets_bind, H3. rewrite assert_bind by done. rewrite Hwait. cbv iota beta.
  rewrite (proj2 (Z.leb_le _ _)) by (unfold zlen; lia). rewrite (lift_bind (Ret tt) _ _ tt) by done.
  destruct (Z.gtb_spec (zlen evs) 0) as [Hpos|Hz].
  - exists ps, w'. done.
  - assert (evs = []) as -> by (apply zlen_zero; pose proof (zlen_nonneg evs); lia). exists [], w. split; [done|].
    split; [by split|]. split; [done|]. split; [constructor|]. split; [constructor|done].
Qed.

(** The operations on the channels of a loop. *)
Inductive chan_op := New (p : ptr) (fd : Z) | Events (f : Z -> Z) (p : ptr) | Remove (p : ptr) | Writing (p : ptr).
Definition chan_step (o : chan_op) : ST (world C (Epoll.t K)) unit :=
  match o with
  | New p fd => w ← gets channels; match w !! p with Some _ => crash UndefinedBehaviour | None => put_channel p (init fd) end
  | Events f p => with_events f p
  | Remove p => remove p
  | Writing p => _ ← is_writing p; mret tt
  end.
Fixpoint chan_run (os : list chan_op) : ST (world C (Epoll.t K)) unit :=
  match os with [] => mret tt | o :: os' => _ ← chan_step o; chan_run os' end.

(** An update that returns was allowed. *)
Lemma update_allowed w p c x : Z.of_nat (size (Epoll.channel_map (poller w))) < 2 ^ 30 -> channels w !! p = Some c ->
  Epoll.updateChannel p w = Ret x -> may_update w p c.
Proof.
  intros Hsz Hc H. apply get_inv in H as (c' & Hc' & H). rewrite Hc in Hc'. injection Hc' as <-. rewrite gets_bind in H.
  destruct (Z.ltb_spec (m_index c) 0).
  - left. apply assert_inv in H as [H _]. by apply bool_decide_eq_true in H.
  - right. apply assert_inv in H as [_ H]. apply assert_inv in H as [H _]. by apply bool_decide_eq_true in H.
Qed.

Lemma update_step_inv f w p w' : epoll_inv w -> Z.of_nat (size (Epoll.channel_map (poller w))) < 2 ^ 30 ->
  with_events f p w = Ret (tt, w') ->
  epoll_inv w' /\ (size (Epoll.channel_map (poller w')) <= S (size (Epoll.channel_map (poller w))))%nat.
Proof.
  intros Hok Hsz H. apply get_inv in H as (c & Hc & H). rewrite put_bind in H.
  apply get_inv in H as (c1 & Hc1 & H). cbn [channels poller] in *. rewrite lookup_insert_eq in Hc1. injection Hc1 as <-.
  rewrite put_bind in H. cbn [channels poller] in H. rewrite insert_insert_eq in H.
  set (c2 := set_added true _) in H. set (w2 := mkWorld (<[p := c2]> (channels w)) (poller w)) in H.
  assert (epoll_inv w2) as Hok2 by (by apply (epoll_inv_put w p c c2)).
  assert (channels w2 !! p = Some c2) as Hc2 by apply lookup_insert_eq.
  pose proof (update_allowed w2 p c2 _ Hsz Hc2 H) as Hm.
  destruct (epoll_update_spec w2 p c2 Hok2 Hc2 Hm) as (i & w3 & E & Hok3 & _ & _ & Hmap & _).
  assert (w3 = w') as -> by (change (Epoll.updateChannel p w2 = Ret (tt, w')) in H; congruence).
  split; [done|]. rewrite Hmap, map_size_insert. cbn [poller w2]. case_match; unfold id; lia.
Qed.

Lemma remove_step_inv w p w' : epoll_inv w -> remove p w = Ret (tt, w') ->
  epoll_inv w' /\ (size (Epoll.channel_map (poller w')) <= size (Epoll.channel_map (poller w)))%nat.
Proof.
  intros Hok H. apply get_inv in H as (c & Hc & H). apply assert_inv in H as [He H].
  rewrite put_bind in H. cbn [channels poller] in H.
  set (c2 := set_added false c) in H. set (w2 := mkWorld (<[p := c2]> (channels w)) (poller w)) in H.
  assert (epoll_inv w2) as Hok2 by (by apply (epoll_inv_put w p c c2)).
  assert (channels w2 !! p = Some c2) as Hc2 by apply lookup_insert_eq.
  change (Epoll.removeChannel p w2 = Ret (tt, w')) in H. pose proof H as H'.
  apply get_inv in H' as (c' & Hc' & H'). rewrite Hc2 in Hc'. injection Hc' as <-. rewrite gets_bind in H'.
  apply assert_inv in H' as [_ H']. apply assert_inv in H' as [Hmap _]. apply bool_decide_eq_true in Hmap.
  destruct (epoll_remove_spec w2 p c2 Hok2 Hc2 Hmap) as (w3 & E & Hok3 & _ & Hdel & _); [by apply Z.eqb_eq in He|].
  assert (w3 = w') as -> by congruence. split; [done|]. rewrite Hdel, map_size_delete. cbn [poller w2]. case_match; unfold id; lia.
Qed.

Lemma chan_step_inv o w w' : epoll_inv w -> Z.of_nat (size (Epoll.channel_map (poller w))) < 2 ^ 30 ->
  chan_step o w = Ret (tt, w') ->
  epoll_inv w' /\ (size (Epoll.channel_map (poller w')) <= S (size (Epoll.channel_map (poller w))))%nat.
Proof.
  intros Hok Hsz H. destruct o as [p fd|f p|p|p]; cbn [chan_step] in H.
  - rewrite gets_bind in H. destruct (channels w !! p) as [d|] eqn:Hp; [done|]. injection H as <-.
    split; [by apply epoll_inv_new|cbn; lia].
  - by eapply update_step_inv.
  - apply remove_step_inv in H; [|done]. split; [tauto|lia].
  - assert (exists c, channels w !! p = Some c /\ w' = mkWorld (<[p := (isWriting c).2]> (channels w)) (poller w)) as (c & Hc & ->).
    { unfold mbind, ST_bind, is_writing, mbind, ST_bind, get_channel in H. destruct (channels w !! p) as [c|]; [|done].
      exists c. split; [done|]. cbn in H. injection H as <-. done. }
    split; [|cbn; lia]. by apply (epoll_inv_put w p c).
Qed.
End theorems.

Section capacity.
Context {C K : Type} `{!Kernel K}.
Implicit Types w : world C (Epoll.t K).

Lemma chan_run_inv (os : list chan_op) w w' : epoll_inv w ->
  Z.of_nat (size (Epoll.channel_map (poller w))) + Z.of_nat (length os) < 2 ^ 30 ->
  chan_run os w = Ret (tt, w') -> epoll_inv w'.
Proof.
  revert w. induction os as [|o os IH]; intros w Hok Hl H; [by injection H as <-|].
  cbn [chan_run length] in *. unfold mbind, ST_bind in H. destruct (chan_step o w) as [[[] w1]|] eqn:E; [|done].
  destruct (chan_step_inv o w w1 Hok ltac:(lia) E) as [Hok1 Hs1]. apply (IH w1 Hok1); [lia|done].
Qed.

(** Whatever is done with the channels of a loop, the counter that bounds
    the answer of epoll_wait is the number of registered channels, and the
    array holds that many events as long as they are at most 10000; with more
    channels the kernel may write past the end of the array. *)
Theorem epoll_capacity (os : list chan_op) (k : K) w : watched k = ∅ -> Z.of_nat (length os) < 2 ^ 30 ->
  chan_run os (mkWorld ∅ (Epoll.init k)) = Ret (tt, w) ->
  let n := Z.of_nat (size (Epoll.channel_map (poller w))) in
  Epoll.m_maxEventsSize (poller w) = n
  /\ (n <= 10000 -> n <= Epoll.capacity (poller w))
  /\ (10000 < n -> Epoll.capacity (poller w) < Epoll.m_maxEventsSize (poller w))
  /\ dom (watched (Epoll.kernel (poller w))) = dom (Epoll.channel_map (poller w)).
Proof.
  intros Hk Hl H. apply chan_run_inv in H as [H1 H2 H3 H4 H5 H6 H7]; [|by apply init_inv|cbn [poller Epoll.init Epoll.channel_map]; rewrite map_size_empty; lia].
  cbv zeta. split_and!; [done|lia|lia|done].
Qed.

(** A channel that was removed cannot be used again: it keeps its index,
    so the next update takes it for a registered one and fails an assertion. *)
Theorem removed_channel_aborts f p w c : channels w !! p = Some c -> 0 <= m_index c ->
  Epoll.channel_map (poller w) !! m_fd c = None -> with_events f p w = Crash AssertFailure.
Proof.
  intros Hc Hi Hnone. unfold with_events. rewrite (ST_bind_eq _ _ _ _ _ (get_channel_run w p c Hc)), put_bind.
  unfold update. set (c1 := set_events _ c). set (w1 := mkWorld _ _).
  assert (channels w1 !! p = Some c1) as Hc1 by apply lookup_insert_eq.
  rewrite (ST_bind_eq _ _ _ _ _ (get_channel_run w1 p c1 Hc1)), put_bind. cbn [channels poller w1]. rewrite insert_insert_eq.
  set (c2 := set_added true c1). set (w2 := mkWorld _ _). change (Epoll.updateChannel p w2 = Crash AssertFailure).
  assert (channels w2 !! p = Some c2) as Hc2 by apply lookup_insert_eq.
  unfold Epoll.updateChannel. rewrite (ST_bind_eq _ _ _ _ _ (get_channel_run w2 p c2 Hc2)), gets_bind.
  cbn [m_index c2 c1 set_added set_events poller w2 w1 m_fd]. rewrite (proj2 (Z.ltb_ge _ _)) by done.
  apply assert_fails. apply bool_decide_eq_false. rewrite Hnone. intros [x Hx]. discriminate Hx.
Qed.

Lemma land_lor_absorb e b : Z.lor (Z.land e b) b = b.
Proof. apply Z.bits_inj'. intros n _. rewrite Z.lor_spec, Z.land_spec. by destruct (Z.testbit e n), (Z.testbit b n). Qed.

(** Asking a registered channel whether it writes makes it forget that it
    reads: [isWriting] assigns to the events, and the next [enableWriting]
    leaves the kernel watching for writing alone. *)
Theorem isWriting_forgets_reading w p c : epoll_inv w -> channels w !! p = Some c ->
  Epoll.channel_map (poller w) !! m_fd c = Some p ->
  exists w' w'', is_writing p w = Ret (has (m_events c) kWriteEvent, w')
    /\ watched (Epoll.kernel (poller w')) = watched (Epoll.kernel (poller w))
    /\ enableWriting p w' = Ret (tt, w'')
    /\ watched (Epoll.kernel (poller w'')) = <[m_fd c := kWriteEvent]> (watched (Epoll.kernel (poller w))).
Proof.
  intros Hok Hc Hm. set (c1 := (isWriting c).2). set (w1 := mkWorld (<[p := c1]> (channels w)) (poller w)).
  assert (epoll_inv w1) as Hok1 by (by apply (epoll_inv_put w p c c1)).
  assert (poller_ok w1) as Hok1' by exact Hok1.
  assert (channels w1 !! p = Some c1) as Hc1 by apply lookup_insert_eq.
  assert (0 <= m_index c) as Hi.
  { destruct (inv_channels _ Hok _ _ Hm) as (c' & Hc' & _ & Hi). rewrite Hc in Hc'. by injection Hc' as <-. }
  assert (may_update w1 p c1) as Hmay by (right; by split).
  destruct (with_events_spec (fun e => (e .| kWriteEvent)%cxx) w1 p c1 Hok1' Hc1 Hmay) as (i & w2 & E & _ & _ & _ & _ & Hint).
  exists w1, w2. split; [|split; [done|]; split; [exact E|]].
  - unfold is_writing. by rewrite (ST_bind_eq _ _ _ _ _ (get_channel_run w p c Hc)).
  - assert (watched (Epoll.kernel (poller w2)) = <[m_fd c1 := (m_events c1 .| kWriteEvent)%cxx]> (watched (Epoll.kernel (poller w1)))) as Hw by exact Hint.
    rewrite Hw. cbn [m_events m_fd c1 isWriting snd set_events]. by rewrite land_lor_absorb.
Qed.
End capacity.

(** ** Witnesses: a loop with three channels. *)
Definition reading (e : Z) : Z := (e .| kReadEvent)%cxx.
Definition demo_ops : list chan_op := [New 1 3; New 2 4; New 5 9; Events reading 1; Events reading 2].
Definition demo_world : world unit (Epoll.t (gmap Z Z)) :=
  match chan_run demo_ops (mkWorld ∅ (Epoll.init ∅)) with Ret (_, w) => w | Crash _ => mkWorld ∅ (Epoll.init ∅) end.

Lemma demo_epoll_inv : epoll_inv demo_world.
Proof.
  apply (chan_run_inv demo_ops (mkWorld ∅ (Epoll.init ∅))); [by apply init_inv|by vm_compute|]. by vm_compute.
Qed.

Lemma epoll_capacity_witness :
  Epoll.m_maxEventsSize (poller demo_world) = Z.of_nat (size (Epoll.channel_map (poller demo_world)))
  /\ (Z.of_nat (size (Epoll.channel_map (poller demo_world))) <= 10000 ->
      Z.of_nat (size (Epoll.channel_map (poller demo_world))) <= Epoll.capacity (poller demo_world))
  /\ (10000 < Z.of_nat (size (Epoll.channel_map (poller demo_world))) ->
      Epoll.capacity (poller demo_world) < Epoll.m_maxEventsSize (poller demo_world))
  /\ dom (watched (Epoll.kernel (poller demo_world))) = dom (Epoll.channel_map (poller demo_world)).
Proof. apply (epoll_capacity demo_ops (∅ : gmap Z Z) demo_world); [done|by vm_compute|by vm_compute]. Defined.

Lemma epoll_watches_witness :
  exists i w', with_events (fun _ => kNoneEvent) 2%nat demo_world = Ret (tt, w') /\ epoll_inv w' /\ 0 <= i
    /\ channels w' = <[2%nat := set_index i (set_added true (set_events kNoneEvent (set_index 2 (set_added true (set_events kReadEvent (init 4))))))]> (channels demo_world)
    /\ watched (Epoll.kernel (poller w')) = <[4 := kNoneEvent]> (watched (Epoll.kernel (poller demo_world)))
    /\ (kNoneEvent = kNoneEvent -> exists w'', remove 2%nat w' = Ret (tt, w'') /\ epoll_inv w''
        /\ watched (Epoll.kernel (poller w'')) = delete 4 (watched (Epoll.kernel (poller demo_world)))).
Proof.
  exact (epoll_watches (fun _ => kNoneEvent) demo_world 2 (set_index 2 (set_added true (set_events kReadEvent (init 4))))
    demo_epoll_inv ltac:(by vm_compute) ltac:(right; by vm_compute)).
Defined.

Lemma epoll_poll_dispatches_witness :
  exists ps w', Epoll.poll (fun _ => (2, [(4, 1); (3, 16)])) demo_world = Ret (ps, w') /\ epoll_inv w' /\ poller w' = poller demo_world
    /\ Forall2 (fun '(fd, _) p => Epoll.channel_map (poller demo_world) !! fd = Some p) [(4, 1); (3, 16)] ps
    /\ Forall2 (fun '(fd, ev) p => exists c, channels demo_world !! p = Some c /\ m_fd c = fd /\ channels w' !! p = Some (set_revents ev c)) [(4, 1); (3, 16)] ps
    /\ (forall p, p ∉ ps -> channels w' !! p = channels demo_world !! p).
Proof.
  apply (epoll_poll_dispatches (fun _ => (2, [(4, 1); (3, 16)])) [(4, 1); (3, 16)] demo_world demo_epoll_inv); [by vm_compute| |done].
  split; [by_compute|]. repeat constructor; by_compute.
Defined.

Lemma removed_channel_aborts_witness :
  with_events reading 2%nat (mkWorld {[ 2%nat := set_index 2 (init 4 : t unit) ]} (Epoll.init (∅ : gmap Z Z))) = Crash AssertFailure.
Proof. apply (removed_channel_aborts reading 2 _ (set_index 2 (init 4))); [done|done|done]. Defined.

Lemma isWriting_forgets_reading_witness :
  exists w' w'', is_writing 1%nat demo_world = Ret (false, w')
    /\ watched (Epoll.kernel (poller w')) = watched (Epoll.kernel (poller demo_world))
    /\ enableWriting 1%nat w' = Ret (tt, w'')
    /\ watched (Epoll.kernel (poller w'')) = <[3 := 4]> (watched (Epoll.kernel (poller demo_world))).
Proof.
  exact (isWriting_forgets_reading demo_world 1 (set_index 1 (set_added true (set_events kReadEvent (init 3))))
    demo_epoll_inv ltac:(by vm_compute) ltac:(by vm_compute)).
Defined.
