(* ===== verification/Poll.v ===== *)
(** Reactor/Poll: the poller over poll(2), which no loop of the program
    creates, and the two ways it breaks the contract of a poller. *)
From S2P Require Import Prelude Channel.
Import Channel.

Module Poll.

Record pollfd := mkPollfd { fd : Z; events : Z; revents : Z }.

(** [m_channels] is a [std::map]: [operator[]] of a missing key enters a null
    pointer. *)
Record t := mk { channel_map : gmap Z (option ptr); m_pollfds : list pollfd }.

Definition init : t := mk ∅ [].

(** [static_cast<short>] *)
Definition short (e : Z) : Z := wraps 16 e.

Section poll.
Context {C : Type}.
Implicit Types w : world C t.

Definition set_poller (e : t) : ST (world C t) unit := modify (fun w => mkWorld (channels w) e).

Definition updateChannel (p : ptr) : ST (world C t) unit :=
  c ← get_channel p;
  e ← gets poller;
  if m_index c <? 0
  then
    _ ← lift (cassert (bool_decide (channel_map e !! m_fd c = None)));
    let pfds := m_pollfds e ++ [mkPollfd (m_fd c) (short (m_events c)) 0] in
    _ ← put_channel p (set_index (s32 (zlen pfds) - 1) c);
    set_poller (mk (<[m_fd c := Some p]> (channel_map e)) pfds)
  else
    _ ← lift (cassert (bool_decide (is_Some (channel_map e !! m_fd c))));
    _ ← lift (cassert (bool_decide (channel_map e !! m_fd c = Some (Some p))));
    let idx := m_index c in
    _ ← lift (cassert ((0 <=? idx) && (idx <? s32 (zlen (m_pollfds e)))));
    pfd ← lift (deref (m_pollfds e !! Z.to_nat idx));
    _ ← lift (cassert ((fd pfd =? m_fd c) || (fd pfd =? -1)));
    let pfd' := mkPollfd (if isNoneEvent c then -1 else fd pfd) (short (m_events c)) 0 in
    set_poller (mk (channel_map e) (<[Z.to_nat idx := pfd']> (m_pollfds e))).

(** [m_channels[k]->set_index(idx)] *)
Definition set_index_of (k idx : Z) : ST (world C t) unit :=
  e ← gets poller;
  match channel_map e !! k with
  | Some (Some q) => d ← get_channel q; put_channel q (set_index idx d)
  | Some None | None => crash UndefinedBehaviour
  end.

Definition removeChannel (p : ptr) : ST (world C t) unit :=
  c ← get_channel p;
  e ← gets poller;
  _ ← lift (cassert (bool_decide (is_Some (channel_map e !! m_fd c))));
  _ ← lift (cassert (bool_decide (channel_map e !! m_fd c = Some (Some p))));
  _ ← lift (cassert (isNoneEvent c));
  let idx := m_index c in
  _ ← lift (cassert ((0 <=? idx) && (idx <? s32 (zlen (m_pollfds e)))));
  pfd ← lift (deref (m_pollfds e !! Z.to_nat idx));
  _ ← lift (cassert ((fd pfd =? -1) && (events pfd =? short (m_events c))));
  _ ← set_poller (mk (delete (m_fd c) (channel_map e)) (m_pollfds e));
  if zlen (m_pollfds e) - 1 =? idx
  then modify (fun w => mkWorld (channels w) (mk (channel_map (poller w)) (removelast (m_pollfds e))))
  else
    last_ ← lift (deref (last (m_pollfds e)));
    let channelAtEnd := if fd last_ <? 0 then - fd last_ - 1 else fd last_ in
    _ ← set_index_of channelAtEnd idx;
    modify (fun w => mkWorld (channels w)
      (mk (channel_map (poller w)) (removelast (<[Z.to_nat idx := last_]> (m_pollfds e))))).

#[global] Instance poll_poller : Poller C t := {|
  m_channels e := omap id (channel_map e);
  Channel.updateChannel := updateChannel;
  Channel.removeChannel := removeChannel
|}.

Fixpoint fillActiveChannels (numEvents : Z) (pfds : list pollfd) (active : list ptr) : ST (world C t) (list ptr) :=
  match pfds with
  | [] => mret active
  | pfd :: pfds' =>
      if numEvents >? 0
      then
        if revents pfd >? 0
        then
          e ← gets poller;
          _ ← lift (cassert (bool_decide (is_Some (channel_map e !! fd pfd))));
          q ← lift (deref (mjoin (channel_map e !! fd pfd)));
          c ← get_channel q;
          _ ← lift (cassert (m_fd c =? fd pfd));
          _ ← put_channel q (set_revents (revents pfd) c);
          fillActiveChannels (numEvents - 1) pfds' (active ++ [q])
        else fillActiveChannels numEvents pfds' active
      else mret active
  end.

(** [poll2] is the system call: its result and the array with [revents]
    filled in. *)
Definition poll (poll2 : list pollfd -> Z * list pollfd) : ST (world C t) (list ptr) :=
  e ← gets poller;
  let '(numEvents, pfds) := poll2 (m_pollfds e) in
  _ ← set_poller (mk (channel_map e) pfds);
  if numEvents >? 0 then fillActiveChannels numEvents pfds [] else mret [].
End poll.
End Poll.

(** What poll(2) looks at: the entries with a descriptor. *)
Definition polled (e : Poll.t) : list (Z * Z) :=
  omap (fun pfd => if Poll.fd pfd <? 0 then None else Some (Poll.fd pfd, Poll.events pfd)) (Poll.m_pollfds e).

Lemma omap_insert_none {A B} (f : A -> option B) (l : list A) (i : nat) x y : l !! i = Some x -> f x = None -> f y = None ->
  omap f (<[i := y]> l) = omap f l.
Proof.
  revert i. induction l as [|z l IH]; intros [|i] Hi Hx Hy; [done|done| |].
  - injection Hi as ->. cbn. by rewrite Hx, Hy.
  - specialize (IH i Hi Hx Hy). change (omap f (z :: <[i := y]> l) = omap f (z :: l)).
    unfold omap in *. cbn [list_omap]. destruct (f z); by rewrite IH.
Qed.

Section theorems.
Context {C : Type}.
Implicit Types w : world C Poll.t.

(** A channel at a place of the array. *)
Definition placed w (p : ptr) (c : Channel.t C) (pfd : Poll.pollfd) : Prop :=
  channels w !! p = Some c /\ Poll.channel_map (poller w) !! m_fd c = Some (Some p)
  /\ Poll.m_pollfds (poller w) !! Z.to_nat (m_index c) = Some pfd
  /\ 0 <= m_index c < zlen (Poll.m_pollfds (poller w)) /\ zlen (Poll.m_pollfds (poller w)) < 2 ^ 31.

Lemma placed_assert w p c pfd : placed w p c pfd ->
  (0 <=? m_index c) && (m_index c <? s32 (zlen (Poll.m_pollfds (poller w)))) = true.
Proof.
  intros (_ & _ & _ & Hi & Hl). unwrap. by rewrite (proj2 (Z.leb_le _ _)), (proj2 (Z.ltb_lt _ _)) by lia.
Qed.

(** The assignments to a channel before its update. *)
Lemma placed_put w p c c' pfd : placed w p c pfd -> m_fd c' = m_fd c -> m_index c' = m_index c ->
  placed (mkWorld (<[p := c']> (channels w)) (poller w)) p c' pfd.
Proof.
  intros (H1 & H2 & H3 & H4 & H5) Hf Hi. unfold placed. cbn [channels poller]. rewrite lookup_insert_eq, Hf, Hi. done.
Qed.

(** With poll(2) a channel that was disabled is never watched again: its
    entry keeps the descriptor -1 whatever events it asks for. *)
Theorem poll_reenable_ignored f w p c pfd : placed w p c pfd -> Poll.fd pfd = -1 ->
  exists w', with_events f p w = Ret (tt, w') /\ polled (poller w') = polled (poller w).
Proof.
  intros Hpl Hfd. set (c1 := set_events (f (m_events c)) c). set (c2 := set_added true c1).
  set (w2 := mkWorld (<[p := c2]> (channels w)) (poller w)).
  assert (placed w2 p c2 pfd) as Hpl2 by (by apply (placed_put w p c c2)). destruct Hpl as (Hc & _).
  pose proof (placed_assert w2 p c2 pfd Hpl2) as Has. destruct Hpl2 as (Hc2 & Hm & Hp & Hi & Hl).
  set (pfd' := Poll.mkPollfd (if isNoneEvent c2 then -1 else Poll.fd pfd) (Poll.short (m_events c2)) 0).
  exists (mkWorld (channels w2) (Poll.mk (Poll.channel_map (poller w)) (<[Z.to_nat (m_index c2) := pfd']> (Poll.m_pollfds (poller w))))).
  split.
  - unfold with_events. rewrite (ST_bind_eq _ _ _ _ _ (get_channel_run w p c Hc)), put_bind. unfold update.
    rewrite (ST_bind_eq _ _ _ _ _ (get_channel_run _ p c1 (lookup_insert_eq _ _ _))), put_bind. cbn [channels poller].
    rewrite insert_insert_eq. change (Poll.updateChannel p w2 = Ret (tt, mkWorld (channels w2)
      (Poll.mk (Poll.channel_map (poller w2)) (<[Z.to_nat (m_index c2) := pfd']> (Poll.m_pollfds (poller w2)))))).
    unfold Poll.updateChannel. rewrite (ST_bind_eq _ _ _ _ _ (get_channel_run w2 p c2 Hc2)), gets_bind.
    rewrite (proj2 (Z.ltb_ge _ _)) by lia. rewrite Hm. rewrite assert_bind by (apply bool_decide_true; by eexists).
    rewrite assert_bind by (by apply bool_decide_true). rewrite (assert_bind _ _ _ Has), Hp.
    rewrite (lift_bind _ _ _ pfd) by done. rewrite assert_bind by (rewrite Hfd; apply orb_true_r). done.
  - apply (omap_insert_none _ _ _ pfd); [exact Hp|by rewrite Hfd|]. cbn. rewrite Hfd. by destruct (isNoneEvent c2).
Qed.

(** With poll(2) the removal of a channel that is not the last one, while
    the last one is disabled, looks for the channel of descriptor 0 and, when
    there is none, writes through a null pointer. *)
Theorem poll_remove_crashes w p c pfd last_ : placed w p c pfd -> m_events c = kNoneEvent ->
  Poll.fd pfd = -1 -> Poll.events pfd = 0 -> m_index c < zlen (Poll.m_pollfds (poller w)) - 1 ->
  last (Poll.m_pollfds (poller w)) = Some last_ -> Poll.fd last_ = -1 ->
  m_fd c <> 0 -> Poll.channel_map (poller w) !! 0 = None ->
  remove p w = Crash UndefinedBehaviour.
Proof.
  intros Hpl He Hfd Hev Hidx Hlast Hlfd Hz H0. set (c1 := set_added false c).
  set (w1 := mkWorld (<[p := c1]> (channels w)) (poller w)).
  assert (placed w1 p c1 pfd) as Hpl1 by (by apply (placed_put w p c c1)). destruct Hpl as (Hc & _).
  pose proof (placed_assert w1 p c1 pfd Hpl1) as Has. destruct Hpl1 as (Hc1 & Hm & Hp & Hi & Hl).
  unfold remove. rewrite (ST_bind_eq _ _ _ _ _ (get_channel_run w p c Hc)).
  rewrite assert_bind by (by apply Z.eqb_eq). rewrite put_bind. change (Poll.removeChannel p w1 = Crash UndefinedBehaviour).
  unfold Poll.removeChannel. rewrite (ST_bind_eq _ _ _ _ _ (get_channel_run w1 p c1 Hc1)), gets_bind, Hm.
  rewrite assert_bind by (apply bool_decide_true; by eexists). rewrite assert_bind by (by apply bool_decide_true).
  rewrite assert_bind by (by apply Z.eqb_eq). rewrite (assert_bind _ _ _ Has), Hp. rewrite (lift_bind _ _ _ pfd) by done.
  rewrite assert_bind.
  2:{ rewrite Hfd, Hev. cbn [c1 m_events set_added]. by rewrite He. }
  unfold Poll.set_poller. rewrite modify_bind. cbn [poller w1 channels].
  rewrite (proj2 (Z.eqb_neq _ _)) by (cbn [c1 m_index set_added]; lia). rewrite Hlast, (lift_bind _ _ _ last_), Hlfd by done.
  change (if -1 <? 0 then - -1 - 1 else -1) with 0. unfold Poll.set_index_of, mbind, ST_bind, gets. cbn [poller Poll.channel_map].
  by rewrite lookup_delete_ne, H0 by done.
Qed.
End theorems.

(** Two channels that were enabled and disabled. *)
Definition idle_pair : world unit Poll.t :=
  mkWorld {[ 1%nat := set_index 0 (init 3); 2%nat := set_index 1 (init 4) ]}
    (Poll.mk {[ 3 := Some 1%nat; 4 := Some 2%nat ]} [Poll.mkPollfd (-1) 0 0; Poll.mkPollfd (-1) 0 0]).

Lemma poll_reenable_ignored_witness :
  exists w', with_events (fun e => (e .| kReadEvent)%cxx) 1%nat idle_pair = Ret (tt, w') /\ polled (poller w') = [].
Proof.
  apply (poll_reenable_ignored _ idle_pair 1 (set_index 0 (init 3)) (Poll.mkPollfd (-1) 0 0)); [|done].
  unfold placed. split_and!; try done.
Defined.

Lemma poll_remove_crashes_witness : remove 1%nat idle_pair = Crash UndefinedBehaviour.
Proof.
  apply (poll_remove_crashes idle_pair 1 (set_index 0 (init 3)) (Poll.mkPollfd (-1) 0 0) (Poll.mkPollfd (-1) 0 0)); try done.
Defined.
