(* ===== verification/Acceptor.v ===== *)
(** Reactor/Acceptor over Socket/Socket and Socket/SocketHelp: the listening
    socket, the hand-over of new connections, and the descriptor kept for the
    time when there are no others. *)
From S2P Require Import Prelude Cxx Address Channel Epoll.

(** ** The system calls on sockets and descriptors *)

(** A call gives a result and the state it leaves; a descriptor is -1 on
    failure, [os_accept] gives a descriptor and the peer's address or [errno]. *)
Class Os (K : Type) := {
  os_socket : Z -> K -> Z * K;
  os_bind : Z -> bytes -> K -> Z * K;
  os_listen : Z -> K -> Z * K;
  os_accept : Z -> K -> (Z * bytes + Z) * K;
  os_open : K -> Z * K;
  os_close : Z -> K -> Z * K
}.

Definition EPERM : Z := 1.
Definition EINTR : Z := 4.
Definition EAGAIN : Z := 11.
Definition EMFILE : Z := 24.
Definition EPROTO : Z := 71.
Definition ECONNABORTED : Z := 103.

(** What the documentation promises of them: the open descriptors, the clients
    that wait at the listening socket, whether the table of descriptors is full. *)
Class OsSpec (K : Type) `{!Os K} := {
  opened : K -> gset Z;
  backlog : K -> list bytes;
  full : K -> bool;
  os_ok : K -> Prop;
  accept_empty : forall s k, os_ok k -> backlog k = [] -> os_accept s k = (inr EAGAIN, k);
  accept_full : forall s k, os_ok k -> backlog k <> [] -> full k = true -> os_accept s k = (inr EMFILE, k);
  accept_room : forall s k p q, os_ok k -> backlog k = p :: q -> full k = false ->
    exists fd k', os_accept s k = (inl (fd, p), k') /\ 0 <= fd /\ fd ∉ opened k /\ os_ok k'
      /\ opened k' = {[fd]} ∪ opened k /\ backlog k' = q;
  close_open : forall fd k, os_ok k -> fd ∈ opened k ->
    exists k', os_close fd k = (0, k') /\ os_ok k' /\ opened k' = opened k ∖ {[fd]} /\ backlog k' = backlog k /\ full k' = false;
  close_closed : forall fd k, os_ok k -> fd ∉ opened k -> os_close fd k = (-1, k);
  open_full : forall k, os_ok k -> full k = true -> os_open k = (-1, k);
  open_room : forall k, os_ok k -> full k = false ->
    exists fd k', os_open k = (fd, k') /\ 0 <= fd /\ fd ∉ opened k /\ os_ok k' /\ opened k' = {[fd]} ∪ opened k /\ backlog k' = backlog k;
  opened_nonneg : forall k fd, os_ok k -> fd ∈ opened k -> 0 <= fd
}.

(** ** [Acceptor] *)
Module Acceptor.

Record t := mkAcceptor { m_acceptSocket : Z; m_listenning : bool; m_idleFd : Z }.

(** The acceptor, the loop with its channel, the system, and what the callback
    works on. *)
Record state (C P K U : Type) := mk { acc : t; wld : world C P; os : K; user : U }.
Arguments mk {C P K U}. Arguments acc {C P K U}. Arguments wld {C P K U}. Arguments os {C P K U}. Arguments user {C P K U}.

Section acceptor.
Context {C P K U : Type} `{!Poller C P} `{!Os K}.
(** The channel and its read callback. *)
Context (m_acceptChannel : Channel.ptr) (on_accept : C).
Context (m_newConnectionCallBack : option (Z -> bytes -> U -> outcome U)).
(** A log statement may set [errno]; other threads may open and close
    descriptors between two calls. *)
Context (log_errno : Z -> Z) (others : K -> K).
Abbreviation state := (state C P K U).
Abbreviation M := (ST state).
Implicit Types s : state.

Definition set_acc a s : state := mk a (wld s) (os s) (user s).
Definition set_user u s : state := mk (acc s) (wld s) (os s) u.
Definition on_os {A} (f : K -> A * K) : M A := fun s => let '(r, k) := f (os s) in Ret (r, mk (acc s) (wld s) k (user s)).
Definition on_world {A} (m : ST (world C P) A) : M A := fun s => '(a, w) ← m (wld s); Ret (a, mk (acc s) w (os s) (user s)).

(** [sockets::accept]: the descriptor, the address, and [errno]. *)
Definition sockets_accept (sockfd : Z) : M (Z * bytes * Z) :=
  r ← on_os (os_accept sockfd);
  match r with
  | inl (connfd, addr) => mret (connfd, addr, 0)
  | inr savedErrno =>
      if bool_decide (savedErrno ∈ [EAGAIN; ECONNABORTED; EINTR; EPROTO; EPERM; EMFILE])
      then mret (-1, [], savedErrno)
      else mret (-1, [], log_errno (log_errno savedErrno))
  end.

(** [sockets::close] *)
Definition sockets_close (fd : Z) : M unit := _ ← on_os (os_close fd); mret tt.

Definition handleRead : M unit :=
  sockfd ← gets (fun s => m_acceptSocket (acc s));
  '(connfd, peerAddr, errno) ← sockets_accept sockfd;
  if connfd >=? 0
  then
    match m_newConnectionCallBack with
    | Some cb => u ← gets user; u' ← lift (cb connfd peerAddr u); modify (set_user u')
    | None => sockets_close connfd
    end
  else
    if log_errno errno =? EMFILE
    then
      a ← gets acc;
      _ ← on_os (os_close (m_idleFd a));
      _ ← on_os (fun k => (tt, others k));
      r ← on_os (os_accept sockfd);
      let idle := match r with inl (fd, _) => fd | inr _ => -1 end in
      _ ← on_os (os_close idle);
      idle' ← on_os os_open;
      modify (set_acc (mkAcceptor (m_acceptSocket a) (m_listenning a) idle'))
    else mret tt.

(** The constructor; a failing [socket] or [bind] is only logged. *)
Definition Acceptor (listenAddr : bytes) : M unit :=
  f ← lift (InetAddress.family listenAddr);
  fd ← on_os (os_socket f);
  idle ← on_os os_open;
  _ ← lift (cassert (idle >=? 0));
  _ ← on_os (os_bind fd (ztake 16 listenAddr));
  _ ← on_world (put_channel m_acceptChannel (Channel.setReadCallBack on_accept (Channel.init fd)));
  modify (set_acc (mkAcceptor fd false idle)).

Definition listen : M unit :=
  a ← gets acc;
  _ ← modify (set_acc (mkAcceptor (m_acceptSocket a) true (m_idleFd a)));
  _ ← on_os (os_listen (m_acceptSocket a));
  on_world (enableReading m_acceptChannel).

(** [~Acceptor], with the socket it holds. *)
Definition destroy : M unit :=
  _ ← on_world (disableAll m_acceptChannel);
  _ ← on_world (remove m_acceptChannel);
  a ← gets acc;
  _ ← on_os (os_close (m_idleFd a));
  sockets_close (m_acceptSocket a).

(** The loop reports the listening socket [n] times. *)
Fixpoint readable (n : nat) : M unit := match n with O => mret tt | S n' => _ ← handleRead; readable n' end.
End acceptor.

(** ** Accepting *)
Section proofs.
Context {C P K U : Type} `{!Os K} `{!OsSpec K}.
Context (m_newConnectionCallBack : option (Z -> bytes -> U -> outcome U)) (log_errno : Z -> Z) (others : K -> K).
Abbreviation state := (state C P K U).
Implicit Types s : state.
Abbreviation handleRead' := (handleRead (C:=C) (P:=P) m_newConnectionCallBack log_errno others).

Lemma on_os_bind {A B} (f : K -> A * K) (g : A -> ST state B) a w k u r k' : f k = (r, k') ->
  (on_os f ≫= g) (mk a w k u) = g r (mk a w k' u).
Proof. intros E. unfold mbind, ST_bind, on_os. cbn. by rewrite E. Qed.

Lemma accept_run s r k : os_accept (m_acceptSocket (acc s)) (os s) = (r, k) ->
  sockets_accept log_errno (m_acceptSocket (acc s)) s = Ret (match r with
    | inl (fd, addr) => (fd, addr, 0)
    | inr e => (-1, [], if bool_decide (e ∈ [EAGAIN; ECONNABORTED; EINTR; EPROTO; EPERM; EMFILE]) then e else log_errno (log_errno e))
    end, mk (acc s) (wld s) k (user s)).
Proof.
  intros E. destruct s as [a w k0 u]. cbn [acc os wld user] in *. unfold sockets_accept. rewrite (on_os_bind _ _ _ _ _ _ _ _ E).
  destruct r as [[fd addr]|e]; [done|]. by destruct (bool_decide _).
Qed.

(** A waiting client and a free descriptor. *)
Lemma accept_room_run p q s : os_ok (os s) -> backlog (os s) = p :: q -> full (os s) = false ->
  exists fd k, 0 <= fd /\ fd ∉ opened (os s) /\ os_ok k /\ opened k = {[fd]} ∪ opened (os s) /\ backlog k = q
    /\ handleRead' s = match m_newConnectionCallBack with
      | Some cb => u ← cb fd p (user s); Ret (tt, mk (acc s) (wld s) k u)
      | None => Ret (tt, mk (acc s) (wld s) (snd (os_close fd k)) (user s))
      end.
Proof.
  intros Hok Hb Hf. destruct (accept_room (m_acceptSocket (acc s)) _ p q Hok Hb Hf) as (fd & k & E & Hfd & Hn & Hok' & Ho & Hq).
  exists fd, k. split_and!; try done. unfold handleRead. rewrite gets_bind, (ST_bind_eq _ _ _ _ _ (accept_run _ _ _ E)).
  rewrite Z.geb_leb, (proj2 (Z.leb_le _ _)) by done. destruct m_newConnectionCallBack as [cb|].
  - unfold mbind, ST_bind, outcome_bind, lift, gets, modify. cbn. by destruct (cb fd p (user s)).
  - unfold sockets_close, mbind, ST_bind, on_os. cbn. by destruct (os_close fd k).
Qed.

(** Nobody waits. *)
Lemma accept_none_run s : os_ok (os s) -> backlog (os s) = [] -> log_errno EAGAIN <> EMFILE -> handleRead' s = Ret (tt, s).
Proof.
  intros Hok Hb Hlog. assert (os_accept (m_acceptSocket (acc s)) (os s) = (inr EAGAIN, os s)) as E by (by apply accept_empty).
  unfold handleRead. rewrite gets_bind, (ST_bind_eq _ _ _ _ _ (accept_run _ _ _ E)). cbn [Z.geb Z.compare].
  rewrite bool_decide_true by by_compute. rewrite (proj2 (Z.eqb_neq _ _)) by done. by destruct s.
Qed.

(** A client that waits while there is a free descriptor is handed to the
    new-connection callback with a new descriptor and its address, in the order
    of the queue, and the acceptor is as before; without a callback its
    descriptor is closed again. *)
Theorem accept_hands_over p q s (Hok : os_ok (os s)) (Hb : backlog (os s) = p :: q) (Hf : full (os s) = false) :
  exists fd k, 0 <= fd /\ fd ∉ opened (os s) /\ os_ok k /\ backlog k = q /\
    match m_newConnectionCallBack with
    | Some cb => opened k = {[fd]} ∪ opened (os s) /\ handleRead' s = (u ← cb fd p (user s); Ret (tt, mk (acc s) (wld s) k u))
    | None => opened k = opened (os s) /\ handleRead' s = Ret (tt, mk (acc s) (wld s) k (user s))
    end.
Proof.
  destruct (accept_room_run p q s Hok Hb Hf) as (fd & k & Hfd & Hn & Hok' & Ho & Hq & E).
  destruct m_newConnectionCallBack as [cb|]; [by exists fd, k|].
  destruct (close_open fd k Hok') as (k' & Ec & Hok2 & Ho2 & Hb2 & _); [set_solver|]. rewrite Ec in E. cbn in E.
  exists fd, k'. split_and!; try done; [congruence|]. rewrite Ho2, Ho. set_solver.
Qed.

(** The table of descriptors is full: the spare one is given up to accept the
    client and close it, then taken again. *)
Lemma accept_full_run p q s : os_ok (os s) -> backlog (os s) = p :: q -> full (os s) = true ->
  m_idleFd (acc s) ∈ opened (os s) -> log_errno EMFILE = EMFILE -> (forall k, others k = k) ->
  exists idle k, handleRead' s = Ret (tt, mk (mkAcceptor (m_acceptSocket (acc s)) (m_listenning (acc s)) idle) (wld s) k (user s))
    /\ os_ok k /\ backlog k = q /\ idle ∈ opened k /\ opened k ∖ {[idle]} = opened (os s) ∖ {[m_idleFd (acc s)]}.
Proof.
  intros Hok Hb Hf Hi Hlog Hoth. unfold handleRead. rewrite gets_bind.
  assert (os_accept (m_acceptSocket (acc s)) (os s) = (inr EMFILE, os s)) as E0 by (apply accept_full; [done|by rewrite Hb|done]).
  rewrite (ST_bind_eq _ _ _ _ _ (accept_run _ _ _ E0)). cbn [Z.geb Z.compare]. rewrite bool_decide_true by by_compute.
  rewrite Hlog, Z.eqb_refl, gets_bind. cbn [acc].
  destruct s as [a w k0 u]. cbn [acc wld os user] in *.
  destruct (close_open (m_idleFd a) k0 Hok Hi) as (k1 & E1 & Hok1 & Ho1 & Hb1 & Hf1).
  rewrite (on_os_bind _ _ _ _ _ _ _ _ E1), (on_os_bind (fun k => (tt, others k)) _ _ _ _ _ tt k1) by (by rewrite Hoth).
  destruct (accept_room (m_acceptSocket a) k1 p q Hok1) as (fd & k2 & E2 & Hfd & Hn & Hok2 & Ho2 & Hb2); [by rewrite Hb1|done|].
  rewrite (on_os_bind _ _ _ _ _ _ _ _ E2).
  destruct (close_open fd k2 Hok2) as (k3 & E3 & Hok3 & Ho3 & Hb3 & Hf3); [set_solver|].
  rewrite (on_os_bind _ _ _ _ _ _ _ _ E3).
  destruct (open_room k3 Hok3 Hf3) as (idle & k4 & E4 & Hidle & Hn4 & Hok4 & Ho4 & Hb4).
  rewrite (on_os_bind _ _ _ _ _ _ _ _ E4). exists idle, k4. split; [done|]. split; [done|]. split; [congruence|]. split; [set_solver|].
  rewrite Ho4, Ho3, Ho2, Ho1 in *. set_solver.
Qed.

(** When the process has no descriptor left, the first client in the queue
    is accepted on the spare descriptor and refused: nothing is handed over, the
    client is gone from the queue, so that the poller does not report it again,
    and the acceptor has a spare descriptor again. *)
Theorem accept_refuses p q s (Hok : os_ok (os s)) (Hb : backlog (os s) = p :: q) (Hf : full (os s) = true)
    (Hi : m_idleFd (acc s) ∈ opened (os s)) (Hlog : log_errno EMFILE = EMFILE) (Hoth : forall k, others k = k) :
  exists idle k, handleRead' s = Ret (tt, mk (mkAcceptor (m_acceptSocket (acc s)) (m_listenning (acc s)) idle) (wld s) k (user s))
    /\ os_ok k /\ backlog k = q /\ idle ∈ opened k /\ opened k ∖ {[idle]} = opened (os s) ∖ {[m_idleFd (acc s)]}.
Proof. by apply (accept_full_run p). Qed.

(** A ready acceptor: its spare descriptor is open. *)
Definition ready s : Prop := os_ok (os s) /\ m_idleFd (acc s) ∈ opened (os s).

(** What becomes of the clients that wait, first to last: one is handed to the
    callback with a descriptor that was free, closed where there is no callback,
    or, when the table of descriptors is full, closed on the spare descriptor,
    which is taken again. *)
Inductive dealt : list bytes -> state -> state -> Prop :=
| dealt_none s : dealt [] s s
| dealt_handed p q s s1 s2 cb fd : full (os s) = false -> m_newConnectionCallBack = Some cb ->
    0 <= fd -> fd ∉ opened (os s) -> cb fd p (user s) = Ret (user s1) -> opened (os s1) = {[fd]} ∪ opened (os s) ->
    acc s1 = acc s -> dealt q s1 s2 -> dealt (p :: q) s s2
| dealt_closed p q s s1 s2 : full (os s) = false -> m_newConnectionCallBack = None ->
    user s1 = user s -> opened (os s1) = opened (os s) -> acc s1 = acc s -> dealt q s1 s2 -> dealt (p :: q) s s2
| dealt_refused p q s s1 s2 : full (os s) = true -> user s1 = user s ->
    opened (os s1) ∖ {[m_idleFd (acc s1)]} = opened (os s) ∖ {[m_idleFd (acc s)]} ->
    m_acceptSocket (acc s1) = m_acceptSocket (acc s) -> dealt q s1 s2 -> dealt (p :: q) s s2.

Lemma handleRead_progress p q s : ready s -> backlog (os s) = p :: q -> log_errno EMFILE = EMFILE -> (forall k, others k = k) ->
  (forall cb fd a u, m_newConnectionCallBack = Some cb -> is_ret (cb fd a u) = true) ->
  exists s', handleRead' s = Ret (tt, s') /\ ready s' /\ backlog (os s') = q /\ wld s' = wld s
    /\ forall s2, dealt q s' s2 -> dealt (p :: q) s s2.
Proof.
  intros [Hok Hi] Hb Hlog Hoth Hcb. destruct (full (os s)) eqn:Hf.
  - destruct (accept_full_run p q s Hok Hb Hf Hi Hlog Hoth) as (idle & k & E & Hok' & Hq & Hi' & Ho). eexists. split; [exact E|].
    split; [by split|]. split; [done|]. split; [done|]. intros s2 Hd. by refine (dealt_refused p q s _ s2 Hf _ _ _ Hd).
  - destruct (accept_room_run p q s Hok Hb Hf) as (fd & k & Hfd & Hn & Hok' & Ho & Hq & E).
    destruct m_newConnectionCallBack as [cb|] eqn:Ecb.
    + specialize (Hcb cb fd p (user s) eq_refl). destruct (cb fd p (user s)) as [u|] eqn:Eu; [|done].
      eexists. split; [exact E|]. split; [split; [done|]; cbn [os acc]; set_solver|]. split; [done|]. split; [done|].
      intros s2 Hd. by refine (dealt_handed p q s _ s2 cb fd Hf _ Hfd Hn _ _ _ Hd).
    + destruct (close_open fd k Hok') as (k' & Ec & Hok2 & Ho2 & Hb2 & _); [set_solver|]. rewrite Ec in E. cbn [snd] in E.
      assert (opened k' = opened (os s)) as Hok'' by (rewrite Ho2, Ho; set_solver).
      eexists. split; [exact E|]. split; [split; [done|]; cbn [os acc snd]; by rewrite Hok''|]. split; [cbn; congruence|]. split; [done|].
      intros s2 Hd. by refine (dealt_closed p q s _ s2 Hf _ _ _ _ Hd).
Qed.

(** C16. Each time the loop reports the listening socket the first client that
    waits is dealt with: handed over with a descriptor of its own and its
    address while there are descriptors, refused when there are none; after as
    many reports as there are clients the queue is empty, and of the descriptors
    opened for them those handed over are left.  This is with a logger that
    leaves [errno] as it is, a callback that returns, and no other thread that
    takes the spare descriptor while it is free; [idle_stolen] has such a
    thread. *)
Theorem backlog_drains s (Hr : ready s) (Hlog : log_errno EMFILE = EMFILE) (Hoth : forall k, others k = k)
    (Hcb : forall cb fd a u, m_newConnectionCallBack = Some cb -> is_ret (cb fd a u) = true) :
  exists s', readable (C:=C) (P:=P) m_newConnectionCallBack log_errno others (length (backlog (os s))) s = Ret (tt, s')
    /\ ready s' /\ backlog (os s') = [] /\ dealt (backlog (os s)) s s'.
Proof.
  remember (backlog (os s)) as b eqn:Hb. revert s Hr Hb. induction b as [|p q IH]; intros s Hr Hb; cbn [length readable];
    [exists s; split; [done|]; split; [done|]; split; [done|constructor]|].
  destruct (handleRead_progress p q s Hr (eq_sym Hb) Hlog Hoth Hcb) as (s1 & E1 & Hr1 & Hq & _ & Hd).
  rewrite (ST_bind_eq _ _ _ _ _ E1). destruct (IH s1 Hr1 (eq_sym Hq)) as (s' & E & Hr' & Hb' & Hd'). exists s'. auto.
Qed.

(** Other threads fill the table again as soon as there is room. *)
Definition greedy : Prop :=
  forall k, os_ok k -> os_ok (others k) /\ full (others k) = true /\ backlog (others k) = backlog k.

Definition starved (b : list bytes) s : Prop := os_ok (os s) /\ full (os s) = true /\ backlog (os s) = b.

Lemma close_minus k : os_ok k -> os_close (-1) k = (-1, k).
Proof. intros Hok. apply close_closed; [done|]. intros Hin. apply opened_nonneg in Hin; [lia|done]. Qed.

Lemma starved_step b s : greedy -> log_errno EMFILE = EMFILE -> b <> [] -> starved b s ->
  m_idleFd (acc s) ∈ opened (os s) \/ m_idleFd (acc s) = -1 ->
  exists s', handleRead' s = Ret (tt, s') /\ starved b s' /\ m_idleFd (acc s') = -1.
Proof.
  intros Hoth Hlog Hne (Hok & Hf & Hb) Hi. unfold handleRead. rewrite gets_bind.
  assert (os_accept (m_acceptSocket (acc s)) (os s) = (inr EMFILE, os s)) as E0 by (apply accept_full; [done|by rewrite Hb|done]).
  rewrite (ST_bind_eq _ _ _ _ _ (accept_run _ _ _ E0)). cbn [Z.geb Z.compare]. rewrite bool_decide_true by by_compute.
  rewrite Hlog, Z.eqb_refl, gets_bind. destruct s as [a w k0 u]. cbn [acc wld os user] in *.
  assert (exists r k1, os_close (m_idleFd a) k0 = (r, k1) /\ os_ok k1 /\ backlog k1 = b) as (r & k1 & E1 & Hok1 & Hb1).
  { destruct Hi as [Hi|Hi].
    - destruct (close_open (m_idleFd a) k0 Hok Hi) as (k1 & E1 & Hok1 & _ & Hb1 & _). exists 0, k1. by rewrite Hb1, Hb.
    - exists (-1), k0. by rewrite Hi, close_minus. }
  rewrite (on_os_bind _ _ _ _ _ _ _ _ E1), (on_os_bind (fun k => (tt, others k)) _ _ _ _ _ tt _ eq_refl).
  destruct (Hoth k1 Hok1) as (Hok2 & Hf2 & Hb2). rewrite Hb1 in Hb2.
  assert (os_accept (m_acceptSocket a) (others k1) = (inr EMFILE, others k1)) as E2 by (apply accept_full; [done|by rewrite Hb2|done]).
  rewrite (on_os_bind _ _ _ _ _ _ _ _ E2), (on_os_bind _ _ _ _ _ _ _ _ (close_minus _ Hok2)).
  rewrite (on_os_bind _ _ _ _ _ _ _ _ (open_full _ Hok2 Hf2)). by eexists.
Qed.

(** If another thread takes the spare descriptor in the moment it is free,
    the acceptor never gets one again while the table stays full: the client
    stays in the queue and the poller reports it for ever. *)
Theorem idle_stolen p q s n (Hok : os_ok (os s)) (Hb : backlog (os s) = p :: q) (Hf : full (os s) = true)
    (Hi : m_idleFd (acc s) ∈ opened (os s)) (Hlog : log_errno EMFILE = EMFILE) (Hoth : greedy) :
  exists s', readable (C:=C) (P:=P) m_newConnectionCallBack log_errno others (S n) s = Ret (tt, s')
    /\ m_idleFd (acc s') = -1 /\ backlog (os s') = p :: q.
Proof.
  assert (forall n s, starved (p :: q) s -> m_idleFd (acc s) = -1 -> exists s', readable (C:=C) (P:=P) m_newConnectionCallBack log_errno others n s
    = Ret (tt, s') /\ m_idleFd (acc s') = -1 /\ backlog (os s') = p :: q) as Hloop.
  { clear s n Hok Hb Hf Hi. induction n as [|n IH]; intros s Hs Hi; cbn [readable]; [exists s; split; [done|]; split; [done|apply Hs]|].
    destruct (starved_step (p :: q) s Hoth Hlog) as (s1 & E1 & H1 & H2); [done|done|by right|]. rewrite (ST_bind_eq _ _ _ _ _ E1). by apply IH. }
  destruct (starved_step (p :: q) s Hoth Hlog) as (s1 & E1 & H1 & H2); [done|done|by left|].
  cbn [readable]. rewrite (ST_bind_eq _ _ _ _ _ E1). by apply Hloop.
Qed.
End proofs.

(** ** Listening *)
Section listening.
Context {C P K U : Type} `{!Poller C P} `{!PollerSpec C P} `{!Os K}.
Context (m_acceptChannel : Channel.ptr) (on_accept : C).
Implicit Types s : state C P K U.

Lemma Acceptor_run addr s f fd k1 idle k2 : InetAddress.family addr = Ret f -> os_socket f (os s) = (fd, k1) ->
  os_open k1 = (idle, k2) -> 0 <= idle ->
  Acceptor m_acceptChannel on_accept addr s = Ret (tt, mk (mkAcceptor fd false idle)
    (mkWorld (<[m_acceptChannel := Channel.setReadCallBack on_accept (Channel.init fd)]> (channels (wld s))) (poller (wld s)))
    (snd (os_bind fd (ztake 16 addr) k2)) (user s)).
Proof.
  intros Hf Hsock Hopen Hidle. destruct s as [a w k u]. cbn [wld os user] in *. destruct (os_bind fd (ztake 16 addr) k2) as [rb k3] eqn:Eb.
  unfold Acceptor. rewrite (lift_bind _ _ _ _ Hf), (on_os_bind _ _ _ _ _ _ _ _ Hsock), (on_os_bind _ _ _ _ _ _ _ _ Hopen).
  rewrite assert_bind by (rewrite Z.geb_leb; by apply Z.leb_le). by rewrite (on_os_bind _ _ _ _ _ _ _ _ Eb).
Qed.

(** [listen] of an acceptor as its constructor leaves it. *)
Lemma listen_run fd idle s : let c := Channel.setReadCallBack on_accept (Channel.init fd) in
  acc s = mkAcceptor fd false idle -> channels (wld s) !! m_acceptChannel = Some c -> poller_ok (wld s) ->
  m_channels (C:=C) (poller (wld s)) !! fd = None -> Z.of_nat (size (m_channels (C:=C) (poller (wld s)))) < 2 ^ 30 ->
  exists w i, listen m_acceptChannel s = Ret (tt, mk (mkAcceptor fd true idle) w (snd (os_listen fd (os s))) (user s))
    /\ poller_ok w
    /\ channels w = <[m_acceptChannel := Channel.set_index i (Channel.set_added true (Channel.set_events Channel.kReadEvent c))]> (channels (wld s))
    /\ m_channels (C:=C) (poller w) = <[fd := m_acceptChannel]> (m_channels (C:=C) (poller (wld s)))
    /\ interest (poller w) = <[fd := Channel.kReadEvent]> (interest (poller (wld s))).
Proof.
  intros c Ha Hc Hok Hfree Hsz. destruct s as [a w k u]. cbn [acc wld os user] in *. subst a.
  assert (may_update w m_acceptChannel c) as Hm by (left; split; [done|]; by split).
  destruct (with_events_spec (fun e => e .| Channel.kReadEvent)%cxx w m_acceptChannel c Hok Hc Hm)
    as (i & w2 & E2 & Hok2 & Hi & Hch & Hmc & Hint). exists w2, i. split; [|done].
  unfold listen, mbind, ST_bind, gets, modify, on_os, on_world, set_acc. cbn. destruct (os_listen fd k) as [rl k4]. cbn.
  unfold enableReading. by rewrite E2.
Qed.

(** An acceptor that is constructed and listens has its channel watched by the
    kernel for input, with the accept callback on it; the address reaches [bind]
    in 16 bytes; what [bind] and [listen] say is ignored. *)
Theorem listen_watches addr s f fd k1 idle k2
    (Hf : InetAddress.family addr = Ret f) (Hsock : os_socket f (os s) = (fd, k1)) (Hopen : os_open k1 = (idle, k2)) (Hidle : 0 <= idle)
    (Hok : poller_ok (wld s)) (Hnew : channels (wld s) !! m_acceptChannel = None)
    (Hfree : m_channels (C:=C) (poller (wld s)) !! fd = None)
    (Hsz : Z.of_nat (size (m_channels (C:=C) (poller (wld s)))) < 2 ^ 30) :
  exists s' c, (_ ← Acceptor m_acceptChannel on_accept addr; listen (U:=U) (K:=K) m_acceptChannel) s = Ret (tt, s')
    /\ acc s' = mkAcceptor fd true idle /\ poller_ok (wld s')
    /\ channels (wld s') !! m_acceptChannel = Some c /\ Channel.m_readCallBack c = Some on_accept
    /\ interest (poller (wld s')) = <[fd := Channel.kReadEvent]> (interest (poller (wld s)))
    /\ os s' = snd (os_listen fd (snd (os_bind fd (ztake 16 addr) k2))).
Proof.
  set (c := Channel.setReadCallBack on_accept (Channel.init fd)). set (w1 := mkWorld (<[m_acceptChannel := c]> (channels (wld s))) (poller (wld s))).
  destruct (listen_run fd idle (mk (mkAcceptor fd false idle) w1 (snd (os_bind fd (ztake 16 addr) k2)) (user s)))
    as (w2 & i & E & Hok2 & Hch & Hmc & Hint); [done|apply lookup_insert_eq|by apply poller_ok_new|done|done|].
  eexists _, _. split; [by rewrite (ST_bind_eq _ _ _ _ _ (Acceptor_run addr s f fd k1 idle k2 Hf Hsock Hopen Hidle))|].
  cbn [acc wld os]. rewrite Hch, lookup_insert_eq. split; [done|]. split; [done|]. split; [reflexivity|]. done.
Qed.
End listening.

(** ** A system with a table of descriptors that never hands out a number twice *)
Record table := mkTable { t_open : gset Z; t_next : Z; t_wait : list bytes; t_limit : Z }.
Definition t_full (k : table) : bool := t_limit k <=? Z.of_nat (size (t_open k)).
Definition t_new (k : table) : Z * table :=
  if t_full k then (-1, k) else (t_next k, mkTable ({[t_next k]} ∪ t_open k) (t_next k + 1) (t_wait k) (t_limit k)).

#[global] Instance table_os : Os table := {
  os_socket _ k := t_new k;
  os_bind _ _ k := (0, k);
  os_listen _ k := (0, k);
  os_accept _ k :=
    match t_wait k with
    | [] => (inr EAGAIN, k)
    | p :: q =>
        if t_full k then (inr EMFILE, k)
        else (inl (t_next k, p), mkTable ({[t_next k]} ∪ t_open k) (t_next k + 1) q (t_limit k))
    end;
  os_open k := t_new k;
  os_close fd k :=
    if decide (fd ∈ t_open k) then (0, mkTable (t_open k ∖ {[fd]}) (t_next k) (t_wait k) (t_limit k)) else (-1, k)
}.

Record table_ok (k : table) : Prop := {
  table_next : 0 <= t_next k;
  table_open : forall fd, fd ∈ t_open k -> 0 <= fd < t_next k;
  table_limit : Z.of_nat (size (t_open k)) <= t_limit k
}.

Lemma table_add k q : table_ok k -> t_full k = false ->
  0 <= t_next k /\ t_next k ∉ t_open k /\ table_ok (mkTable ({[t_next k]} ∪ t_open k) (t_next k + 1) q (t_limit k)).
Proof.
  intros [Hn Ho Hl] Hf. unfold t_full in Hf. apply Z.leb_gt in Hf.
  assert (t_next k ∉ t_open k) as Hni by (intros Hin; apply Ho in Hin; lia). split; [done|]. split; [done|].
  split; cbn; [lia| |rewrite size_union by set_solver; rewrite size_singleton; lia].
  intros fd [->%elem_of_singleton|Hfd]%elem_of_union; [lia|]. apply Ho in Hfd. lia.
Qed.

#[global, program] Instance table_spec : OsSpec table := {
  opened := t_open; backlog := t_wait; full := t_full; os_ok := table_ok
}.
Next Obligation. intros s k Hok Hb. cbn in *. by rewrite Hb. Qed.
Next Obligation. intros s k Hok Hb Hf. cbn in *. destruct (t_wait k); [done|]. by rewrite Hf. Qed.
Next Obligation.
  intros s k p q Hok Hb Hf. cbn in *. rewrite Hb, Hf. destruct (table_add k q Hok Hf) as (H1 & H2 & H3). do 2 eexists.
  split; [reflexivity|]. done.
Qed.
Next Obligation.
  intros fd k [Hn Ho Hl] Hin. cbn in *. rewrite decide_True by done. eexists. split; [reflexivity|].
  assert (Z.of_nat (size (t_open k ∖ {[fd]})) + 1 = Z.of_nat (size (t_open k))) as Hs.
  { pose proof (f_equal size (union_difference_singleton_L fd (t_open k) Hin)) as E. rewrite size_union in E by set_solver.
    rewrite size_singleton in E. lia. }
  split; [|split; [done|split; [done|]]].
  - split; cbn; [done| |lia]. intros fd' Hfd. apply Ho. set_solver.
  - unfold t_full. cbn. apply Z.leb_gt. lia.
Qed.
Next Obligation. intros fd k Hok Hin. cbn in *. by rewrite decide_False. Qed.
Next Obligation. intros k Hok Hf. cbn in *. unfold t_new. by rewrite Hf. Qed.
Next Obligation.
  intros k Hok Hf. cbn in *. unfold t_new. rewrite Hf. destruct (table_add k (t_wait k) Hok Hf) as (H1 & H2 & H3). do 2 eexists.
  split; [reflexivity|]. done.
Qed.
Next Obligation. intros k fd Hok Hin. by apply Hok. Qed.

(** Three descriptors at most: the listening socket, the spare one and a
    connection. *)
Abbreviation demo_state := (state unit (Epoll.t (gmap Z Z)) table (list (Z * bytes))).
Definition demo_table (wait : list bytes) (limit : Z) : table := mkTable {[ 3; 4 ]} 5 wait limit.
Definition demo (wait : list bytes) (limit : Z) : demo_state :=
  mk (mkAcceptor 3 true 4) (mkWorld ∅ (Epoll.init ∅)) (demo_table wait limit) [].
Definition hand_over (fd : Z) (a : bytes) (u : list (Z * bytes)) : outcome (list (Z * bytes)) := Ret (u ++ [(fd, a)]).

Lemma demo_table_ok wait limit : 2 <= limit -> table_ok (demo_table wait limit).
Proof.
  intros Hl. split; cbn; [lia| |].
  - intros fd. rewrite elem_of_union, !elem_of_singleton. lia.
  - change (size {[3; 4]}) with 2%nat. lia.
Qed.

Lemma accept_hands_over_witness : exists k,
  handleRead (P := Epoll.t (gmap Z Z)) (C := unit) (Some hand_over) id id (demo [lit "a"; lit "b"] 3)
  = Ret (tt, mk (mkAcceptor 3 true 4) (mkWorld ∅ (Epoll.init ∅)) k [(5, lit "a")]) /\ backlog k = [lit "b"].
Proof.
  destruct (accept_hands_over (P := Epoll.t (gmap Z Z)) (C := unit) (Some hand_over) id id (lit "a") [lit "b"] (demo [lit "a"; lit "b"] 3))
    as (fd & k & Hfd & Hn & Hok & Hq & Ho & E); [apply demo_table_ok; lia|reflexivity|reflexivity|].
  exists k. split; [|exact Hq]. vm_compute in E. injection E as <- <-. vm_compute. reflexivity.
Defined.

Lemma accept_refuses_witness : exists idle k,
  handleRead (P := Epoll.t (gmap Z Z)) (C := unit) (Some hand_over) id id (demo [lit "a"; lit "b"] 2)
  = Ret (tt, mk (mkAcceptor 3 true idle) (mkWorld ∅ (Epoll.init ∅)) k []) /\ os_ok k /\ backlog k = [lit "b"]
  /\ idle ∈ opened k /\ opened k ∖ {[idle]} = opened (demo_table [lit "a"; lit "b"] 2) ∖ {[4]}.
Proof.
  apply (accept_refuses (P := Epoll.t (gmap Z Z)) (C := unit) (Some hand_over) id id (lit "a") [lit "b"] (demo [lit "a"; lit "b"] 2));
    [apply demo_table_ok; lia|reflexivity|reflexivity|by_compute|reflexivity|reflexivity].
Defined.

Lemma backlog_drains_witness : exists s',
  readable (P := Epoll.t (gmap Z Z)) (C := unit) (Some hand_over) id id 3 (demo [lit "a"; lit "b"; lit "c"] 3) = Ret (tt, s')
  /\ ready s' /\ backlog (os s') = [] /\ dealt (Some hand_over) [lit "a"; lit "b"; lit "c"] (demo [lit "a"; lit "b"; lit "c"] 3) s'
  /\ user s' = [(5, lit "a")].
Proof.
  destruct (backlog_drains (P := Epoll.t (gmap Z Z)) (C := unit) (Some hand_over) id id (demo [lit "a"; lit "b"; lit "c"] 3))
    as (s' & E & Hr & Hb & Hd); [split; [apply demo_table_ok; lia|by_compute]|reflexivity|reflexivity| |].
  - intros cb fd a u [= <-]. reflexivity.
  - exists s'. split; [exact E|]. split; [exact Hr|]. split; [exact Hb|]. split; [exact Hd|]. vm_compute in E. injection E as <-. reflexivity.
Defined.

(** A thread that opens files as long as it can. *)
Fixpoint open_files (n : nat) (k : table) : table := match n with O => k | S n' => open_files n' (snd (t_new k)) end.
Definition open_all (k : table) : table := open_files (Z.to_nat (t_limit k - Z.of_nat (size (t_open k)))) k.

Lemma open_files_spec n k : table_ok k -> t_limit k - Z.of_nat (size (t_open k)) = Z.of_nat n ->
  table_ok (open_files n k) /\ t_full (open_files n k) = true /\ t_wait (open_files n k) = t_wait k.
Proof.
  revert k. induction n as [|n IH]; intros k Hok Hn; cbn [open_files].
  - split; [done|]. split; [unfold t_full; apply Z.leb_le; lia|done].
  - assert (t_full k = false) as Hf by (unfold t_full; apply Z.leb_gt; lia). unfold t_new. rewrite Hf. cbn [snd].
    destruct (table_add k (t_wait k) Hok Hf) as (H1 & H2 & H3). apply (IH _ H3). cbn.
    rewrite size_union by set_solver. rewrite size_singleton. lia.
Qed.

Lemma open_all_greedy : greedy open_all.
Proof. intros k Hok. apply open_files_spec; [done|]. pose proof (table_limit k Hok). lia. Qed.

Lemma idle_stolen_witness : exists s',
  readable (P := Epoll.t (gmap Z Z)) (C := unit) (Some hand_over) id open_all 3 (demo [lit "a"] 2) = Ret (tt, s')
  /\ m_idleFd (acc s') = -1 /\ backlog (os s') = [lit "a"].
Proof.
  apply (idle_stolen (P := Epoll.t (gmap Z Z)) (C := unit) (Some hand_over) id open_all (lit "a") [] (demo [lit "a"] 2) 2);
    [apply demo_table_ok; lia|reflexivity|reflexivity|by_compute|reflexivity|apply open_all_greedy].
Defined.

Lemma listen_watches_witness : exists s' c,
  (_ ← Acceptor 1 tt (replicate 28 (chr 2)); listen 1) (mk (mkAcceptor 0 false 0) (mkWorld ∅ (Epoll.init ∅)) (mkTable ∅ 3 [] 9) ([] : list (Z * bytes)))
  = Ret (tt, s') /\ acc s' = mkAcceptor 3 true 4 /\ channels (wld s') !! 1%nat = Some c /\ Channel.m_readCallBack c = Some tt
  /\ interest (C := unit) (poller (wld s')) = <[3 := 3]> ∅.
Proof.
  destruct (listen_watches (P := Epoll.t (gmap Z Z)) (K := table) 1 tt (replicate 28 (chr 2))
    (mk (mkAcceptor 0 false 0) (mkWorld ∅ (Epoll.init ∅)) (mkTable ∅ 3 [] 9) ([] : list (Z * bytes)))
    514 3 (mkTable {[3]} 4 [] 9) 4 (mkTable {[3; 4]} 5 [] 9)) as (s' & c & E & Ha & _ & Hc & Hr & Hi & _);
    [by vm_compute|by vm_compute|by vm_compute|done|apply init_inv; reflexivity|reflexivity|reflexivity|by vm_compute|].
  exists s', c. split; [exact E|]. split; [exact Ha|]. split; [exact Hc|]. split; [exact Hr|]. exact Hi.
Defined.
End Acceptor.
