(* ===== verification/EventLoopThread.v ===== *)
(** Reactor/EventLoopThread: the hand-shake by which a thread gives its loop to
    the thread that started it, and the destructor that ends both. *)
From S2P Require Import Prelude LogUtil.

(** Where the thread of the loop is, in [threadFunc]: not started; before the
    constructor of [loop]; before the locked region; before, inside and after
    [loop.loop()]; after [p_loop = NULL]; gone. *)
Inductive thread_pc := TNone | TInit | TPublish | TBefore | TLooping | TAfter | TClear | TDone.

(** Where the owner is: before [startLoop]; at the test of its loop, in [wait],
    before [return p_loop]; with the pointer it was given ([false] for null); in
    the destructor: at the test, before and in [quit], in [join], at the end. *)
Inductive owner_pc := OIdle | OTest | OWait | OReturn | OHeld (r : bool) | OExit | OQuit | OQuit2 | OQuit3 | OJoin | OFree | ODone.

Definition started (t : thread_pc) : bool := match t with TNone => false | _ => true end.

Module EventLoopThread.

(** What the thread and its owner use of the loop; [m_quit] is not set before
    [loop()]. *)
Record loop_t := mkLoop { m_looping : bool; m_quit : bool }.

Record t := mk {
  p_loop : bool;
  m_exiting : bool;
  m_thread : Thread.t;
  loop : option loop_t;
  thread : thread_pc;
  owner : owner_pc
}.

Definition EventLoopThread : t := mk false false Thread.Thread None TNone OIdle.

Implicit Types s : t.
Definition set_owner o s : t := mk (p_loop s) (m_exiting s) (m_thread s) (loop s) (thread s) o.
Definition set_loop l tpc s : t := mk (p_loop s) (m_exiting s) (m_thread s) l tpc (owner s).
Definition set_ptr b tpc s : t := mk b (m_exiting s) (m_thread s) (loop s) tpc (owner s).
Definition set_thread th tpc o s : t := mk (p_loop s) (m_exiting s) th (loop s) tpc o.

(** [m_cond.notify()] *)
Definition notify s : t := match owner s with OWait => set_owner OTest s | _ => s end.

(** [m_mutex] and [p_loop] are gone once the destructor has run. *)
Definition this_alive s : outcome unit := match owner s with ODone => Crash UndefinedBehaviour | _ => Ret tt end.

(** A step of [threadFunc]; inside [loop()] the thread leaves when it finds
    [m_quit] set. *)
Definition threadFunc s : outcome t :=
  match thread s with
  | TNone | TDone => Ret s
  | TInit => Ret (set_loop (Some (mkLoop false false)) TPublish s)
  | TPublish => _ ← this_alive s; Ret (notify (set_ptr true TBefore s))
  | TBefore =>
      l ← deref (loop s);
      _ ← cassert (negb (m_looping l));
      Ret (set_loop (Some (mkLoop true false)) TLooping s)
  | TLooping => l ← deref (loop s); Ret (if m_quit l then set_loop (Some (mkLoop false true)) TAfter s else s)
  | TAfter => _ ← this_alive s; Ret (set_ptr false TClear s)
  | TClear => l ← deref (loop s); _ ← cassert (negb (m_looping l)); Ret (set_loop None TDone s)
  end.

(** [startLoop]: up to the loop, one test of it, and the return. *)
Definition startLoop s : outcome t :=
  match owner s with
  | OIdle =>
      _ ← cassert (negb (Thread.m_isStarted (m_thread s)));
      th ← Thread.start (m_thread s);
      Ret (set_thread th TInit OTest s)
  | OTest => Ret (set_owner (if p_loop s then OReturn else OWait) s)
  | OReturn => Ret (set_owner (OHeld (p_loop s)) s)
  | _ => Ret s
  end.

(** [~EventLoopThread], with the members it destroys; [quit] is three steps: the
    assertion, the flag, the wake-up. [join] waits for the thread. *)
Definition destroy s : outcome t :=
  match owner s with
  | OIdle | OHeld _ => Ret (mk (p_loop s) true (m_thread s) (loop s) (thread s) OExit)
  | OExit => Ret (set_owner (if p_loop s then OQuit else OFree) s)
  | OQuit =>
      if p_loop s
      then l ← deref (loop s); _ ← cassert (m_looping l); Ret (set_owner OQuit2 s)
      else Crash UndefinedBehaviour
  | OQuit2 => l ← deref (loop s); Ret (set_owner OQuit3 (set_loop (Some (mkLoop (m_looping l) true)) (thread s) s))
  | OQuit3 => _ ← deref (loop s); Ret (set_owner OJoin s)
  | OJoin => match thread s with TDone => th ← Thread.join (m_thread s); Ret (set_thread th TDone OFree s) | _ => Ret s end
  | OFree => _ ← Thread.destroy (m_thread s); Ret (set_owner ODone s)
  | _ => Ret s
  end.

(** The loop's own quit, from a functor or a callback that runs in it. *)
Definition quit_inside s : t :=
  match thread s, loop s with
  | TLooping, Some l => set_loop (Some (mkLoop (m_looping l) true)) TLooping s
  | _, _ => s
  end.

(** The thread steps; the owner steps in [startLoop] or in the destructor; a wait
    returns of itself; the loop quits from inside. *)
Inductive label := LThread | LStart | LDestroy | LSpurious | LQuit.
Definition step (l : label) s : outcome t :=
  match l with
  | LThread => threadFunc s
  | LStart => startLoop s
  | LDestroy => destroy s
  | LSpurious => Ret (match owner s with OWait => set_owner OTest s | _ => s end)
  | LQuit => Ret (quit_inside s)
  end.
Fixpoint run (ls : list label) s : outcome t :=
  match ls with [] => Ret s | l :: ls' => s' ← step l s; run ls' s' end.
End EventLoopThread.
Import EventLoopThread.

(** ** The invariant *)

Definition loop_of (tpc : thread_pc) (q : bool) : option loop_t :=
  match tpc with
  | TNone | TInit | TDone => None
  | TLooping => Some (mkLoop true q)
  | _ => Some (mkLoop false q)
  end.
Definition published (tpc : thread_pc) : bool := match tpc with TBefore | TLooping | TAfter => true | _ => false end.

(** [threadFunc] has passed its locked region. *)
Definition handed (tpc : thread_pc) : bool := match tpc with TNone | TInit | TPublish => false | _ => true end.

(** Which places of the two threads go together. *)
Definition fits (tpc : thread_pc) (o : owner_pc) : bool :=
  match o with
  | OIdle => negb (started tpc)
  | OTest => started tpc
  | OWait => started tpc && negb (published tpc)
  | OReturn | OHeld _ | OQuit | OQuit2 | OQuit3 | OJoin => handed tpc
  | OExit => negb (started tpc) || handed tpc
  | OFree | ODone => negb (started tpc) || match tpc with TClear | TDone => true | _ => false end
  end.
Definition joined (o : owner_pc) : bool := match o with OFree | ODone => true | _ => false end.

(** The thread object, and whether it was joined. *)
Definition thread_of (tpc : thread_pc) (j : bool) : Thread.t :=
  if started tpc then (if j then Thread.mk true true (Some false) else Thread.mk true false (Some true)) else Thread.Thread.

Definition inv (s : t) : Prop := exists q j,
  loop s = loop_of (thread s) q /\ p_loop s = published (thread s) /\ m_thread s = thread_of (thread s) j /\
  fits (thread s) (owner s) = true /\ (j = true -> thread s = TDone /\ joined (owner s) = true).

(** The calls of the destructor that meet no running loop. *)
Definition raced (s : t) : bool :=
  match owner s, thread s with
  | OQuit, TLooping => false
  | OQuit, _ => true
  | (OQuit2 | OQuit3), TDone => true
  | _, _ => false
  end.

Ltac keep_inv q j := exists q, j; cbn; repeat split.

(** Every step keeps the invariant, or is a call of [quit] that comes too early or
    too late. *)
Lemma shake_step l s : inv s ->
  match step l s with
  | Ret s' => inv s' /\ (l = LDestroy -> raced s = false)
  | Crash _ => l = LDestroy /\ raced s = true
  end.
Proof.
  intros (q & j & Hl & Hp & Ht & Hf & Hj). destruct s as [p ex th lp tpc o]. cbn in *. subst p lp th. destruct j.
  - destruct (Hj eq_refl) as [-> Ho]. destruct o; try discriminate Ho; destruct l; cbn; (split; [by keep_inv q true|done]) || done.
  - destruct tpc; destruct o; try discriminate Hf; destruct l, q; cbn; split; try done;
    first [by keep_inv true false|by keep_inv false false|by keep_inv true true|by keep_inv false true].
Qed.

Lemma run_inv ls s s' : inv s -> run ls s = Ret s' -> inv s'.
Proof.
  revert s. induction ls as [|l ls IH]; intros s Hi E; cbn in E; [by injection E as <-|].
  apply bind_Ret_inv in E as (s1 & E1 & E). pose proof (shake_step l s Hi) as H. rewrite E1 in H. by apply (IH s1); [apply H|].
Qed.

Lemma new_inv : inv EventLoopThread.
Proof. exists false, false. by split_and!. Qed.

(** *** Before anybody quits the loop *)

(** Nobody has set [m_quit]: the loop does not quit itself, and the destructor has
    not come to it. *)
Definition calm (s : t) : Prop :=
  match thread s, loop s with
  | (TAfter | TClear | TDone), _ => False
  | _, Some l => m_quit l = false
  | _, None => True
  end.
Definition in_start (o : owner_pc) : bool := match o with OIdle | OTest | OWait | OReturn | OHeld _ => true | _ => false end.
Definition true_held (o : owner_pc) : bool := match o with OHeld r => r | _ => true end.

Lemma calm_step l s s' : inv s -> calm s -> l <> LQuit -> l <> LDestroy -> in_start (owner s) = true -> true_held (owner s) = true ->
  step l s = Ret s' -> calm s' /\ in_start (owner s') = true /\ true_held (owner s') = true.
Proof.
  intros (q & j & Hl & Hp & Ht & Hf & Hj) Hc Hq Hd Ho Hr. destruct s as [p ex th lp tpc o]. cbn in *. subst p lp th.
  destruct j; [by destruct (Hj eq_refl) as [-> Hj']; destruct o|]. unfold calm in Hc.
  destruct tpc; destruct o as [| | | |r| | | | | | |]; try discriminate Hf; try discriminate Ho; cbn in Hc, Hr; try done; try subst q; try subst r;
    destruct l; try done; cbn; intros [= <-]; done.
Qed.

Lemma calm_run ls s s' : inv s -> calm s -> in_start (owner s) = true -> true_held (owner s) = true ->
  LQuit ∉ ls -> LDestroy ∉ ls -> run ls s = Ret s' ->
  inv s' /\ calm s' /\ in_start (owner s') = true /\ true_held (owner s') = true.
Proof.
  revert s. induction ls as [|l ls IH]; intros s Hi Hc Ho Hr Hq Hd E; cbn in E; [by injection E as <-|].
  apply not_elem_of_cons in Hq as [Hq1 Hq]. apply not_elem_of_cons in Hd as [Hd1 Hd].
  apply bind_Ret_inv in E as (s1 & E1 & E). pose proof (shake_step l s Hi) as H. rewrite E1 in H. destruct H as [H _].
  destruct (calm_step l s s1 Hi Hc ltac:(done) ltac:(done) Ho Hr E1) as (Hc1 & Ho1 & Hr1). by apply (IH s1).
Qed.

(** ** Theorems *)

(** The only calls that fail, in any interleaving of the two threads and of
    quits from inside, are the calls of [quit] in the destructor, and exactly
    those that find no running loop: before the thread has entered [loop()], after
    it has left it, or, once [m_quit] is set, after the loop is gone. *)
Theorem thread_faults ls s l : run ls EventLoopThread = Ret s ->
  (exists f, step l s = Crash f) <-> l = LDestroy /\ raced s = true.
Proof.
  intros E%run_inv; [|apply new_inv]. pose proof (shake_step l s E) as H. destruct (step l s) as [s'|f].
  - split; [by intros [f Hf]|]. intros [Hl Hr]. destruct H as [_ H]. by rewrite (H Hl) in Hr.
  - split; [done|]. intros _. by exists f.
Qed.

(** C33. As long as nobody quits the loop, [startLoop] returns the loop, which lives,
    and never a null pointer; it cannot block for good: from wherever the two
    threads are, six steps bring it to its return. *)
Theorem startLoop_returns ls s : LQuit ∉ ls -> LDestroy ∉ ls -> run ls EventLoopThread = Ret s ->
  (forall r, owner s = OHeld r -> r = true /\ is_Some (loop s)) /\
  exists s', run [LStart; LThread; LThread; LStart; LStart; LStart] s = Ret s' /\ owner s' = OHeld true.
Proof.
  intros Hq Hd E. destruct (calm_run ls _ _ new_inv I eq_refl eq_refl Hq Hd E) as ((q & j & Hl & Hp & Ht & Hf & Hj) & Hc & Ho & Hr).
  destruct s as [p ex th lp tpc o]. unfold calm in Hc. cbn in Hl, Hp, Ht, Hf, Hj, Hc, Ho, Hr. subst p lp th.
  destruct tpc; destruct o as [| | | |r| | | | | | |]; try discriminate Hf; try discriminate Ho; cbn in *; try done;
    (destruct j; [by destruct (Hj eq_refl)|]); try subst q; try subst r; cbn; (split; [by intros ? [= <-]|by eexists]).
Qed.

(** If the loop quits before the owner has looked at [p_loop], [startLoop]
    waits for ever, whatever happens. *)
Theorem startLoop_hangs : exists s, run [LStart; LThread; LThread; LThread; LQuit; LThread; LThread; LStart] EventLoopThread = Ret s /\
  forall ls s', LDestroy ∉ ls -> run ls s = Ret s' -> owner s' = OTest \/ owner s' = OWait.
Proof.
  eexists. split; [reflexivity|].
  enough (forall ls s s', p_loop s = false -> (thread s = TClear \/ thread s = TDone) -> (owner s = OTest \/ owner s = OWait) ->
    LDestroy ∉ ls -> run ls s = Ret s' -> owner s' = OTest \/ owner s' = OWait) as H.
  { intros ls s' Hd. apply H; cbn; auto. }
  clear. induction ls as [|l ls IH]; intros s s' Hp Ht Ho Hd E; cbn in E; [by injection E as <-|].
  apply not_elem_of_cons in Hd as [Hd1 Hd]. apply bind_Ret_inv in E as (s1 & E1 & E).
  assert (p_loop s1 = false /\ (thread s1 = TClear \/ thread s1 = TDone) /\ (owner s1 = OTest \/ owner s1 = OWait)) as (? & ? & ?).
  { destruct s as [p ex th lp tpc o]. cbn in *. subst p. destruct Ht as [-> | ->], Ho as [-> | ->], l; cbn in E1; try done;
      try (by injection E1 as <-; cbn; auto); destruct lp as [[[] ?]|]; cbn in E1; try done; injection E1 as <-; cbn; auto. }
  by apply (IH s1 s').
Qed.

(** A destructor that meets the running loop ends the thread: it quits the
    loop, waits until the loop is destroyed, and leaves nothing behind. *)
Theorem orderly_end s : owner s = OHeld true -> thread s = TLooping -> inv s -> exists s',
  run [LDestroy; LDestroy; LDestroy; LDestroy; LDestroy; LThread; LThread; LThread; LDestroy; LDestroy] s = Ret s' /\
  owner s' = ODone /\ thread s' = TDone /\ loop s' = None.
Proof.
  intros Ho Ht (q & j & Hl & Hp & Hth & _ & Hj). destruct s as [p ex th lp tpc o]. cbn in *. subst.
  destruct j; [by destruct (Hj eq_refl)|]. cbn. by eexists.
Qed.

(** *** The hand-shake, the end, and the three races of the destructor *)
Lemma thread_faults_witness :
  let ls := [LStart; LThread; LThread; LStart; LStart; LDestroy; LDestroy] in
  exists s, run ls EventLoopThread = Ret s /\ exists f, step LDestroy s = Crash f.
Proof. eexists. split; [reflexivity|]. by apply (thread_faults [LStart; LThread; LThread; LStart; LStart; LDestroy; LDestroy] _ LDestroy eq_refl). Defined.

Lemma startLoop_returns_witness :
  let ls := [LStart; LStart; LThread; LSpurious; LStart] in
  LQuit ∉ ls /\ LDestroy ∉ ls /\ exists s s', run ls EventLoopThread = Ret s /\
  run [LStart; LThread; LThread; LStart; LStart; LStart] s = Ret s' /\ owner s' = OHeld true.
Proof.
  assert (LQuit ∉ [LStart; LStart; LThread; LSpurious; LStart] /\ LDestroy ∉ [LStart; LStart; LThread; LSpurious; LStart]) as [Hq Hd]
    by (rewrite !not_elem_of_cons; split; split_and!; (done || apply not_elem_of_nil)).
  split; [exact Hq|]. split; [exact Hd|]. eexists. destruct (startLoop_returns _ _ Hq Hd eq_refl) as [_ (s' & E & Ho)].
  exists s'. split; [reflexivity|]. split; [exact E|exact Ho].
Defined.

Definition running : t := mk true false (Thread.mk true false (Some true)) (Some (mkLoop true false)) TLooping (OHeld true).

Lemma orderly_end_witness : run [LStart; LThread; LThread; LStart; LStart; LThread] EventLoopThread = Ret running /\ exists s',
  run [LDestroy; LDestroy; LDestroy; LDestroy; LDestroy; LThread; LThread; LThread; LDestroy; LDestroy] running = Ret s' /\ loop s' = None.
Proof.
  assert (run [LStart; LThread; LThread; LStart; LStart; LThread] EventLoopThread = Ret running) as E0 by reflexivity.
  split; [exact E0|]. destruct (orderly_end running eq_refl eq_refl (run_inv _ _ _ new_inv E0)) as (s' & E & _ & _ & Hl).
  exists s'. split; [exact E|exact Hl].
Defined.

(** The destructor right after [startLoop]; a loop that is woken between the flag
    and the wake-up; a loop that quits itself between the two reads of [p_loop]. *)
Lemma destroy_races :
  run [LStart; LThread; LThread; LStart; LStart; LDestroy; LDestroy; LDestroy] EventLoopThread = Crash AssertFailure /\
  run [LStart; LThread; LThread; LStart; LStart; LThread; LDestroy; LDestroy; LDestroy; LDestroy; LThread; LThread; LThread; LDestroy]
    EventLoopThread = Crash UndefinedBehaviour /\
  run [LStart; LThread; LThread; LStart; LStart; LThread; LDestroy; LDestroy; LQuit; LThread; LThread; LDestroy]
    EventLoopThread = Crash UndefinedBehaviour.
Proof. done. Qed.
