(* ===== verification/EventLoop.v ===== *)
(** Reactor/EventLoop and Reactor/EventLoopThreadPool: the loop thread and the
    threads that give it work, interleaved; the choice of a loop for a
    connection. *)
From S2P Require Import Prelude Channel.

Module EventLoop.
Section loop.
(** What the loop is given to run. *)
Context {Functor : Type}.

(** Where the loop thread is: outside [loop()], at the test of [m_quit],
    blocked in the poller, in the callbacks of the active channels, between
    [m_callingPendingFunctors = true] and the swap, between two functors or in
    one of them. *)
Inductive place :=
| Outside | Top | Polling | Handling | Swapping | Running (rest : list Functor) | InFunctor (rest : list Functor).

(** The members; [counter] is the eventfd, [wakers] are the threads between an
    access to the loop and its [wakeup]; [queued] and [executed] are what was ever
    queued and run, in order. *)
Record t := mk {
  m_looping : bool;
  m_quit : bool;
  m_callingPendingFunctors : bool;
  m_pendingFunctors : list Functor;
  counter : Z;
  at_ : place;
  wakers : list nat;
  queued : list Functor;
  executed : list Functor
}.

Definition init : t := mk false false false [] 0 Outside [] [] [].

Definition set_at (x : place) (s : t) : t :=
  mk (m_looping s) (m_quit s) (m_callingPendingFunctors s) (m_pendingFunctors s) (counter s) x (wakers s) (queued s) (executed s).
Definition set_quit (b : bool) (s : t) : t :=
  mk (m_looping s) b (m_callingPendingFunctors s) (m_pendingFunctors s) (counter s) (at_ s) (wakers s) (queued s) (executed s).
Definition set_looping (b : bool) (s : t) : t :=
  mk b (m_quit s) (m_callingPendingFunctors s) (m_pendingFunctors s) (counter s) (at_ s) (wakers s) (queued s) (executed s).
Definition set_calling (b : bool) (s : t) : t :=
  mk (m_looping s) (m_quit s) b (m_pendingFunctors s) (counter s) (at_ s) (wakers s) (queued s) (executed s).
Definition set_counter (n : Z) (s : t) : t :=
  mk (m_looping s) (m_quit s) (m_callingPendingFunctors s) (m_pendingFunctors s) n (at_ s) (wakers s) (queued s) (executed s).
Definition set_wakers (l : list nat) (s : t) : t :=
  mk (m_looping s) (m_quit s) (m_callingPendingFunctors s) (m_pendingFunctors s) (counter s) (at_ s) l (queued s) (executed s).
Definition set_pending (l : list Functor) (s : t) : t :=
  mk (m_looping s) (m_quit s) (m_callingPendingFunctors s) l (counter s) (at_ s) (wakers s) (queued s) (executed s).
Definition log_queued (f : Functor) (s : t) : t :=
  mk (m_looping s) (m_quit s) (m_callingPendingFunctors s) (m_pendingFunctors s) (counter s) (at_ s) (wakers s) (queued s ++ [f]) (executed s).
Definition log_done (f : Functor) (s : t) : t :=
  mk (m_looping s) (m_quit s) (m_callingPendingFunctors s) (m_pendingFunctors s) (counter s) (at_ s) (wakers s) (queued s) (executed s ++ [f]).

(** A write of 1 to the eventfd fails, and is only logged, when the counter is
    at its maximum. *)
Definition wakeup (s : t) : t := set_counter (if counter s + 1 <? 2 ^ 64 - 1 then counter s + 1 else counter s) s.
(** A read takes the whole counter. *)
Definition handleRead (s : t) : t := set_counter 0 s.

(** The locked part of [queueInLoop]. *)
Definition push (f : Functor) (s : t) : t := log_queued f (set_pending (m_pendingFunctors s ++ [f]) s).

(** [queueInLoop] in the loop thread. *)
Definition queueInLoop (f : Functor) (s : t) : t :=
  let s := push f s in if m_callingPendingFunctors s then wakeup s else s.

(** [quit] in the loop thread. *)
Definition quit (s : t) : outcome t := _ ← cassert (m_looping s); Ret (set_quit true s).

(** One step of the loop thread ([L]) or of thread [tid] ([X]). *)
Inductive label :=
| LLoop                      (** [loop()] is called *)
| LTest                      (** the test of [m_quit] *)
| LPoll                      (** [poll] returns *)
| LHandleRead                (** the callback of the wakeup channel *)
| LQueue (f : Functor)       (** a callback or functor queues [f] *)
| LQuit                      (** a callback or functor quits *)
| LCalling                   (** [m_callingPendingFunctors = true] *)
| LSwap                      (** the swap under the lock *)
| LCall                      (** the next functor starts *)
| LReturn                    (** and returns *)
| LEnd                       (** the last one has returned *)
| XQueue (tid : nat) (f : Functor)
| XQuit (tid : nat)
| XWake (tid : nat).

(** The loop thread is in code of its user. *)
Definition in_user_code (s : t) : bool :=
  match at_ s with Outside | Handling | InFunctor _ => true | _ => false end.

(** A step the thread is not ready for changes nothing. *)
Definition step (l : label) (s : t) : outcome t :=
  match l, at_ s with
  | LLoop, Outside =>
      _ ← cassert (negb (m_looping s)); Ret (set_at Top (set_looping true (set_quit false s)))
  | LTest, Top => Ret (if m_quit s then set_at Outside (set_looping false s) else set_at Polling s)
  | LPoll, Polling => Ret (set_at Handling s)
  | LHandleRead, Handling => Ret (handleRead s)
  | LQueue f, _ => Ret (if in_user_code s then queueInLoop f s else s)
  | LQuit, _ => if in_user_code s then quit s else Ret s
  | LCalling, Handling => Ret (set_at Swapping (set_calling true s))
  | LSwap, Swapping => Ret (set_at (Running (m_pendingFunctors s)) (set_pending [] s))
  | LCall, Running (f :: fs) => Ret (log_done f (set_at (InFunctor fs) s))
  | LReturn, InFunctor fs => Ret (set_at (Running fs) s)
  | LEnd, Running [] => Ret (set_at Top (set_calling false s))
  | XQueue tid f, _ => if decide (tid ∈ wakers s) then Ret s else Ret (set_wakers (tid :: wakers s) (push f s))
  | XQuit tid, _ =>
      if decide (tid ∈ wakers s) then Ret s
      else _ ← cassert (m_looping s); Ret (set_wakers (tid :: wakers s) (set_quit true s))
  | XWake tid, _ => if decide (tid ∈ wakers s) then Ret (set_wakers (filter (fun x => x <> tid) (wakers s)) (wakeup s)) else Ret s
  | _, _ => Ret s
  end.

Fixpoint run (ls : list label) (s : t) : outcome t :=
  match ls with [] => Ret s | l :: ls' => s' ← step l s; run ls' s' end.
End loop.
Arguments t : clear implicits.
Arguments place : clear implicits.
Arguments label : clear implicits.
End EventLoop.

Module EventLoopThreadPool.
Section pool.
(** A pointer to a loop. *)
Context {Loop : Type}.

Record t := mk { m_baseLoop : Loop; m_started : bool; m_numThreads : Z; m_next : Z; m_loops : list Loop }.

Definition make (base : Loop) (numThreads : Z) : t := mk base false numThreads 0 [].
Definition setThreadNum (n : Z) (s : t) : t := mk (m_baseLoop s) (m_started s) n (m_next s) (m_loops s).

(** [startLoop i] is the loop of the [i]-th thread. *)
Definition start (startLoop : nat -> Loop) (s : t) : outcome t :=
  _ ← cassert (negb (m_started s));
  Ret (mk (m_baseLoop s) true (m_numThreads s) (m_next s)
         (m_loops s ++ map startLoop (seq 0 (Z.to_nat (m_numThreads s))))).

Definition getNextLoop (s : t) : outcome (Loop * t) :=
  _ ← cassert (m_started s);
  match m_loops s with
  | [] => Ret (m_baseLoop s, s)
  | _ :: _ =>
      loop ← deref (m_loops s !! Z.to_nat (m_next s));
      let n := m_next s + 1 in
      Ret (loop, mk (m_baseLoop s) (m_started s) (m_numThreads s) (if n >=? zlen (m_loops s) then 0 else n) (m_loops s))
  end.

Definition getLoopForHash (hashCode : Z) (s : t) : outcome Loop :=
  match m_loops s with
  | [] => Ret (m_baseLoop s)
  | _ :: _ => deref (m_loops s !! Z.to_nat (hashCode mod zlen (m_loops s)))
  end.

Definition getAllLoops (s : t) : outcome (list Loop) :=
  _ ← cassert (m_started s);
  Ret (match m_loops s with [] => [m_baseLoop s] | _ :: _ => m_loops s end).
End pool.
Arguments t : clear implicits.
End EventLoopThreadPool.

(** ** The loop *)
Import EventLoop.
Section loop_proofs.
Context {Functor : Type}.
Implicit Types s : EventLoop.t Functor.
Implicit Types ls : list (label Functor).

(** The functors swapped out and not run yet. *)
Definition running (x : place Functor) : list Functor :=
  match x with Running fs | InFunctor fs => fs | _ => [] end.

(** The poller will return: the eventfd is readable, or a thread is about to
    write it. *)
Definition owed s : Prop := 0 < counter s \/ wakers s <> [].

(** Places where work that is pending must keep the poller awake. *)
Definition watched_place (x : place Functor) : Prop :=
  match x with Handling | Swapping => False | _ => True end.
Definition calling_place (x : place Functor) : bool :=
  match x with Swapping | Running _ | InFunctor _ => true | _ => false end.

Definition inside (x : place Functor) : bool := match x with Outside => false | _ => true end.

Record loop_ok s : Prop := {
  ok_fifo : queued s = executed s ++ running (at_ s) ++ m_pendingFunctors s;
  ok_counter : 0 <= counter s;
  ok_calling : m_callingPendingFunctors s = calling_place (at_ s);
  ok_looping : m_looping s = inside (at_ s)
}.

Definition awake s : Prop :=
  (watched_place (at_ s) -> m_pendingFunctors s <> [] -> owed s) /\ (at_ s = Polling -> m_quit s = true -> owed s).

Lemma wakeup_counter s : 0 <= counter s -> 0 < counter (wakeup s).
Proof. intros H. unfold wakeup. cbn. destruct (Z.ltb_spec (counter s + 1) (2 ^ 64 - 1)); lia. Qed.

(** A wake-up or a push keeps the loop well formed. *)
Lemma wakeup_loop_ok s : loop_ok s -> loop_ok (wakeup s).
Proof. intros [H1 H2 H3 H4]. split; try done. apply Z.lt_le_incl. by apply wakeup_counter. Qed.

Lemma push_loop_ok f s : loop_ok s -> loop_ok (push f s).
Proof. intros [H1 H2 H3 H4]. split; try done. cbn. by rewrite H1, !app_assoc. Qed.

Lemma queue_loop_ok f s : loop_ok s -> loop_ok (queueInLoop f s).
Proof.
  intros H. unfold queueInLoop. pose proof (push_loop_ok f s H). case_match; [by apply wakeup_loop_ok|done].
Qed.

Lemma quit_loop_ok s : loop_ok s -> loop_ok (set_quit true s).
Proof. by intros [H1 H2 H3 H4]. Qed.

Lemma wakers_loop_ok ts s : loop_ok s -> loop_ok (set_wakers ts s).
Proof. by intros [H1 H2 H3 H4]. Qed.

Lemma step_loop_ok l s : loop_ok s ->
  match step l s with Ret s' => loop_ok s' | Crash f => f = AssertFailure end.
Proof.
  intros Hok. pose proof Hok as [H1 H2 H3 H4].
  destruct l as [ | | | |f| | | | | | |tid f|tid|tid]; cbn [step].
  5: destruct (in_user_code s); [by apply queue_loop_ok|exact Hok].
  5: destruct (in_user_code s); [|exact Hok]; unfold quit; destruct (m_looping s); [by apply quit_loop_ok|done].
  10: case_decide; [exact Hok|]; by apply wakers_loop_ok, push_loop_ok.
  10: case_decide; [exact Hok|]; destruct (m_looping s); [by apply wakers_loop_ok, quit_loop_ok|done].
  10: case_decide; [|exact Hok]; by apply wakers_loop_ok, wakeup_loop_ok.
  all: destruct (at_ s) as [| | | | |[|g fs]|fs] eqn:Ea; try done; cbn [running calling_place inside app] in *.
  - rewrite H4. by split.
  - destruct (m_quit s); split; try done.
  - split; cbn; try done; by rewrite Ea.
  - split; cbn; try done. by rewrite app_nil_r.
  - split; cbn; try done. by rewrite H1, <- app_assoc.
Qed.

Lemma owed_mono s s' : counter s <= counter s' -> (wakers s <> [] -> wakers s' <> []) -> owed s -> owed s'.
Proof. unfold owed. intros ? ? [?|?]; [left; lia|right; tauto]. Qed.

Lemma init_loop_ok : loop_ok (init : EventLoop.t Functor).
Proof. by split. Qed.

Lemma awake_init : awake (init : EventLoop.t Functor).
Proof. by split. Qed.

(** The loop thread queues nothing while it is outside [loop()]. *)
Definition disciplined_step (l : label Functor) s : Prop :=
  match l with LQueue _ => at_ s <> Outside | _ => True end.
Fixpoint disciplined ls s : Prop :=
  match ls with
  | [] => True
  | l :: ls' => disciplined_step l s /\ match step l s with Ret s' => disciplined ls' s' | Crash _ => True end
  end.

Lemma owed_waker tid ts s : owed (set_wakers (tid :: ts) s).
Proof. by right. Qed.

Lemma owed_wakeup s : 0 <= counter s -> owed (wakeup s).
Proof. intros H. left. by apply wakeup_counter. Qed.

Lemma awake_owed s : owed s -> awake s.
Proof. by split. Qed.

(** The steps of the other threads leave a wake-up behind. *)
Lemma step_awake_other l s s' tid : loop_ok s -> awake s -> (exists f, l = XQueue tid f) \/ l = XQuit tid \/ l = XWake tid ->
  step l s = Ret s' -> awake s'.
Proof.
  intros Hok Haw [(f & ->)|[->| ->]]; cbn [step]; case_decide as Hin.
  - by intros [= <-].
  - intros [= <-]. apply awake_owed, owed_waker.
  - by intros [= <-].
  - destruct (m_looping s); [|done]. intros [= <-]. apply awake_owed, owed_waker.
  - intros [= <-]. apply awake_owed. left. apply (wakeup_counter s), Hok.
  - by intros [= <-].
Qed.

Lemma step_awake_queue f s : loop_ok s -> awake s -> at_ s <> Outside -> in_user_code s = true -> awake (queueInLoop f s).
Proof.
  intros [H1 H2 H3 H4] Haw Hout Hu. unfold queueInLoop. cbn [m_callingPendingFunctors push log_queued set_pending].
  rewrite H3. unfold in_user_code in Hu. destruct (at_ s) as [| | | | |fs|fs] eqn:Ea; try done.
  - split; cbn; rewrite Ea; done.
  - apply awake_owed. left. by apply (wakeup_counter (push f s)).
Qed.

Lemma step_awake l s s' : loop_ok s -> awake s -> disciplined_step l s -> step l s = Ret s' -> awake s'.
Proof.
  intros Hok Haw Hd H. destruct l as [ | | | |f| | | | | | |tid f|tid|tid].
  12-14: apply (step_awake_other _ s s' tid Hok Haw) in H; [done|naive_solver].
  5: { cbn [step] in H. destruct (in_user_code s) eqn:Hu; injection H as <-; [|done]. by apply step_awake_queue. }
  5: { cbn [step] in H. destruct (in_user_code s) eqn:Hu; [|by injection H as <-]. unfold quit in H.
       destruct (m_looping s); [|done]. injection H as <-. destruct Haw as [Ha _]. split; [exact Ha|].
       unfold in_user_code in Hu. cbn. intros Hp. by rewrite Hp in Hu. }
  all: cbn [step] in H; destruct Haw as [Ha Hq]; destruct Hok as [H1 H2 H3 H4].
  all: destruct (at_ s) as [| | | | |[|g fs]|fs] eqn:Ea; try (injection H as <-; split; cbn; rewrite ?Ea; try done; fail).
  - rewrite H4 in H. injection H as <-. split; [exact Ha|done].
  - destruct (m_quit s) eqn:Eq; injection H as <-; (split; [exact Ha|]); cbn; [done|]. by rewrite Eq.
Qed.

Lemma loop_run_ok ls s : loop_ok s -> match run ls s with Ret s' => loop_ok s' | Crash f => f = AssertFailure end.
Proof.
  revert s. induction ls as [|l ls IH]; intros s Hok; [done|]. cbn [run].
  pose proof (step_loop_ok l s Hok) as H. destruct (step l s) as [s1|f]; [by apply IH|done].
Qed.

Lemma run_awake ls s s' : loop_ok s -> awake s -> disciplined ls s -> run ls s = Ret s' -> awake s'.
Proof.
  revert s. induction ls as [|l ls IH]; intros s Hok Haw Hd H; [by injection H as <-|]. cbn [run disciplined] in *.
  destruct Hd as [Hd1 Hd2]. pose proof (step_loop_ok l s Hok) as H1. destruct (step l s) as [s1|f] eqn:E; [|done].
  apply (IH s1); [done|by apply (step_awake l s)|done|done].
Qed.

(** C11. Work queued for a loop runs in the order it was queued, each item
    once, whatever the threads do: what was queued is what has run, what the
    loop swapped out, and what is pending, in this order. The only way to fail
    is an assertion ([quit] of a loop that does not run). *)
Theorem functors_fifo ls :
  match run ls (init : EventLoop.t Functor) with
  | Ret s => queued s = executed s ++ running (at_ s) ++ m_pendingFunctors s
  | Crash f => f = AssertFailure
  end.
Proof. pose proof (loop_run_ok ls init init_loop_ok) as H. destruct (run ls init); [apply H|done]. Qed.

(** C12. No wake-up is lost: when the loop thread is blocked in the poller
    while work is pending or the loop is to quit, the eventfd is readable or a
    thread is about to write it; provided the loop thread itself queues
    nothing before it enters [loop()]. *)
Theorem no_lost_wakeup ls s : disciplined ls init -> run ls (init : EventLoop.t Functor) = Ret s ->
  at_ s = Polling -> m_pendingFunctors s <> [] \/ m_quit s = true -> 0 < counter s \/ wakers s <> [].
Proof.
  intros Hd H Hp Hw. destruct (run_awake ls init s init_loop_ok awake_init Hd H) as [Ha Hq].
  destruct Hw as [Hw|Hw]; [|by apply Hq]. apply Ha; [|done]. by rewrite Hp.
Qed.

(** A functor the loop thread queues before it enters [loop()] is not
    followed by a wake-up: the loop blocks in the poller with the functor
    pending, no thread about to wake it and nothing to read. *)
Theorem queued_before_loop_sleeps (f : Functor) :
  run [LQueue f; LLoop; LTest] init
    = Ret (EventLoop.mk true false false [f] 0 Polling [] [f] []).
Proof. reflexivity. Qed.
End loop_proofs.

(** Another thread queues while the loop blocks, and a functor queues again. *)
Definition requeue : list (label nat) :=
  [LLoop; LTest; XQueue 1 7%nat; XWake 1; LPoll; LHandleRead; LCalling; LSwap; LCall; LQueue 8%nat; LReturn; LEnd; LTest].

Lemma no_lost_wakeup_witness : exists s, disciplined requeue init /\ run requeue init = Ret s
  /\ at_ s = Polling /\ m_pendingFunctors s = [8%nat] /\ (0 < counter s \/ wakers s <> []).
Proof.
  exists (EventLoop.mk true false false [8%nat] 1 Polling [] [7%nat; 8%nat] [7%nat]).
  assert (disciplined requeue init) as Hd by (vm_compute; repeat split; discriminate). split; [exact Hd|].
  split; [vm_compute; reflexivity|]. split; [reflexivity|]. split; [reflexivity|].
  apply (no_lost_wakeup (Functor := nat) requeue _ Hd); [vm_compute; reflexivity|reflexivity|left; discriminate].
Defined.

(** ** The pool of loops *)
Section pool_proofs.
Context {Loop : Type}.
Implicit Types s : EventLoopThreadPool.t Loop.
Import EventLoopThreadPool.

(** [k] calls of [getNextLoop]. *)
Fixpoint draw (k : nat) s : outcome (list Loop * EventLoopThreadPool.t Loop) :=
  match k with
  | O => Ret ([], s)
  | S k' => '(l, s') ← getNextLoop s; '(ls, s'') ← draw k' s'; Ret (l :: ls, s'')
  end.

(** The loop of the [i]-th call from [s] on. *)
Definition nth_loop s (i : nat) : option Loop := m_loops s !! Z.to_nat ((m_next s + Z.of_nat i) mod zlen (m_loops s)).

Lemma getNextLoop_spec s : m_started s = true -> m_loops s <> [] -> 0 <= m_next s < zlen (m_loops s) ->
  exists l s', getNextLoop s = Ret (l, s') /\ m_loops s !! Z.to_nat (m_next s) = Some l /\ m_started s' = true
    /\ m_loops s' = m_loops s /\ m_next s' = (m_next s + 1) mod zlen (m_loops s).
Proof.
  intros Hst Hne Hn. destruct s as [base st nt nx loops]. cbn in *. subst st. unfold getNextLoop. cbn.
  destruct loops as [|l0 loops]; [done|]. set (ls := l0 :: loops) in *.
  destruct (lookup_lt_is_Some_2 ls (Z.to_nat nx)) as [l Hl]; [unfold zlen in Hn; lia|]. rewrite Hl. cbn.
  eexists _, _. split; [done|]. cbn. split; [done|]. split; [done|]. split; [done|].
  destruct (Z.geb_spec (nx + 1) (zlen ls)) as [H|H].
  - replace (nx + 1) with (zlen ls) by lia. rewrite Z.mod_same; lia.
  - rewrite Z.mod_small; lia.
Qed.

(** The loops take turns: the [i]-th of consecutive calls of [getNextLoop]
    gives the loop [i] places after the current one, round the list. *)
Theorem loops_take_turns k s : m_started s = true -> m_loops s <> [] -> 0 <= m_next s < zlen (m_loops s) ->
  exists ls s', draw k s = Ret (ls, s') /\ map Some ls = map (nth_loop s) (seq 0 k)
    /\ 0 <= m_next s' < zlen (m_loops s').
Proof.
  revert s. induction k as [|k IH]; intros s Hst Hne Hn; [by exists [], s|].
  destruct (getNextLoop_spec s Hst Hne Hn) as (l & s1 & E & Hl & Hst1 & Hls & Hnx).
  destruct (IH s1 Hst1) as (ls & s2 & E2 & Hmap & Hn2); [by rewrite Hls|rewrite Hls, Hnx; apply Z.mod_pos_bound; lia|].
  exists (l :: ls), s2. cbn [draw]. rewrite E. cbn [mbind outcome_bind]. rewrite E2. split; [done|]. split; [|done].
  cbn [seq map]. f_equal.
  - unfold nth_loop. rewrite Z.add_0_r, Z.mod_small by lia. by rewrite Hl.
  - rewrite Hmap, <- seq_shift, map_map. apply map_ext. intros i. unfold nth_loop. rewrite Hls, Hnx.
    rewrite Z.add_mod_idemp_l by lia. do 3 f_equal. lia.
Qed.
End pool_proofs.

Lemma loops_take_turns_witness : exists ls s', draw 5 (EventLoopThreadPool.mk 0 true 3 1 [10; 11; 12]) = Ret (ls, s')
  /\ map Some ls = [Some 11; Some 12; Some 10; Some 11; Some 12] /\ 0 <= EventLoopThreadPool.m_next s' < zlen (EventLoopThreadPool.m_loops s').
Proof. exact (loops_take_turns 5 (EventLoopThreadPool.mk 0 true 3 1 [10; 11; 12]) eq_refl ltac:(discriminate) ltac:(by vm_compute)). Defined.
