(* ===== verification/TcpServer.v ===== *)
(** Tcp/TcpServer: the set of connections, their names and loops, fed by the
    acceptor and emptied as connections close. *)
From S2P Require Import Prelude Cxx Address Channel Epoll Acceptor EventLoop.

Module TcpServer.

(** What the server gives to the loops. *)
Inductive task (ptr : Type) := TListen | TEstablish (p : ptr) | TDestroy (p : ptr).
Arguments TListen {ptr}. Arguments TEstablish {ptr}. Arguments TDestroy {ptr}.

(** A [TcpConnection] as the server made it; pointers are numbers in the order
    of allocation. *)
Record conn (Loop : Type) := mkConn { c_loop : Loop; c_name : bytes; c_fd : Z; c_local : bytes; c_peer : bytes }.
Arguments mkConn {Loop}. Arguments c_loop {Loop}. Arguments c_name {Loop}. Arguments c_fd {Loop}.
Arguments c_local {Loop}. Arguments c_peer {Loop}.

Record t (Loop : Type) := mk {
  _name : bytes;
  _ipPort : bytes;
  _threadPool : EventLoopThreadPool.t Loop;
  m_connectionsSet : gmap nat (conn Loop);
  m_nextConnId : Z;
  allocated : list (conn Loop);
  given : list (Loop * task nat)
}.
Arguments mk {Loop}. Arguments _name {Loop}. Arguments _ipPort {Loop}. Arguments _threadPool {Loop}.
Arguments m_connectionsSet {Loop}. Arguments m_nextConnId {Loop}. Arguments allocated {Loop}. Arguments given {Loop}.

Section server.
Context {Loop : Type} (p_loop : Loop).
(** [sockets::getLocalAddr], and the text of an address. *)
Context (getLocalAddr : Z -> bytes) (toIpPort : bytes -> outcome bytes).
Implicit Types s : t Loop.

(** The constructor; the acceptor is made by its own (Acceptor.v). *)
Definition TcpServer (listenAddr name : bytes) : outcome (t Loop) :=
  ip ← toIpPort listenAddr;
  Ret (mk name ip (EventLoopThreadPool.make p_loop 3) ∅ 1 [] []).

Definition setThreadNum (numThreads : Z) s : outcome (t Loop) :=
  _ ← cassert (0 <=? numThreads);
  Ret (mk (_name s) (_ipPort s) (EventLoopThreadPool.setThreadNum numThreads (_threadPool s)) (m_connectionsSet s)
         (m_nextConnId s) (allocated s) (given s)).

(** [startListen]: the threads start, and the loop of the server is to listen. *)
Definition startListen (listenning : bool) (startLoop : nat -> Loop) s : outcome (t Loop) :=
  _ ← cassert (negb listenning);
  pool ← EventLoopThreadPool.start startLoop (_threadPool s);
  Ret (mk (_name s) (_ipPort s) pool (m_connectionsSet s) (m_nextConnId s) (allocated s) (given s ++ [(p_loop, TListen)])).

(** [++m_nextConnId] past the largest [int] is undefined. *)
Definition next_id (n : Z) : outcome Z := if n + 1 <? 2 ^ 31 then Ret (n + 1) else Crash UndefinedBehaviour.

Definition newConnetion (sockfd : Z) (peerAddr : bytes) s : outcome (t Loop) :=
  let buf := snprintf 64 (lit "#" ++ dec (m_nextConnId s)) in
  n ← next_id (m_nextConnId s);
  let connName := _name s ++ buf in
  let localAddr := getLocalAddr sockfd in
  '(loop, pool) ← EventLoopThreadPool.getNextLoop (_threadPool s);
  let p := length (allocated s) in
  let c := mkConn loop connName sockfd localAddr peerAddr in
  Ret (mk (_name s) (_ipPort s) pool (<[p := c]> (m_connectionsSet s)) n (allocated s ++ [c]) (given s ++ [(loop, TEstablish p)])).

(** In the server's loop. *)
Definition removeConnectionInLoop (p : nat) s : outcome (t Loop) :=
  let n := if decide (is_Some (m_connectionsSet s !! p)) then 1 else 0 in
  _ ← cassert (n =? 1);
  c ← deref (allocated s !! p);
  Ret (mk (_name s) (_ipPort s) (_threadPool s) (delete p (m_connectionsSet s)) (m_nextConnId s) (allocated s)
         (given s ++ [(c_loop c, TDestroy p)])).

(** What happens in the server's loop. *)
Inductive event := Connection (fd : Z) (peer : bytes) | Removal (p : nat).
Definition apply (e : event) s : outcome (t Loop) :=
  match e with Connection fd peer => newConnetion fd peer s | Removal p => removeConnectionInLoop p s end.
Fixpoint run (es : list event) s : outcome (t Loop) :=
  match es with [] => Ret s | e :: es' => s' ← apply e s; run es' s' end.

(** A started pool of loops. *)
Definition pool_ok (q : EventLoopThreadPool.t Loop) : Prop :=
  EventLoopThreadPool.m_started q = true /\
  (EventLoopThreadPool.m_loops q = [] \/ 0 <= EventLoopThreadPool.m_next q < zlen (EventLoopThreadPool.m_loops q)).

(** *** The invariant *)
Record inv s : Prop := {
  inv_pool : pool_ok (_threadPool s);
  inv_id : m_nextConnId s = 1 + zlen (allocated s) /\ m_nextConnId s < 2 ^ 31;
  inv_names : forall p c, allocated s !! p = Some c -> c_name c = _name s ++ lit "#" ++ dec (1 + Z.of_nat p);
  inv_set : forall p c, m_connectionsSet s !! p = Some c -> allocated s !! p = Some c
}.

Lemma next_loop q : pool_ok q -> exists l q', EventLoopThreadPool.getNextLoop q = Ret (l, q') /\ pool_ok q'
  /\ l ∈ EventLoopThreadPool.m_baseLoop q :: EventLoopThreadPool.m_loops q.
Proof.
  intros [Hst Hn]. destruct (EventLoopThreadPool.m_loops q) as [|l0 ls] eqn:El.
  - exists (EventLoopThreadPool.m_baseLoop q), q. unfold EventLoopThreadPool.getNextLoop. rewrite Hst, El. cbn. split; [done|].
    split; [by split; [|left]|]. by left.
  - destruct Hn as [Hn|Hn]; [done|].
    destruct (getNextLoop_spec q Hst) as (l & q' & E & Hl & Hst' & Hls & Hnx); [by rewrite El|by rewrite El|]. exists l, q'.
    split; [done|]. rewrite El in *. split; [split; [done|right]|right; by eapply list_elem_of_lookup_2].
    rewrite Hls, Hnx. apply Z.mod_pos_bound. rewrite zlen_cons. pose proof (zlen_nonneg ls). lia.
Qed.

Lemma newConnetion_spec fd peer s : inv s -> m_nextConnId s + 1 < 2 ^ 31 ->
  exists loop s', newConnetion fd peer s = Ret s' /\ inv s' /\ _name s' = _name s
    /\ let c := mkConn loop (_name s ++ lit "#" ++ dec (m_nextConnId s)) fd (getLocalAddr fd) peer in
       allocated s' = allocated s ++ [c] /\ m_connectionsSet s' = <[length (allocated s) := c]> (m_connectionsSet s)
       /\ given s' = given s ++ [(loop, TEstablish (length (allocated s)))]
       /\ EventLoopThreadPool.getNextLoop (_threadPool s) = Ret (loop, _threadPool s').
Proof.
  intros [Hp [Hid Hmax] Hn Hs] Hlt. destruct (next_loop _ Hp) as (loop & q & E & Hq & _). exists loop.
  pose proof (zlen_nonneg (allocated s)).
  assert (zlen (lit "#" ++ dec (m_nextConnId s)) < 64) as Hz.
  { change (2 ^ 31) with 2147483648 in *. rewrite zlen_app. change (zlen (lit "#")) with 1. unfold dec. rewrite decide_False by lia.
    unfold zlen. pose proof (length_udec (m_nextConnId s) 10 ltac:(lia) ltac:(lia)). lia. }
  unfold newConnetion, next_id. rewrite (proj2 (Z.ltb_lt _ _)) by done. cbn [mbind outcome_bind]. rewrite E.
  cbn [mbind outcome_bind]. rewrite snprintf_fits by done. eexists. split; [reflexivity|]. split; [|by split_and!].
  split; cbn [_threadPool m_nextConnId allocated m_connectionsSet _name]; [done| | |].
  - rewrite zlen_app. change (zlen [_]) with 1. lia.
  - intros p c. rewrite lookup_app_Some. intros [Hc|[Hge Hc]]; [by apply Hn|].
    apply list_lookup_singleton_Some in Hc as [Hp0 <-]. cbn. do 3 f_equal. unfold zlen in Hid. lia.
  - intros p c. rewrite lookup_insert_Some. intros [[<- <-]|[Hne Hc]].
    + by rewrite lookup_app_r, Nat.sub_diag by lia.
    + apply lookup_app_l_Some. by apply Hs.
Qed.

Lemma removal_spec p s : inv s -> is_Some (m_connectionsSet s !! p) ->
  exists c s', removeConnectionInLoop p s = Ret s' /\ inv s' /\ _name s' = _name s /\ m_connectionsSet s !! p = Some c
    /\ allocated s' = allocated s /\ m_connectionsSet s' = delete p (m_connectionsSet s)
    /\ given s' = given s ++ [(c_loop c, TDestroy p)].
Proof.
  intros [Hp Hid Hn Hs] [c Hc]. exists c. unfold removeConnectionInLoop. rewrite decide_True by (by eexists).
  rewrite cassert_true by done. cbn [mbind outcome_bind]. rewrite (Hs p c Hc). cbn [deref mbind outcome_bind].
  eexists. split; [reflexivity|]. split; [|done].
  split; cbn; [done|done|done|]. intros q d. rewrite lookup_delete_Some. intros [_ Hd]. by apply Hs.
Qed.

(** *** The contract: connections are numbered, and live from their arrival to
    their one removal *)
Fixpoint live (es : list event) (st : nat * gset nat) : option (nat * gset nat) :=
  match es with
  | [] => Some st
  | Connection _ _ :: es' => live es' (S (fst st), {[fst st]} ∪ snd st)
  | Removal p :: es' => if decide (p ∈ snd st) then live es' (fst st, snd st ∖ {[p]}) else None
  end.

Definition peers (es : list event) : list bytes := omap (fun e => match e with Connection _ a => Some a | Removal _ => None end) es.

Lemma run_live es s : inv s -> m_nextConnId s + Z.of_nat (length es) < 2 ^ 31 ->
  match live es (length (allocated s), dom (m_connectionsSet s)) with
  | Some (n, l) => exists s', run es s = Ret s' /\ inv s' /\ _name s' = _name s /\ dom (m_connectionsSet s') = l /\ length (allocated s') = n
      /\ map c_peer (allocated s') = map c_peer (allocated s) ++ peers es
  | None => run es s = Crash AssertFailure
  end.
Proof.
  revert s. induction es as [|e es IH]; intros s Hi Hlt; cbn [live run].
  - exists s. cbn. rewrite app_nil_r. by split_and!.
  - cbn [length] in Hlt. destruct e as [fd peer|p]; cbn [apply fst snd].
    + destruct (newConnetion_spec fd peer s Hi) as (loop & s1 & -> & Hi1 & Hn1 & Ha & Hs & _); [lia|]. cbn [mbind outcome_bind].
      assert (m_nextConnId s1 = m_nextConnId s + 1) as Hid.
      { rewrite (proj1 (inv_id _ Hi1)), (proj1 (inv_id _ Hi)), Ha, zlen_app. change (zlen [_]) with 1. lia. }
      specialize (IH s1 Hi1 ltac:(lia)). rewrite Ha, Hs, dom_insert_L, length_app, Nat.add_1_r in IH.
      destruct (live es _) as [[n l]|]; [|done]. destruct IH as (s' & E & Hi' & Hn' & Hd & Hl & Hp). exists s'.
      rewrite Hp, map_app, <- app_assoc, Hn', Hn1. by split_and!.
    + case_decide as Hp.
      * apply elem_of_dom in Hp. destruct (removal_spec p s Hi Hp) as (c & s1 & -> & Hi1 & Hn1 & _ & Ha & Hs & _). cbn [mbind outcome_bind].
        assert (m_nextConnId s1 = m_nextConnId s) as Hid by (rewrite (proj1 (inv_id _ Hi1)), (proj1 (inv_id _ Hi)), Ha; done).
        specialize (IH s1 Hi1 ltac:(lia)). rewrite Ha, Hs, dom_delete_L in IH.
        destruct (live es _) as [[n l]|]; [|done]. destruct IH as (s' & E & Hi' & Hn' & Hd & Hl & Hpe). exists s'. by rewrite Hn', Hn1.
      * unfold removeConnectionInLoop. rewrite decide_False; [done|]. intros Hs. by apply Hp, elem_of_dom.
Qed.

(** The tasks the loops are given: the [n]-th connection belongs to the loop
    [f n], which is to establish it when it comes and to destroy it when it goes. *)
Fixpoint tasks (f : nat -> Loop) (n : nat) (es : list event) : list (Loop * task nat) :=
  match es with
  | [] => []
  | Connection _ _ :: es' => (f n, TEstablish n) :: tasks f (S n) es'
  | Removal p :: es' => (f p, TDestroy p) :: tasks f n es'
  end.

(** The loop [i] places after the current one. *)
Definition loop_at (q : EventLoopThreadPool.t Loop) (i : nat) : Loop :=
  nth (Z.to_nat ((EventLoopThreadPool.m_next q + Z.of_nat i) mod zlen (EventLoopThreadPool.m_loops q))) (EventLoopThreadPool.m_loops q)
    (EventLoopThreadPool.m_baseLoop q).

Lemma next_loop_at q l q' : pool_ok q -> EventLoopThreadPool.getNextLoop q = Ret (l, q') ->
  l = loop_at q 0 /\ forall i, loop_at q' i = loop_at q (S i).
Proof.
  clear p_loop getLocalAddr toIpPort. intros [Hst Hn] E. unfold loop_at. destruct (EventLoopThreadPool.m_loops q) as [|l0 ls] eqn:El.
  - unfold EventLoopThreadPool.getNextLoop in E. rewrite Hst, El in E. injection E as <- <-. rewrite El. cbn [nth]. split; [by destruct (Z.to_nat _)|]. intros i. by do 2 destruct (Z.to_nat _).
  - destruct Hn as [Hn|Hn]; [done|]. destruct (getNextLoop_spec q Hst) as (l' & q2 & E2 & Hl & _ & Hls & Hnx); [by rewrite El|by rewrite El|].
    rewrite E in E2. injection E2 as <- <-. rewrite El in Hl, Hls, Hnx. split.
    + rewrite Z.add_0_r, Z.mod_small by done. symmetry. by apply nth_lookup_Some.
    + intros i. rewrite Hls, Hnx, Z.add_mod_idemp_l by (unfold zlen; cbn; lia).
      replace (EventLoopThreadPool.m_next q + 1 + Z.of_nat i) with (EventLoopThreadPool.m_next q + Z.of_nat (S i)) by lia.
      apply nth_indep. unfold zlen. pose proof (Z.mod_pos_bound (EventLoopThreadPool.m_next q + Z.of_nat (S i)) (Z.of_nat (length (l0 :: ls))) ltac:(cbn; lia)). lia.
Qed.

Lemma run_tasks f es s s' : inv s -> m_nextConnId s + Z.of_nat (length es) < 2 ^ 31 ->
  (forall i, loop_at (_threadPool s) i = f (length (allocated s) + i)%nat) ->
  (forall p c, allocated s !! p = Some c -> c_loop c = f p) ->
  run es s = Ret s' -> given s' = given s ++ tasks f (length (allocated s)) es.
Proof.
  clear p_loop toIpPort. revert s. induction es as [|e es IH]; intros s Hi Hlt Hf Ha E; cbn [run] in E; [injection E as <-; by rewrite app_nil_r|].
  cbn [length] in Hlt. apply bind_Ret_inv in E as (s1 & E1 & E). destruct e as [fd peer|p]; cbn [apply] in E1.
  - destruct (newConnetion_spec fd peer s Hi) as (loop & s2 & E2 & Hi2 & _ & Hal & _ & Hg & Hq); [lia|]. rewrite E1 in E2. injection E2 as <-.
    destruct (next_loop_at _ _ _ (inv_pool _ Hi) Hq) as [Hl Hr]. rewrite Hf, Nat.add_0_r in Hl.
    assert (length (allocated s1) = S (length (allocated s))) as Hlen by (rewrite Hal, length_app; cbn; lia).
    rewrite (IH s1 Hi2); [|..|exact E].
    + rewrite Hg, Hlen, <- app_assoc. cbn [tasks app]. by rewrite <- Hl.
    + rewrite (proj1 (inv_id _ Hi2)). rewrite (proj1 (inv_id _ Hi)) in Hlt. unfold zlen in *. lia.
    + intros i. rewrite Hr, Hf, Hlen. f_equal. lia.
    + intros p c. rewrite Hal, lookup_app_Some. intros [Hc|[Hge Hc]]; [by apply Ha|].
      apply list_lookup_singleton_Some in Hc as [Hp0 <-]. cbn [c_loop]. rewrite Hl. f_equal. lia.
  - destruct (decide (is_Some (m_connectionsSet s !! p))) as [Hp|Hp]; [|unfold removeConnectionInLoop in E1; by rewrite decide_False in E1].
    destruct (removal_spec p s Hi Hp) as (c & s2 & E2 & Hi2 & _ & Hc & Hal & _ & Hg). rewrite E1 in E2. injection E2 as <-.
    assert (_threadPool s1 = _threadPool s) as Htp by (unfold removeConnectionInLoop in E1; repeat (apply bind_Ret_inv in E1 as (? & _ & E1)); by injection E1 as <-).
    rewrite (IH s1 Hi2); [|..|exact E]; rewrite ?Hal, ?Htp; [|rewrite (proj1 (inv_id _ Hi2)), Hal, <- (proj1 (inv_id _ Hi)); lia|done|done].
    rewrite Hg, <- app_assoc. cbn [tasks app]. by rewrite (Ha p c (inv_set _ Hi p c Hc)).
Qed.

(** *** With the acceptor *)
Section accepting.
Context {C P K : Type} `{!Os K} `{!OsSpec K} (log_errno : Z -> Z) (others : K -> K).
Context (Hlog : log_errno EMFILE = EMFILE) (Hoth : forall k, others k = k).
Abbreviation acceptor := (Acceptor.state C P K (t Loop)).
Implicit Types x : acceptor.
Abbreviation readable := (Acceptor.readable (C:=C) (P:=P) (Some newConnetion) log_errno others).

Lemma accept_step p q x : Acceptor.ready x -> inv (Acceptor.user x) -> m_nextConnId (Acceptor.user x) + 1 < 2 ^ 31 ->
  backlog (Acceptor.os x) = p :: q ->
  exists x', Acceptor.handleRead (C:=C) (P:=P) (Some newConnetion) log_errno others x = Ret (tt, x') /\ Acceptor.ready x'
    /\ backlog (Acceptor.os x') = q /\ inv (Acceptor.user x') /\ m_nextConnId (Acceptor.user x') <= m_nextConnId (Acceptor.user x) + 1
    /\ exists taken, taken `sublist_of` [p] /\ map c_peer (allocated (Acceptor.user x')) = map c_peer (allocated (Acceptor.user x)) ++ taken.
Proof.
  clear toIpPort p_loop. intros [Hok Hi] Hinv Hlt Hb. destruct (full (Acceptor.os x)) eqn:Hf.
  - destruct (Acceptor.accept_full_run (C:=C) (P:=P) (Some newConnetion) log_errno others p q x Hok Hb Hf Hi Hlog Hoth)
      as (idle & k & E & Hok' & Hq & Hi' & _).
    eexists. split; [exact E|]. split; [done|]. split; [done|]. split; [done|]. split; [cbn; lia|]. exists [].
    split; [apply sublist_nil_l|]. by rewrite app_nil_r.
  - destruct (Acceptor.accept_room_run (C:=C) (P:=P) (Some newConnetion) log_errno others p q x Hok Hb Hf)
      as (fd & k & Hfd & Hn & Hok' & Ho & Hq & E).
    destruct (newConnetion_spec fd p (Acceptor.user x) Hinv Hlt) as (loop & s1 & E1 & Hi1 & Hn1 & Ha & _ & _). rewrite E1 in E.
    eexists. split; [exact E|]. split; [split; [done|cbn; set_solver]|]. split; [done|]. split; [done|]. split.
    { cbn. rewrite (proj1 (inv_id _ Hi1)), (proj1 (inv_id _ Hinv)), Ha, zlen_app. change (zlen [_]) with 1. lia. }
    exists [p]. split; [done|]. cbn. by rewrite Ha, map_app.
Qed.

Lemma accept_all b x : Acceptor.ready x -> inv (Acceptor.user x) -> m_nextConnId (Acceptor.user x) + Z.of_nat (length b) < 2 ^ 31 ->
  backlog (Acceptor.os x) = b ->
  exists x' taken, readable (length b) x = Ret (tt, x') /\ Acceptor.ready x' /\ backlog (Acceptor.os x') = [] /\ inv (Acceptor.user x')
    /\ taken `sublist_of` b /\ map c_peer (allocated (Acceptor.user x')) = map c_peer (allocated (Acceptor.user x)) ++ taken.
Proof.
  clear toIpPort p_loop. revert x. induction b as [|p q IH]; intros x Hr Hinv Hlt Hb; cbn [length Acceptor.readable].
  - exists x, []. by rewrite app_nil_r.
  - cbn [length] in Hlt. destruct (accept_step p q x Hr Hinv) as (x1 & E & Hr1 & Hb1 & Hi1 & Hid & taken & Ht & Ha); [lia|done|].
    rewrite (ST_bind_eq _ _ _ _ _ E). destruct (IH x1 Hr1 Hi1 ltac:(lia) Hb1) as (x2 & taken2 & E2 & Hr2 & Hb2 & Hi2 & Ht2 & Ha2).
    exists x2, (taken ++ taken2). rewrite Ha2, Ha, <- app_assoc. split_and!; try done. by apply (sublist_app taken [p]).
Qed.
End accepting.
End server.

(** A server that has started and has no connection yet. *)
Definition started {Loop} (name ip : bytes) (pool : EventLoopThreadPool.t Loop) : t Loop := mk name ip pool ∅ 1 [] [].

Lemma started_inv {Loop} name ip (pool : EventLoopThreadPool.t Loop) : pool_ok pool -> inv (started name ip pool).
Proof. intros Hp. split; [done|done| |]; intros p c Hc; cbn in Hc; [by rewrite lookup_nil in Hc|by rewrite lookup_empty in Hc]. Qed.

(** C10. The server is what its contract says: connections get the numbers of
    their arrival, keep them until their one removal, and each has a name no
    other has; the loops of the pool take the connections in turn, and a loop is
    told to establish each of its connections when it comes and to destroy it
    when it goes; a removal of what is not in the set fails the assertion. *)
Theorem server_refines {Loop} getLocalAddr name ip (pool : EventLoopThreadPool.t Loop) es
    (Hp : pool_ok pool) (Hlen : Z.of_nat (length es) < 2 ^ 31 - 1) :
  match live es (0%nat, ∅) with
  | Some (n, l) => exists s, run getLocalAddr es (started name ip pool) = Ret s
      /\ dom (m_connectionsSet s) = l /\ map c_peer (allocated s) = peers es /\ length (allocated s) = n
      /\ (forall p c, m_connectionsSet s !! p = Some c -> c_name c = name ++ lit "#" ++ dec (1 + Z.of_nat p))
      /\ (forall p q c d, m_connectionsSet s !! p = Some c -> m_connectionsSet s !! q = Some d -> c_name c = c_name d -> p = q)
      /\ given s = tasks (loop_at pool) 0 es
  | None => run getLocalAddr es (started name ip pool) = Crash AssertFailure
  end.
Proof.
  pose proof (run_live getLocalAddr es _ (started_inv name ip pool Hp)) as H. cbn [started m_nextConnId allocated m_connectionsSet length] in H.
  rewrite dom_empty_L in H. specialize (H ltac:(lia)). destruct (live es (0%nat, ∅)) as [[n l]|]; [|done].
  destruct H as (s & E & Hi & Hn & Hd & Hl & Hpe). exists s. split; [done|]. split; [done|]. split; [done|]. split; [done|].
  assert (forall p c, m_connectionsSet s !! p = Some c -> c_name c = name ++ lit "#" ++ dec (1 + Z.of_nat p)) as Hname.
  { intros p c Hc. apply (inv_set _ Hi) in Hc. rewrite (inv_names _ Hi p c Hc), Hn. done. }
  split; [done|]. split.
  - intros p q c d Hc Hq E2. rewrite (Hname p c Hc), (Hname q d Hq) in E2. apply app_inv_head, app_inv_head, dec_inj in E2. lia.
  - by apply (run_tasks getLocalAddr (loop_at pool) es _ _ (started_inv name ip pool Hp)) in E; [|cbn; lia|..].
Qed.

(** From the listening socket to the set of connections: when the loop has
    reported the listening socket as often as there were clients, every client
    is connected, in the order of the queue, or was refused for want of a
    descriptor; nothing else happens. *)
Theorem clients_connected {Loop C P K} `{!Os K} `{!OsSpec K} getLocalAddr log_errno others
    (x : Acceptor.state C P K (t Loop)) (Hlog : log_errno EMFILE = EMFILE) (Hoth : forall k, others k = k)
    (Hr : Acceptor.ready x) (Hi : inv (Acceptor.user x))
    (Hlt : m_nextConnId (Acceptor.user x) + Z.of_nat (length (backlog (Acceptor.os x))) < 2 ^ 31) :
  exists x' taken, Acceptor.readable (C:=C) (P:=P) (Some (newConnetion getLocalAddr)) log_errno others (length (backlog (Acceptor.os x))) x
      = Ret (tt, x')
    /\ backlog (Acceptor.os x') = [] /\ taken `sublist_of` backlog (Acceptor.os x)
    /\ map c_peer (allocated (Acceptor.user x')) = map c_peer (allocated (Acceptor.user x)) ++ taken.
Proof.
  destruct (accept_all getLocalAddr log_errno others Hlog Hoth _ x Hr Hi Hlt eq_refl) as (x' & taken & E & _ & Hb & _ & Ht & Ha).
  by exists x', taken.
Qed.

(** ** Two loops, five events *)
Definition demo_pool : EventLoopThreadPool.t nat := EventLoopThreadPool.mk 0%nat true 2 0 [1; 2]%nat.
Lemma demo_pool_ok : pool_ok demo_pool.
Proof. split; [done|right; by vm_compute]. Qed.

Lemma server_refines_witness : exists s,
  run (fun _ => []) [Connection 7 (lit "a"); Connection 8 (lit "b"); Removal 0; Connection 7 (lit "c")] (started (lit "s") [] demo_pool) = Ret s
  /\ dom (m_connectionsSet s) = {[1%nat; 2%nat]} /\ map c_peer (allocated s) = [lit "a"; lit "b"; lit "c"].
Proof.
  destruct (server_refines (fun _ => []) (lit "s") [] demo_pool
    [Connection 7 (lit "a"); Connection 8 (lit "b"); Removal 0; Connection 7 (lit "c")] demo_pool_ok ltac:(by vm_compute))
    as (s & E & Hd & Hp & _).
  exists s. split; [exact E|]. split; [rewrite Hd; vm_compute; reflexivity|exact Hp].
Defined.

Lemma clients_connected_witness : exists x' taken,
  Acceptor.readable (C:=unit) (P:=Epoll.t (gmap Z Z)) (Some (newConnetion (fun _ => []))) id id 3
    (Acceptor.mk (Acceptor.mkAcceptor 3 true 4) (mkWorld ∅ (Epoll.init ∅)) (Acceptor.demo_table [lit "a"; lit "b"; lit "c"] 3)
       (started (lit "s") [] demo_pool)) = Ret (tt, x')
  /\ backlog (Acceptor.os x') = [] /\ taken `sublist_of` [lit "a"; lit "b"; lit "c"]
  /\ map c_peer (allocated (Acceptor.user x')) = taken.
Proof.
  destruct (clients_connected (C:=unit) (P:=Epoll.t (gmap Z Z)) (fun _ => []) id id
    (Acceptor.mk (Acceptor.mkAcceptor 3 true 4) (mkWorld ∅ (Epoll.init ∅)) (Acceptor.demo_table [lit "a"; lit "b"; lit "c"] 3)
       (started (lit "s") [] demo_pool)) eq_refl (fun _ => eq_refl)) as (x' & taken & E & Hb & Ht & Ha).
  - split; [apply Acceptor.demo_table_ok; lia|by_compute].
  - apply started_inv, demo_pool_ok.
  - by vm_compute.
  - exists x', taken. split; [exact E|]. split; [exact Hb|]. split; [exact Ht|exact Ha].
Defined.
End TcpServer.
