(* ===== verification/Tcp.v ===== *)
(** Tcp/TcpConnection and the life of a connection in Tcp/TcpServer: a
    connection, its channel in the poller of its loop, and the two loops that
    work on it. *)
From S2P Require Import Prelude Cxx Buffer Channel.

Module TcpConnection.

Inductive StateE := kDisConnected | kConnecting | kDisConnecting | kConnected.

#[global] Instance StateE_eq_dec : EqDecision StateE.
Proof. solve_decision. Defined.

(** The callbacks a connection binds to its channel. *)
Inductive callback := OnRead | OnWrite | OnError | OnClose.

(** What write(2) does. A write to a connection the peer has reset raises
    SIGPIPE, and fails with EPIPE only when the process ignores the signal. *)
Inductive write_result := Wrote (n : Z) | WouldBlock | BrokenPipe (sigpipe_ignored : bool) | ConnReset | WriteFailed.

(** A [void*] with a length, into memory of the caller. *)
Record range := mkRange { loc : nat; off : Z; len : Z }.
(** The data of a [send]: a value of the loop thread, or memory of another. *)
Inductive source := Bytes (d : bytes) | Memory (r : range).

(** What is queued in the loop of the connection, and in the loop of the
    server. *)
Inductive functor := FEstablish | FSend (d : source) | FShutdown | FForceClose | FDestroy.
Inductive server_functor := FRemove.

(** What a message callback does with the connection. *)
Inductive user_op := USend (d : bytes) | UShutdown | UForceClose.

(** The connection with its user's data [user], its loop and its server:
    [wld] the channels and the poller, [connected] whether the server's set
    holds it, [wire] and [shut] what the kernel was given, [calls] the number
    of system calls, [mem] the memory of other threads. *)
Record t (U P : Type) := mk {
  wld : world callback P;
  m_state : StateE;
  m_inputBuffer : Buffer.t;
  m_outputBuffer : Buffer.t;
  user : U;
  io_functors : list functor;
  server_functors : list server_functor;
  connected : bool;
  wire : bytes;
  shut : bool;
  calls : nat;
  mem : gmap nat bytes
}.
Arguments mk {U P}. Arguments wld {U P}. Arguments m_state {U P}. Arguments m_inputBuffer {U P}.
Arguments m_outputBuffer {U P}. Arguments user {U P}. Arguments io_functors {U P}. Arguments server_functors {U P}.
Arguments connected {U P}. Arguments wire {U P}. Arguments shut {U P}. Arguments calls {U P}. Arguments mem {U P}.

Section connection.
Context {U P : Type} `{!Poller callback P}.
(** The channel of the connection. *)
Context (p_channel : Channel.ptr).
(** The [k]-th system call. *)
Context (sys_write : nat -> bytes -> write_result) (sys_readv : nat -> list Z -> Buffer.readv_result).
(** The message callback: what it leaves of the data and the buffer, and what
    it asks of the connection. *)
Context (messageCallBack : U -> Buffer.t -> outcome (U * Buffer.t * list user_op)).
(** [m_connectionCallBack], when set. *)
Context (connectionCallBack : option (U -> U)).
(** The server's loop is the connection's. *)
Context (one_loop : bool).
Abbreviation state := (t U P).
Abbreviation M := (ST state).
Implicit Types s : state.

Definition set_wld x s : state := mk x (m_state s) (m_inputBuffer s) (m_outputBuffer s) (user s) (io_functors s)
  (server_functors s) (connected s) (wire s) (shut s) (calls s) (mem s).
Definition setState x s : state := mk (wld s) x (m_inputBuffer s) (m_outputBuffer s) (user s) (io_functors s)
  (server_functors s) (connected s) (wire s) (shut s) (calls s) (mem s).
Definition set_input x u s : state := mk (wld s) (m_state s) x (m_outputBuffer s) u (io_functors s)
  (server_functors s) (connected s) (wire s) (shut s) (calls s) (mem s).
Definition set_output x s : state := mk (wld s) (m_state s) (m_inputBuffer s) x (user s) (io_functors s)
  (server_functors s) (connected s) (wire s) (shut s) (calls s) (mem s).
Definition set_io x s : state := mk (wld s) (m_state s) (m_inputBuffer s) (m_outputBuffer s) (user s) x
  (server_functors s) (connected s) (wire s) (shut s) (calls s) (mem s).
Definition set_server x c s : state := mk (wld s) (m_state s) (m_inputBuffer s) (m_outputBuffer s) (user s) (io_functors s)
  x c (wire s) (shut s) (calls s) (mem s).
Definition set_wire x s : state := mk (wld s) (m_state s) (m_inputBuffer s) (m_outputBuffer s) (user s) (io_functors s)
  (server_functors s) (connected s) x (shut s) (S (calls s)) (mem s).
Definition set_shut s : state := mk (wld s) (m_state s) (m_inputBuffer s) (m_outputBuffer s) (user s) (io_functors s)
  (server_functors s) (connected s) (wire s) true (calls s) (mem s).

(** An operation on the channel. *)
Definition on_world {A} (m : ST (world callback P) A) : M A := fun s =>
  '(a, w) ← m (wld s); Ret (a, set_wld w s).

(** [queueInLoop] of the connection's loop. *)
Definition queue (f : functor) : M unit := modify (fun s => set_io (io_functors s ++ [f]) s).

(** The bytes behind a pointer, when they are used; dangling is undefined. *)
Definition load (d : source) : M bytes :=
  match d with
  | Bytes d => mret d
  | Memory r =>
      m ← gets mem;
      b ← lift (deref (m !! loc r));
      if bool_decide (0 <= off r /\ 0 <= len r /\ off r + len r <= zlen b)
      then mret (zslice (off r) (off r + len r) b) else crash UndefinedBehaviour
  end.

(** [sockets::write]. Nothing under Tcp/ or Http/ ignores SIGPIPE, whose
    default action ends the process; only RedisConnect.h does. *)
Definition write (data : bytes) : M write_result := fun s =>
  match sys_write (calls s) data with
  | Wrote n => Ret (Wrote n, set_wire (wire s ++ ztake n data) s)
  | BrokenPipe false => Crash ProcessExit
  | r => Ret (r, set_wire (wire s) s)
  end.

(** The direct write of [sendInLoop]: what was written, what remains, and
    whether the connection is broken. *)
Definition write_directly (data : bytes) : M (Z * Z * bool) :=
  r ← write data;
  match r with
  | Wrote n => mret (n, u64 (zlen data - n), false)
  | WouldBlock | WriteFailed => mret (0, zlen data, false)
  | BrokenPipe _ | ConnReset => mret (0, zlen data, true)
  end.

(** The rest of the data goes to the output buffer. *)
Definition buffer_rest (data : bytes) (nwrote : Z) : M unit :=
  out ← gets m_outputBuffer;
  out' ← lift (Buffer.append out (zdrop nwrote data));
  _ ← modify (set_output out');
  writing ← on_world (is_writing p_channel);
  if writing : bool then mret tt else on_world (enableWriting p_channel).

Definition sendInLoop (data : bytes) : M unit :=
  st ← gets m_state;
  if decide (st = kDisConnected) then mret tt
  else
    writing ← on_world (is_writing p_channel);
    out ← gets m_outputBuffer;
    '(nwrote, remaining, faultError) ←
      (if negb writing && (Buffer.readableBytes out =? 0) then write_directly data
       else mret (0, zlen data, false));
    _ ← lift (cassert (remaining <=? zlen data));
    if negb faultError && (remaining >? 0) then buffer_rest data nwrote else mret tt.

(** [send] of bytes; [inloop] is [isInloopThread()]. *)
Definition send (inloop : bool) (d : source) : M unit :=
  st ← gets m_state;
  if decide (st = kConnected)
  then if inloop then data ← load d; sendInLoop data else queue (FSend d)
  else mret tt.

(** [send(Buffer* )] of a buffer whose array is at [l]: the buffer it leaves. *)
Definition send_buffer (inloop : bool) (l : nat) (b : Buffer.t) : M Buffer.t :=
  st ← gets m_state;
  if decide (st = kConnected)
  then
    let d := Memory (mkRange l (Buffer.peek b) (Buffer.readableBytes b)) in
    _ ← (if inloop then data ← load d; sendInLoop data else queue (FSend d));
    mret (Buffer.retrieveAll b)
  else mret b.

Definition shutdownInLoop : M unit :=
  writing ← on_world (is_writing p_channel);
  if writing : bool then mret tt else modify set_shut.

Definition shutdown (inloop : bool) : M unit :=
  st ← gets m_state;
  if decide (st = kConnected)
  then
    _ ← modify (setState kDisConnecting);
    if inloop then shutdownInLoop else queue FShutdown
  else mret tt.

Definition forceClose : M unit :=
  st ← gets m_state;
  if decide (st = kConnected \/ st = kDisConnecting)
  then _ ← modify (setState kDisConnecting); queue FForceClose
  else mret tt.

(** TcpServer::removeConnectionInLoop; the close callback of the server's user
    is not set. *)
Definition removeConnectionInLoop : M unit :=
  c ← gets connected;
  _ ← lift (cassert c);
  _ ← modify (fun s => set_server (server_functors s) false s);
  queue FDestroy.

(** TcpServer::removeConnection, the close callback of a connection. *)
Definition removeConnection : M unit :=
  if one_loop then removeConnectionInLoop
  else modify (fun s => set_server (server_functors s ++ [FRemove]) (connected s) s).

Definition handleClose : M unit :=
  st ← gets m_state;
  _ ← lift (cassert (bool_decide (st = kConnected \/ st = kDisConnecting)));
  _ ← modify (setState kDisConnected);
  _ ← on_world (disableAll p_channel);
  removeConnection.

Definition forceCloseInLoop : M unit :=
  st ← gets m_state;
  if decide (st = kConnected \/ st = kDisConnecting) then handleClose else mret tt.

Definition connectEstablished : M unit :=
  st ← gets m_state;
  _ ← lift (cassert (bool_decide (st = kConnecting)));
  _ ← modify (setState kConnected);
  _ ← on_world (enableReading p_channel);
  match connectionCallBack with
  | Some f => modify (fun s => set_input (m_inputBuffer s) (f (user s)) s)
  | None => mret tt
  end.

Definition connectDestroyed : M unit :=
  st ← gets m_state;
  _ ← (if decide (st = kConnected)
       then _ ← modify (setState kDisConnected); on_world (disableAll p_channel)
       else mret tt);
  on_world (remove p_channel).

(** ~TcpConnection *)
Definition destroy : M unit :=
  st ← gets m_state;
  lift (cassert (bool_decide (st = kDisConnected))).

Definition run_user (o : user_op) : M unit :=
  match o with
  | USend d => send true (Bytes d)
  | UShutdown => shutdown true
  | UForceClose => forceClose
  end.
Fixpoint run_users (os : list user_op) : M unit :=
  match os with [] => mret tt | o :: os' => _ ← run_user o; run_users os' end.

(** [handleRead]; an error is only logged. *)
Definition handleRead : M unit :=
  inp ← gets m_inputBuffer;
  k ← gets calls;
  '(n, _, inp') ← lift (Buffer.readFd (sys_readv k) inp);
  _ ← modify (fun s => set_wire (wire s) (set_input inp' (user s) s));
  if n >? 0
  then
    u ← gets user;
    '(u', inp'', os) ← lift (messageCallBack u inp');
    _ ← modify (set_input inp'' u');
    run_users os
  else if n =? 0 then handleClose else mret tt.

(** [handleWrite] is bound to no channel. *)
Definition handleWrite : M unit :=
  writing ← on_world (is_writing p_channel);
  if writing : bool
  then
    out ← gets m_outputBuffer;
    r ← write (Buffer.content out);
    match r with
    | Wrote n =>
        if n >? 0
        then
          out' ← lift (Buffer.retrieve out n);
          _ ← modify (set_output out');
          if Buffer.readableBytes out' =? 0 then on_world (disableWriting p_channel) else mret tt
        else mret tt
    | _ => mret tt
    end
  else mret tt.

Definition run_callback (c : callback) : M unit :=
  match c with
  | OnRead => handleRead
  | OnWrite => handleWrite
  | OnClose => handleClose
  | OnError => mret tt
  end.
Fixpoint run_callbacks (cs : list callback) : M unit :=
  match cs with [] => mret tt | c :: cs' => _ ← run_callback c; run_callbacks cs' end.

(** The poller reports [revents] for the channel. *)
Definition handleEvent (revents : Z) : M unit :=
  c ← on_world (get_channel p_channel);
  let c' := Channel.set_revents revents c in
  _ ← on_world (put_channel p_channel c');
  run_callbacks (Channel.handleEvent c').

Definition run_functor (f : functor) : M unit :=
  match f with
  | FEstablish => connectEstablished
  | FSend d => data ← load d; sendInLoop data
  | FShutdown => shutdownInLoop
  | FForceClose => forceCloseInLoop
  | FDestroy => connectDestroyed
  end.
Fixpoint run_functors (fs : list functor) : M unit :=
  match fs with [] => mret tt | f :: fs' => _ ← run_functor f; run_functors fs' end.
(** [doPendingFunctors] of the connection's loop. *)
Definition doPendingFunctors : M unit :=
  fs ← gets io_functors;
  _ ← modify (set_io []);
  run_functors fs.

(** The server's loop runs what was queued there. *)
Fixpoint run_server (fs : list server_functor) : M unit :=
  match fs with [] => mret tt | FRemove :: fs' => _ ← removeConnectionInLoop; run_server fs' end.
Definition server_turn : M unit :=
  fs ← gets server_functors;
  _ ← modify (fun s => set_server [] (connected s) s);
  run_server fs.

(** A new connection (TcpServer::newConnetion): the constructor binds the read
    and close callbacks, the server keeps it in its set and has it established
    in its loop. *)
Definition new_connection (fd : Z) (u : U) (b : Buffer.t) : M unit :=
  let c := Channel.setCloseCallBack OnClose (Channel.setReadCallBack OnRead (Channel.init fd)) in
  _ ← on_world (put_channel p_channel c);
  _ ← modify (fun s => mk (wld s) kConnecting b b u (io_functors s) (server_functors s) true (wire s) (shut s) (calls s) (mem s));
  if one_loop then connectEstablished else queue FEstablish.

(** ** What happens to a connection: the poller reports events, the loops run
    what is queued, the user sends, shuts down or closes in the loop thread,
    another thread sends, and memory of other threads changes. *)
Inductive event :=
| EEvent (revents : Z)
| EFunctors
| EServer
| EUser (o : user_op)
| EOther (r : range)
| EMemory (m : gmap nat bytes).

Definition step (e : event) : M unit :=
  match e with
  | EEvent revents => handleEvent revents
  | EFunctors => doPendingFunctors
  | EServer => server_turn
  | EUser o => run_user o
  | EOther r => send false (Memory r)
  | EMemory m => modify (fun s => mk (wld s) (m_state s) (m_inputBuffer s) (m_outputBuffer s) (user s) (io_functors s)
      (server_functors s) (connected s) (wire s) (shut s) (calls s) m)
  end.
Fixpoint run (es : list event) : M unit :=
  match es with [] => mret tt | e :: es' => _ ← step e; run es' end.
End connection.
End TcpConnection.
