(* ===== verification/TcpProofs.v ===== *)
(** What becomes of a connection: output that the kernel does not take at
    once, the end of a connection, and data sent from other threads. *)
From S2P Require Import Prelude Cxx Buffer Channel Epoll Tcp.
Import TcpConnection.

Section proofs.
Context {U P : Type} `{!Poller callback P} `{!PollerSpec callback P}.
Context (p_channel : Channel.ptr).
Context (sys_write : nat -> bytes -> write_result) (sys_readv : nat -> list Z -> Buffer.readv_result).
Context (messageCallBack : U -> Buffer.t -> outcome (U * Buffer.t * list user_op)).
Context (connectionCallBack : option (U -> U)).
Context (one_loop : bool).
Implicit Types s : TcpConnection.t U P.
Implicit Types w : world callback P.

(** Data is shorter than 2 GiB. *)
Definition small_source (d : source) : Prop := match d with Bytes d => zlen d < 2 ^ 31 | Memory r => len r < 2 ^ 31 end.
Definition small_op (o : user_op) : Prop := match o with USend d => zlen d < 2 ^ 31 | _ => True end.
Definition small_functor (f : functor) : Prop := match f with FSend d => small_source d | _ => True end.
Definition small_event (e : event) : Prop :=
  match e with EUser o => small_op o | EOther r => len r < 2 ^ 31 | _ => True end.
Context (callback_small : forall u b u' b' os, messageCallBack u b = Ret (u', b', os) -> Forall small_op os).

(** ** Output that waits *)

(** The channel of the connection has [handleWrite] bound to no event, as the
    constructor leaves it. *)
Definition bound (c : Channel.t callback) : list (option callback) :=
  [Channel.m_readCallBack c; Channel.m_writeCallBack c; Channel.m_errorCallBack c; Channel.m_closeCallBack c].
Definition no_write_callback w : Prop := forall c, channels w !! p_channel = Some c -> Some OnWrite ∉ bound c.

(** Bytes [q] wait in the output buffer, and since they do [sent] is what
    went out. *)
Record stuck (sent q : bytes) s : Prop := {
  st_wf : Buffer.wf (m_outputBuffer s);
  st_content : exists more, Buffer.content (m_outputBuffer s) = q ++ more;
  st_wire : q <> [] -> wire s = sent;
  st_callback : no_write_callback (wld s);
  st_small : Forall small_functor (io_functors s)
}.

(** *** Operations on channels *)
Lemma on_world_inv {A} (m : ST (world callback P) A) s a s' : on_world m s = Ret (a, s') ->
  exists w, m (wld s) = Ret (a, w) /\ s' = set_wld w s.
Proof. unfold on_world. destruct (m (wld s)) as [[a1 w]|]; [|done]. intros [= <- <-]. by exists w. Qed.

Lemma no_write_put w p c c0 : channels w !! p = Some c0 -> bound c = bound c0 ->
  no_write_callback w -> no_write_callback (mkWorld (<[p := c]> (channels w)) (poller w)).
Proof.
  intros Hc Hcb Hw d Hd. cbn [channels] in Hd. apply lookup_insert_Some in Hd as [[Hp <-]|[_ Hd]]; [|by apply Hw].
  rewrite Hcb. apply Hw. by rewrite <- Hp.
Qed.

Lemma with_events_preserves f p : preserves no_write_callback (with_events f p).
Proof.
  intros w [] w' Hw H. apply ST_bind_inv in H as (c & w1 & H1 & H). unfold get_channel in H1.
  destruct (channels w !! p) as [c0|] eqn:Hc; [|done]. injection H1 as <- <-.
  rewrite put_bind in H. set (w1 := mkWorld _ _) in H. assert (no_write_callback w1) as Hw1 by (by eapply no_write_put).
  apply ST_bind_inv in H as (c1 & w2 & H1 & H). unfold get_channel in H1.
  destruct (channels w1 !! p) as [c2|] eqn:Hc1; [|done]. injection H1 as <- <-. rewrite put_bind in H.
  set (w2 := mkWorld _ _) in H. assert (no_write_callback w2) as Hw2 by (by apply (no_write_put w1 p _ c2)).
  apply updateChannel_frame in H as (c3 & i & Hc3 & Hch). intros d Hd. rewrite Hch in Hd.
  apply lookup_insert_Some in Hd as [[Hp <-]|[_ Hd]]; [|by apply Hw2]. apply (Hw2 c3). by rewrite <- Hp.
Qed.

Lemma remove_preserves p : preserves no_write_callback (remove p).
Proof.
  intros w [] w' Hw H. apply ST_bind_inv in H as (c & w1 & H1 & H). unfold get_channel in H1.
  destruct (channels w !! p) as [c0|] eqn:Hc; [|done]. injection H1 as <- <-.
  apply ST_bind_inv in H as ([] & w1 & H1 & H). unfold lift in H1. destruct (cassert _); [|done]. injection H1 as _ <-.
  rewrite put_bind in H. apply removeChannel_frame in H. intros d Hd. rewrite H in Hd.
  by eapply (no_write_put w p); [done| |exact Hw|exact Hd].
Qed.

Lemma is_writing_preserves p : preserves no_write_callback (is_writing p).
Proof.
  intros w b w' Hw H. apply ST_bind_inv in H as (c & w1 & H1 & H). unfold get_channel in H1.
  destruct (channels w !! p) as [c0|] eqn:Hc; [|done]. injection H1 as <- <-.
  cbn in H. injection H as _ <-. by eapply no_write_put.
Qed.

(** *** Operations on the connection *)
Section stuck.
Context (sent q : bytes).
Abbreviation I := (stuck sent q).

Lemma stuck_world {A} (m : ST (world callback P) A) : preserves no_write_callback m -> preserves I (on_world m).
Proof.
  intros Hm s a s' [H1 H2 H3 H4 H5] H. apply on_world_inv in H as (w & H & ->). split; try done. by eapply Hm.
Qed.

Lemma stuck_readable s : q <> [] -> I s -> Buffer.readableBytes (m_outputBuffer s) =? 0 = false.
Proof.
  intros Hq [H1 [more H2] _ _ _]. rewrite <- Buffer.zlen_content, H2, zlen_app by done. apply Z.eqb_neq.
  destruct q as [|c q']; [done|]. rewrite zlen_cons. pose proof (zlen_nonneg q'). pose proof (zlen_nonneg more). lia.
Qed.

Lemma stuck_buffer_rest data n : zlen data < 2 ^ 31 -> preserves I (buffer_rest p_channel data n).
Proof.
  intros Hd s a s' Hs H. unfold buffer_rest in H. rewrite gets_bind in H.
  apply ST_bind_inv in H as (out' & s1 & H1 & H). unfold lift in H1.
  destruct (Buffer.append (m_outputBuffer s) (zdrop n data)) as [b|] eqn:E; [|done]. injection H1 as <- <-.
  rewrite modify_bind in H. pose proof Hs as [Hwf [more Hc] Hw Hcb Hf].
  assert (zlen (zdrop n data) < 2 ^ 31) as Hz by (unfold zlen, zdrop in *; rewrite length_drop; lia).
  destruct (Buffer.append_returns _ _ _ Hwf Hz E) as [Hwf' Hc'].
  assert (I (set_output b s)) as Hs'.
  { split; try done. cbn. rewrite Hc', Hc, <- app_assoc. by eexists. }
  revert H. apply (preserves_bind I); [apply stuck_world, is_writing_preserves| |done].
  intros [|]; [apply preserves_ret|apply stuck_world, with_events_preserves].
Qed.

Lemma stuck_write data : q = [] -> preserves I (write_directly sys_write data).
Proof.
  intros Hq s a s' [H1 H2 H3 H4 H5] H. unfold write_directly in H. apply ST_bind_inv in H as (r & s1 & Hw & H).
  assert (s' = s1) as -> by (destruct r; by injection H). clear H. unfold write in Hw.
  destruct (sys_write (calls s) data) as [n| |[|]| |]; try done; injection Hw as _ <-; by split.
Qed.

Lemma stuck_sendInLoop data : zlen data < 2 ^ 31 -> preserves I (sendInLoop p_channel sys_write data).
Proof.
  intros Hd s a s' Hs H. unfold sendInLoop in H. rewrite gets_bind in H. case_decide; [by injection H as <- <-|].
  apply ST_bind_inv in H as (writing & s1 & H1 & H).
  assert (I s1) as Hs1 by (by eapply (stuck_world _ (is_writing_preserves p_channel))).
  rewrite gets_bind in H. apply ST_bind_inv in H as ([[nw rem] fault] & s2 & H2 & H).
  assert (I s2) as Hs2.
  { destruct (decide (q = [])) as [Hq|Hq]; [|rewrite (stuck_readable s1 Hq Hs1), andb_false_r in H2; by injection H2 as _ _ _ <-].
    destruct (_ && _); [by eapply (stuck_write data Hq s1)|by injection H2 as _ _ _ <-]. }
  apply ST_bind_inv in H as ([] & s3 & H3 & H). assert (s3 = s2) as -> by (unfold lift in H3; destruct (cassert _); [by injection H3|done]).
  destruct (negb fault && _); [by eapply stuck_buffer_rest|by injection H as <- <-].
Qed.

Lemma load_preserves d : preserves I (load d).
Proof.
  destruct d as [d|r]; unfold load; [apply preserves_ret|]. apply preserves_bind; [apply preserves_gets|]. intros m.
  apply preserves_bind; [apply preserves_lift|]. intros b. case_bool_decide; [apply preserves_ret|apply preserves_crash].
Qed.

Lemma load_length d s b s' : small_source d -> load d s = Ret (b, s') -> zlen b < 2 ^ 31.
Proof.
  destruct d as [d|r]; unfold load; intros Hd H; [by injection H as <- _|]. rewrite gets_bind in H.
  apply ST_bind_inv in H as (m & s1 & H1 & H). case_bool_decide as Hr; [|done]. injection H as <- _.
  rewrite zlen_zslice by lia. cbn in Hd. lia.
Qed.

Lemma stuck_load_send d : small_source d -> preserves I (data ← load d; sendInLoop p_channel sys_write data).
Proof.
  intros Hd s a s' Hs H. apply ST_bind_inv in H as (b & s1 & H1 & H).
  eapply stuck_sendInLoop; [by eapply load_length| |exact H]. by eapply load_preserves.
Qed.

Lemma stuck_queue f : small_functor f -> preserves I (queue f).
Proof.
  intros Hf. apply preserves_modify. intros s [H1 H2 H3 H4 H5]. split; try done. cbn. apply Forall_app. by split; [|constructor].
Qed.

Lemma stuck_send inloop d : small_source d -> preserves I (send p_channel sys_write inloop d).
Proof.
  intros Hd. unfold send. apply preserves_bind; [apply preserves_gets|]. intros st. apply preserves_decide; [|apply preserves_ret].
  destruct inloop; [by apply stuck_load_send|by apply stuck_queue].
Qed.

Lemma stuck_modify f : (forall s, m_outputBuffer (f s) = m_outputBuffer s /\ wire (f s) = wire s /\ wld (f s) = wld s
    /\ io_functors (f s) = io_functors s) -> preserves I (modify f).
Proof.
  intros Hf. apply preserves_modify. intros s [H1 H2 H3 H4 H5]. destruct (Hf s) as (E1 & E2 & E3 & E4).
  split; by rewrite ?E1, ?E2, ?E3, ?E4.
Qed.

Ltac keep := repeat first
  [ apply preserves_ret | apply preserves_gets | apply preserves_lift | apply preserves_crash
  | apply preserves_decide | apply preserves_if | apply stuck_modify; done
  | apply preserves_bind; [|intros ?]
  | apply stuck_world, with_events_preserves | apply stuck_world, is_writing_preserves
  | apply stuck_world, remove_preserves | apply stuck_queue; done ].

Lemma stuck_shutdownInLoop : preserves I (shutdownInLoop p_channel).
Proof. unfold shutdownInLoop. keep. Qed.
Lemma stuck_shutdown inloop : preserves I (shutdown p_channel inloop).
Proof. unfold shutdown. keep; apply stuck_shutdownInLoop. Qed.
Lemma stuck_forceClose : preserves I forceClose.
Proof. unfold forceClose. keep. Qed.
Lemma stuck_removeConnectionInLoop : preserves I removeConnectionInLoop.
Proof. unfold removeConnectionInLoop. keep. Qed.
Lemma stuck_handleClose : preserves I (handleClose p_channel one_loop).
Proof. unfold handleClose, removeConnection. keep; apply stuck_removeConnectionInLoop. Qed.
Lemma stuck_forceCloseInLoop : preserves I (forceCloseInLoop p_channel one_loop).
Proof. unfold forceCloseInLoop. keep; apply stuck_handleClose. Qed.
Lemma stuck_connectEstablished : preserves I (connectEstablished p_channel connectionCallBack).
Proof. unfold connectEstablished. destruct connectionCallBack; keep. Qed.
Lemma stuck_connectDestroyed : preserves I (connectDestroyed p_channel).
Proof. unfold connectDestroyed. keep. Qed.

Lemma stuck_run_user o : small_op o -> preserves I (run_user p_channel sys_write o).
Proof.
  destruct o; cbn; intros Ho; [by apply stuck_send|apply stuck_shutdown|apply stuck_forceClose].
Qed.
Lemma stuck_run_users os : Forall small_op os -> preserves I (run_users p_channel sys_write os).
Proof.
  induction 1 as [|o os Ho Hos IH]; cbn; [apply preserves_ret|]. apply preserves_bind; [by apply stuck_run_user|done].
Qed.

Lemma stuck_handleRead : preserves I (handleRead p_channel sys_write sys_readv messageCallBack one_loop).
Proof.
  unfold handleRead. do 2 (apply preserves_bind; [apply preserves_gets|intros ?]).
  apply preserves_bind; [apply preserves_lift|]. intros [[n e] inp']. apply preserves_bind; [by apply stuck_modify|].
  intros _. apply preserves_if; [|apply preserves_if; [apply stuck_handleClose|apply preserves_ret]].
  apply preserves_bind; [apply preserves_gets|]. intros u s b s' Hs H. apply ST_bind_inv in H as ([[u' b'] os] & s1 & H1 & H).
  unfold lift in H1. destruct (messageCallBack u inp') as [[[u2 b2] os2]|] eqn:E; [|done].
  injection H1 as <- <- <- <-. rewrite modify_bind in H. apply callback_small in E.
  eapply (stuck_run_users _ E); [|exact H]. by destruct Hs as [H1 H2 H3 H4 H5].
Qed.

Lemma stuck_run_callbacks cs : OnWrite ∉ cs ->
  preserves I (run_callbacks p_channel sys_write sys_readv messageCallBack one_loop cs).
Proof.
  induction cs as [|c cs IH]; intros Hc; cbn; [apply preserves_ret|]. apply not_elem_of_cons in Hc as [Hne Hc].
  apply preserves_bind; [|intros _; by apply IH]. destruct c; cbn; try done.
  - apply stuck_handleRead.
  - apply preserves_ret.
  - apply stuck_handleClose.
Qed.

Lemma handleEvent_bound (c : Channel.t callback) cb : cb ∈ Channel.handleEvent c -> Some cb ∈ bound c.
Proof.
  unfold Channel.handleEvent, bound. rewrite !elem_of_app, !elem_of_cons. intros [H|[H|[H|H]]].
  all: match type of H with context [if ?b then _ else _] => destruct b end; [|by apply elem_of_nil in H].
  all: match type of H with context [option_list ?o] => destruct o end; cbn in H; [|by apply elem_of_nil in H].
  all: apply list_elem_of_singleton in H as ->; tauto.
Qed.

Lemma stuck_handleEvent revents : preserves I (handleEvent p_channel sys_write sys_readv messageCallBack one_loop revents).
Proof.
  intros s a s' Hs H. apply ST_bind_inv in H as (c & s1 & H1 & H). apply on_world_inv in H1 as (w & Hw & ->).
  unfold get_channel in Hw. destruct (channels (wld s) !! p_channel) as [c0|] eqn:Hc; [|done]. injection Hw as <- <-.
  cbv zeta in H. apply ST_bind_inv in H as ([] & s2 & H2 & H). apply on_world_inv in H2 as (w2 & Hw2 & ->).
  injection Hw2 as <-. revert H. apply (stuck_run_callbacks (Channel.handleEvent (Channel.set_revents revents c0))).
  - intros Hin. apply handleEvent_bound in Hin. by apply (st_callback _ _ _ Hs c0 Hc).
  - destruct Hs as [H1 H2 H3 H4 H5]. split; try done. by eapply no_write_put.
Qed.

Lemma stuck_run_functors fs : Forall small_functor fs ->
  preserves I (run_functors p_channel sys_write connectionCallBack one_loop fs).
Proof.
  induction 1 as [|f fs Hf Hfs IH]; cbn; [apply preserves_ret|]. apply preserves_bind; [|done]. destruct f; cbn.
  - apply stuck_connectEstablished.
  - by apply stuck_load_send.
  - apply stuck_shutdownInLoop.
  - apply stuck_forceCloseInLoop.
  - apply stuck_connectDestroyed.
Qed.

Lemma stuck_doPendingFunctors : preserves I (doPendingFunctors p_channel sys_write connectionCallBack one_loop).
Proof.
  intros s a s' Hs H. unfold doPendingFunctors in H. rewrite gets_bind, modify_bind in H.
  eapply (stuck_run_functors _ (st_small _ _ _ Hs)); [|exact H]. destruct Hs as [H1 H2 H3 H4 H5]. by split.
Qed.

Lemma stuck_run_server fs : preserves I (run_server fs).
Proof.
  induction fs as [|[] fs IH]; cbn; [apply preserves_ret|]. apply preserves_bind; [apply stuck_removeConnectionInLoop|done].
Qed.

Lemma stuck_step e : small_event e ->
  preserves I (step p_channel sys_write sys_readv messageCallBack connectionCallBack one_loop e).
Proof.
  destruct e as [revents| | |o|r|m]; cbn [step small_event]; intros He.
  - apply stuck_handleEvent.
  - apply stuck_doPendingFunctors.
  - unfold server_turn. apply preserves_bind; [apply preserves_gets|]. intros fs.
    apply preserves_bind; [by apply stuck_modify|]. intros _. apply stuck_run_server.
  - by apply stuck_run_user.
  - by apply stuck_send.
  - by apply stuck_modify.
Qed.

Lemma stuck_run es : Forall small_event es ->
  preserves I (run p_channel sys_write sys_readv messageCallBack connectionCallBack one_loop es).
Proof.
  induction 1 as [|e es He Hes IH]; cbn; [apply preserves_ret|]. apply preserves_bind; [by apply stuck_step|done].
Qed.
End stuck.

(** *** An established connection *)

(** Its channel is registered and does not write. *)
Record established s (c : Channel.t callback) : Prop := {
  es_state : m_state s = kConnected;
  es_ok : poller_ok (wld s);
  es_channel : channels (wld s) !! p_channel = Some c;
  es_map : m_channels (C:=callback) (poller (wld s)) !! Channel.m_fd c = Some p_channel;
  es_quiet : Channel.has (Channel.m_events c) Channel.kWriteEvent = false;
  es_buffer : Buffer.wf (m_outputBuffer s);
  es_functors : Forall small_functor (io_functors s)
}.

Lemma on_world_run {A} (m : ST (world callback P) A) s a w : m (wld s) = Ret (a, w) -> on_world m s = Ret (a, set_wld w s).
Proof. unfold on_world. by intros ->. Qed.

(** Establishing a connection registers its channel for reading. *)
Lemma connectEstablished_spec s c : m_state s = kConnecting -> poller_ok (wld s) ->
  channels (wld s) !! p_channel = Some c -> may_update (wld s) p_channel c -> Channel.m_events c = 0 ->
  Buffer.wf (m_outputBuffer s) -> Forall small_functor (io_functors s) ->
  exists s1 c1, connectEstablished p_channel connectionCallBack s = Ret (tt, s1) /\ established s1 c1
    /\ bound c1 = bound c /\ Channel.m_fd c1 = Channel.m_fd c /\ Channel.m_events c1 = Channel.kReadEvent
    /\ interest (poller (wld s1)) = <[Channel.m_fd c := Channel.kReadEvent]> (interest (poller (wld s)))
    /\ m_outputBuffer s1 = m_outputBuffer s /\ wire s1 = wire s /\ calls s1 = calls s
    /\ io_functors s1 = io_functors s /\ connected s1 = connected s /\ m_inputBuffer s1 = m_inputBuffer s
    /\ user s1 = match connectionCallBack with Some f => f (user s) | None => user s end
    /\ channels (wld s1) = <[p_channel := c1]> (channels (wld s))
    /\ m_channels (C:=callback) (poller (wld s1)) = <[Channel.m_fd c := p_channel]> (m_channels (C:=callback) (poller (wld s))).
Proof.
  intros Hst Hok Hc Hm He Hbuf Hf.
  destruct (with_events_spec (fun e => (e .| Channel.kReadEvent)%cxx) (wld s) p_channel c Hok Hc Hm)
    as (i & w' & E & Hok' & Hi & Hch & Hmc & Hint). rewrite He in Hch, Hint.
  set (c1 := Channel.set_index i _) in Hch. set (s0 := set_wld w' (setState kConnected s)).
  set (s1 := match connectionCallBack with Some f => set_input (m_inputBuffer s0) (f (user s0)) s0 | None => s0 end).
  assert (connectEstablished p_channel connectionCallBack s = Ret (tt, s1)) as E1.
  { unfold connectEstablished. rewrite gets_bind, Hst, assert_bind by done. rewrite modify_bind.
    rewrite (ST_bind_eq _ _ _ _ _ (on_world_run _ (setState kConnected s) _ _ E)). unfold s1. by destruct connectionCallBack. }
  assert (m_state s1 = kConnected /\ wld s1 = w' /\ m_outputBuffer s1 = m_outputBuffer s /\ io_functors s1 = io_functors s
    /\ wire s1 = wire s /\ calls s1 = calls s /\ connected s1 = connected s /\ m_inputBuffer s1 = m_inputBuffer s
    /\ user s1 = match connectionCallBack with Some f => f (user s) | None => user s end)
    as (F1 & F2 & F3 & F4 & F5 & F6 & F7 & F8 & F9).
  { unfold s1. by destruct connectionCallBack. }
  exists s1, c1. split; [done|]. split.
  - split; rewrite ?F1, ?F2, ?F3, ?F4; try done; [by rewrite Hch, lookup_insert_eq|by rewrite Hmc, lookup_insert_eq].
  - rewrite F2, F3, F4, F5, F6, F7, F8, F9. by rewrite Hint.
Qed.

(** [isWriting] of a channel that does not write. *)
Lemma quiet_is_writing w p c : poller_ok w -> channels w !! p = Some c ->
  Channel.has (Channel.m_events c) Channel.kWriteEvent = false ->
  exists c', is_writing p w = Ret (false, mkWorld (<[p := c']> (channels w)) (poller w))
    /\ c' = Channel.set_events 0 c /\ poller_ok (mkWorld (<[p := c']> (channels w)) (poller w)).
Proof.
  intros Hok Hc Hq. exists (Channel.set_events 0 c). unfold is_writing.
  rewrite (ST_bind_eq _ _ _ _ _ (get_channel_run w p c Hc)). unfold Channel.isWriting, Channel.has in *.
  apply negb_false_iff, Z.eqb_eq in Hq. rewrite Hq. cbn. split; [done|]. split; [done|].
  by apply (poller_ok_put w p c).
Qed.

(** [enableWriting] of a registered channel whose events are 0. *)
Lemma enableWriting_spec w p c : poller_ok w -> channels w !! p = Some c -> Channel.m_events c = 0 ->
  m_channels (C:=callback) (poller w) !! Channel.m_fd c = Some p ->
  exists w' c', enableWriting p w = Ret (tt, w') /\ poller_ok w' /\ channels w' = <[p := c']> (channels w)
    /\ bound c' = bound c /\ interest (poller w') = <[Channel.m_fd c := Channel.kWriteEvent]> (interest (poller w)).
Proof.
  intros Hok Hc He Hm. destruct (poller_ok_registered _ _ _ Hok Hm) as (c1 & Hc1 & _ & Hi).
  rewrite Hc in Hc1. injection Hc1 as <-.
  destruct (with_events_spec (fun e => (e .| Channel.kWriteEvent)%cxx) w p c Hok Hc) as (i & w' & E & Hok' & _ & Hch & _ & Hint);
    [right; by split|].
  eexists w', _. split; [exact E|]. split; [done|]. split; [exact Hch|]. split; [done|]. rewrite Hint, He. done.
Qed.

(** What the kernel did not take is appended to the output buffer, and the
    channel asks for writing. *)
Lemma buffer_rest_spec data n s c : poller_ok (wld s) -> channels (wld s) !! p_channel = Some c ->
  m_channels (C:=callback) (poller (wld s)) !! Channel.m_fd c = Some p_channel ->
  Channel.has (Channel.m_events c) Channel.kWriteEvent = false -> Buffer.wf (m_outputBuffer s) ->
  zlen (zdrop n data) < 2 ^ 31 -> Buffer.m_writerIndex (m_outputBuffer s) + zlen (zdrop n data) <= Buffer.max_size ->
  exists s1 c1, buffer_rest p_channel data n s = Ret (tt, s1)
    /\ interest (poller (wld s1)) = <[Channel.m_fd c := Channel.kWriteEvent]> (interest (poller (wld s)))
    /\ channels (wld s1) !! p_channel = Some c1 /\ bound c1 = bound c
    /\ wire s1 = wire s /\ io_functors s1 = io_functors s /\ Buffer.wf (m_outputBuffer s1)
    /\ Buffer.content (m_outputBuffer s1) = Buffer.content (m_outputBuffer s) ++ zdrop n data.
Proof.
  intros Hok Hc Hm Hq Hwf Hd Hroom. destruct (Buffer.append_spec _ _ Hwf Hd Hroom) as (b & Hb & Hwfb & Hcb & _).
  destruct (quiet_is_writing (wld s) p_channel c Hok Hc Hq) as (c1 & Hiw & -> & Hok1).
  set (w1 := mkWorld _ _) in *. set (c1 := Channel.set_events 0 c) in *.
  assert (channels w1 !! p_channel = Some c1) as Hc1 by apply lookup_insert_eq.
  destruct (enableWriting_spec w1 p_channel c1 Hok1 Hc1 eq_refl Hm) as (w2 & c2 & E2 & _ & Hch & Hbd & Hint).
  exists (set_wld w2 (set_wld w1 (set_output b s))), c2. split.
  - unfold buffer_rest. rewrite gets_bind, Hb. rewrite (lift_bind (Ret b) _ _ b) by done. rewrite modify_bind.
    rewrite (ST_bind_eq _ _ _ _ _ (on_world_run _ (set_output b s) _ _ Hiw)). cbv iota.
    exact (on_world_run _ (set_wld w1 (set_output b s)) _ _ E2).
  - split; [exact Hint|]. split; [cbn [wld set_wld]; rewrite Hch; apply lookup_insert_eq|]. done.
Qed.

(** A new connection holds no bytes back and has [handleWrite] bound to no
    event. *)
Lemma new_connection_bare fd u b s0 s : new_connection p_channel connectionCallBack one_loop fd u b s0 = Ret (tt, s) ->
  Buffer.wf b -> Forall small_functor (io_functors s0) -> stuck [] [] s.
Proof.
  intros H Hb Hf. unfold new_connection in H. cbv zeta in H. set (c := Channel.setCloseCallBack _ _) in H.
  apply ST_bind_inv in H as ([] & s1 & H1 & H). apply on_world_inv in H1 as (w & Hw & ->). injection Hw as <-.
  rewrite modify_bind in H. set (s2 := mk _ _ _ _ _ _ _ _ _ _ _ _) in H.
  assert (stuck [] [] s2) as Hs2.
  { split; cbn; [done|by eexists|done| |done]. intros d Hd. cbn in Hd. rewrite lookup_insert_eq in Hd. injection Hd as <-.
    unfold bound. rewrite !elem_of_cons, elem_of_nil. naive_solver. }
  destruct one_loop; [by eapply stuck_connectEstablished|by eapply (stuck_queue _ _ FEstablish)].
Qed.

(** C26. A message of which the kernel takes only a part wedges its connection.
    After any events of a connection the server made, when nothing waits to be
    written and a [send] is taken in part, the rest goes to the output buffer
    and the kernel is told to watch for writing alone; but the constructor has
    bound nothing to that event - so whatever happens afterwards, no byte is
    sent any more, and the input is not watched. *)
Theorem partial_send_wedges fd u b s0 s1 es0 data n s c :
  new_connection p_channel connectionCallBack one_loop fd u b s0 = Ret (tt, s1) -> Buffer.wf b -> Forall small_functor (io_functors s0) ->
  Forall small_event es0 -> run p_channel sys_write sys_readv messageCallBack connectionCallBack one_loop es0 s1 = Ret (tt, s) ->
  established s c -> Buffer.readableBytes (m_outputBuffer s) = 0 ->
  sys_write (calls s) data = Wrote n -> 0 <= n < zlen data -> zlen data < 2 ^ 31 ->
  Buffer.m_writerIndex (m_outputBuffer s) + zlen data <= Buffer.max_size ->
  exists s2, send p_channel sys_write true (Bytes data) s = Ret (tt, s2)
    /\ interest (poller (wld s2)) = <[Channel.m_fd c := Channel.kWriteEvent]> (interest (poller (wld s)))
    /\ wire s2 = wire s ++ ztake n data /\ Buffer.content (m_outputBuffer s2) = zdrop n data
    /\ forall es, Forall small_event es ->
         match run p_channel sys_write sys_readv messageCallBack connectionCallBack one_loop es s2 with
         | Ret (_, s3) => wire s3 = wire s ++ ztake n data
         | Crash _ => True
         end.
Proof.
  intros Enew Hb Hf He0 Erun [Hst Hok Hc Hm Hq Hbuf Hfs] Hempty Hw Hn Hd Hroom.
  pose proof (st_callback _ _ _ (stuck_run _ _ _ He0 _ _ _ (new_connection_bare _ _ _ _ _ Enew Hb Hf) Erun) c Hc) as Hbd0.
  destruct (quiet_is_writing (wld s) p_channel c Hok Hc Hq) as (c1 & Hiw & -> & Hok1).
  set (w1 := mkWorld _ _) in *. set (c1 := Channel.set_events 0 c) in *.
  assert (zlen (zdrop n data) = zlen data - n) as Hz by (apply zlen_zdrop; lia).
  set (s3 := set_wire (wire s ++ ztake n data) (set_wld w1 s)).
  destruct (buffer_rest_spec data n s3 c1 Hok1) as (s2 & c2 & E & Hint & Hc2 & Hbd & Hwire & Hio & Hwf & Hcont);
    [apply lookup_insert_eq|exact Hm|done|exact Hbuf|lia|unfold s3; cbn; lia|].
  assert (Buffer.content (m_outputBuffer s) = []) as Hnil.
  { apply zlen_zero. by rewrite Buffer.zlen_content. }
  assert (Buffer.content (m_outputBuffer s2) = zdrop n data) as Hq2 by (rewrite Hcont; unfold s3; cbn; by rewrite Hnil).
  exists s2. split; [|split; [exact Hint|]; split; [exact Hwire|]; split; [exact Hq2|]].
  - unfold send. rewrite gets_bind, Hst, decide_True by done. unfold load. rewrite (ST_bind_eq (mret data) _ s data s) by done.
    unfold sendInLoop. rewrite gets_bind, Hst. rewrite (decide_False (P := kConnected = kDisConnected)) by done.
    rewrite (ST_bind_eq _ _ _ _ _ (on_world_run _ s _ _ Hiw)), gets_bind. cbn [m_outputBuffer set_wld]. rewrite Hempty.
    cbn [negb andb Z.eqb]. assert (write_directly sys_write data (set_wld w1 s) = Ret ((n, zlen data - n, false), s3)) as Hwd.
    { unfold write_directly, write, mbind, ST_bind. cbn [calls set_wld]. rewrite Hw. cbn. unwrap. done. }
    rewrite (ST_bind_eq _ _ _ _ _ Hwd). cbv iota beta. rewrite assert_bind by (apply Z.leb_le; lia).
    rewrite (proj2 (Z.gtb_lt _ 0)) by lia. exact E.
  - intros es Hes. destruct (run _ _ _ _ _ _ es s2) as [[[] s4]|f] eqn:Er; [|done].
    assert (stuck (wire s ++ ztake n data) (zdrop n data) s2) as Hst1.
    { split; [done|by exists []; rewrite app_nil_r|done| |by rewrite Hio]. intros d Hd2. rewrite Hc2 in Hd2. injection Hd2 as <-. by rewrite Hbd. }
    apply (st_wire _ _ _ (stuck_run _ _ es Hes s2 tt s4 Hst1 Er)). intros E0. rewrite E0, zlen_nil in Hz. lia.
Qed.

(** A write to a connection that its client has reset ends the process,
    unless the program ignores SIGPIPE. *)
Theorem broken_pipe_ends_process data s c : established s c -> Buffer.readableBytes (m_outputBuffer s) = 0 ->
  sys_write (calls s) data = BrokenPipe false -> send p_channel sys_write true (Bytes data) s = Crash ProcessExit.
Proof.
  intros [Hst Hok Hc Hm Hq Hbuf Hf] Hempty Hw. destruct (quiet_is_writing (wld s) p_channel c Hok Hc Hq) as (c1 & Hiw & _ & _).
  unfold send. rewrite gets_bind, Hst, decide_True by done. unfold load. rewrite (ST_bind_eq (mret data) _ s data s) by done.
  unfold sendInLoop. rewrite gets_bind, Hst. rewrite (decide_False (P := kConnected = kDisConnected)) by done.
  rewrite (ST_bind_eq _ _ _ _ _ (on_world_run _ s _ _ Hiw)), gets_bind. cbn [m_outputBuffer set_wld]. rewrite Hempty.
  cbn [negb andb Z.eqb]. unfold write_directly, write, mbind, ST_bind. cbn [calls set_wld]. by rewrite Hw.
Qed.

(** The kernel takes a message whole: the connection is ready for the next. *)
Lemma send_whole data s c : established s c -> Buffer.readableBytes (m_outputBuffer s) = 0 ->
  sys_write (calls s) data = Wrote (zlen data) -> zlen data < 2 ^ 31 ->
  exists s1 c1, send p_channel sys_write true (Bytes data) s = Ret (tt, s1)
    /\ s1 = set_wire (wire s ++ data) (set_wld (wld s1) s)
    /\ established s1 c1 /\ bound c1 = bound c /\ Channel.m_fd c1 = Channel.m_fd c
    /\ poller (wld s1) = poller (wld s) /\ channels (wld s1) = <[p_channel := c1]> (channels (wld s)).
Proof.
  intros Hes Hempty Hw Hd. destruct Hes as [Hst Hok Hc Hm Hq Hbuf Hf]. pose proof (zlen_nonneg data).
  destruct (quiet_is_writing (wld s) p_channel c Hok Hc Hq) as (c1 & Hiw & -> & Hok1). set (w1 := mkWorld _ _) in *.
  set (s0 := set_wire (wire s ++ data) (set_wld w1 s)). exists s0, (Channel.set_events 0 c). split; [|split; [done|]; split; [|done]].
  2: { split; try done. apply lookup_insert_eq. }
  unfold send. rewrite gets_bind, Hst, decide_True by done. unfold load. rewrite (ST_bind_eq (mret data) _ s data s) by done.
  unfold sendInLoop. rewrite gets_bind, Hst. rewrite (decide_False (P := kConnected = kDisConnected)) by done.
  rewrite (ST_bind_eq _ _ _ _ _ (on_world_run _ s _ _ Hiw)), gets_bind. cbn [m_outputBuffer set_wld]. rewrite Hempty.
  cbn [negb andb Z.eqb]. assert (write_directly sys_write data (set_wld w1 s) = Ret ((zlen data, 0, false), s0)) as Hwd.
  { unfold write_directly, write, mbind, ST_bind. cbn [calls set_wld]. rewrite Hw. cbn. rewrite ztake_all, Z.sub_diag by lia. done. }
  rewrite (ST_bind_eq _ _ _ _ _ Hwd). cbv iota beta. rewrite assert_bind by (apply Z.leb_le; lia). done.
Qed.

(** A message the kernel takes whole goes out at once: the output buffer
    stays empty and the kernel's interest does not change. *)
Theorem send_complete data s c : established s c -> Buffer.readableBytes (m_outputBuffer s) = 0 ->
  sys_write (calls s) data = Wrote (zlen data) -> zlen data < 2 ^ 31 ->
  exists s1, send p_channel sys_write true (Bytes data) s = Ret (tt, s1) /\ wire s1 = wire s ++ data
    /\ m_outputBuffer s1 = m_outputBuffer s /\ m_state s1 = kConnected
    /\ interest (poller (wld s1)) = interest (poller (wld s)) /\ io_functors s1 = io_functors s.
Proof.
  intros Hes Ho Hw Hd. destruct (send_whole data s c Hes Ho Hw Hd) as (s1 & c1 & E & Hs & Hes1 & _ & _ & Hp & _).
  exists s1. split; [done|]. split_and!; [by rewrite Hs|by rewrite Hs|apply Hes1|by rewrite Hp|by rewrite Hs].
Qed.

(** ** The end of a connection *)

(** [handleClose] of a connection of another loop: the kernel keeps watching
    the descriptor, for no event. *)
Lemma handleClose_spec s c : one_loop = false -> established s c ->
  exists s1 c1, handleClose p_channel one_loop s = Ret (tt, s1) /\ m_state s1 = kDisConnected
    /\ server_functors s1 = server_functors s ++ [FRemove]
    /\ channels (wld s1) !! p_channel = Some c1 /\ bound c1 = bound c
    /\ interest (poller (wld s1)) = <[Channel.m_fd c := 0]> (interest (poller (wld s))).
Proof.
  intros Hone [Hst Hok Hc Hm Hq Hbuf Hf].
  destruct (poller_ok_registered _ _ _ Hok Hm) as (c0 & Hc0 & _ & Hi). rewrite Hc in Hc0. injection Hc0 as <-.
  destruct (with_events_spec (fun _ => Channel.kNoneEvent) (wld s) p_channel c Hok Hc) as (i & w' & E & _ & _ & Hch & _ & Hint);
    [right; by split|].
  set (s1 := set_wld w' (setState kDisConnected s)).
  exists (set_server (server_functors s1 ++ [FRemove]) (connected s1) s1). eexists. split.
  - unfold handleClose. rewrite gets_bind, Hst. rewrite assert_bind by (apply bool_decide_true; by left).
    rewrite modify_bind. rewrite (ST_bind_eq _ _ _ _ _ (on_world_run _ (setState kDisConnected s) _ _ E)).
    unfold removeConnection. by rewrite Hone.
  - split; [done|]. split; [done|]. split; [cbn [wld set_server s1 set_wld]; rewrite Hch; apply lookup_insert_eq|].
    split; [done|]. exact Hint.
Qed.

(** [handleClose] of a connection of the server's own loop: its channel asks
    for nothing, the server has forgotten it, and its destruction is queued. *)
Lemma handleClose_own s c : one_loop = true -> established s c -> connected s = true -> io_functors s = [] ->
  exists s1 c1, handleClose p_channel one_loop s = Ret (tt, s1) /\ m_state s1 = kDisConnected
    /\ io_functors s1 = [FDestroy] /\ connected s1 = false /\ wire s1 = wire s
    /\ channels (wld s1) = <[p_channel := c1]> (channels (wld s)) /\ Channel.m_events c1 = Channel.kNoneEvent
    /\ Channel.m_fd c1 = Channel.m_fd c /\ poller_ok (wld s1)
    /\ m_channels (C:=callback) (poller (wld s1)) = m_channels (C:=callback) (poller (wld s)).
Proof.
  clear callback_small. intros Hone [Hst Hok Hc Hm _ _ _] Hcn Hio.
  destruct (poller_ok_registered _ _ _ Hok Hm) as (c0 & Hc0 & _ & Hi). rewrite Hc in Hc0. injection Hc0 as <-.
  destruct (with_events_spec (fun _ => Channel.kNoneEvent) (wld s) p_channel c Hok Hc) as (i & w' & E & Hok' & _ & Hch & Hmc & _);
    [right; by split|].
  set (s1 := set_wld w' (setState kDisConnected s)). set (s2 := set_server (server_functors s1) false s1).
  exists (set_io [FDestroy] s2), (Channel.set_index i (Channel.set_added true (Channel.set_events Channel.kNoneEvent c))).
  split; [|split_and!; try done].
  - unfold handleClose. rewrite gets_bind, Hst. rewrite assert_bind by (apply bool_decide_true; by left).
    rewrite modify_bind. rewrite (ST_bind_eq _ _ _ _ _ (on_world_run _ (setState kDisConnected s) _ _ E)).
    unfold removeConnection. rewrite Hone. unfold removeConnectionInLoop. rewrite gets_bind. cbn [connected set_wld setState].
    rewrite Hcn, assert_bind by done. rewrite modify_bind. unfold queue, modify. cbn [io_functors set_server set_wld setState].
    by rewrite Hio.
  - cbn [wld set_io set_server s2 s1 set_wld]. by rewrite Hmc, insert_id.
Qed.

(** The destruction of a closed connection takes its channel out of the
    poller. *)
Lemma connectDestroyed_spec s c : m_state s = kDisConnected -> poller_ok (wld s) -> channels (wld s) !! p_channel = Some c ->
  Channel.m_events c = Channel.kNoneEvent -> m_channels (C:=callback) (poller (wld s)) !! Channel.m_fd c = Some p_channel ->
  exists w, connectDestroyed p_channel s = Ret (tt, set_wld w s) /\ poller_ok w
    /\ channels w = <[p_channel := Channel.set_added false c]> (channels (wld s))
    /\ m_channels (C:=callback) (poller w) = delete (Channel.m_fd c) (m_channels (C:=callback) (poller (wld s))).
Proof.
  clear callback_small. intros Hst Hok Hc He Hm.
  set (w1 := mkWorld (<[p_channel := Channel.set_added false c]> (channels (wld s))) (poller (wld s))).
  assert (poller_ok w1) as Hok1 by (by apply (poller_ok_put (wld s) p_channel c)).
  destruct (removeChannel_spec w1 p_channel (Channel.set_added false c) Hok1 (lookup_insert_eq _ _ _) Hm He)
    as (w & E & Hok' & Hch & Hmc & _).
  exists w. split; [|done]. unfold connectDestroyed. rewrite gets_bind, Hst, decide_False by done.
  rewrite (ST_bind_eq (mret tt) _ s tt s) by done. apply on_world_run. unfold remove.
  rewrite (ST_bind_eq _ _ _ _ _ (get_channel_run _ _ _ Hc)). rewrite assert_bind by (by apply Z.eqb_eq). rewrite put_bind. exact E.
Qed.

(** With several loops a hang-up after the close aborts the server: the
    channel of a closed connection stays in the poller until the server's loop
    has removed the connection, the kernel reports a hang-up whatever events
    are asked for, and [handleClose] then fails its assertion. *)
Theorem hangup_after_close_aborts s c : one_loop = false -> established s c ->
  Channel.m_closeCallBack c = Some OnClose ->
  exists s1, handleClose p_channel one_loop s = Ret (tt, s1)
    /\ interest (poller (wld s1)) !! Channel.m_fd c = Some Channel.kNoneEvent
    /\ step p_channel sys_write sys_readv messageCallBack connectionCallBack one_loop (EEvent Channel.EVENTHUP) s1
       = Crash AssertFailure.
Proof.
  intros Hone Hes Hcl. destruct (handleClose_spec s c Hone Hes) as (s1 & c1 & E & Hst & _ & Hc1 & Hbd & Hint).
  exists s1. split; [done|]. split; [rewrite Hint; apply lookup_insert_eq|]. cbn [step]. unfold handleEvent.
  rewrite (ST_bind_eq _ _ _ _ _ (on_world_run _ s1 _ _ (get_channel_run _ _ _ Hc1))). cbv zeta.
  set (c2 := Channel.set_revents _ c1). set (w2 := mkWorld (<[p_channel := c2]> (channels (wld s1))) (poller (wld s1))).
  rewrite (ST_bind_eq _ _ (set_wld (wld s1) s1) tt (set_wld w2 s1)) by done.
  assert (Channel.m_closeCallBack c2 = Some OnClose) as Hcl2.
  { unfold bound in Hbd. injection Hbd as _ _ _ Hbd. unfold c2. cbn. by rewrite Hbd. }
  assert (exists cs, Channel.handleEvent c2 = OnClose :: cs) as (cs & ->).
  { unfold Channel.handleEvent. rewrite Hcl2. by eexists. }
  cbn [run_callbacks run_callback]. unfold mbind at 1, ST_bind at 1. unfold handleClose. rewrite gets_bind.
  cbn [m_state set_wld]. rewrite Hst. by rewrite assert_fails.
Qed.

(** ** Data of other threads *)

(** A send from another thread keeps the pointer, not the bytes: when the
    caller's memory is gone before the loop runs what was queued, the send
    reads freed memory. *)
Theorem cross_thread_send_dangles r m s : m_state s = kConnected -> io_functors s = [] -> m !! loc r = None ->
  run p_channel sys_write sys_readv messageCallBack connectionCallBack one_loop [EOther r; EMemory m; EFunctors] s
    = Crash UndefinedBehaviour.
Proof.
  intros Hst Hio Hm. cbn [run step]. unfold send. rewrite (ST_bind_eq _ _ s tt (set_io [FSend (Memory r)] s)).
  - rewrite modify_bind. unfold doPendingFunctors. cbn [run step]. set (s2 := mk _ _ _ _ _ _ _ _ _ _ _ m).
    assert (load (Memory r) (set_io [] s2) = Crash UndefinedBehaviour) as Hl.
    { unfold load. rewrite gets_bind. unfold mbind, ST_bind, lift. cbn [mem set_io s2]. by rewrite Hm. }
    assert (run_functors p_channel sys_write connectionCallBack one_loop [FSend (Memory r)] (set_io [] s2)
      = Crash UndefinedBehaviour) as Hr.
    { cbn [run_functors run_functor]. unfold mbind, ST_bind. by rewrite Hl. }
    unfold mbind, ST_bind. unfold gets, modify. cbn [io_functors s2 set_io]. by rewrite Hr.
  - rewrite gets_bind, Hst, decide_True by done. unfold queue, modify. by rewrite Hio.
Qed.

(** A new connection in the loop of the server. *)
Lemma new_connection_spec fd u b s : one_loop = true -> poller_ok (wld s) ->
  channels (wld s) !! p_channel = None -> m_channels (C:=callback) (poller (wld s)) !! fd = None ->
  Z.of_nat (size (m_channels (C:=callback) (poller (wld s)))) < 2 ^ 30 ->
  Buffer.wf b -> Forall small_functor (io_functors s) ->
  exists s1 c1, new_connection p_channel connectionCallBack one_loop fd u b s = Ret (tt, s1) /\ established s1 c1
    /\ Channel.m_readCallBack c1 = Some OnRead /\ Channel.m_closeCallBack c1 = Some OnClose
    /\ Channel.m_fd c1 = fd /\ connected s1 = true /\ m_outputBuffer s1 = b /\ calls s1 = calls s /\ wire s1 = wire s
    /\ interest (poller (wld s1)) = <[fd := Channel.kReadEvent]> (interest (poller (wld s)))
    /\ m_inputBuffer s1 = b /\ user s1 = match connectionCallBack with Some f => f u | None => u end
    /\ io_functors s1 = io_functors s /\ channels (wld s1) = <[p_channel := c1]> (channels (wld s))
    /\ m_channels (C:=callback) (poller (wld s1)) = <[fd := p_channel]> (m_channels (C:=callback) (poller (wld s))).
Proof.
  clear callback_small messageCallBack sys_readv sys_write. intros Hone Hok Hnew Hfd Hsz Hb Hf. set (c := Channel.setCloseCallBack OnClose (Channel.setReadCallBack OnRead (Channel.init fd))).
  set (w1 := mkWorld (<[p_channel := c]> (channels (wld s))) (poller (wld s))).
  set (s0 := mk w1 kConnecting b b u (io_functors s) (server_functors s) true (wire s) (shut s) (calls s) (mem s)).
  assert (poller_ok w1) as Hok1 by (by apply poller_ok_new).
  assert (channels w1 !! p_channel = Some c) as Hc by apply lookup_insert_eq.
  assert (may_update w1 p_channel c) as Hm by (left; split; [done|]; by split).
  destruct (connectEstablished_spec s0 c eq_refl Hok1 Hc Hm eq_refl Hb Hf)
    as (s1 & c1 & E & Hes & Hb1 & Hfd1 & _ & Hint & Ho & Hw & Hk & Hio & Hcn & Hin & Hus & Hch & Hmc).
  exists s1, c1. split; [unfold new_connection; rewrite Hone; exact E|]. split; [done|].
  unfold bound in Hb1. injection Hb1 as E1 _ _ E4. split_and!; try done; rewrite ?E1, ?E4, ?Hch; try done.
  apply insert_insert_eq.
Qed.

(** A new connection of the server's own loop is established at once: it is
    in the server's set, connected, with empty buffers, and the kernel watches
    its descriptor for input. *)
Theorem new_connection_established fd u b s : one_loop = true -> poller_ok (wld s) ->
  channels (wld s) !! p_channel = None -> m_channels (C:=callback) (poller (wld s)) !! fd = None ->
  Z.of_nat (size (m_channels (C:=callback) (poller (wld s)))) < 2 ^ 30 ->
  Buffer.wf b -> Forall small_functor (io_functors s) ->
  exists s1 c1, new_connection p_channel connectionCallBack one_loop fd u b s = Ret (tt, s1) /\ established s1 c1
    /\ Channel.m_readCallBack c1 = Some OnRead /\ Channel.m_closeCallBack c1 = Some OnClose
    /\ Channel.m_fd c1 = fd /\ connected s1 = true /\ m_outputBuffer s1 = b /\ calls s1 = calls s /\ wire s1 = wire s
    /\ interest (poller (wld s1)) = <[fd := Channel.kReadEvent]> (interest (poller (wld s))).
Proof.
  clear callback_small messageCallBack sys_readv sys_write. intros Hone Hok Hnew Hfd Hsz Hb Hf.
  destruct (new_connection_spec fd u b s Hone Hok Hnew Hfd Hsz Hb Hf)
    as (s1 & c1 & E & Hes & Hr & Hc & Hf1 & Hcn & Ho & Hk & Hw & Hint & _).
  exists s1, c1. by split_and!.
Qed.
End proofs.

(** ** Witnesses: a connection over the epoll, whose kernel takes 3 bytes of
    the second message and everything of the others. *)
Abbreviation epoll := (Epoll.t (gmap Z Z)).
Definition empty_buffer : Buffer.t := Buffer.mk (replicate 24 NUL) 8 8.
Definition discard (u : unit) (b : Buffer.t) : outcome (unit * Buffer.t * list user_op) := Ret (u, Buffer.retrieveAll b, []).
Definition slow_write (k : nat) (d : bytes) : write_result := match k with 1%nat => Wrote 3 | _ => Wrote (zlen d) end.
Definition whole_write (k : nat) (d : bytes) : write_result := Wrote (zlen d).
Definition no_input (k : nat) (iov : list Z) : Buffer.readv_result := Buffer.ReadBytes [].
Definition demo_channel : Channel.t callback := Channel.setCloseCallBack OnClose (Channel.setReadCallBack OnRead (Channel.init 5)).
Definition accepted : TcpConnection.t unit epoll :=
  mk (mkWorld {[ 1%nat := demo_channel ]} (Epoll.init ∅)) kConnecting empty_buffer empty_buffer tt [] [] true [] false 0 ∅.

(** What the kernel of a connection watches. *)
Definition watching (s : TcpConnection.t unit epoll) : gmap Z Z := interest (C := callback) (poller (wld s)).

Lemma empty_buffer_wf : Buffer.wf empty_buffer.
Proof. split; vm_compute; discriminate. Qed.

Lemma discard_small u b u' b' os : discard u b = Ret (u', b', os) -> Forall small_op os.
Proof. by intros [= _ _ <-]. Qed.

Lemma demo_established : exists (s : TcpConnection.t unit epoll) c, established 1 s c /\ m_outputBuffer s = empty_buffer
  /\ calls s = 0%nat /\ Channel.m_closeCallBack c = Some OnClose /\ m_state s = kConnected /\ io_functors s = [].
Proof.
  assert (poller_ok (wld accepted)) as Hok by (by apply init_inv).
  destruct (connectEstablished_spec (U := unit) (P := epoll) 1 None accepted demo_channel eq_refl Hok)
    as (s1 & c1 & _ & Hes & Hb & _ & _ & _ & Ho & _ & Hk & Hio & _); try done; try apply empty_buffer_wf.
  - left. split; [done|]. by split.
  - exists s1, c1. split; [done|]. split; [done|]. split; [done|]. split; [|split; [apply Hes|done]].
    unfold bound in Hb. by injection Hb as _ _ _ ->.
Qed.

Definition unconnected : TcpConnection.t unit epoll :=
  mk (mkWorld ∅ (Epoll.init ∅)) kDisConnected empty_buffer empty_buffer tt [] [] false [] false 0 ∅.

(** The first message goes out whole, of the second the kernel takes three
    bytes. *)
Lemma partial_send_wedges_witness : exists (s1 s s2 : TcpConnection.t unit epoll),
  new_connection 1 None true 9 tt empty_buffer unconnected = Ret (tt, s1)
  /\ run 1 slow_write no_input discard None true [EUser (USend (lit "hi"))] s1 = Ret (tt, s)
  /\ send 1 slow_write true (Bytes (lit "abcdef")) s = Ret (tt, s2)
  /\ watching s2 = <[9 := 4]> (watching s)
  /\ wire s2 = wire s ++ lit "abc" /\ Buffer.content (m_outputBuffer s2) = lit "def"
  /\ forall es, Forall small_event es ->
       match run 1 slow_write no_input discard None true es s2 with
       | Ret (_, s3) => wire s3 = wire s ++ lit "abc"
       | Crash _ => True
       end.
Proof.
  destruct (new_connection_spec (P := epoll) 1 None true 9 tt empty_buffer unconnected) as
    (s1 & c1 & E1 & Hes1 & _ & _ & Hfd & _ & Ho & Hk & _); [done|exact (init_inv ∅ ∅ eq_refl)|done|done|done|apply empty_buffer_wf|done|].
  destruct (send_whole 1 slow_write (lit "hi") s1 c1 Hes1) as (s & c & E2 & Hs & Hes & _ & Hf2 & _);
    [by rewrite Ho|by rewrite Hk|by vm_compute|].
  assert (run 1 slow_write no_input discard None true [EUser (USend (lit "hi"))] s1 = Ret (tt, s)) as E3
    by (cbn [run step run_user]; by rewrite (ST_bind_eq _ _ _ _ _ E2)).
  destruct (partial_send_wedges 1 slow_write no_input discard None true discard_small 9 tt empty_buffer unconnected s1
    [EUser (USend (lit "hi"))] (lit "abcdef") 3 s c E1 empty_buffer_wf) as (s2 & H); try done.
  - constructor; [by vm_compute|constructor].
  - rewrite Hs. cbn. by rewrite Ho.
  - rewrite Hs. cbn. by rewrite Hk.
  - rewrite Hs. cbn. rewrite Ho. by vm_compute.
  - exists s1, s, s2. rewrite Hf2, Hfd in H. exact (conj E1 (conj E3 H)).
Defined.

Lemma send_complete_witness : exists (s : TcpConnection.t unit epoll) s1,
  send 1 whole_write true (Bytes (lit "abc")) s = Ret (tt, s1) /\ wire s1 = wire s ++ lit "abc"
    /\ m_outputBuffer s1 = m_outputBuffer s /\ m_state s1 = kConnected
    /\ watching s1 = watching s /\ io_functors s1 = io_functors s.
Proof.
  destruct demo_established as (s & c & Hes & Ho & Hk & _). exists s.
  apply (send_complete 1 whole_write (lit "abc") s c Hes); [by rewrite Ho|done|by vm_compute].
Defined.

Lemma hangup_after_close_aborts_witness : exists (s : TcpConnection.t unit epoll) (c : Channel.t callback) s1,
  handleClose 1 false s = Ret (tt, s1) /\ watching s1 !! Channel.m_fd c = Some 0
    /\ step 1 whole_write no_input discard None false (EEvent 16) s1 = Crash AssertFailure.
Proof.
  destruct demo_established as (s & c & Hes & _ & _ & Hcl & _). exists s, c.
  exact (hangup_after_close_aborts 1 whole_write no_input discard None false s c eq_refl Hes Hcl).
Defined.

Lemma cross_thread_send_dangles_witness : exists (s : TcpConnection.t unit epoll),
  run 1 whole_write no_input discard None true [EOther (mkRange 7 0 3); EMemory ∅; EFunctors] s = Crash UndefinedBehaviour.
Proof.
  destruct demo_established as (s & c & _ & _ & _ & _ & Hst & Hio). exists s.
  by apply (cross_thread_send_dangles 1 whole_write no_input discard None true (mkRange 7 0 3) ∅ s Hst Hio).
Defined.

Lemma new_connection_established_witness : exists s1 c1,
  new_connection 1 None true 9 tt empty_buffer unconnected = Ret (tt, s1)
  /\ established 1 s1 c1
  /\ Channel.m_readCallBack c1 = Some OnRead /\ Channel.m_closeCallBack c1 = Some OnClose
  /\ Channel.m_fd c1 = 9 /\ connected s1 = true /\ m_outputBuffer s1 = empty_buffer /\ calls s1 = 0%nat /\ wire s1 = []
  /\ watching s1 = <[9 := 3]> ∅.
Proof.
  exact (new_connection_established (P := epoll) 1 None true 9 tt empty_buffer unconnected eq_refl
    (init_inv ∅ ∅ eq_refl) eq_refl eq_refl eq_refl empty_buffer_wf (Forall_nil_2 _)).
Defined.
