(* ===== verification/HttpServer.v ===== *)
(** Http/HttpServer: the callbacks that answer the requests of a connection,
    and a session of requests over the whole stack: channel, buffer, parser,
    response writer and connection. *)
From S2P Require Import Prelude Cxx Ordered Buffer HttpRequest HttpContext HttpResponse Channel Epoll Tcp TcpProofs.
Import TcpConnection.

Module HttpServer.

(** [_context] of a connection, a pointer to its own [HttpContext]; it points
    nowhere before [onConnection]. *)
Abbreviation context := (option HttpContext.t).

Definition defaultHttpCallback (_ : HttpRequest.t) (resp : HttpResponse.t) : HttpResponse.t :=
  let r1 := HttpResponse.setStatusCode resp HttpResponse.k404NotFound in
  let r2 := HttpResponse.setStatusMessage r1 (lit "Not Found") in
  HttpResponse.setCloseConnection r2 true.

Definition onConnection (isConnected : bool) (_context : context) : context :=
  if isConnected then Some HttpContext.init else _context.

(** [close] of [onRequest]. *)
Definition wants_close (req : HttpRequest.t) : bool :=
  let connection := HttpRequest.getHeader req (lit "Connection") in
  bool_decide (connection = lit "close")
  || (bool_decide (HttpRequest.getVersion req = HttpRequest.kHttp10) && negb (bool_decide (connection = lit "Keep-Alive"))).

(** The time [handleRead] passes, [TimeStamp()]. *)
Definition receiveTime : Z := 0.

Section server.
Context (httpCallback_ : HttpRequest.t -> HttpResponse.t -> HttpResponse.t).

(** What [onRequest] asks of the connection. *)
Definition onRequest (req : HttpRequest.t) : outcome (list user_op) :=
  let close := wants_close req in
  let response := httpCallback_ req (HttpResponse.init close) in
  buf ← Buffer.init Buffer.kInitialSize;
  buf' ← HttpResponse.appendToBuffer response buf;
  Ret (USend (Buffer.content buf') :: if HttpResponse.closeConnection response then [UShutdown] else []).

Definition bad_request : bytes := lit "HTTP/1.1 400 Bad Request" ++ CRLF ++ CRLF.

Definition onMessage (_context : context) (buf : Buffer.t) : outcome (context * Buffer.t * list user_op) :=
  context ← deref _context;
  '(ok, context', buf') ← HttpContext.parseRequest (HttpContext.fuel_for buf) context buf receiveTime;
  let refused := if (ok : bool) then [] else [USend bad_request; UShutdown] in
  if HttpContext.gotAll context'
  then
    answer ← onRequest (HttpContext.request context');
    Ret (Some (HttpContext.reset context'), buf', refused ++ answer)
  else Ret (Some context', buf', refused).

(** ** One message *)

(** A request a client writes, and the answer it should get. *)
Record request := mkRequest {
  q_method : HttpRequest.Method;
  q_path : bytes;
  q_query : bytes;
  q_version : HttpRequest.Version;
  q_headers : list (bytes * bytes)
}.
Definition text (q : request) : bytes :=
  HttpContext.render (q_method q) (q_path q) (q_query q) (q_version q) (q_headers q).
Definition well_formed (q : request) : Prop :=
  HttpContext.renderable (q_method q) (q_path q) (q_query q) (q_version q) (q_headers q).
Definition understood (q : request) : HttpRequest.t :=
  HttpRequest.mk (q_method q) (q_version q) (q_path q) (q_query q) receiveTime
    (fold_left (fun acc h => map_set h.1 h.2 acc) (q_headers q) []).
Definition response (q : request) : HttpResponse.t :=
  httpCallback_ (understood q) (HttpResponse.init (wants_close (understood q))).
Definition small (q : request) : Prop := zlen (HttpResponse.render (response q)) < 2 ^ 31.
Definition answer (q : request) : list user_op :=
  USend (HttpResponse.render (response q)) :: if HttpResponse.closeConnection_ (response q) then [UShutdown] else [].

Lemma zlen_body_render r : zlen (HttpResponse.body_ r) <= zlen (HttpResponse.render r).
Proof.
  unfold HttpResponse.render. rewrite !zlen_app. pose proof (zlen_nonneg (HttpResponse.status_line r)).
  pose proof (zlen_nonneg (HttpResponse.framing r)). pose proof (zlen_nonneg CRLF).
  pose proof (zlen_nonneg (concat (map HttpResponse.render_header (HttpResponse.headers_ r)))). lia.
Qed.

Lemma onRequest_spec q : small q -> onRequest (understood q) = Ret (answer q).
Proof.
  intros Hs. unfold small in Hs. unfold onRequest. fold (response q).
  destruct (Buffer.init_spec Buffer.kInitialSize) as (b & -> & Hb & Hc & _ & Hw); [done|by vm_compute|].
  cbn [mbind outcome_bind]. pose proof (zlen_body_render (response q)).
  destruct (HttpResponse.appendToBuffer_spec (response q) b (zlen (HttpResponse.render (response q))))
    as (b' & -> & Hc' & _); [lia| |lia|].
  - split; [done|]. split; [done|]. rewrite Hw. change (2 ^ 31) with 2147483648 in Hs. unfold Buffer.max_size, Buffer.kCheapPrepend. lia.
  - cbn [mbind outcome_bind]. unfold sink_content in Hc'. cbn in Hc'. by rewrite Hc', Hc.
Qed.

(** The parser on a part of a request, and on the rest of it. *)
Lemma parse_part q p m : well_formed q -> text q = p ++ m -> m <> [] ->
  exists c r, HttpContext.parse HttpContext.init p receiveTime = Ret (true, c, r) /\ HttpContext.gotAll c = false
    /\ forall d, HttpContext.parse c (r ++ d) receiveTime = HttpContext.parse HttpContext.init (p ++ d) receiveTime.
Proof.
  intros Hq Ht Hm. pose proof (HttpContext.parse_render _ _ _ _ _ [] receiveTime Hq) as Hp.
  unfold text in Ht. rewrite app_nil_r, Ht in Hp. assert (HttpContext.parsing HttpContext.init) as Hi by (by left).
  unfold HttpContext.parse in Hp |- *.
  destruct (HttpContext.loop (S (length p)) HttpContext.init p receiveTime) as [[[ok c] r]|e] eqn:El.
  - pose proof (fun d => HttpContext.loop_app _ (S (length (p ++ d))) _ _ d _ _ _ _ Hi (Nat.lt_succ_diag_r _) (Nat.lt_succ_diag_r _) El) as Ha.
    rewrite (Ha m) in Hp. destruct ok; [destruct (HttpContext.gotAll c) eqn:Hg|]; cbn [andb negb] in *.
    + injection Hp as _ Hr. by apply app_eq_nil in Hr as [_ ->].
    + exists c, r. split; [done|]. split; [done|]. intros d. by rewrite (Ha d).
    + done.
  - by rewrite (HttpContext.loop_app_crash _ (S (length (p ++ m))) _ _ m _ _ Hi (Nat.lt_succ_diag_r _) (Nat.lt_succ_diag_r _) El) in Hp.
Qed.

(** [onMessage], when the parser stops. *)
Lemma onMessage_parse c b ok c' r : Buffer.wf b -> HttpContext.parse c (Buffer.content b) receiveTime = Ret (ok, c', r) ->
  exists b', HttpContext.parseRequest (HttpContext.fuel_for b) c b receiveTime = Ret (ok, c', b')
    /\ Buffer.wf b' /\ Buffer.content b' = r /\ Buffer.m_buffer b' = Buffer.m_buffer b.
Proof.
  intros Hb Hp. pose proof (HttpContext.parseRequest_refines (HttpContext.fuel_for b) c b receiveTime Hb) as H.
  rewrite HttpContext.fuel_of_content in H by done. unfold HttpContext.parse in Hp. rewrite Hp in H.
  rewrite HttpContext.fuel_of_content by done. destruct H as (b' & E & Hb' & Hc & _).
  exists b'. rewrite E. split_and!; try done. by eapply HttpContext.parseRequest_array.
Qed.

Lemma onMessage_waits c b c' r : Buffer.wf b ->
  HttpContext.parse c (Buffer.content b) receiveTime = Ret (true, c', r) -> HttpContext.gotAll c' = false ->
  exists b', onMessage (Some c) b = Ret (Some c', b', []) /\ Buffer.wf b' /\ Buffer.content b' = r
    /\ Buffer.m_buffer b' = Buffer.m_buffer b.
Proof.
  intros Hb Hp Hg. destruct (onMessage_parse c b true c' r Hb Hp) as (b' & E & Hrest). exists b'. split; [|done].
  unfold onMessage. cbn [deref mbind outcome_bind]. rewrite E. cbn [mbind outcome_bind]. by rewrite Hg.
Qed.

Lemma onMessage_complete q c b r : small q -> Buffer.wf b ->
  HttpContext.parse c (Buffer.content b) receiveTime = Ret (true, HttpContext.mk HttpContext.kGotAll (understood q), r) ->
  exists b', onMessage (Some c) b = Ret (Some HttpContext.init, b', answer q) /\ Buffer.wf b' /\ Buffer.content b' = r
    /\ Buffer.m_buffer b' = Buffer.m_buffer b.
Proof.
  intros Hs Hb Hp. destruct (onMessage_parse _ _ _ _ _ Hb Hp) as (b' & E & Hrest). exists b'. split; [|done].
  unfold onMessage. cbn [deref mbind outcome_bind]. rewrite E. cbn [mbind outcome_bind].
  change (HttpContext.gotAll _) with true. cbn [HttpContext.request HttpContext.request_]. by rewrite onRequest_spec.
Qed.

(** A refused message; and one the parser aborts on. *)
Lemma onMessage_refuses c b c' r : Buffer.wf b -> HttpContext.parse c (Buffer.content b) receiveTime = Ret (false, c', r) ->
  HttpContext.gotAll c' = false ->
  exists b', onMessage (Some c) b = Ret (Some c', b', [USend bad_request; UShutdown]) /\ Buffer.wf b' /\ Buffer.content b' = r
    /\ Buffer.m_buffer b' = Buffer.m_buffer b.
Proof.
  intros Hb Hp Hg. destruct (onMessage_parse c b false c' r Hb Hp) as (b' & E & Hrest). exists b'. split; [|done].
  unfold onMessage. cbn [deref mbind outcome_bind]. rewrite E. cbn [mbind outcome_bind]. by rewrite Hg.
Qed.

Lemma onMessage_aborts c b e : Buffer.wf b -> HttpContext.parse c (Buffer.content b) receiveTime = Crash e ->
  onMessage (Some c) b = Crash e.
Proof.
  intros Hb Hp. pose proof (HttpContext.parseRequest_refines (HttpContext.fuel_for b) c b receiveTime Hb) as H.
  rewrite HttpContext.fuel_of_content in H by done. unfold HttpContext.parse in Hp. rewrite Hp in H.
  unfold onMessage. cbn [deref mbind outcome_bind]. by rewrite HttpContext.fuel_of_content, H.
Qed.

(** One answer per message: for a well-formed request in the buffer the
    server asks the connection to send one response, the rendering of what the
    HTTP callback made of the request, and to shut down when the response
    closes; the context is fresh again and what follows the request stays in
    the buffer - a second request of the same message waits for more input. *)
Theorem onMessage_answers q rest b : well_formed q -> small q -> Buffer.wf b -> Buffer.content b = text q ++ rest ->
  exists b', onMessage (Some HttpContext.init) b = Ret (Some HttpContext.init, b', answer q)
    /\ Buffer.wf b' /\ Buffer.content b' = rest.
Proof.
  intros Hq Hs Hb Hc. destruct (onMessage_complete q HttpContext.init b rest Hs Hb) as (b' & E & Hb' & Hc' & _).
  - rewrite Hc. by apply HttpContext.parse_render.
  - by exists b'.
Qed.

(** ** A session

    A client on one connection sends its requests one after the other, each cut
    into pieces as the network likes. *)
Section session.
Context {P : Type} `{!Poller callback P} `{!PollerSpec callback P}.
Context (p_channel : Channel.ptr).
Context (sys_write : nat -> bytes -> write_result) (sys_readv : nat -> list Z -> Buffer.readv_result).
(** The free space of a socket's send buffer when an answer is written. *)
Context (sndbuf : Z).
Context (one_loop : bool).
Implicit Types s : TcpConnection.t context P.

(** An event of the connection with these callbacks. *)
Definition serve : list event -> ST (TcpConnection.t context P) unit :=
  run p_channel sys_write sys_readv onMessage (Some (onConnection true)) one_loop.
Definition readable : event := EEvent Channel.EVENTIN.
Abbreviation serve1 := (step p_channel sys_write sys_readv onMessage (Some (onConnection true)) one_loop readable).

(** The server has parsed what came so far to [cx] and keeps [r] unread;
    nothing waits to be sent. *)
Record ready s (c : Channel.t callback) (cx : HttpContext.t) (r : bytes) : Prop := {
  rd_established : established p_channel s c;
  rd_context : user s = Some cx;
  rd_input : Buffer.wf (m_inputBuffer s);
  rd_unread : Buffer.content (m_inputBuffer s) = r;
  rd_output : Buffer.readableBytes (m_outputBuffer s) = 0;
  rd_read : Channel.m_readCallBack c = Some OnRead;
  rd_idle : io_functors s = [];
  rd_connected : connected s = true
}.

(** Of the objects of the loop only the channel of the connection changed. *)
Definition own_channel s s1 (c1 : Channel.t callback) : Prop :=
  channels (wld s1) = <[p_channel := c1]> (channels (wld s)) /\ poller (wld s1) = poller (wld s).

Lemma own_channel_trans s s1 s2 c1 c2 : own_channel s s1 c1 -> own_channel s1 s2 c2 -> own_channel s s2 c2.
Proof. intros [E1 F1] [E2 F2]. split; [by rewrite E2, E1, insert_insert_eq|by rewrite F2]. Qed.

Lemma established_revents s c e s1 : established p_channel s c ->
  s1 = set_wld (mkWorld (<[p_channel := Channel.set_revents e c]> (channels (wld s))) (poller (wld s))) s ->
  established p_channel s1 (Channel.set_revents e c).
Proof.
  intros [H1 H2 H3 H4 H5 H6 H7] ->. split; try done; [by apply (poller_ok_put (wld s) p_channel c)|apply lookup_insert_eq].
Qed.

Lemma established_same s s1 c : established p_channel s c -> m_state s1 = m_state s -> wld s1 = wld s ->
  m_outputBuffer s1 = m_outputBuffer s -> io_functors s1 = io_functors s -> established p_channel s1 c.
Proof. intros [] E1 E2 E3 E4. split; by rewrite ?E1, ?E2, ?E3, ?E4. Qed.

Lemma handleEvent_run s c e : channels (wld s) !! p_channel = Some c ->
  handleEvent p_channel sys_write sys_readv onMessage one_loop e s
  = run_callbacks p_channel sys_write sys_readv onMessage one_loop (Channel.handleEvent (Channel.set_revents e c))
      (set_wld (mkWorld (<[p_channel := Channel.set_revents e c]> (channels (wld s))) (poller (wld s))) s).
Proof.
  intros Hc. unfold handleEvent. rewrite (ST_bind_eq _ _ s c s); [done|].
  unfold on_world. rewrite (get_channel_run _ _ _ Hc). by destruct s.
Qed.

Lemma handleRead_message s n e b1 cx u' b2 ops : user s = cx ->
  Buffer.readFd (sys_readv (calls s)) (m_inputBuffer s) = Ret (n, e, b1) -> 0 < n ->
  onMessage cx b1 = Ret (u', b2, ops) ->
  handleRead p_channel sys_write sys_readv onMessage one_loop s
  = run_users p_channel sys_write ops (set_input b2 u' (set_wire (wire s) (set_input b1 cx s))).
Proof.
  intros Hu Eb Hn Em. unfold handleRead. rewrite !gets_bind, Eb, (lift_bind _ _ _ _ eq_refl). cbv iota beta.
  rewrite modify_bind, (proj2 (Z.gtb_lt _ 0)) by lia. rewrite gets_bind. cbn [user set_wire set_input].
  rewrite Hu, Em, (lift_bind _ _ _ _ eq_refl). cbv iota beta. by rewrite modify_bind.
Qed.

(** A piece of input, and the message callback that reads it. *)
Lemma readable_event s c cx r d cx' r' ops : ready s c cx r ->
  (forall iov, sys_readv (calls s) iov = Buffer.ReadBytes d) -> 0 < zlen d <= Buffer.kExtraBufferSize ->
  Buffer.size (m_inputBuffer s) <= 2 ^ 62 ->
  (forall b1, Buffer.wf b1 -> Buffer.content b1 = r ++ d ->
     exists b2, onMessage (Some cx) b1 = Ret (Some cx', b2, ops) /\ Buffer.wf b2 /\ Buffer.content b2 = r'
       /\ Buffer.m_buffer b2 = Buffer.m_buffer b1) ->
  exists s1 c1, step p_channel sys_write sys_readv onMessage (Some (onConnection true)) one_loop readable s
      = (_ ← run_users p_channel sys_write ops; mret tt) s1
    /\ ready s1 c1 cx' r' /\ own_channel s s1 c1 /\ Channel.m_fd c1 = Channel.m_fd c
    /\ calls s1 = S (calls s) /\ wire s1 = wire s
    /\ Buffer.size (m_inputBuffer s1) <= Buffer.size (m_inputBuffer s) + zlen d.
Proof.
  intros [Hes Hu Hin Hr Ho Hrd Hid Hcn] Hread Hd Hsize Hmsg.
  destruct (Buffer.readFd_spec (sys_readv (calls s)) (m_inputBuffer s) d Hin Hsize (Hread _)) as (b1 & Eb & Hb1 & Hc1).
  { pose proof (Buffer.writable_wf _ Hin). destruct Hin. case_match; lia. }
  pose proof Eb as Hgrow. apply Buffer.readFd_grows in Hgrow; [|done|].
  2: { intros iov d0 E. rewrite Hread in E. injection E as <-. unfold Buffer.kExtraBufferSize in Hd. lia. }
  rewrite Hr in Hc1. destruct (Hmsg b1 Hb1 Hc1) as (b2 & Em & Hb2 & Hc2 & Harr).
  set (c1 := Channel.set_revents Channel.EVENTIN c).
  set (s0 := set_wld (mkWorld (<[p_channel := c1]> (channels (wld s))) (poller (wld s))) s).
  set (s1 := set_input b2 (Some cx') (set_wire (wire s0) (set_input b1 (Some cx) s0))). exists s1, c1. split_and!; try done.
  - cbn [step readable]. rewrite (handleEvent_run s c) by apply Hes. fold c1. fold s0.
    assert (Channel.handleEvent c1 = [OnRead]) as ->.
    { unfold Channel.handleEvent. cbn. by rewrite Hrd. }
    cbn [run_callbacks run_callback]. unfold mbind, ST_bind.
    by rewrite (handleRead_message s0 (zlen d) None b1 (Some cx) (Some cx') b2 ops Hu Eb ltac:(lia) Em).
  - split; try done. eapply established_same; [by apply (established_revents s c Channel.EVENTIN s0)|done..].
  - unfold s1, Buffer.size in *. cbn [m_inputBuffer set_input]. rewrite Harr. lia.
Qed.

(** The answer goes out, and the connection is ready again. *)
Lemma send_answer s c cx r d : ready s c cx r -> sys_write (calls s) d = Wrote (zlen d) -> zlen d < 2 ^ 31 ->
  exists s1 c1, send p_channel sys_write true (Bytes d) s = Ret (tt, s1) /\ ready s1 c1 cx r
    /\ own_channel s s1 c1 /\ Channel.m_fd c1 = Channel.m_fd c
    /\ calls s1 = S (calls s) /\ wire s1 = wire s ++ d /\ m_inputBuffer s1 = m_inputBuffer s.
Proof.
  intros [Hes Hu Hin Hr Ho Hrd Hid Hcn] Hw Hd. destruct (send_whole p_channel sys_write d s c Hes Ho Hw Hd)
    as (s1 & c1 & E & Hs1 & Hes1 & Hbd & Hfd & Hpo & Hch). exists s1, c1. unfold bound in Hbd. injection Hbd as Hb1 _ _ _.
  assert (user s1 = user s /\ m_inputBuffer s1 = m_inputBuffer s /\ m_outputBuffer s1 = m_outputBuffer s
    /\ calls s1 = S (calls s) /\ wire s1 = wire s ++ d /\ io_functors s1 = io_functors s /\ connected s1 = connected s)
    as (F1 & F2 & F3 & F4 & F5 & F6 & F7) by (by rewrite Hs1).
  split; [done|]. split; [|done]. split; by rewrite ?F1, ?F2, ?F3, ?F6, ?F7, ?Hb1.
Qed.

(** *** The requests of a session *)

(** What the kernel delivers: the system calls are numbered, one read per
    piece and one write per answer. *)
Fixpoint delivers_pieces (k : nat) (ds : list bytes) : Prop :=
  match ds with
  | [] => True
  | d :: ds' => (forall iov, sys_readv k iov = Buffer.ReadBytes d) /\ delivers_pieces (S k) ds'
  end.
Fixpoint delivers (k : nat) (dss : list (list bytes)) : Prop :=
  match dss with
  | [] => True
  | ds :: dss' => delivers_pieces k ds /\ delivers (S (k + length ds)) dss'
  end.

(** The number of system calls after such a session. *)
Fixpoint calls_after (k : nat) (dss : list (list bytes)) : nat :=
  match dss with [] => k | ds :: dss' => calls_after (S (k + length ds)) dss' end.

(** A piece fits the buffers of one [readv]. *)
Definition piece (d : bytes) : Prop := 0 < zlen d <= Buffer.kExtraBufferSize.
(** The answer fits the send buffer. *)
Definition sendable (q : request) : Prop := zlen (HttpResponse.render (response q)) <= sndbuf.
(** A request the server keeps the connection open for, cut into pieces, with
    an answer that fits. *)
Definition sent_in (ds : list bytes) (q : request) : Prop :=
  well_formed q /\ (small q /\ sendable q) /\ HttpResponse.readable_response (response q) /\ Forall piece ds /\ concat ds = text q.
(** write(2) takes data whole when the send buffer has room for it. *)
Context (takes_whole : forall k d, zlen d <= sndbuf -> sys_write k d = Wrote (zlen d)).

Lemma text_nonempty q : text q <> [].
Proof. unfold text, HttpContext.render. intros H. apply app_eq_nil in H as [_ H]. by apply app_eq_nil in H as [H _]. Qed.

Lemma no_pieces ds : Forall piece ds -> concat ds = [] -> ds = [].
Proof. intros [|d ds' [Hd _] _]; [done|]. cbn. by intros [-> _]%app_eq_nil. Qed.

(** The last piece of a request brings the answer. *)
Lemma last_piece q d p s c cx r : well_formed q -> small q /\ sendable q -> HttpResponse.closeConnection_ (response q) = false ->
  piece d -> text q = p ++ d -> ready s c cx r ->
  (forall d, HttpContext.parse cx (r ++ d) receiveTime = HttpContext.parse HttpContext.init (p ++ d) receiveTime) ->
  (forall iov, sys_readv (calls s) iov = Buffer.ReadBytes d) ->
  Buffer.size (m_inputBuffer s) + zlen d <= 2 ^ 62 ->
  exists s1 c1, serve1 s = Ret (tt, s1) /\ ready s1 c1 HttpContext.init []
    /\ own_channel s s1 c1 /\ Channel.m_fd c1 = Channel.m_fd c
    /\ calls s1 = S (S (calls s)) /\ wire s1 = wire s ++ HttpResponse.render (response q)
    /\ Buffer.size (m_inputBuffer s1) <= Buffer.size (m_inputBuffer s) + zlen d.
Proof.
  intros Hq [Hsm Hfit] Hk Hd Ht Hrdy Hmore Hdel Hsz. pose proof (zlen_nonneg d).
  destruct (readable_event s c cx r d HttpContext.init [] (answer q) Hrdy Hdel Hd)
    as (s1 & c1 & E & Hr1 & Ho1 & Hf1 & Hc1 & Hw1 & Hs1); [lia| |].
  { intros b1 Hb1 Hc1. apply onMessage_complete; [done|done|]. rewrite Hc1, Hmore, <- Ht.
    rewrite <- (app_nil_r (text q)). by apply HttpContext.parse_render. }
  destruct (send_answer s1 c1 HttpContext.init [] (HttpResponse.render (response q)) Hr1)
    as (s2 & c2 & E2 & Hr2 & Ho2 & Hf2 & Hc2 & Hw2 & Hs2); [by apply takes_whole|done|].
  exists s2, c2. split; [|split; [done|]; split; [by eapply own_channel_trans|]; by rewrite Hf2, Hc2, Hw2, Hs2, Hc1, Hw1].
  rewrite E. unfold answer. rewrite Hk. cbn [run_users run_user]. unfold mbind, ST_bind. by rewrite E2.
Qed.

Definition responses (qs : list request) : bytes := concat (map (fun q => HttpResponse.render (response q)) qs).

(** The pieces of a request its client does not finish. *)
Definition unfinished (tail : list bytes) : Prop :=
  tail = [] \/ exists q rest, well_formed q /\ rest <> [] /\ Forall piece tail /\ text q = concat tail ++ rest.

(** The connection serves: what is to come is the pieces [l], the last of them
    the unfinished [tail], and [out] will have been sent when they came, with
    the system call [fin] the next. *)
Inductive serving s (c : Channel.t callback) (tail : list bytes) : list bytes -> bytes -> nat -> Prop :=
| serving_idle : tail = [] -> ready s c HttpContext.init [] -> Buffer.size (m_inputBuffer s) <= 2 ^ 62 -> serving s c tail [] (wire s) (calls s)
| serving_part q ds p rest cx r : tail <> [] -> ready s c cx r -> Forall piece ds ->
    well_formed q -> text q = p ++ concat ds ++ rest -> rest <> [] ->
    (forall d, HttpContext.parse cx (r ++ d) receiveTime = HttpContext.parse HttpContext.init (p ++ d) receiveTime) ->
    delivers_pieces (calls s) ds -> Buffer.size (m_inputBuffer s) + zlen (concat ds) <= 2 ^ 62 ->
    serving s c tail ds (wire s) (calls s + length ds)
| serving_request q ds dss qs p cx r : ready s c cx r -> ds <> [] -> Forall piece ds ->
    well_formed q -> small q /\ sendable q -> HttpResponse.readable_response (response q) -> text q = p ++ concat ds ->
    (forall d, HttpContext.parse cx (r ++ d) receiveTime = HttpContext.parse HttpContext.init (p ++ d) receiveTime) ->
    Forall2 sent_in dss qs -> delivers (calls s) (ds :: dss) ->
    unfinished tail -> delivers_pieces (calls_after (calls s) (ds :: dss)) tail ->
    Buffer.size (m_inputBuffer s) + zlen (concat (ds ++ concat dss ++ tail)) <= 2 ^ 62 ->
    serving s c tail (ds ++ concat dss ++ tail) (wire s ++ responses (q :: qs)) (calls_after (calls s) (ds :: dss) + length tail).

Lemma serving_next s c tail dss qs : ready s c HttpContext.init [] -> Forall2 sent_in dss qs -> delivers (calls s) dss ->
  unfinished tail -> delivers_pieces (calls_after (calls s) dss) tail ->
  Buffer.size (m_inputBuffer s) + zlen (concat (concat dss ++ tail)) <= 2 ^ 62 ->
  serving s c tail (concat dss ++ tail) (wire s ++ responses qs) (calls_after (calls s) dss + length tail).
Proof.
  intros Hr H Hd Hun Hdt Hsz. destruct H as [|ds q dss qs (Hq & Hsm & Hk & Hds & Ht) H].
  - rewrite app_nil_r. cbn [concat app calls_after] in *. destruct tail as [|d tail].
    + change (zlen (concat [])) with 0 in Hsz. rewrite Z.add_0_r in Hsz. rewrite Nat.add_0_r. by apply serving_idle.
    + destruct Hun as [?|(q & rest & Hq & Hrest & Hp & Ht)]; [done|].
      by apply (serving_part s c (d :: tail) q (d :: tail) [] rest HttpContext.init []).
  - cbn [concat] in *. rewrite <- app_assoc in *.
    apply (serving_request s c tail q ds dss qs [] HttpContext.init []); try done. intros ->. by apply (text_nonempty q).
Qed.

Lemma serving_nil s c tail out fin : serving s c tail [] out fin -> out = wire s /\ fin = calls s
  /\ Buffer.size (m_inputBuffer s) <= 2 ^ 62
  /\ exists cx r, ready s c cx r /\ (tail = [] -> cx = HttpContext.init /\ r = []).
Proof.
  remember [] as l eqn:El. destruct 1 as [_ Hr Hsz|q ds p rest cx r Htl Hr _ _ _ _ _ _ Hsz|q ds dss qs p cx r _ Hne].
  - split_and!; try done. by exists HttpContext.init, [].
  - subst ds. change (zlen (concat [])) with 0 in Hsz. rewrite Z.add_0_r in Hsz. rewrite Nat.add_0_r. split_and!; try done. by exists cx, r.
  - by apply app_eq_nil in El as [-> _].
Qed.

(** A piece that does not complete its request. *)
Lemma part_piece q p d m s c cx r : well_formed q -> piece d -> text q = (p ++ d) ++ m -> m <> [] -> ready s c cx r ->
  (forall d, HttpContext.parse cx (r ++ d) receiveTime = HttpContext.parse HttpContext.init (p ++ d) receiveTime) ->
  (forall iov, sys_readv (calls s) iov = Buffer.ReadBytes d) -> Buffer.size (m_inputBuffer s) <= 2 ^ 62 ->
  exists s1 c1 cx' r', serve1 s = Ret (tt, s1) /\ ready s1 c1 cx' r'
    /\ (forall d', HttpContext.parse cx' (r' ++ d') receiveTime = HttpContext.parse HttpContext.init ((p ++ d) ++ d') receiveTime)
    /\ own_channel s s1 c1 /\ Channel.m_fd c1 = Channel.m_fd c /\ calls s1 = S (calls s) /\ wire s1 = wire s
    /\ Buffer.size (m_inputBuffer s1) <= Buffer.size (m_inputBuffer s) + zlen d.
Proof.
  intros Hq Hd Ht Hm Hrdy Hmore Hdel Hsz.
  destruct (parse_part q (p ++ d) m Hq Ht Hm) as (c' & r' & Hp' & Hg' & Hmore').
  destruct (readable_event s c cx r d c' r' [] Hrdy Hdel Hd Hsz) as (s1 & c1 & E & Hr1 & Hrest).
  { intros b1 Hb1 Hc1. apply onMessage_waits; [done| |done]. by rewrite Hc1, Hmore. }
  exists s1, c1, c', r'. split; [by rewrite E|]. done.
Qed.

(** A piece is read: silence until its request is complete, then the answer. *)
Lemma serve_one s c tail d l out fin : serving s c tail (d :: l) out fin ->
  exists s1 c1, serve1 s = Ret (tt, s1) /\ serving s1 c1 tail l out fin /\ own_channel s s1 c1 /\ Channel.m_fd c1 = Channel.m_fd c.
Proof.
  remember (d :: l) as l0 eqn:El.
  destruct 1 as [|q ds p rest cx r Htl Hrdy Hds Hq Ht Hrest Hmore Hdel Hsz
    |q ds dss qs p cx r Hrdy Hne Hds Hq Hsm Hk Ht Hmore Hnext [Hdel Hdels] Hun Hdt Hsz]; [done| |].
  - subst ds. apply Forall_cons in Hds as [Hd Hds]. destruct Hdel as [Hdel1 Hdel2].
    cbn [concat] in *. rewrite zlen_app in Hsz. pose proof (zlen_nonneg (concat l)). pose proof (zlen_nonneg d).
    destruct (part_piece q p d (concat l ++ rest) s c cx r) as (s1 & c1 & c' & r' & E & Hr1 & Hmore1 & Ho1 & Hf1 & Hc1 & Hw1 & Hs1);
      try done; [by rewrite Ht, <- !app_assoc|by intros [_ ?]%app_eq_nil|lia|].
    exists s1, c1. split; [done|]. split; [|done]. rewrite <- Hw1. cbn [length]. rewrite <- Nat.add_succ_comm, <- Hc1.
    apply (serving_part s1 c1 tail q l (p ++ d) rest c' r'); try done; [by rewrite Ht, <- !app_assoc|by rewrite Hc1|lia].
  - destruct ds as [|d0 ds]; [done|]. injection El as -> <-. apply Forall_cons in Hds as [Hd Hds].
    cbn [concat app delivers_pieces calls_after length] in *. destruct Hdel as [Hdel1 Hdel2].
    rewrite concat_app in Hsz. rewrite !zlen_app in Hsz.
    pose proof (zlen_nonneg (concat ds)). pose proof (zlen_nonneg d). pose proof (zlen_nonneg (concat (concat dss ++ tail))).
    destruct (decide (ds = [])) as [->|Hend].
    + cbn [concat length app] in *. rewrite app_nil_r in Ht. rewrite Nat.add_1_r in *.
      destruct (last_piece q d p s c cx r) as (s1 & c1 & E & Hr1 & Ho1 & Hf1 & Hc1 & Hw1 & Hs1); try done; [apply Hk|lia|].
      exists s1, c1. split; [done|]. split; [|done]. rewrite <- Hc1 in *.
      change (responses (q :: qs)) with (HttpResponse.render (response q) ++ responses qs). rewrite app_assoc, <- Hw1.
      apply serving_next; try done. lia.
    + assert (concat ds <> []) as Hc by (intros Hc; by apply Hend, no_pieces).
      destruct (part_piece q p d (concat ds) s c cx r) as (s1 & c1 & c' & r' & E & Hr1 & Hmore1 & Ho1 & Hf1 & Hc1 & Hw1 & Hs1);
        try done; [by rewrite <- app_assoc|lia|].
      exists s1, c1. split; [done|]. split; [|done]. rewrite <- Hw1. rewrite <- Nat.add_succ_comm, <- Hc1 in *.
      apply (serving_request s1 c1 tail q ds dss qs (p ++ d) c' r'); try done.
      * by rewrite <- app_assoc.
      * rewrite concat_app, zlen_app. lia.
Qed.

(** The client closes its side. *)
Lemma hang_up s c cx r : one_loop = true -> ready s c cx r -> Buffer.size (m_inputBuffer s) <= 2 ^ 62 ->
  (forall iov, sys_readv (calls s) iov = Buffer.ReadBytes []) ->
  exists s1 c1, serve1 s = Ret (tt, s1) /\ m_state s1 = kDisConnected /\ io_functors s1 = [FDestroy] /\ wire s1 = wire s
    /\ channels (wld s1) = <[p_channel := c1]> (channels (wld s)) /\ Channel.m_events c1 = Channel.kNoneEvent
    /\ Channel.m_fd c1 = Channel.m_fd c /\ poller_ok (wld s1)
    /\ m_channels (C:=callback) (poller (wld s1)) = m_channels (C:=callback) (poller (wld s)).
Proof.
  intros Hone [Hes Hu Hin Hr Ho Hrd Hid Hcn] Hsize Hread.
  destruct (Buffer.readFd_spec (sys_readv (calls s)) (m_inputBuffer s) [] Hin Hsize (Hread _)) as (b1 & Eb & Hb1 & Hc1).
  { pose proof (Buffer.writable_wf _ Hin). destruct Hin. change (zlen []) with 0. unfold Buffer.kExtraBufferSize. case_match; lia. }
  set (c0 := Channel.set_revents Channel.EVENTIN c).
  set (s0 := set_wld (mkWorld (<[p_channel := c0]> (channels (wld s))) (poller (wld s))) s).
  set (s2 := set_wire (wire s0) (set_input b1 (user s0) s0)).
  assert (established p_channel s2 c0) as Hes2.
  { eapply established_same; [by apply (established_revents s c Channel.EVENTIN s0)|done..]. }
  destruct (handleClose_own p_channel one_loop s2 c0 Hone Hes2 Hcn Hid)
    as (s3 & c1 & E & Hst & Hio & _ & Hw & Hch & Hev & Hf & Hok & Hmc). exists s3, c1. split.
  - cbn [step readable]. rewrite (handleEvent_run s c) by apply Hes. fold c0. fold s0.
    assert (Channel.handleEvent c0 = [OnRead]) as ->.
    { unfold Channel.handleEvent. cbn. by rewrite Hrd. }
    cbn [run_callbacks run_callback]. rewrite (ST_bind_eq _ _ s0 tt s3); [done|].
    unfold handleRead. rewrite !gets_bind. change (sys_readv (calls s0)) with (sys_readv (calls s)).
    change (m_inputBuffer s0) with (m_inputBuffer s). rewrite Eb, (lift_bind _ _ _ _ eq_refl). cbv iota beta.
    rewrite modify_bind. exact E.
  - split_and!; try done. by rewrite Hch; cbn [wld s2 s0 set_wld set_wire set_input channels]; rewrite insert_insert_eq.
Qed.

(** The events of a session: one per piece. *)
Definition arrivals (dss : list (list bytes)) : list event := replicate (length (concat dss)) readable.

Lemma serve_all l out fin s c : serving s c [] l out fin ->
  exists s1 c1, serve (replicate (length l) readable) s = Ret (tt, s1) /\ ready s1 c1 HttpContext.init [] /\ wire s1 = out.
Proof.
  revert s c. induction l as [|d l IH]; intros s c H.
  - exists s, c. apply serving_nil in H as (-> & _ & _ & cx & r & Hr & Hi). by destruct (Hi eq_refl) as [-> ->].
  - destruct (serve_one s c [] d l out fin H) as (s1 & c1 & E & Hs1 & _). destruct (IH s1 c1 Hs1) as (s2 & c2 & E2 & Hrest).
    exists s2, c2. split; [|done]. unfold serve in *. cbn [length replicate run]. by rewrite (ST_bind_eq _ _ _ _ _ E).
Qed.

Lemma sent_text dss qs : Forall2 sent_in dss qs -> concat (concat dss) = concat (map text qs).
Proof.
  induction 1 as [|ds q dss qs (_ & _ & _ & _ & Ht) H IH]; [done|]. cbn [concat map]. by rewrite concat_app, Ht, IH.
Qed.

(** C3. A keep-alive session over the whole stack: a client connects and sends
    one after the other well-formed requests for which the response leaves the
    connection open - HTTP/1.1 without [Connection: close], and a callback that
    does not close - each cut into any pieces; the epoll reports each piece.
    Every answer fits the free space of the send buffer, so that write(2) takes
    it whole.  Every request is answered once, in order, with what the HTTP
    callback made of it; the client reads the bodies back; the connection is
    open for more and nothing is left over. *)
Theorem keep_alive_session fd dss qs s : one_loop = true -> poller_ok (wld s) ->
  channels (wld s) !! p_channel = None -> m_channels (C:=callback) (poller (wld s)) !! fd = None ->
  Z.of_nat (size (m_channels (C:=callback) (poller (wld s)))) < 2 ^ 30 -> io_functors s = [] -> wire s = [] ->
  Forall2 sent_in dss qs -> delivers (calls s) dss -> zlen (concat (map text qs)) <= 2 ^ 61 ->
  exists b s1 c1, Buffer.init Buffer.kInitialSize = Ret b
    /\ (_ ← new_connection p_channel (Some (onConnection true)) one_loop fd None b; serve (arrivals dss)) s = Ret (tt, s1)
    /\ wire s1 = responses qs
    /\ HttpResponse.client_reads (length qs) (wire s1) = Some (map (fun q => HttpResponse.body_ (response q)) qs, [])
    /\ ready s1 c1 HttpContext.init [].
Proof.
  intros Hone Hok Hnew Hfd Hsz Hio Hwire H Hdel Hlen. change (2 ^ 61) with 2305843009213693952 in Hlen.
  destruct (Buffer.init_spec Buffer.kInitialSize) as (b & Eb & Hb & Hc & Hwr & Hw); [done|by vm_compute|].
  rewrite (Buffer.writable_wf b Hb), Hw in Hwr. unfold Buffer.kInitialSize, Buffer.kCheapPrepend in Hwr.
  destruct (new_connection_spec (U := context) p_channel (Some (onConnection true)) one_loop fd None b s Hone Hok Hnew Hfd Hsz Hb)
    as (s0 & c0 & E & Hes & Hrd & _ & _ & Hcn & Ho & Hk & Hw0 & _ & Hin & Hu & Hio0 & _); [by rewrite Hio|].
  assert (ready s0 c0 HttpContext.init []) as Hr0.
  { split; rewrite ?Hin, ?Ho, ?Hio0; try done. by rewrite <- Buffer.zlen_content, Hc by done. }
  destruct (serve_all (concat dss) (wire s0 ++ responses qs) (calls_after (calls s0) dss + 0) s0 c0) as (s1 & c1 & E1 & Hr1 & Hw1).
  { rewrite <- (app_nil_r (concat dss)). apply serving_next; rewrite ?Hk; try done; [by left|]. rewrite app_nil_r, (sent_text _ _ H), Hin. change (2 ^ 62) with 4611686018427387904. lia. }
  rewrite Hw0, Hwire in Hw1. exists b, s1, c1. split_and!; try done.
  - by rewrite (ST_bind_eq _ _ _ _ _ E).
  - rewrite Hw1. cbn [app]. rewrite <- (app_nil_r (responses qs)). unfold responses.
    rewrite <- (map_map response HttpResponse.render), <- (map_map response HttpResponse.body_), <- (length_map response qs).
    apply HttpResponse.client_reads_render. clear - H. induction H as [|ds q dss qs (_ & _ & Hk & _) H IH]; by constructor.
Qed.

(** *** The server closes *)

(** An answer, and the write side shut down. *)
Lemma send_and_shutdown s c cx r d : ready s c cx r -> zlen d < 2 ^ 31 -> zlen d <= sndbuf ->
  exists s1 c1, run_users p_channel sys_write [USend d; UShutdown] s = Ret (tt, s1) /\ wire s1 = wire s ++ d
    /\ m_state s1 = kDisConnecting /\ shut s1 = true /\ own_channel s s1 c1 /\ Channel.m_fd c1 = Channel.m_fd c
    /\ Channel.m_readCallBack c1 = Some OnRead /\ poller_ok (wld s1) /\ io_functors s1 = [] /\ user s1 = Some cx
    /\ m_inputBuffer s1 = m_inputBuffer s /\ calls s1 = S (calls s).
Proof.
  intros Hrdy Hd Hfit. destruct (send_answer s c cx r d Hrdy) as (s2 & c2 & E2 & Hr2 & Ho2 & Hf2 & Hc2 & Hw2 & Hi2); [by apply takes_whole|done|].
  destruct Hr2 as [[Hst Hok Hc _ Hquiet _ _] Hu _ _ _ Hrd Hid _].
  destruct (quiet_is_writing (wld s2) p_channel c2 Hok Hc Hquiet) as (c3 & Hiw & Ec3 & Hok3).
  set (w3 := mkWorld (<[p_channel := c3]> (channels (wld s2))) (poller (wld s2))) in *.
  exists (set_shut (set_wld w3 (setState kDisConnecting s2))), c3. split.
  - cbn [run_users run_user]. rewrite (ST_bind_eq _ _ _ _ _ E2).
    rewrite (ST_bind_eq (shutdown p_channel true) _ s2 tt (set_shut (set_wld w3 (setState kDisConnecting s2)))); [done|].
    unfold shutdown. rewrite gets_bind, Hst, decide_True by done. rewrite modify_bind. unfold shutdownInLoop.
    by rewrite (ST_bind_eq _ _ _ _ _ (on_world_run _ (setState kDisConnecting s2) _ _ Hiw)).
  - cbn [wire set_shut set_wld setState m_state shut io_functors user m_inputBuffer calls].
    split_and!; try done; [|by rewrite Ec3|by rewrite Ec3].
    eapply own_channel_trans; [exact Ho2|by split].
Qed.

(** A request that closes (HTTP/1.0, [Connection: close], or a callback
    that says so) is answered and then the write side is shut down. *)
Theorem closing_request q s c : ready s c HttpContext.init [] -> well_formed q -> small q -> sendable q -> piece (text q) ->
  HttpResponse.closeConnection_ (response q) = true ->
  (forall iov, sys_readv (calls s) iov = Buffer.ReadBytes (text q)) -> Buffer.size (m_inputBuffer s) <= 2 ^ 62 ->
  exists s1, serve [readable] s = Ret (tt, s1) /\ wire s1 = wire s ++ HttpResponse.render (response q)
    /\ m_state s1 = kDisConnecting /\ shut s1 = true.
Proof.
  intros Hrdy Hq Hsm Hfit Hd Hk Hdel Hsz.
  destruct (readable_event s c _ _ (text q) HttpContext.init [] (answer q) Hrdy Hdel Hd Hsz) as (s1 & c1 & E & Hr1 & _ & _ & _ & Hw1 & _).
  { intros b1 Hb1 Hc1. apply onMessage_complete; [done|done|]. rewrite Hc1. cbn [app].
    rewrite <- (app_nil_r (text q)). by apply HttpContext.parse_render. }
  destruct (send_and_shutdown s1 c1 _ _ (HttpResponse.render (response q)) Hr1 Hsm Hfit) as (s2 & c2 & E2 & Hw2 & Hst & Hsh & _).
  exists s2. split; [|by rewrite Hw2, Hw1]. unfold serve. cbn [run]. unfold mbind at 1, ST_bind at 1. rewrite E. unfold answer.
  rewrite Hk. unfold mbind at 1, ST_bind at 1. by rewrite E2.
Qed.

Lemma handleRead_crash s n e b1 f : Buffer.readFd (sys_readv (calls s)) (m_inputBuffer s) = Ret (n, e, b1) -> 0 < n ->
  onMessage (user s) b1 = Crash f ->
  handleRead p_channel sys_write sys_readv onMessage one_loop s = Crash f.
Proof.
  intros Eb Hn Em. unfold handleRead. rewrite !gets_bind, Eb, (lift_bind _ _ _ _ eq_refl). cbv iota beta.
  rewrite modify_bind, (proj2 (Z.gtb_lt _ 0)) by lia. rewrite gets_bind. cbn [user set_wire set_input].
  apply ST_bind_crash. unfold lift. by rewrite Em.
Qed.

(** A malformed request line is refused with a 400; the input that comes
    after it aborts the process. *)
Lemma refused_then_aborts m tail d s c : zlen bad_request <= sndbuf -> ready s c HttpContext.init [] -> m <> HttpRequest.kInvalid -> CR ∉ tail -> " "%char ∉ tail ->
  piece (HttpContext.bad_line m tail) -> piece d -> Buffer.size (m_inputBuffer s) <= 2 ^ 61 ->
  (forall iov, sys_readv (calls s) iov = Buffer.ReadBytes (HttpContext.bad_line m tail)) ->
  (forall iov, sys_readv (S (S (calls s))) iov = Buffer.ReadBytes d) ->
  exists s1 c1, serve1 s = Ret (tt, s1) /\ own_channel s s1 c1 /\ Channel.m_fd c1 = Channel.m_fd c /\ poller_ok (wld s1)
    /\ io_functors s1 = [] /\ wire s1 = wire s ++ bad_request
    /\ forall w c2, channels w !! p_channel = Some c2 -> Channel.m_readCallBack c2 = Channel.m_readCallBack c1 ->
         serve1 (set_wld w s1) = Crash AssertFailure.
Proof.
  intros Hfit Hrdy Hm Htail Hsp Hp1 Hp2 Hsz Hd1 Hd2. change (2 ^ 61) with 2305843009213693952 in Hsz.
  destruct (HttpContext.bad_line_parse m tail receiveTime Hm Htail Hsp) as (cx & Hbad & Hgot & Habort).
  destruct (readable_event s c _ _ _ cx (HttpContext.bad_line m tail) [USend bad_request; UShutdown] Hrdy Hd1 Hp1)
    as (s1 & c1 & E1 & Hr1 & Ho1 & Hf1 & Hc1 & Hw1 & Hs1); [change (2 ^ 62) with 4611686018427387904; lia| |].
  { intros b1 Hb1 Hcb. apply onMessage_refuses; [done| |done]. by rewrite Hcb. }
  destruct (send_and_shutdown s1 c1 _ _ bad_request Hr1 eq_refl Hfit)
    as (s2 & c2 & E2 & Hw2 & _ & _ & Ho2 & Hf2 & Hrd & Hok & Hio & Hu & Hi & Hk).
  exists s2, c2. split_and!; try done.
  - rewrite E1. unfold mbind, ST_bind. by rewrite E2.
  - by eapply own_channel_trans.
  - by rewrite Hf2.
  - by rewrite Hw2, Hw1.
  - intros w c3 Hc3 Hrd3. cbn [step readable]. rewrite (handleEvent_run (set_wld w s2) c3) by done.
    assert (Channel.handleEvent (Channel.set_revents Channel.EVENTIN c3) = [OnRead]) as ->.
    { unfold Channel.handleEvent. cbn. by rewrite Hrd3, Hrd. }
    cbn [run_callbacks run_callback]. apply ST_bind_crash.
    pose proof (rd_input _ _ _ _ Hr1) as Hin. unfold piece, Buffer.kExtraBufferSize in *.
    destruct (Buffer.readFd_spec (sys_readv (S (S (calls s)))) (m_inputBuffer s1) d Hin) as (b1 & Eb & Hb1 & Hcb); [|done| |].
    { change (2 ^ 62) with 4611686018427387904. lia. }
    { pose proof (Buffer.writable_wf _ Hin). destruct Hin. unfold Buffer.kExtraBufferSize. case_match; lia. }
    apply (handleRead_crash _ (zlen d) None b1); [|lia|].
    + cbn [set_wld calls m_inputBuffer]. by rewrite Hk, Hc1, Hi.
    + cbn [set_wld user]. rewrite Hu. apply onMessage_aborts; [done|]. rewrite Hcb, (rd_unread _ _ _ _ Hr1). apply Habort.
Qed.
End session.
End server.

(** ** Witnesses: a server that answers with the path, over the epoll. *)
Definition echo_path (req : HttpRequest.t) (resp : HttpResponse.t) : HttpResponse.t :=
  HttpResponse.setBody (HttpResponse.setStatusMessage (HttpResponse.setStatusCode resp HttpResponse.k200Ok) (lit "OK"))
    (HttpRequest.path_ req).
Definition get_a : request := mkRequest HttpRequest.kGet (lit "/a") (lit "?x") HttpRequest.kHttp11 [(lit "Host", lit "h")].
Definition get_b : request := mkRequest HttpRequest.kGet (lit "/b") [] HttpRequest.kHttp11 [].
Definition demo_pieces : list (list bytes) := [[ztake 7 (text get_a); zdrop 7 (text get_a)]; [text get_b]].
(** Calls 0 and 1 read, 2 writes, 3 reads, 4 writes. *)
Definition demo_readv (k : nat) (_ : list Z) : Buffer.readv_result :=
  Buffer.ReadBytes (nth k [ztake 7 (text get_a); zdrop 7 (text get_a); []; text get_b] []).
Definition nobody : TcpConnection.t context epoll :=
  mk (mkWorld ∅ (Epoll.init ∅)) kDisConnected empty_buffer empty_buffer None [] [] false [] false 0 ∅.

Lemma get_a_ok : well_formed get_a.
Proof.
  split; [done|done| | |]; cbn; [repeat split; by_compute|repeat split; by_compute|].
  repeat constructor; by_compute.
Qed.
Lemma get_b_ok : well_formed get_b.
Proof. split; [done|done| | |]; cbn; [repeat split; by_compute|repeat split; by_compute|constructor]. Qed.

Lemma onMessage_answers_witness :
  exists b', onMessage echo_path (Some HttpContext.init) (Buffer.mk (replicate 8 NUL ++ text get_b ++ text get_a) 8
      (8 + zlen (text get_b ++ text get_a))) = Ret (Some HttpContext.init, b', answer echo_path get_b)
    /\ Buffer.wf b' /\ Buffer.content b' = text get_a.
Proof.
  apply (onMessage_answers echo_path get_b (text get_a)); [apply get_b_ok|by vm_compute| |by vm_compute].
  split; vm_compute; congruence.
Defined.

Lemma keep_alive_session_witness : exists b s1 c1, Buffer.init Buffer.kInitialSize = Ret b
  /\ (_ ← new_connection 1 (Some (onConnection true)) true 9 None b;
      serve echo_path 1 whole_write demo_readv true (arrivals demo_pieces)) nobody = Ret (tt, s1)
  /\ wire s1 = responses echo_path [get_a; get_b]
  /\ HttpResponse.client_reads 2 (wire s1) = Some ([lit "/a"; lit "/b"], [])
  /\ ready 1 s1 c1 HttpContext.init [].
Proof.
  apply (keep_alive_session echo_path 1 whole_write demo_readv 65536 true ltac:(done) 9 demo_pieces [get_a; get_b] nobody);
    [done|by apply init_inv|done..| | |by vm_compute].
  - repeat constructor; try done; try apply get_a_ok; try apply get_b_ok; by_compute.
  - repeat split.
Defined.

Lemma closing_request_witness : exists (s s1 : TcpConnection.t context epoll),
  serve defaultHttpCallback 1 whole_write (fun _ _ => Buffer.ReadBytes (text get_a)) true [readable] s = Ret (tt, s1)
  /\ wire s1 = wire s ++ HttpResponse.render (response defaultHttpCallback get_a)
  /\ m_state s1 = kDisConnecting /\ shut s1 = true.
Proof.
  destruct (new_connection_spec (U := context) (P := epoll) 1 (Some (onConnection true)) true 9 None empty_buffer nobody)
    as (s & c & _ & Hes & Hrd & _ & _ & Hcn & Ho & _ & _ & _ & Hin & Hu & Hio & _); try done; [by apply init_inv|].
  exists s. apply (closing_request defaultHttpCallback 1 whole_write (fun _ _ => Buffer.ReadBytes (text get_a)) 65536 true ltac:(done) get_a s c);
    [|apply get_a_ok|by vm_compute|by vm_compute|by vm_compute|done|done|rewrite Hin; by vm_compute].
  split; rewrite ?Hin, ?Ho, ?Hio; try done; by vm_compute.
Defined.
End HttpServer.
