(* ===== verification/Reactor.v ===== *)
(** Reactor/EventLoop with the connections of its server: one thread that
    polls, dispatches and runs its functors, for many clients at once; and the
    theorem that each client is served as if it were alone, from its connection
    to the end of it. *)
From S2P Require Import Prelude Cxx Buffer HttpRequest HttpContext HttpResponse Channel Epoll Tcp TcpProofs HttpServer.
Import TcpConnection.

Module Reactor.

(** The channels and the epoll of the loop, the connections (whose [wld] is
    out of date between calls), and the functors queued in the loop; and, as
    they were at their end, the connections that have been freed, and the
    descriptors their sockets have closed. *)
Record state (U K : Type) := mk {
  objects : world callback (Epoll.t K);
  connections : gmap Channel.ptr (TcpConnection.t U (Epoll.t K));
  m_pendingFunctors : list (Channel.ptr * functor);
  freed : gmap Channel.ptr (TcpConnection.t U (Epoll.t K));
  released : list Z
}.
Arguments mk {U K}. Arguments objects {U K}. Arguments connections {U K}. Arguments m_pendingFunctors {U K}.
Arguments freed {U K}. Arguments released {U K}.

Section loop.
Context {U K : Type} `{!Kernel K}.
Context (sys_write : Channel.ptr -> nat -> bytes -> write_result).
Context (sys_readv : Channel.ptr -> nat -> list Z -> Buffer.readv_result).
Context (messageCallBack : U -> Buffer.t -> outcome (U * Buffer.t * list user_op)).
Context (connectionCallBack : option (U -> U)).
Implicit Types s : state U K.

(** A member function of the connection of [p], on the objects of the loop;
    what it queues comes after what was queued. *)
Definition on (p : Channel.ptr) (m : ST (TcpConnection.t U (Epoll.t K)) unit) : ST (state U K) unit := fun s =>
  c ← deref (connections s !! p);
  '(_, c') ← m (set_wld (objects s) (set_io [] c));
  Ret (tt, mk (wld c') (<[p := c']> (connections s)) (m_pendingFunctors s ++ map (pair p) (io_functors c')) (freed s) (released s)).

(** [handleEvent] of an active channel. *)
Definition handleEvent (p : Channel.ptr) : ST (state U K) unit := fun s =>
  c ← deref (channels (objects s) !! p);
  on p (TcpConnection.handleEvent p (sys_write p) (sys_readv p) messageCallBack true (Channel.m_revents c)) s.
Fixpoint handle_active (ps : list Channel.ptr) : ST (state U K) unit :=
  match ps with [] => mret tt | p :: ps' => _ ← handleEvent p; handle_active ps' end.

Fixpoint run_functors (fs : list (Channel.ptr * functor)) : ST (state U K) unit :=
  match fs with
  | [] => mret tt
  | (p, f) :: fs' => _ ← on p (run_functor p (sys_write p) connectionCallBack true f); run_functors fs'
  end.

(** The functor of [connectDestroyed] holds the last pointer to its connection:
    when the vector of functors dies so do the connection, its channel and its
    socket. *)
Definition free (p : Channel.ptr) : ST (state U K) unit := fun s =>
  c ← deref (connections s !! p);
  '(_, c') ← destroy c;
  ch ← deref (channels (objects s) !! p);
  Ret (tt, mk (mkWorld (delete p (channels (objects s))) (poller (objects s))) (delete p (connections s))
             (m_pendingFunctors s) (<[p := c']> (freed s)) (released s ++ [Channel.m_fd ch])).
Fixpoint release (fs : list (Channel.ptr * functor)) : ST (state U K) unit :=
  match fs with
  | [] => mret tt
  | (p, FDestroy) :: fs' => _ ← free p; release fs'
  | _ :: fs' => release fs'
  end.
Definition doPendingFunctors : ST (state U K) unit :=
  fs ← gets m_pendingFunctors;
  _ ← modify (fun s => mk (objects s) (connections s) [] (freed s) (released s));
  _ ← run_functors fs;
  release fs.

(** One turn of the [while] of [loop]. *)
Definition poll (epoll_wait : Z -> Z * list (Z * Z)) : ST (state U K) (list Channel.ptr) := fun s =>
  '(ps, w) ← Epoll.poll epoll_wait (objects s); Ret (ps, mk w (connections s) (m_pendingFunctors s) (freed s) (released s)).
Definition turn (epoll_wait : Z -> Z * list (Z * Z)) : ST (state U K) unit :=
  ps ← poll epoll_wait;
  _ ← handle_active ps;
  doPendingFunctors.

(** TcpServer::newConnetion in the thread of the loop: the connection is
    allocated at [p]. *)
Definition newConnetion (p : Channel.ptr) (fd : Z) (u : U) : ST (state U K) unit := fun s =>
  b ← Buffer.init Buffer.kInitialSize;
  let c := TcpConnection.mk (objects s) kConnecting b b u [] [] false [] false 0 ∅ in
  on p (new_connection p connectionCallBack true fd u b) (mk (objects s) (<[p := c]> (connections s)) (m_pendingFunctors s) (freed s) (released s)).
End loop.

(** ** Many clients *)
Import HttpServer.
Section clients.
Context {K : Type} `{!Kernel K}.
Context (httpCallback_ : HttpRequest.t -> HttpResponse.t -> HttpResponse.t).
Context (sys_write : Channel.ptr -> nat -> bytes -> write_result).
Context (sys_readv : Channel.ptr -> nat -> list Z -> Buffer.readv_result).
(** The free space of a send buffer when an answer is written. *)
Context (sndbuf : Z).
(** A client for each connection: the requests it sends and the pieces in which
    they arrive, the pieces of a last request it does not finish, and whether
    it hangs up then. *)
Context (requests : Channel.ptr -> list request) (pieces : Channel.ptr -> list (list bytes)).
Context (partial : Channel.ptr -> list bytes) (leaves : Channel.ptr -> bool).
(** The channels of the loop that are not connections (an acceptor, the wake-up)
    and their descriptors. *)
Context (guests : gmap Channel.ptr Z).
Abbreviation loop := (state context K).
Implicit Types s : loop.

Definition all_pieces (p : Channel.ptr) : list bytes := concat (pieces p) ++ partial p.
(** The system call after the last piece. *)
Definition last_call (p : Channel.ptr) : nat := calls_after 0 (pieces p) + length (partial p).

(** What a client sends, and what the kernel delivers. *)
Record client (p : Channel.ptr) : Prop := {
  cl_sent : Forall2 (sent_in httpCallback_ sndbuf) (pieces p) (requests p);
  cl_unfinished : unfinished (partial p);
  cl_delivered : delivers (sys_readv p) 0 (pieces p);
  cl_rest : delivers_pieces (sys_readv p) (calls_after 0 (pieces p)) (partial p);
  cl_leaves : leaves p = true -> forall iov, sys_readv p (last_call p) iov = Buffer.ReadBytes [];
  cl_short : zlen (concat (all_pieces p)) <= 2 ^ 61
}.

(** A client connects on a descriptor, or the epoll reports input of each of
    some clients. *)
Inductive happening := Connect (p : Channel.ptr) (fd : Z) | Input (ps : list Channel.ptr).

Definition fd_of s (p : Channel.ptr) : Z := match channels (objects s) !! p with Some c => Channel.m_fd c | None => -1 end.
Definition reports s (ps : list Channel.ptr) : list (Z * Z) := map (fun p => (fd_of s p, Channel.EVENTIN)) ps.
Definition happen (h : happening) : ST loop unit := fun s =>
  match h with
  | Connect p fd => newConnetion (Some (onConnection true)) p fd None s
  | Input ps => turn sys_write sys_readv (onMessage httpCallback_) (Some (onConnection true))
      (fun _ => (zlen (reports s ps), reports s ps)) s
  end.
Fixpoint happens (hs : list happening) : ST loop unit :=
  match hs with [] => mret tt | h :: hs' => _ ← happen h; happens hs' end.

(** What has become of a client's connection: the client has still [n] pieces
    to send, or it has hung up (the connection then waits to be taken out of
    the poller, to be freed) and is gone.  A crowd has the descriptor and the
    stage of each. *)
Inductive stage := Sending (n : nat) | Closing | Dying | Gone.
#[export] Instance stage_eq_dec : EqDecision stage.
Proof. solve_decision. Defined.
Abbreviation crowd := (gmap Channel.ptr (Z * stage)).
Implicit Types cr : crowd.

(** The descriptors the poller knows. *)
Definition registered (st : stage) : bool := match st with Sending _ | Closing => true | Dying | Gone => false end.
Definition in_use cr : list Z :=
  (List.filter (fun x => registered x.2) (map_to_list cr).*2).*1 ++ (map_to_list guests).*2.

(** When something can happen: a connection is new and its descriptor not in
    use, of at most 10000; input is reported of at most 1024 clients, each with
    a piece to send or a hang-up. *)
Definition connects cr (p : Channel.ptr) (fd : Z) : bool :=
  bool_decide (cr !! p = None /\ guests !! p = None /\ fd ∉ in_use cr /\ zlen (in_use cr) < 10000).
Definition speaks cr (p : Channel.ptr) : bool :=
  match cr !! p with Some (_, Sending 0) => leaves p | Some (_, Sending (S _)) => true | _ => false end.
Definition sends cr (ps : list Channel.ptr) : bool := bool_decide (NoDup ps /\ zlen ps <= 1024 /\ Forall (fun p => speaks cr p = true) ps).

(** The crowd after a client's input, at the end of the turn, and after what
    happened; [None] when that cannot happen. *)
Definition mark (st : stage) (p : Channel.ptr) cr : crowd := alter (fun x => (x.1, st)) p cr.
Definition heard cr (p : Channel.ptr) : crowd :=
  mark (match cr !! p with Some (_, Sending (S n)) => Sending n | _ => Closing end) p cr.
Definition settle (x : Z * stage) : Z * stage := match x with (fd, Closing) => (fd, Gone) | _ => x end.
Fixpoint crowd_after cr (hs : list happening) : option crowd :=
  match hs with
  | [] => Some cr
  | Connect p fd :: hs' => if connects cr p fd then crowd_after (<[p := (fd, Sending (length (all_pieces p)))]> cr) hs' else None
  | Input ps :: hs' => if sends cr ps then crowd_after (settle <$> fold_left heard ps cr) hs' else None
  end.

(** *** The invariant of the loop *)

Abbreviation channel_map := (fun s => Epoll.channel_map (poller (objects s))).
Abbreviation answers p := (responses httpCallback_ (requests p)).
Definition closed (p : Channel.ptr) (t : TcpConnection.t context (Epoll.t K)) : Prop := m_state t = kDisConnected /\ wire t = answers p.
Definition stands s (p : Channel.ptr) (x : Z * stage) : Prop :=
  let '(fd, st) := x in
  match st with
  | Sending n => exists t c ds, connections s !! p = Some t /\ length ds = n /\ Channel.m_fd c = fd
      /\ serving httpCallback_ p (sys_readv p) sndbuf (set_wld (objects s) t) c (partial p) ds (answers p) (last_call p)
  | Closing => exists t c, connections s !! p = Some t /\ closed p t /\ channels (objects s) !! p = Some c
      /\ Channel.m_events c = Channel.kNoneEvent /\ Channel.m_fd c = fd /\ channel_map s !! fd = Some p
  | Dying => exists t c, connections s !! p = Some t /\ closed p t /\ channels (objects s) !! p = Some c
      /\ Channel.m_fd c = fd /\ forall f, channel_map s !! f <> Some p
  | Gone => exists t, freed s !! p = Some t /\ closed p t
  end.
(** A channel that is not a connection's, watched for input. *)
Definition guest s (p : Channel.ptr) (fd : Z) : Prop :=
  exists c, channels (objects s) !! p = Some c /\ Channel.m_fd c = fd /\ channel_map s !! fd = Some p
    /\ Channel.m_readCallBack c = Some OnRead.

Definition present cr (p : Channel.ptr) : Prop := exists fd st, cr !! p = Some (fd, st) /\ st <> Gone.
Record served cr s : Prop := {
  sv_ok : epoll_inv (objects s);
  sv_room : Z.of_nat (size (channel_map s)) <= 10000;
  sv_channels : forall p, is_Some (channels (objects s) !! p) -> is_Some (guests !! p) \/ present cr p;
  sv_connections : forall p, is_Some (connections s !! p) -> present cr p;
  sv_guests : forall p fd, guests !! p = Some fd -> guest s p fd;
  sv_apart : forall p, is_Some (cr !! p) -> guests !! p = None;
  sv_stands : forall p x, cr !! p = Some x -> stands s p x
}.

(** write(2) takes data whole when the send buffer has room for it. *)
Hypothesis takes_whole : forall p k d, zlen d <= sndbuf -> sys_write p k d = Wrote (zlen d).
Hypothesis clients : forall p, client p.

Lemma ready_put p t w w' c e cx r : ready p (set_wld w t) c cx r -> poller_ok (C:=callback) (P:=Epoll.t K) w' ->
  channels w' !! p = Some (Channel.set_revents e c) ->
  Epoll.channel_map (poller w') !! Channel.m_fd c = Some p -> ready p (set_wld w' t) (Channel.set_revents e c) cx r.
Proof. intros [[H1 H2 H3 H4 H5 H6 H7] Hu Hi Hr Ho Hrd Hid Hcn] Hok Hc Hm. split; [split|..]; done. Qed.

(** A session does not depend on the other objects of the loop. *)
Lemma serving_put p t w w' c e tail ds out fin : serving httpCallback_ p (sys_readv p) sndbuf (set_wld w t) c tail ds out fin ->
  poller_ok (C:=callback) (P:=Epoll.t K) w' -> channels w' !! p = Some (Channel.set_revents e c) ->
  Epoll.channel_map (poller w') !! Channel.m_fd c = Some p ->
  serving httpCallback_ p (sys_readv p) sndbuf (set_wld w' t) (Channel.set_revents e c) tail ds out fin.
Proof.
  intros H Hok Hc Hm. destruct H as [Ht Hr Hsz|q ds pre rest cx r Ht Hr|q ds dss qs pre cx r Hr];
    apply (ready_put p t w w' c e) in Hr; try done.
  - by apply (serving_idle httpCallback_ p (sys_readv p) sndbuf (set_wld w' t)).
  - by apply (serving_part httpCallback_ p (sys_readv p) sndbuf (set_wld w' t) _ _ q ds pre rest cx r).
  - by apply (serving_request httpCallback_ p (sys_readv p) sndbuf (set_wld w' t) _ _ q ds dss qs pre cx r).
Qed.

Lemma serving_same p t w w' c tail ds out fin : serving httpCallback_ p (sys_readv p) sndbuf (set_wld w t) c tail ds out fin ->
  poller_ok (C:=callback) (P:=Epoll.t K) w' -> channels w' !! p = Some c ->
  Epoll.channel_map (poller w') !! Channel.m_fd c = Some p ->
  serving httpCallback_ p (sys_readv p) sndbuf (set_wld w' t) c tail ds out fin.
Proof.
  intros H Hok Hc Hm. assert (c = Channel.set_revents (Channel.m_revents c) c) as E by (by destruct c).
  rewrite E. apply (serving_put p t w w' c); [done|done|by rewrite <- E|done].
Qed.

Lemma serving_ready p rv (t : TcpConnection.t context (Epoll.t K)) c tail ds out fin :
  serving httpCallback_ p rv sndbuf t c tail ds out fin -> exists cx r, ready p t c cx r.
Proof. destruct 1; eauto. Qed.

Lemma set_wld_own (t : TcpConnection.t context (Epoll.t K)) : set_wld (wld t) t = t.
Proof. by destruct t. Qed.

(** What the invariant says of a connection in its session. *)
Lemma stands_session s p fd n : stands s p (fd, Sending n) -> exists t c ds, connections s !! p = Some t
  /\ length ds = n /\ Channel.m_fd c = fd /\ io_functors t = []
  /\ channels (objects s) !! p = Some c /\ channel_map s !! fd = Some p
  /\ serving httpCallback_ p (sys_readv p) sndbuf (set_wld (objects s) t) c (partial p) ds (answers p) (last_call p).
Proof.
  intros (t & c & ds & Ht & Hl & Hf & Hs). exists t, c, ds.
  destruct (serving_ready _ _ _ _ _ _ _ _ Hs) as (cx & r & [[_ _ Hc Hm _ _ _] _ _ _ _ _ Hid _]).
  split_and!; try done. by rewrite <- Hf.
Qed.

Lemma stands_channel s p fd st : stands s p (fd, st) -> st <> Gone ->
  exists c, channels (objects s) !! p = Some c /\ Channel.m_fd c = fd.
Proof.
  intros H Hst. destruct st as [n| | |]; [apply stands_session in H| | |done]; naive_solver.
Qed.

(** What the poller knows is a guest or a living connection, under its
    descriptor. *)
Lemma channel_map_known cr s f p : served cr s -> channel_map s !! f = Some p ->
  guests !! p = Some f \/ exists st, cr !! p = Some (f, st) /\ registered st = true.
Proof.
  intros H Hm. destruct (inv_channels _ (sv_ok cr s H) _ _ Hm) as (c & Hc & Hf & _).
  destruct (sv_channels cr s H p) as [[g Hg]|(fd & st & Hp & Hst)]; [by eexists| |].
  - left. destruct (sv_guests cr s H p g Hg) as (c' & Hc' & Hf' & _). congruence.
  - right. exists st. pose proof (sv_stands cr s H p _ Hp) as Hs.
    destruct (stands_channel s p fd st Hs Hst) as (c' & Hc' & Hf'). assert (fd = f) as -> by congruence. split; [done|].
    destruct st as [n| | |]; try done. destruct Hs as (_ & _ & _ & _ & _ & _ & Hno). by destruct (Hno f).
Qed.

Lemma registered_known cr s f p st : served cr s -> cr !! p = Some (f, st) -> registered st = true -> channel_map s !! f = Some p.
Proof.
  intros H Hp Hreg. pose proof (sv_stands cr s H p _ Hp) as Hs. destruct st as [n| | |]; try done; [apply stands_session in Hs|]; naive_solver.
Qed.

Lemma channel_map_in_use cr s f p : served cr s -> channel_map s !! f = Some p -> f ∈ in_use cr.
Proof.
  intros H Hm. apply elem_of_app. destruct (channel_map_known cr s f p H Hm) as [Hg|(st & Hp & Hreg)]; [right|left].
  - apply list_elem_of_fmap. exists (p, f). split; [done|]. by apply elem_of_map_to_list.
  - apply list_elem_of_fmap. exists (f, st). split; [done|]. apply list_elem_of_In, filter_In. split; [|done].
    apply list_elem_of_In, list_elem_of_fmap. exists (p, (f, st)). split; [done|]. by apply elem_of_map_to_list.
Qed.

Lemma channel_map_size cr s : served cr s -> Z.of_nat (size (channel_map s)) <= zlen (in_use cr).
Proof.
  intros H. unfold zlen. apply Nat2Z.inj_le.
  assert (size (channel_map s) = length (map_to_list (channel_map s)).*1) as -> by (by rewrite length_fmap, length_map_to_list).
  apply submseteq_length, NoDup_submseteq; [apply NoDup_fst_map_to_list|].
  intros f ([f' p] & -> & Hf)%list_elem_of_fmap. apply elem_of_map_to_list in Hf. by apply (channel_map_in_use cr s f' p).
Qed.

(** *** One step: only the objects of one connection change *)
Record touches (p : Channel.ptr) s s1 : Prop := {
  to_connections : forall q, q <> p -> connections s1 !! q = connections s !! q;
  to_channels : forall q, q <> p -> channels (objects s1) !! q = channels (objects s) !! q;
  to_freed : forall q, q <> p -> freed s1 !! q = freed s !! q;
  to_map : forall q f, q <> p -> channel_map s1 !! f = Some q <-> channel_map s !! f = Some q
}.

Lemma stands_put s s1 q x : stands s q x -> poller_ok (C:=callback) (P:=Epoll.t K) (objects s1) ->
  connections s1 !! q = connections s !! q -> channels (objects s1) !! q = channels (objects s) !! q ->
  freed s1 !! q = freed s !! q -> (forall f, channel_map s1 !! f = Some q <-> channel_map s !! f = Some q) -> stands s1 q x.
Proof.
  destruct x as [fd st]. intros H Hok Hcn Hch Hfr Hm. destruct st as [n| | |].
  - apply stands_session in H as (t & c & ds & Ht & Hl & Hf & _ & Hc & Hmq & Hs). exists t, c, ds.
    split_and!; [congruence|done|done|]. apply (serving_same q t (objects s)); [done|done|congruence|rewrite Hf; by apply Hm].
  - destruct H as (t & c & Ht & Hcl & Hc & Hev & Hf & Hmq). exists t, c. split_and!; try done; [congruence|congruence|by apply Hm].
  - destruct H as (t & c & Ht & Hcl & Hc & Hf & Hno). exists t, c. split_and!; try done; [congruence|congruence|].
    intros f Hqf%Hm. by apply (Hno f).
  - destruct H as (t & Ht & Hcl). exists t. split; [congruence|done].
Qed.

Lemma present_insert cr p x q : present cr q -> q <> p -> present (<[p := x]> cr) q.
Proof. intros (fd & st & Hq & Hst) Hne. exists fd, st. by rewrite lookup_insert_ne. Qed.

Lemma served_step cr s s1 p fd st : served cr s -> touches p s s1 -> guests !! p = None -> epoll_inv (objects s1) ->
  Z.of_nat (size (channel_map s1)) <= 10000 -> stands s1 p (fd, st) ->
  (st = Gone -> channels (objects s1) !! p = None /\ connections s1 !! p = None) -> served (<[p := (fd, st)]> cr) s1.
Proof.
  intros H [Hcn Hch Hfr Hm] Hg Hok Hroom Hp Hgone.
  assert (st <> Gone -> present (<[p := (fd, st)]> cr) p) as Hnew by (intros Hst; exists fd, st; by rewrite lookup_insert_eq).
  split; try done.
  - intros q Hq. destruct (decide (q = p)) as [->|Hne].
    + right. apply Hnew. intros Hst. destruct (Hgone Hst) as [Hno _]. rewrite Hno in Hq. by destruct Hq.
    + rewrite Hch in Hq by done. destruct (sv_channels cr s H q Hq) as [?|?]; [by left|right; by apply present_insert].
  - intros q Hq. destruct (decide (q = p)) as [->|Hne].
    + apply Hnew. intros Hst. destruct (Hgone Hst) as [_ Hno]. rewrite Hno in Hq. by destruct Hq.
    + rewrite Hcn in Hq by done. apply present_insert; [|done]. by apply (sv_connections cr s H).
  - intros q f Hq. assert (q <> p) as Hne by congruence. destruct (sv_guests cr s H q f Hq) as (c & Hc & Hf & Hmq & Hr).
    exists c. rewrite Hch by done. split_and!; try done. by apply Hm.
  - intros q Hq. destruct (decide (q = p)) as [->|Hne]; [done|]. rewrite lookup_insert_ne in Hq by done. by apply (sv_apart cr s H).
  - intros q x Hq. destruct (decide (q = p)) as [->|Hne].
    + rewrite lookup_insert_eq in Hq. by injection Hq as <-.
    + rewrite lookup_insert_ne in Hq by done. apply (stands_put s); auto. by apply (sv_stands cr s H).
Qed.

Lemma mark_insert cr p fd st0 st : cr !! p = Some (fd, st0) -> mark st p cr = <[p := (fd, st)]> cr.
Proof.
  intros Hp. apply map_eq. intros q. unfold mark. destruct (decide (p = q)) as [<-|Hne].
  - by rewrite lookup_alter_eq, lookup_insert_eq, Hp.
  - by rewrite lookup_alter_ne, lookup_insert_ne.
Qed.

Lemma served_mark cr s s1 p fd st0 st : served cr s -> cr !! p = Some (fd, st0) -> touches p s s1 -> epoll_inv (objects s1) ->
  Z.of_nat (size (channel_map s1)) <= 10000 -> stands s1 p (fd, st) ->
  (st = Gone -> channels (objects s1) !! p = None /\ connections s1 !! p = None) -> served (mark st p cr) s1.
Proof.
  intros H Hp Hto Hok Hroom Hst Hgone. rewrite (mark_insert cr p fd st0) by done.
  apply (served_step cr s); try done. by apply (sv_apart cr s H).
Qed.

Lemma on_run p m s t t1 : connections s !! p = Some t -> m (set_wld (objects s) (set_io [] t)) = Ret (tt, t1) ->
  on p m s = Ret (tt, mk (wld t1) (<[p := t1]> (connections s)) (m_pendingFunctors s ++ map (pair p) (io_functors t1))
    (freed s) (released s)).
Proof. intros Ht E. unfold on. rewrite Ht. cbn [deref mbind outcome_bind]. by rewrite E. Qed.

Lemma set_io_idle (t : TcpConnection.t context (Epoll.t K)) : io_functors t = [] -> set_io [] t = t.
Proof. destruct t; cbn; by intros ->. Qed.

(** The state after a member function of the connection of [p] that changed
    its own channel. *)
Lemma touches_own p s t1 c1 pf rl : channels (wld t1) = <[p := c1]> (channels (objects s)) ->
  (forall q f, q <> p -> Epoll.channel_map (poller (wld t1)) !! f = Some q <-> channel_map s !! f = Some q) ->
  touches p s (mk (wld t1) (<[p := t1]> (connections s)) pf (freed s) rl).
Proof.
  intros Hch Hm. split; cbn [objects connections freed]; try done.
  - intros q Hq. by rewrite lookup_insert_ne.
  - intros q Hq. by rewrite Hch, lookup_insert_ne.
Qed.

(** *** The active channels *)

(** A client's piece is read. *)
Lemma read_served cr s p fd n c : served cr s -> cr !! p = Some (fd, Sending (S n)) -> channels (objects s) !! p = Some c ->
  Channel.m_revents c = Channel.EVENTIN ->
  exists s1, handleEvent sys_write sys_readv (onMessage httpCallback_) p s = Ret (tt, s1)
    /\ served (mark (Sending n) p cr) s1 /\ touches p s s1 /\ m_pendingFunctors s1 = m_pendingFunctors s /\ released s1 = released s.
Proof.
  intros H Hp Hc Hrev. pose proof (sv_stands cr s H p _ Hp) as Hst.
  apply stands_session in Hst as (t & c0 & ds & Ht & Hl & Hf & Hio & Hc0 & _ & Hs).
  rewrite Hc in Hc0. injection Hc0 as <-. destruct ds as [|d ds]; [done|].
  destruct (serve_one httpCallback_ p (sys_write p) (sys_readv p) sndbuf true (takes_whole p) _ c _ d ds _ _ Hs)
    as (t1 & c1 & E & Hs1 & [Hch Hpo] & Hf1). cbn [wld set_wld] in Hch, Hpo.
  destruct (serving_ready _ _ _ _ _ _ _ _ Hs1) as (cx1 & r1 & [[_ Hok1 Hc1 Hm1 _ _ _] _ _ _ _ _ Hio1 _]).
  set (s1 := mk (wld t1) (<[p := t1]> (connections s)) (m_pendingFunctors s) (freed s) (released s)).
  assert (touches p s s1) as Hto by (apply (touches_own p s t1 c1); [done|by rewrite Hpo]).
  exists s1. split; [|split; [|done]].
  - unfold handleEvent. rewrite Hc. cbn [deref mbind outcome_bind]. rewrite Hrev.
    rewrite (on_run p _ s t t1); [by rewrite Hio1, app_nil_r|done|by rewrite set_io_idle].
  - apply (served_mark cr s s1 p fd (Sending (S n))); try done; [cbn [objects s1]; rewrite Hpo; apply H|].
    exists t1, c1, ds. cbn [connections objects s1]. rewrite lookup_insert_eq, set_wld_own, Hf1. injection Hl as Hl. done.
Qed.

(** A client that has sent everything hangs up. *)
Lemma hangup_served cr s p fd c : served cr s -> cr !! p = Some (fd, Sending 0) -> leaves p = true ->
  channels (objects s) !! p = Some c -> Channel.m_revents c = Channel.EVENTIN ->
  exists s1, handleEvent sys_write sys_readv (onMessage httpCallback_) p s = Ret (tt, s1)
    /\ served (mark Closing p cr) s1 /\ touches p s s1 /\ m_pendingFunctors s1 = m_pendingFunctors s ++ [(p, FDestroy)]
    /\ released s1 = released s.
Proof.
  intros H Hp Hlv Hc Hrev. pose proof (sv_stands cr s H p _ Hp) as Hst.
  apply stands_session in Hst as (t & c0 & ds & Ht & Hl & Hf & Hio & Hc0 & Hm & Hs).
  rewrite Hc in Hc0. injection Hc0 as <-. apply nil_length_inv in Hl as ->.
  apply serving_nil in Hs as (Hw & Hk & Hsz & cx & r & Hr & _).
  destruct (hang_up httpCallback_ p (sys_write p) (sys_readv p) true _ c cx r eq_refl Hr Hsz)
    as (t1 & c1 & E & Hst1 & Hio1 & Hw1 & Hch & Hev & Hf1 & Hok1 & Hmc); [by rewrite <- Hk; apply (cl_leaves _ (clients p))|].
  cbn [wld set_wld] in Hch, Hmc. change (m_channels (C := callback)) with (@Epoll.channel_map K) in Hmc.
  set (s1 := mk (wld t1) (<[p := t1]> (connections s)) (m_pendingFunctors s ++ [(p, FDestroy)]) (freed s) (released s)).
  assert (touches p s s1) as Hto by (apply (touches_own p s t1 c1); [done|by rewrite Hmc]).
  exists s1. split; [|split; [|done]].
  - unfold handleEvent. rewrite Hc. cbn [deref mbind outcome_bind]. rewrite Hrev.
    rewrite (on_run p _ s t t1); [by rewrite Hio1|done|by rewrite set_io_idle].
  - apply (served_mark cr s s1 p fd (Sending 0)); try done; [cbn [objects s1]; rewrite Hmc; apply H|].
    exists t1, c1. cbn [connections objects s1]. rewrite lookup_insert_eq, Hch, lookup_insert_eq, Hmc, Hf1.
    split_and!; try done. split; [done|]. by rewrite Hw1, Hw.
Qed.

(** The functors wait for the connections that are closing. *)
Abbreviation destructions := (map (fun p : Channel.ptr => (p, FDestroy))).
Definition stage_of cr (p : Channel.ptr) : option stage := snd <$> cr !! p.
Definition pends cr s : Prop :=
  exists ps, m_pendingFunctors s = destructions ps /\ NoDup ps /\ forall p, p ∈ ps <-> stage_of cr p = Some Closing.

Lemma stage_mark st p cr q : stage_of (mark st p cr) q = if decide (p = q) then (fun _ => st) <$> cr !! p else stage_of cr q.
Proof.
  unfold stage_of, mark. destruct (decide (p = q)) as [<-|Hne]; [rewrite lookup_alter_eq; by destruct (cr !! p)|by rewrite lookup_alter_ne].
Qed.

Lemma pends_reading cr s s1 p fd n m : cr !! p = Some (fd, Sending n) -> pends cr s -> m_pendingFunctors s1 = m_pendingFunctors s ->
  pends (mark (Sending m) p cr) s1.
Proof.
  intros Hp (ps & Hps & Hnd & Hiff) E. exists ps. split; [by rewrite E|]. split; [done|]. intros q. rewrite Hiff, stage_mark.
  case_decide as Hq; [subst q|done]. unfold stage_of. rewrite Hp. by split; intros [=].
Qed.

Lemma pends_closing cr s s1 p fd n : cr !! p = Some (fd, Sending n) -> pends cr s ->
  m_pendingFunctors s1 = m_pendingFunctors s ++ [(p, FDestroy)] -> pends (mark Closing p cr) s1.
Proof.
  intros Hp (ps & Hps & Hnd & Hiff) E. exists (ps ++ [p]). split_and!.
  - by rewrite E, Hps, map_app.
  - apply NoDup_app. split; [done|]. split; [|apply NoDup_singleton].
    intros q Hq%Hiff ->%list_elem_of_singleton. unfold stage_of in Hq. by rewrite Hp in Hq.
  - intros q. rewrite elem_of_app, list_elem_of_singleton, Hiff, stage_mark. case_decide as Hq.
    + subst q. rewrite Hp. split; [done|by right].
    + split; [intros [?|?]; congruence|by left].
Qed.

Lemma visit_served cr s p c : served cr s -> pends cr s -> speaks cr p = true -> channels (objects s) !! p = Some c ->
  Channel.m_revents c = Channel.EVENTIN ->
  exists s1, handleEvent sys_write sys_readv (onMessage httpCallback_) p s = Ret (tt, s1)
    /\ served (heard cr p) s1 /\ pends (heard cr p) s1 /\ touches p s s1 /\ released s1 = released s.
Proof.
  intros H Hpe Hsp Hc Hrev. unfold speaks in Hsp. unfold heard.
  destruct (cr !! p) as [[fd [[|n]| | |]]|] eqn:Hp; try done.
  - destruct (hangup_served cr s p fd c H Hp Hsp Hc Hrev) as (s1 & E & H1 & Hto & Hpf & Hrl).
    exists s1. split_and!; try done. by apply (pends_closing cr s s1 p fd 0).
  - destruct (read_served cr s p fd n c H Hp Hc Hrev) as (s1 & E & H1 & Hto & Hpf & Hrl).
    exists s1. split_and!; try done. by apply (pends_reading cr s s1 p fd (S n) n).
Qed.

(** A channel with input. *)
Definition active s (p : Channel.ptr) : Prop :=
  exists c, channels (objects s) !! p = Some c /\ Channel.m_revents c = Channel.EVENTIN.

Lemma visits_served ps cr s : served cr s -> pends cr s -> NoDup ps -> Forall (fun p => speaks cr p = true /\ active s p) ps ->
  exists s1, handle_active sys_write sys_readv (onMessage httpCallback_) ps s = Ret (tt, s1)
    /\ served (fold_left heard ps cr) s1 /\ pends (fold_left heard ps cr) s1 /\ released s1 = released s.
Proof.
  intros H Hpe Hnd Hps. revert cr s H Hpe Hps. induction Hnd as [|p ps Hp Hnd IH]; intros cr s H Hpe Hps; [by exists s|].
  apply Forall_cons in Hps as [[Hsp (c & Hc & Hrev)] Hps].
  destruct (visit_served cr s p c H Hpe Hsp Hc Hrev) as (s1 & E & H1 & Hpe1 & Hto & Hrl).
  destruct (IH (heard cr p) s1 H1 Hpe1) as (s2 & E2 & H2 & Hpe2 & Hrl2).
  - apply Forall_forall. intros q Hq. rewrite Forall_forall in Hps. destruct (Hps q Hq) as [Hsq Hcq].
    assert (q <> p) as Hne by (intros ->; done).
    unfold speaks, heard, mark, active in *. rewrite lookup_alter_ne, (to_channels _ _ _ Hto) by done. by split.
  - exists s2. split; [|by rewrite Hrl2]. cbn [handle_active]. by rewrite (ST_bind_eq _ _ _ _ _ E).
Qed.

(** *** The functors *)

(** A closed connection is taken out of the poller. *)
Lemma destroy_served cr s p fd : served cr s -> cr !! p = Some (fd, Closing) ->
  exists s1, on p (run_functor p (sys_write p) (Some (onConnection true)) true FDestroy) s = Ret (tt, s1)
    /\ served (mark Dying p cr) s1 /\ m_pendingFunctors s1 = m_pendingFunctors s /\ released s1 = released s ++ [].
Proof.
  intros H Hp. destruct (sv_stands cr s H p _ Hp) as (t & c & Ht & [Hst Hw] & Hc & Hev & Hf & Hm).
  destruct (connectDestroyed_spec (U := context) (P := Epoll.t K) p (set_wld (objects s) (set_io [] t)) c)
    as (w & E & Hok & Hch & Hmc); [done|exact (sv_ok cr s H)|done|done|by rewrite Hf|].
  change (m_channels (C := callback)) with (@Epoll.channel_map K) in Hmc. cbn [wld set_wld] in Hch, Hmc. rewrite Hf in Hmc.
  set (t1 := set_wld w (set_io [] t)). change (set_wld w (set_wld (objects s) (set_io [] t))) with t1 in E.
  set (s1 := mk w (<[p := t1]> (connections s)) (m_pendingFunctors s) (freed s) (released s)).
  exists s1. split; [|split; [|split; [done|by rewrite app_nil_r]]].
  - cbn [run_functor]. rewrite (on_run p _ s t t1 Ht E). cbn [io_functors t1 set_wld set_io map]. by rewrite app_nil_r.
  - apply (served_mark cr s s1 p fd Closing); try done.
    + apply (touches_own p s t1 (Channel.set_added false c)); [exact Hch|]. intros q f Hq. cbn [wld t1 set_wld]. rewrite Hmc.
      rewrite lookup_delete_Some. split; [by intros [_ ?]|]. intros Hqf. split; [|done]. intros <-. congruence.
    + cbn [objects s1]. rewrite Hmc, map_size_delete_Some by (by eexists). pose proof (sv_room cr s H). lia.
    + exists t1, (Channel.set_added false c). cbn [connections objects s1]. rewrite Hch, !lookup_insert_eq. split_and!; try done.
      intros f Hpf. rewrite Hmc in Hpf. apply lookup_delete_Some in Hpf as [Hne Hpf].
      destruct (inv_channels _ (sv_ok cr s H) _ _ Hpf) as (c' & Hc' & Hf' & _). congruence.
Qed.

(** And then freed, with its channel, and its descriptor closed. *)
Lemma free_served cr s p fd : served cr s -> cr !! p = Some (fd, Dying) ->
  exists s1, free p s = Ret (tt, s1) /\ served (mark Gone p cr) s1 /\ m_pendingFunctors s1 = m_pendingFunctors s
    /\ released s1 = released s ++ [fd].
Proof.
  intros H Hp. destruct (sv_stands cr s H p _ Hp) as (t & c & Ht & [Hst Hw] & Hc & Hf & Hno).
  set (s1 := mk (mkWorld (delete p (channels (objects s))) (poller (objects s))) (delete p (connections s))
    (m_pendingFunctors s) (<[p := t]> (freed s)) (released s ++ [fd])). exists s1. split; [|split; [|done]].
  - unfold free. rewrite Ht. cbn [deref mbind outcome_bind]. unfold destroy. rewrite gets_bind, Hst.
    unfold lift. rewrite bool_decide_true by done. cbn [cassert mbind outcome_bind]. rewrite Hc. cbn [deref mbind outcome_bind].
    by rewrite Hf.
  - apply (served_mark cr s s1 p fd Dying); try done.
    + split; cbn [connections objects freed channels poller s1]; try done; intros q Hq;
        by rewrite ?lookup_delete_ne, ?lookup_insert_ne.
    + apply epoll_inv_free; [apply H|exact Hno].
    + apply H.
    + exists t. cbn [freed s1]. by rewrite lookup_insert_eq.
    + intros _. cbn [connections objects channels s1]. by rewrite !lookup_delete_eq.
Qed.

(** The same done to each of some connections. *)
Fixpoint each (f : Channel.ptr -> ST loop unit) (ps : list Channel.ptr) : ST loop unit :=
  match ps with [] => mret tt | p :: ps' => _ ← f p; each f ps' end.
Definition become (st : stage) (ps : list Channel.ptr) cr : crowd := fold_left (fun cr p => mark st p cr) ps cr.

Lemma become_lookup st ps cr q : become st ps cr !! q = if decide (q ∈ ps) then (fun x => (x.1, st)) <$> cr !! q else cr !! q.
Proof.
  revert cr. induction ps as [|p ps IH]; intros cr; [done|]. unfold become in *. cbn [fold_left]. rewrite IH. unfold mark.
  destruct (decide (q = p)) as [->|Hne].
  - rewrite lookup_alter_eq, (decide_True (P := p ∈ p :: ps)) by left. case_decide; [|done]. by destruct (cr !! p).
  - rewrite lookup_alter_ne by done. destruct (decide (q ∈ ps)) as [Hq|Hq]; [by rewrite decide_True by by right|].
    rewrite decide_False; [done|]. by intros [|]%elem_of_cons.
Qed.

Lemma each_served f st st' (gives : Z -> list Z) ps cr s :
  (forall cr s p fd, served cr s -> cr !! p = Some (fd, st) ->
     exists s1, f p s = Ret (tt, s1) /\ served (mark st' p cr) s1 /\ m_pendingFunctors s1 = m_pendingFunctors s
       /\ released s1 = released s ++ gives fd) ->
  served cr s -> NoDup ps -> (forall p, p ∈ ps -> stage_of cr p = Some st) ->
  exists s1 fds, each f ps s = Ret (tt, s1) /\ served (become st' ps cr) s1 /\ m_pendingFunctors s1 = m_pendingFunctors s
    /\ Forall2 (fun p fd => fst <$> cr !! p = Some fd) ps fds /\ released s1 = released s ++ concat (map gives fds).
Proof.
  intros Hf H Hnd. revert cr s H. induction Hnd as [|p ps Hp Hnd IH]; intros cr s H Hps; [exists s, []; by rewrite app_nil_r|].
  assert (exists fd, cr !! p = Some (fd, st)) as [fd Hfd].
  { pose proof (Hps p ltac:(by left)) as Hst. unfold stage_of in Hst. destruct (cr !! p) as [[fd st0]|]; [|done].
    injection Hst as ->. by exists fd. }
  destruct (Hf cr s p fd H Hfd) as (s1 & E & H1 & Hpf & Hrl).
  destruct (IH _ s1 H1) as (s2 & fds & E2 & H2 & Hpf2 & Hfds & Hrl2).
  - intros q Hq. rewrite stage_mark, decide_False by (intros ->; done). apply Hps. by right.
  - exists s2, (fd :: fds). split_and!; [|done|congruence| |].
    + cbn [each]. by rewrite (ST_bind_eq _ _ _ _ _ E).
    + constructor; [by rewrite Hfd|]. eapply Forall2_impl_in; [exact Hfds|]. intros q g Hq _ Hg.
      unfold mark in Hg. by rewrite lookup_alter_ne in Hg by (intros ->; done).
    + cbn [map concat]. by rewrite Hrl2, Hrl, <- app_assoc.
Qed.

Lemma run_destructions ps s : run_functors sys_write (Some (onConnection true)) (destructions ps) s
  = each (fun p => on p (run_functor p (sys_write p) (Some (onConnection true)) true FDestroy)) ps s.
Proof.
  revert s. induction ps as [|p ps IH]; intros s; [done|]. cbn [map run_functors each]. unfold mbind, ST_bind.
  by destruct (on _ _ _) as [[[] s1]|].
Qed.
Lemma release_destructions ps s : release (destructions ps) s = each free ps s.
Proof.
  revert s. induction ps as [|p ps IH]; intros s; [done|]. cbn [map release each]. unfold mbind, ST_bind.
  by destruct (free _ _) as [[[] s1]|].
Qed.

(** Nothing waits at the end of a turn. *)
Definition at_rest cr s : Prop := m_pendingFunctors s = [] /\ forall p, stage_of cr p <> Some Closing.

(** The connections that closed in this turn, and their descriptors. *)
Definition closings cr (ps : list Channel.ptr) (fds : list Z) : Prop :=
  (forall p, p ∈ ps <-> stage_of cr p = Some Closing) /\ NoDup ps /\ Forall2 (fun p fd => fst <$> cr !! p = Some fd) ps fds.

Lemma doPendingFunctors_served cr s : served cr s -> pends cr s ->
  exists s1 ps fds, doPendingFunctors sys_write (Some (onConnection true)) s = Ret (tt, s1)
    /\ served (settle <$> cr) s1 /\ at_rest (settle <$> cr) s1 /\ closings cr ps fds /\ released s1 = released s ++ fds.
Proof.
  intros H (ps & Hps & Hnd & Hiff). set (s0 := mk (objects s) (connections s) [] (freed s) (released s)).
  assert (served cr s0) as H0 by (split; apply H).
  destruct (each_served _ Closing Dying (fun _ => []) ps cr s0 destroy_served H0 Hnd) as (s1 & fds1 & E1 & H1 & Hpf1 & _ & Hrl1);
    [by intros p ?%Hiff|].
  destruct (each_served _ Dying Gone (fun fd => [fd]) ps _ s1 free_served H1 Hnd) as (s2 & fds & E2 & H2 & Hpf2 & Hfds & Hrl2).
  { intros p Hp. unfold stage_of. rewrite become_lookup, decide_True by done. apply Hiff in Hp. unfold stage_of in Hp. by destruct (cr !! p). }
  assert (become Gone ps (become Dying ps cr) = settle <$> cr) as Hcr.
  { apply map_eq. intros q. rewrite !become_lookup, lookup_fmap. destruct (decide (q ∈ ps)) as [Hq%Hiff|Hq].
    - unfold stage_of in Hq. by destruct (cr !! q) as [[fd []]|].
    - assert (stage_of cr q <> Some Closing) as Hst by (by rewrite <- Hiff). unfold stage_of in Hst. by destruct (cr !! q) as [[fd []]|]. }
  rewrite Hcr in H2. exists s2, ps, fds. split_and!; [|done| | |].
  - unfold doPendingFunctors. rewrite gets_bind, modify_bind. fold s0. rewrite Hps.
    rewrite <- run_destructions in E1. rewrite (ST_bind_eq _ _ _ _ _ E1), release_destructions. exact E2.
  - split; [by rewrite Hpf2, Hpf1|]. intros p. unfold stage_of. rewrite lookup_fmap. by destruct (cr !! p) as [[fd []]|].
  - split; [done|]. split; [done|]. eapply Forall2_impl_in; [exact Hfds|]. intros q g Hq _ Hg.
    cbn beta in Hg. rewrite become_lookup, decide_True in Hg by done. by destruct (cr !! q).
  - assert (concat (map (fun _ : Z => @nil Z) fds1) = []) as E0 by (clear; by induction fds1).
    assert (concat (map (fun fd => [fd]) fds) = fds) as E3 by (clear; induction fds as [|x fds IH]; [done|by cbn; rewrite IH]).
    by rewrite Hrl2, Hrl1, E0, E3, app_nil_r.
Qed.

(** *** A turn, and a new client *)

(** What the epoll reports of clients and guests becomes the list of the
    active channels. *)
Lemma poll_served ps cr s : served cr s -> NoDup ps -> zlen ps <= 1024 ->
  (forall p, p ∈ ps -> (exists fd n, cr !! p = Some (fd, Sending n)) \/ is_Some (guests !! p)) ->
  exists w, let s1 := mk w (connections s) (m_pendingFunctors s) (freed s) (released s) in
    poll (fun _ => (zlen (reports s ps), reports s ps)) s = Ret (ps, s1)
    /\ served cr s1 /\ Forall (active s1) ps.
Proof.
  intros H Hnd Hlen Hps.
  assert (forall p, p ∈ ps -> channel_map s !! fd_of s p = Some p) as Hmap.
  { intros p [(fd & n & Hp)|[fd Hp]]%Hps; unfold fd_of.
    - apply (sv_stands cr s H) in Hp. apply stands_session in Hp as (t & c & ds & _ & _ & Hf & _ & Hc & Hm & _). by rewrite Hc, Hf.
    - destruct (sv_guests cr s H p fd Hp) as (c & Hc & Hf & Hm & _). by rewrite Hc, Hf. }
  assert (reported (objects s) (reports s ps)) as Hrep.
  { split.
    - assert ((reports s ps).*1 = map (fd_of s) ps) as -> by (unfold reports; rewrite <- list_fmap_compose; done).
      apply NoDup_fmap_2_strong; [|done]. intros p q Hp%Hmap Hq%Hmap E. congruence.
    - apply Forall_forall. intros [f ev] (p & [= -> ->] & Hp)%list_elem_of_fmap. split; [|done]. eexists. by apply Hmap. }
  assert (ztake 1024 (reports s ps) = reports s ps) as Hall by (apply ztake_all; unfold zlen, reports in *; rewrite length_map; lia).
  destruct (epoll_poll_dispatches (fun _ => (zlen (reports s ps), reports s ps)) (reports s ps) (objects s) (sv_ok cr s H))
    as (ps' & w & E & Hok & Hpo & Hpm & Hps' & Hsame); [apply H|done|done|].
  rewrite Hall in Hpm, Hps'. apply Forall2_fmap_l in Hpm, Hps'.
  assert (ps' = ps) as ->.
  { symmetry. apply list_eq_Forall2. eapply Forall2_impl_in; [exact Hpm|]. intros p p' Hp _ Hpp.
    unfold compose in Hpp. rewrite (Hmap p Hp) in Hpp. by injection Hpp. }
  exists w. cbv zeta. split; [unfold poll; by rewrite E|].
  assert (forall p, p ∈ ps -> exists c, channels (objects s) !! p = Some c /\ channels w !! p = Some (Channel.set_revents Channel.EVENTIN c)) as Hnew.
  { intros p [i Hi]%list_elem_of_lookup. destruct (Forall2_lookup_l _ _ _ _ _ Hps' Hi) as (q & Hq & c & Hc & _ & Hcw).
    rewrite Hi in Hq. injection Hq as <-. by exists c. }
  assert (forall p c, channels (objects s) !! p = Some c -> exists e, channels w !! p = Some (Channel.set_revents e c)) as Hkeep.
  { intros p c Hc. destruct (decide (p ∈ ps)) as [Hp|Hp].
    - destruct (Hnew p Hp) as (c0 & Hc0 & Hcw). rewrite Hc in Hc0. injection Hc0 as <-. by eexists.
    - exists (Channel.m_revents c). rewrite Hsame, Hc by done. by destruct c. }
  split; [|apply Forall_forall; intros p Hp; destruct (Hnew p Hp) as (c & _ & Hc); by eexists].
  split; cbn [objects connections freed]; [done|by rewrite Hpo; apply H| |apply H| |apply H|].
  - intros p [c Hc]. apply (sv_channels cr s H). destruct (decide (p ∈ ps)) as [Hp|Hp]; [|rewrite <- Hsame by done; by eexists].
    destruct (Hnew p Hp) as (c0 & Hc0 & _). by eexists.
  - intros p fd Hp. destruct (sv_guests cr s H p fd Hp) as (c & Hc & Hf & Hm & Hr). destruct (Hkeep p c Hc) as [e He].
    exists (Channel.set_revents e c). cbn [objects]. by rewrite Hpo.
  - intros p x Hx. pose proof (sv_stands cr s H p x Hx) as Hs. destruct (decide (p ∈ ps)) as [Hp|Hp].
    + destruct (Hps p Hp) as [(fd & n & Hn)|Hg]; [|by rewrite (sv_apart cr s H p) in Hg by (by eexists); destruct Hg].
      rewrite Hx in Hn. injection Hn as ->. apply stands_session in Hs as (t & c & ds & Ht & Hl & Hf & _ & Hc & Hm & Hs).
      destruct (Hnew p Hp) as (c0 & Hc0 & Hcw). rewrite Hc in Hc0. injection Hc0 as <-.
      exists t, (Channel.set_revents Channel.EVENTIN c), ds. split_and!; try done.
      apply (serving_put p t (objects s) w c); [done|done|done|]. by rewrite Hpo, Hf.
    + apply (stands_put s); try done; [by apply Hsame|]. intros f. cbn [objects]. by rewrite Hpo.
Qed.

Lemma speaks_sending cr p : speaks cr p = true -> exists fd n, cr !! p = Some (fd, Sending n).
Proof. unfold speaks. destruct (cr !! p) as [[fd [n| | |]]|]; try done. intros _. by exists fd, n. Qed.

(** A turn of the loop: the input of the reported clients is read, and who
    hung up is gone. *)
Lemma turn_served ps cr s : served cr s -> at_rest cr s -> sends cr ps = true ->
  exists s1 gone fds, happen (Input ps) s = Ret (tt, s1) /\ served (settle <$> fold_left heard ps cr) s1
    /\ at_rest (settle <$> fold_left heard ps cr) s1 /\ closings (fold_left heard ps cr) gone fds /\ released s1 = released s ++ fds.
Proof.
  intros H [Hpf Hrest] (Hnd & Hlen & Hps)%bool_decide_eq_true.
  destruct (poll_served ps cr s H Hnd Hlen) as (w & E & H1 & Hact).
  { intros p Hp. left. rewrite Forall_forall in Hps. by apply speaks_sending, Hps. }
  destruct (visits_served ps cr _ H1) as (s1 & E1 & H2 & Hpe & Hrl); [|done|by apply Forall_and|].
  { exists []. split; [exact Hpf|]. split; [constructor|]. intros p. split; [by intros ?%not_elem_of_nil|by intros ?%Hrest]. }
  destruct (doPendingFunctors_served _ s1 H2 Hpe) as (s2 & gone & fds & E2 & H3 & Hr3 & Hcl & Hrl2).
  exists s2, gone, fds. split_and!; try done; [|by rewrite Hrl2, Hrl].
  cbn [happen]. unfold turn. rewrite (ST_bind_eq _ _ _ _ _ E), (ST_bind_eq _ _ _ _ _ E1). exact E2.
Qed.

(** A client that connects: its session begins. *)
Lemma session_begins p fd b s t c : client p -> Buffer.wf b -> Buffer.content b = [] -> Buffer.size b <= 2 ^ 61 ->
  established p t c -> Channel.m_readCallBack c = Some OnRead -> connected t = true -> user t = Some HttpContext.init ->
  m_inputBuffer t = b -> m_outputBuffer t = b -> io_functors t = [] -> calls t = 0%nat -> wire t = [] -> Channel.m_fd c = fd ->
  connections s !! p = Some t -> objects s = wld t -> stands s p (fd, Sending (length (all_pieces p))).
Proof.
  intros [Hs Hun Hd Hr _ Hsh] Hb Hbc Hsz Hes Hrd Hcn Hu Hin Ho Hio Hk Hw Hf Ht Hwld.
  change (2 ^ 61) with 2305843009213693952 in *. change (2 ^ 62) with 4611686018427387904.
  exists t, c, (all_pieces p). rewrite Hwld, set_wld_own. split_and!; try done.
  change (answers p) with ([] ++ answers p). rewrite <- Hw. unfold last_call. rewrite <- Hk.
  apply serving_next; rewrite ?Hk, ?Hin; try done.
  - split; rewrite ?Hin, ?Ho, ?Hio; try done. by rewrite <- Buffer.zlen_content, Hbc by done.
  - change (2 ^ 62) with 4611686018427387904. fold (all_pieces p). lia.
Qed.

Lemma connect_served p fd cr s : served cr s -> cr !! p = None -> guests !! p = None -> channel_map s !! fd = None ->
  Z.of_nat (size (channel_map s)) < 10000 ->
  exists s1, newConnetion (Some (onConnection true)) p fd None s = Ret (tt, s1)
    /\ served (<[p := (fd, Sending (length (all_pieces p)))]> cr) s1 /\ touches p s s1
    /\ m_pendingFunctors s1 = m_pendingFunctors s /\ released s1 = released s.
Proof.
  intros H Hp Hg Hfree Hcount. pose proof (sv_ok cr s H) as Hok.
  destruct (Buffer.init_spec Buffer.kInitialSize) as (b & Eb & Hb & Hbc & Hwr & Hw); [done|by vm_compute|].
  rewrite (Buffer.writable_wf b Hb), Hw in Hwr. unfold Buffer.kInitialSize, Buffer.kCheapPrepend in Hwr.
  assert (channels (objects s) !! p = None) as Hnew.
  { apply eq_None_not_Some. intros [[f Hq]|(f & st & Hst & _)]%(sv_channels cr s H); congruence. }
  set (t0 := TcpConnection.mk (objects s) kConnecting b b None [] [] false [] false 0 ∅ : TcpConnection.t context (Epoll.t K)).
  destruct (new_connection_spec (U := context) (P := Epoll.t K) p (Some (onConnection true)) true fd None b t0)
    as (t & c & E & Hes & Hrd & _ & Hf & Hcn & Ho & Hk & Hwire & _ & Hin & Hu & Hio & Hch & Hmc); try done.
  { change (Z.of_nat (size (channel_map s)) < 2 ^ 30). change (2 ^ 30) with 1073741824. lia. }
  cbn [wld t0] in Hch, Hmc. change (m_channels (C := callback)) with (@Epoll.channel_map K) in Hmc.
  set (s1 := mk (wld t) (<[p := t]> (connections s)) (m_pendingFunctors s) (freed s) (released s)).
  assert (touches p s s1) as Hto.
  { apply (touches_own p s t c); [done|]. intros q f Hq. rewrite Hmc, lookup_insert_Some.
    split; [intros [[_ ?]|[_ ?]]; [congruence|done]|]. intros Hqf. right. split; [|done]. intros <-. congruence. }
  exists s1. split; [|split; [|done]].
  - unfold newConnetion. rewrite Eb. cbn [mbind outcome_bind].
    rewrite (on_run p _ (mk (objects s) (<[p := t0]> (connections s)) (m_pendingFunctors s) (freed s) (released s)) t0 t (lookup_insert_eq _ _ _) E).
    cbn [connections m_pendingFunctors freed released]. by rewrite insert_insert_eq, Hio, app_nil_r.
  - apply (served_step cr s); try done; [apply Hes|cbn [objects s1]; rewrite Hmc, map_size_insert_None by done; lia|].
    apply (session_begins p fd b s1 t c); try done; [lia|]. cbn [connections s1]. apply lookup_insert_eq.
Qed.

Lemma connects_served p fd cr s : served cr s -> connects cr p fd = true ->
  exists s1, newConnetion (Some (onConnection true)) p fd None s = Ret (tt, s1)
    /\ served (<[p := (fd, Sending (length (all_pieces p)))]> cr) s1 /\ m_pendingFunctors s1 = m_pendingFunctors s.
Proof.
  intros H (Hp & Hg & Hfd & Hsz)%bool_decide_eq_true. pose proof (channel_map_size cr s H) as Hcount.
  destruct (connect_served p fd cr s H Hp Hg) as (s1 & E & H1 & _ & Hpf & _); [|lia|by exists s1].
  apply eq_None_not_Some. intros [q Hq]. by apply Hfd, (channel_map_in_use cr s fd q).
Qed.

Lemma at_rest_insert cr p fd n s s1 : at_rest cr s -> m_pendingFunctors s1 = [] -> at_rest (<[p := (fd, Sending n)]> cr) s1.
Proof.
  intros [_ Hrest] Hpf. split; [done|]. intros q. unfold stage_of. destruct (decide (p = q)) as [<-|Hne]; [by rewrite lookup_insert_eq|].
  rewrite lookup_insert_ne by done. apply Hrest.
Qed.

Lemma happens_served hs cr cr' s : served cr s -> at_rest cr s -> crowd_after cr hs = Some cr' ->
  exists s', happens hs s = Ret (tt, s') /\ served cr' s' /\ at_rest cr' s'.
Proof.
  revert cr s. induction hs as [|[p fd|ps] hs IH]; intros cr s H Hrest Hr; cbn [crowd_after happens] in *.
  - injection Hr as <-. by exists s.
  - destruct (connects cr p fd) eqn:Hc; [|done].
    destruct (connects_served p fd cr s H Hc) as (s1 & E & H1 & Hpf1). rewrite (proj1 Hrest) in Hpf1.
    destruct (IH _ s1 H1 (at_rest_insert cr p fd _ s s1 Hrest Hpf1) Hr) as (s2 & E2 & H2).
    exists s2. by rewrite (ST_bind_eq (happen (Connect p fd)) _ s tt s1 E).
  - destruct (sends cr ps) eqn:Hs; [|done]. destruct (turn_served ps cr s H Hrest Hs) as (s1 & _ & _ & E & H1 & Hrest1 & _).
    destruct (IH _ s1 H1 Hrest1 Hr) as (s2 & E2 & H2). exists s2. by rewrite (ST_bind_eq _ _ _ _ _ E).
Qed.

(** A loop nobody is connected to, with the channels it has of its own. *)
Definition home (w : world callback (Epoll.t K)) : loop := mk w ∅ [] ∅ [].
Record lodged (w : world callback (Epoll.t K)) : Prop := {
  lo_ok : epoll_inv w;
  lo_room : Z.of_nat (size (Epoll.channel_map (poller w))) <= 10000;
  lo_only : forall p, is_Some (channels w !! p) -> is_Some (guests !! p);
  lo_guests : forall p fd, guests !! p = Some fd -> guest (home w) p fd
}.

Lemma home_served w : lodged w -> served ∅ (home w) /\ at_rest ∅ (home w).
Proof.
  intros [Hok Hroom Honly Hg]. split; [|done]. split; try done; [by intros p ?%Honly; left|by intros p [c Hc]|by intros p [x Hx]].
Qed.

Lemma crowd_runs hs cr w : lodged w -> crowd_after ∅ hs = Some cr ->
  exists s, happens hs (home w) = Ret (tt, s) /\ served cr s /\ at_rest cr s.
Proof. intros Hw Hr. destruct (home_served w Hw) as [H Hrest]. by apply (happens_served hs ∅ cr). Qed.

(** What a client got is a beginning of its answers, all of them when its
    complete requests have come. *)
Lemma serving_wire p rv (t : TcpConnection.t context (Epoll.t K)) c tail ds out fin :
  serving httpCallback_ p rv sndbuf t c tail ds out fin ->
  m_state t = kConnected /\ exists more, wire t ++ more = out /\ ((length ds <= length tail)%nat -> more = []).
Proof.
  intros H. destruct (serving_ready _ _ _ _ _ _ _ _ H) as (cx & r & [[Hst _ _ _ _ _ _] _ _ _ _ _ _ _]). split; [done|].
  destruct H as [| |q ds dss qs pre cx0 r0 _ Hne]; [exists []; by rewrite app_nil_r|exists []; by rewrite app_nil_r|].
  eexists. split; [done|]. rewrite !length_app. destruct ds; [done|]. cbn. lia.
Qed.

Lemma gone_left_nothing cr s p fd : served cr s -> cr !! p = Some (fd, Gone) -> connections s !! p = None
  /\ channels (objects s) !! p = None /\ exists t, freed s !! p = Some t /\ m_state t = kDisConnected /\ wire t = answers p.
Proof.
  intros H Hp. destruct (sv_stands cr s H p _ Hp) as (t & Ht & Hst & Hw). split; [|split; [|by exists t]].
  - apply eq_None_not_Some. intros (f & st & Hst' & Hne)%(sv_connections cr s H). rewrite Hp in Hst'. by injection Hst' as <- <-.
  - apply eq_None_not_Some. intros [[f Hf]|(f & st & Hst' & Hne)]%(sv_channels cr s H).
    + rewrite (sv_apart cr s H p) in Hf by (by eexists). done.
    + rewrite Hp in Hst'. by injection Hst' as <- <-.
Qed.

Lemma still_served cr s p fd n : served cr s -> cr !! p = Some (fd, Sending n) -> exists t, connections s !! p = Some t
  /\ m_state t = kConnected /\ exists more, wire t ++ more = answers p /\ ((n <= length (partial p))%nat -> more = []).
Proof.
  intros H Hn. destruct (sv_stands cr s H p _ Hn) as (t & c & ds & Ht & <- & _ & Hs).
  exists t. split; [done|]. by apply serving_wire in Hs.
Qed.

Lemma watches_the_living cr s f : served cr s -> at_rest cr s ->
  is_Some (watched (Epoll.kernel (poller (objects s))) !! f)
    <-> (exists p, guests !! p = Some f) \/ exists p n, cr !! p = Some (f, Sending n).
Proof.
  intros H [_ Hrest]. rewrite <- elem_of_dom, (inv_kernel _ (sv_ok cr s H)), elem_of_dom. split.
  - intros [p Hp]. destruct (channel_map_known cr s f p H Hp) as [Hg|([n| | |] & Hst & Hreg)]; try done; [left; by exists p|right; by exists p, n|].
    exfalso. apply (Hrest p). unfold stage_of. by rewrite Hst.
  - intros [[p Hp]|(p & n & Hp)].
    + destruct (sv_guests cr s H p f Hp) as (_ & _ & _ & Hm & _). by exists p.
    + apply (sv_stands cr s H), stands_session in Hp as (_ & _ & _ & _ & _ & _ & _ & _ & Hm & _). by exists p.
Qed.

(** C2. Many clients on one loop, over the whole stack: whatever the order in
    which clients connect, the epoll reports their input and they hang up - in
    the middle of a request or not - each open connection lives on and what its
    client got is a beginning of the answers to its own requests, in their
    order, all of them once its complete requests have come; a client that hung
    up got them all, and its connection and channel are freed; the kernel
    watches the descriptors of the open connections, those of the loop's own
    channels, and no other.  The clients send well-formed requests that leave
    the connection open, no piece with parts of two; every answer fits the send
    buffer, so that one write takes it whole. *)
Theorem clients_served w hs cr : lodged w -> crowd_after ∅ hs = Some cr ->
  exists s, happens hs (home w) = Ret (tt, s)
    /\ (forall p fd n, cr !! p = Some (fd, Sending n) -> exists t, connections s !! p = Some t /\ m_state t = kConnected
        /\ exists more, wire t ++ more = answers p /\ ((n <= length (partial p))%nat -> more = []))
    /\ (forall p fd, cr !! p = Some (fd, Gone) -> connections s !! p = None /\ channels (objects s) !! p = None
        /\ exists t, freed s !! p = Some t /\ m_state t = kDisConnected /\ wire t = answers p)
    /\ (forall f, is_Some (watched (Epoll.kernel (poller (objects s))) !! f)
         <-> (exists p, guests !! p = Some f) \/ exists p n, cr !! p = Some (f, Sending n)).
Proof.
  intros Hw Hr. destruct (crowd_runs hs cr w Hw Hr) as (s & E & H & Hrest). exists s. split; [done|].
  split; [intros p fd n; by apply still_served|]. split; [intros p fd; by apply gone_left_nothing|].
  intros f. by apply watches_the_living.
Qed.

(** *** One client against the others *)

(** A turn that reports one client. *)
Lemma poll_one p fd c (w : world callback (Epoll.t K)) : epoll_inv w -> Z.of_nat (size (Epoll.channel_map (poller w))) <= 10000 ->
  Epoll.channel_map (poller w) !! fd = Some p -> channels w !! p = Some c -> Channel.m_fd c = fd ->
  exists w', Epoll.poll (fun _ => (1, [(fd, Channel.EVENTIN)])) w = Ret ([p], w') /\ epoll_inv w' /\ poller w' = poller w
    /\ channels w' !! p = Some (Channel.set_revents Channel.EVENTIN c).
Proof.
  intros Hok Hsz Hm Hc Hf.
  assert (reported w [(fd, Channel.EVENTIN)]) as Hrep.
  { split; [apply NoDup_singleton|]. apply Forall_singleton. split; [by eexists|done]. }
  destruct (epoll_poll_dispatches (fun _ => (1, [(fd, Channel.EVENTIN)])) [(fd, Channel.EVENTIN)] w Hok Hsz Hrep eq_refl)
    as (ps & w' & E & Hok' & Hpo & Hps & Hpv & _).
  change (ztake 1024 [(fd, Channel.EVENTIN)]) with [(fd, Channel.EVENTIN)] in Hps, Hpv.
  apply Forall2_cons_inv_l in Hps as (q & ps' & Hq & Hnil%Forall2_nil_inv_l & ->).
  subst ps'. rewrite Hm in Hq. injection Hq as <-. apply Forall2_cons_inv_l in Hpv as (q & ps' & (c' & Hc' & _ & Hcw) & _ & [= <- <-]).
  rewrite Hc in Hc'. injection Hc' as <-. by exists w'.
Qed.

Lemma turn_one p s t w c : Epoll.poll (fun _ => (1, [(fd_of s p, Channel.EVENTIN)])) (objects s) = Ret ([p], w) ->
  connections s !! p = Some t -> io_functors t = [] -> m_pendingFunctors s = [] ->
  channels w !! p = Some c -> Channel.m_revents c = Channel.EVENTIN ->
  happen (Input [p]) s =
    match step p (sys_write p) (sys_readv p) (onMessage httpCallback_) (Some (onConnection true)) true readable (set_wld w t) with
    | Ret (_, t1) => doPendingFunctors sys_write (Some (onConnection true))
        (mk (wld t1) (<[p := t1]> (connections s)) (map (pair p) (io_functors t1)) (freed s) (released s))
    | Crash e => Crash e
    end.
Proof.
  intros E Ht Hio Hpf Hc Hrev. cbn [happen]. unfold turn. unfold mbind at 1, ST_bind at 1. unfold poll, reports. cbn [map].
  change (zlen [(fd_of s p, Channel.EVENTIN)]) with 1. rewrite E. cbn [mbind outcome_bind].
  unfold mbind at 1, ST_bind at 1. cbn [handle_active]. unfold mbind at 1, ST_bind at 1. unfold handleEvent.
  cbn [objects]. rewrite Hc. cbn [deref mbind outcome_bind]. rewrite Hrev. unfold on. cbn [connections objects m_pendingFunctors].
  rewrite Ht. cbn [deref mbind outcome_bind]. rewrite set_io_idle by done.
  cbn [step readable]. destruct (TcpConnection.handleEvent _ _ _ _ _ _ _) as [[[] t1]|e]; [|done]. cbn. by rewrite Hpf.
Qed.

Lemma happens_app hs hs' s s1 : happens hs s = Ret (tt, s1) -> happens (hs ++ hs') s = happens hs' s1.
Proof.
  revert s. induction hs as [|h hs IH]; intros s; cbn [happens app]; [by intros [= ->]|].
  intros ([] & s2 & E & E2)%ST_bind_inv. rewrite (ST_bind_eq _ _ _ _ _ E). by apply IH.
Qed.

(** C34. One client takes the server down: after any schedule of such clients,
    one with nothing outstanding that sends a request line with a known method
    and no second blank is answered 400 (the 400 fits the send buffer), and the
    next byte it sends fails an assertion of the parser: the process ends with
    the sessions of all the others. *)
Theorem bad_client_aborts w hs cr s p fd t m tail d : zlen bad_request <= sndbuf -> lodged w -> crowd_after ∅ hs = Some cr ->
  happens hs (home w) = Ret (tt, s) -> cr !! p = Some (fd, Sending 0) -> partial p = [] -> connections s !! p = Some t ->
  Buffer.size (m_inputBuffer t) <= 2 ^ 61 -> m <> HttpRequest.kInvalid -> CR ∉ tail -> " "%char ∉ tail ->
  piece (HttpContext.bad_line m tail) -> piece d ->
  (forall iov, sys_readv p (calls t) iov = Buffer.ReadBytes (HttpContext.bad_line m tail)) ->
  (forall iov, sys_readv p (S (S (calls t))) iov = Buffer.ReadBytes d) ->
  exists s1 t1, happens (hs ++ [Input [p]]) (home w) = Ret (tt, s1)
    /\ connections s1 !! p = Some t1 /\ wire t1 = answers p ++ bad_request
    /\ happens (hs ++ [Input [p]; Input [p]]) (home w) = Crash AssertFailure.
Proof.
  intros Hfit Hlo Hr E Hp Hpart Ht Hsz Hm Htail Hsp Hp1 Hp2 Hd1 Hd2.
  destruct (crowd_runs hs cr w Hlo Hr) as (s' & E' & H & [Hpf _]). rewrite E in E'. injection E' as <-.
  destruct (stands_session s p fd 0 (sv_stands cr s H p _ Hp)) as (t' & c & ds & Ht' & Hds & Hf & Hio & Hc & Hmap & Hs).
  rewrite Ht in Ht'. injection Ht' as <-. apply nil_length_inv in Hds as ->. rewrite Hpart in Hs.
  apply serving_nil in Hs as (Hwire & _ & _ & cx & r & Hrdy & Hinit). destruct (Hinit eq_refl) as [-> ->].
  destruct (poll_one p fd c (objects s) (sv_ok cr s H) (sv_room cr s H) Hmap Hc Hf) as (w1 & Epoll1 & Hok & Hpo & Hcw).
  apply (ready_put p t _ w1 c Channel.EVENTIN) in Hrdy; [|done|done|by rewrite Hpo, Hf].
  destruct (refused_then_aborts httpCallback_ p (sys_write p) (sys_readv p) sndbuf true (takes_whole p) m tail d _ _ Hfit Hrdy)
    as (t1 & c1 & E1 & [Hch1 Hpo1] & Hf1 & Hok1 & Hio1 & Hw1 & Habort); try done.
  set (s1 := mk (wld t1) (<[p := t1]> (connections s)) [] (freed s) (released s)).
  assert (fd_of s p = fd) as Hfd by (unfold fd_of; by rewrite Hc).
  assert (happen (Input [p]) s = Ret (tt, s1)) as Eh.
  { rewrite (turn_one p s t w1 _ ltac:(by rewrite Hfd) Ht Hio Hpf Hcw eq_refl), E1, Hio1. done. }
  exists s1, t1. rewrite !(happens_app _ _ _ _ E). cbn [happens]. rewrite !(ST_bind_eq _ _ _ _ _ Eh). split_and!; [done|apply lookup_insert_eq| |].
  - rewrite Hw1, Hwire. done.
  - cbn [wld set_wld] in Hpo1. assert (channels (objects s1) !! p = Some c1) as Hc1 by (cbn [objects s1]; by rewrite Hch1, lookup_insert_eq).
    assert (fd_of s1 p = fd) as Hfd1 by (unfold fd_of; rewrite Hc1; by rewrite Hf1).
    destruct (poll_one p fd c1 (wld t1)) as (w2 & Epoll2 & _ & _ & Hcw2).
    + exact Hok1.
    + rewrite Hpo1, Hpo. apply H.
    + by rewrite Hpo1, Hpo.
    + exact Hc1.
    + by rewrite Hf1.
    + apply ST_bind_crash. rewrite (turn_one p s1 t1 w2 _ ltac:(by rewrite Hfd1) (lookup_insert_eq _ _ _) Hio1 eq_refl Hcw2 eq_refl).
      by rewrite (Habort w2 _ Hcw2 eq_refl).
Qed.
End clients.

(** ** Witnesses: one client leaves in the middle of a request while another is
    read, and a third gets its descriptor; and one that sends nothing good. *)
Definition some_requests (p : Channel.ptr) : list request :=
  match p with 1%nat => [get_a; get_b] | 2%nat | 4%nat => [get_b] | _ => [] end.
Definition some_pieces (p : Channel.ptr) : list (list bytes) :=
  match p with 1%nat => demo_pieces | 2%nat => [[ztake 3 (text get_b); zdrop 3 (text get_b)]] | 4%nat => [[text get_b]] | _ => [] end.
Definition some_partial (p : Channel.ptr) : list bytes := match p with 1%nat => [ztake 5 (text get_a)] | _ => [] end.
Definition some_leaves (p : Channel.ptr) : bool := match p with 1%nat => true | _ => false end.
Definition some_readv (p : Channel.ptr) (k : nat) (_ : list Z) : Buffer.readv_result :=
  Buffer.ReadBytes (nth k
    match p with
    | 1%nat => [ztake 7 (text get_a); zdrop 7 (text get_a); []; text get_b; []; ztake 5 (text get_a)]
    | 2%nat => [ztake 3 (text get_b); zdrop 3 (text get_b)]
    | 4%nat => [text get_b]
    | _ => [HttpContext.bad_line HttpRequest.kGet (lit "/"); []; lit "x"]
    end []).
Definition interleaved : list happening :=
  [Connect 1 11; Input [1%nat]; Connect 2 12; Input [2%nat; 1%nat]; Input [1%nat]; Input [1%nat]; Input [1%nat; 2%nat]; Connect 4 11; Input [4%nat]].
Abbreviation some_happen := (happens (K := gmap Z Z) echo_path (fun _ => whole_write) some_readv).
Definition empty_world : world callback (Epoll.t (gmap Z Z)) := mkWorld ∅ (Epoll.init ∅).

Lemma empty_lodged : lodged ∅ empty_world.
Proof. split; [by apply init_inv|done|by intros p [c Hc]|done]. Qed.

Lemma some_sent p : Forall2 (sent_in echo_path 65536) (some_pieces p) (some_requests p).
Proof. destruct p as [|[|[|[|[|p]]]]]; repeat constructor; try done; try apply get_a_ok; try apply get_b_ok; by_compute. Qed.

Lemma some_unfinished p : unfinished (some_partial p).
Proof.
  destruct p as [|[|p]]; [by left| |by left]. right. exists get_a, (zdrop 5 (text get_a)).
  split; [apply get_a_ok|]. split; [done|]. split; [repeat constructor; by_compute|by vm_compute].
Qed.

Lemma some_client p : client echo_path some_readv 65536 some_requests some_pieces some_partial some_leaves p.
Proof.
  split; [apply some_sent|apply some_unfinished|..]; destruct p as [|[|[|[|[|p]]]]]; try by repeat split.
  all: by vm_compute.
Qed.

Lemma clients_served_witness :
  exists s t1 t2 t4, some_happen interleaved (home empty_world) = Ret (tt, s)
    /\ freed s !! 1%nat = Some t1 /\ connections s !! 2%nat = Some t2 /\ connections s !! 4%nat = Some t4
    /\ wire t1 = responses echo_path [get_a; get_b] /\ wire t2 = responses echo_path [get_b] /\ wire t4 = responses echo_path [get_b]
    /\ is_Some (watched (Epoll.kernel (poller (objects s))) !! 11).
Proof.
  destruct (clients_served echo_path (fun _ => whole_write) some_readv 65536 some_requests some_pieces some_partial some_leaves ∅
    ltac:(done) some_client empty_world interleaved
    (<[4%nat := (11, Sending 0)]> (<[2%nat := (12, Sending 0)]> {[ 1%nat := (11, Gone) ]})) empty_lodged ltac:(by vm_compute)) as (s & E & Hin & Hgone & Hk).
  destruct (Hgone 1%nat 11 eq_refl) as (_ & _ & t1 & Ht1 & _ & Hw1).
  destruct (Hin 2%nat 12 0%nat eq_refl) as (t2 & Ht2 & _ & more2 & Hw2 & Hm2).
  destruct (Hin 4%nat 11 0%nat eq_refl) as (t4 & Ht4 & _ & more4 & Hw4 & Hm4).
  rewrite Hm2, app_nil_r in Hw2 by apply Nat.le_0_l. rewrite Hm4, app_nil_r in Hw4 by apply Nat.le_0_l.
  assert (is_Some (watched (Epoll.kernel (poller (objects s))) !! 11)) as H11.
  { apply Hk. right. exists 4%nat, 0%nat. reflexivity. }
  exists s, t1, t2, t4. exact (conj E (conj Ht1 (conj Ht2 (conj Ht4 (conj Hw1 (conj Hw2 (conj Hw4 H11))))))).
Defined.

Definition hostile : list happening := [Connect 1 11; Connect 3 13; Input [1%nat]].

Lemma hostile_runs : exists s t, some_happen hostile (home empty_world) = Ret (tt, s)
  /\ connections s !! 3%nat = Some t /\ calls t = 0%nat /\ Buffer.size (m_inputBuffer t) <= 2 ^ 61.
Proof.
  assert (match some_happen hostile (home empty_world) with
    | Ret (_, s) => match connections s !! 3%nat with
                    | Some t => (calls t =? 0)%nat && (Buffer.size (m_inputBuffer t) <=? 2 ^ 61)
                    | None => false
                    end
    | Crash _ => false
    end = true) as H by (vm_compute; reflexivity).
  destruct (some_happen hostile _) as [[[] s]|e]; [|done]. destruct (connections s !! 3%nat) as [t|] eqn:Ht; [|done].
  apply andb_true_iff in H as [Hk%Nat.eqb_eq Hs%Z.leb_le]. by exists s, t.
Qed.

Lemma bad_client_aborts_witness : exists s1 t1, some_happen (hostile ++ [Input [3%nat]]) (home empty_world) = Ret (tt, s1)
  /\ connections s1 !! 3%nat = Some t1 /\ wire t1 = bad_request
  /\ some_happen (hostile ++ [Input [3%nat]; Input [3%nat]]) (home empty_world) = Crash AssertFailure.
Proof.
  destruct hostile_runs as (s & t & E & Ht & Hk & Hsz).
  destruct (bad_client_aborts echo_path (fun _ => whole_write) some_readv 65536 some_requests some_pieces some_partial some_leaves ∅
    ltac:(done) some_client empty_world hostile (<[3%nat := (13, Sending 0)]> {[ 1%nat := (11, Sending 3) ]}) s 3 13 t
    HttpRequest.kGet (lit "/") (lit "x")) as (s1 & t1 & H); [by vm_compute|exact empty_lodged|by vm_compute|exact E|reflexivity|done|exact Ht|exact Hsz|done| | | | | | |].
  3,4: clear; by vm_compute.
  1,2: clear; by_compute.
  1,2: clear - Hk; by rewrite Hk.
  exists s1, t1. exact H.
Defined.
End Reactor.
