(* ===== verification/Server.v ===== *)
(** One process that serves: the loop of Reactor.v with the acceptor and the
    TcpServer on it, from the clients that queue at the listening socket to the
    bytes they get and the descriptors they leave. *)
From S2P Require Import Prelude Cxx Address Buffer HttpRequest HttpContext HttpResponse Channel Epoll Tcp TcpProofs HttpServer Reactor Acceptor EventLoop TcpServer.
Import TcpConnection HttpServer.

(** What the process needs of the system besides [OsSpec]: sockets to listen
    on, and the queue of those who connect, at any time. *)
Class Serving (D : Type) `{!Os D} `{!OsSpec D} := {
  arrive : bytes -> D -> D;
  arrive_ok : forall a k, os_ok k -> os_ok (arrive a k) /\ opened (arrive a k) = opened k /\ backlog (arrive a k) = backlog k ++ [a];
  socket_room : forall f k, os_ok k -> full k = false ->
    exists fd k', os_socket f k = (fd, k') /\ 0 <= fd /\ fd ∉ opened k /\ os_ok k' /\ opened k' = {[fd]} ∪ opened k /\ backlog k' = backlog k;
  bind_keeps : forall fd a k, os_ok k ->
    os_ok (snd (os_bind fd a k)) /\ opened (snd (os_bind fd a k)) = opened k /\ backlog (snd (os_bind fd a k)) = backlog k;
  listen_keeps : forall fd k, os_ok k ->
    os_ok (snd (os_listen fd k)) /\ opened (snd (os_listen fd k)) = opened k /\ backlog (snd (os_listen fd k)) = backlog k
}.

Module Server.

(** The acceptor and its descriptors, the server with its set of connections,
    and the loop. *)
Record state (K D : Type) := mk {
  acceptor : Acceptor.t;
  sys : D;
  server : TcpServer.t unit;
  loop : Reactor.state context K
}.
Arguments mk {K D}. Arguments acceptor {K D}. Arguments sys {K D}. Arguments server {K D}. Arguments loop {K D}.

Section server.
Context {K D : Type} `{!Kernel K} `{!Os D}.
Context (httpCallback_ : HttpRequest.t -> HttpResponse.t -> HttpResponse.t).
Context (sys_write : Channel.ptr -> nat -> bytes -> write_result).
Context (sys_readv : Channel.ptr -> nat -> list Z -> Buffer.readv_result).
Context (getLocalAddr : Z -> bytes) (log_errno : Z -> Z).
(** The channel of the acceptor; the connection that is the [n]-th of the
    server has its channel at [base + n]. *)
Context (m_acceptChannel base : Channel.ptr).
Abbreviation state := (state K D).
Abbreviation M := (ST state).
Implicit Types s : state.

Definition set_server sv s : state := mk (acceptor s) (sys s) sv (loop s).
Definition on_loop {A} (m : ST (Reactor.state context K) A) : M A := fun s =>
  '(a, l) ← m (loop s); Ret (a, mk (acceptor s) (sys s) (server s) l).

(** [TcpServer::newConnetion] with the loop of the server as the loop of the
    connection: [runInLoop] establishes it at once. *)
Definition newConnetion (sockfd : Z) (peerAddr : bytes) (u : TcpServer.t unit * Reactor.state context K) :
    outcome (TcpServer.t unit * Reactor.state context K) :=
  sv ← TcpServer.newConnetion getLocalAddr sockfd peerAddr (fst u);
  '(_, l) ← Reactor.newConnetion (Some (onConnection true)) (base + length (TcpServer.allocated (fst u)))%nat sockfd None (snd u);
  Ret (sv, l).

(** [Acceptor::handleRead]; no other thread opens or closes descriptors. *)
Definition accept : M unit := fun s =>
  '(_, a) ← Acceptor.handleRead (Some newConnetion) log_errno id
    (Acceptor.mk (acceptor s) (Reactor.objects (loop s)) (sys s) (server s, loop s));
  Ret (tt, mk (Acceptor.acc a) (Acceptor.os a) (fst (Acceptor.user a)) (snd (Acceptor.user a))).

(** [Channel::handleEvent] of the acceptor's channel, whose only callback is
    that for reading. *)
Fixpoint accepts (cbs : list callback) : M unit :=
  match cbs with [] => mret tt | OnRead :: cbs' => _ ← accept; accepts cbs' | _ :: cbs' => accepts cbs' end.
Definition acceptor_event : M unit := fun s =>
  c ← deref (channels (Reactor.objects (loop s)) !! m_acceptChannel);
  accepts (Channel.handleEvent c) s.

(** The close callback of a connection, [TcpServer::removeConnection]: the
    connection queues its end (Tcp.v), and the server forgets it. *)
Fixpoint removals (fs : list (Channel.ptr * functor)) : M unit :=
  match fs with
  | [] => mret tt
  | (p, FDestroy) :: fs' =>
      sv ← gets server;
      sv' ← lift (TcpServer.removeConnectionInLoop (p - base)%nat sv);
      _ ← modify (set_server sv');
      removals fs'
  | _ :: fs' => removals fs'
  end.
Definition connection_event (p : Channel.ptr) : M unit :=
  n ← gets (fun s => length (Reactor.m_pendingFunctors (loop s)));
  _ ← on_loop (Reactor.handleEvent sys_write sys_readv (onMessage httpCallback_) p);
  fs ← gets (fun s => Reactor.m_pendingFunctors (loop s));
  removals (drop n fs).

Definition handleEvent (p : Channel.ptr) : M unit :=
  if decide (p = m_acceptChannel) then acceptor_event else connection_event p.
Fixpoint handle_active (ps : list Channel.ptr) : M unit :=
  match ps with [] => mret tt | p :: ps' => _ ← handleEvent p; handle_active ps' end.

(** [~Socket] of the connections that were freed. *)
Fixpoint closes (fds : list Z) : M unit :=
  match fds with
  | [] => mret tt
  | fd :: fds' => _ ← modify (fun s => mk (acceptor s) (snd (os_close fd (sys s))) (server s) (loop s)); closes fds'
  end.
Definition doPendingFunctors : M unit :=
  n ← gets (fun s => length (Reactor.released (loop s)));
  _ ← on_loop (Reactor.doPendingFunctors sys_write (Some (onConnection true)));
  fds ← gets (fun s => Reactor.released (loop s));
  closes (drop n fds).

Definition turn (epoll_wait : Z -> Z * list (Z * Z)) : M unit :=
  ps ← on_loop (Reactor.poll epoll_wait);
  _ ← handle_active ps;
  doPendingFunctors.

(** The constructor of the server, [setThreadNum(0)] and [startListen], on a
    loop with no connections; [runInLoop] makes the acceptor listen at once. *)
Definition start (toIpPort : bytes -> outcome bytes) (startLoop : nat -> unit) (listenAddr name : bytes)
    (w : world callback (Epoll.t K)) (k : D) : outcome state :=
  '(_, a) ← Acceptor.Acceptor m_acceptChannel OnRead listenAddr (Acceptor.mk (Acceptor.mkAcceptor 0 false 0) w k tt);
  sv ← TcpServer.TcpServer tt toIpPort listenAddr name;
  sv ← TcpServer.setThreadNum 0 sv;
  sv ← TcpServer.startListen tt (Acceptor.m_listenning (Acceptor.acc a)) startLoop sv;
  '(_, a) ← Acceptor.listen m_acceptChannel a;
  Ret (mk (Acceptor.acc a) (Acceptor.os a) sv (Reactor.mk (Acceptor.wld a) ∅ [] ∅ [])).

(** Somebody connects, or the epoll reports input of some channels. *)
Inductive event := Arrives (a : bytes) | Reports (ps : list Channel.ptr).
Context `{!OsSpec D} `{!Serving D}.
Definition happen (e : event) : M unit := fun s =>
  match e with
  | Arrives a => Ret (tt, mk (acceptor s) (arrive a (sys s)) (server s) (loop s))
  | Reports ps => turn (fun _ => (zlen (Reactor.reports (loop s) ps), Reactor.reports (loop s) ps)) s
  end.
Fixpoint happens (es : list event) : M unit :=
  match es with [] => mret tt | e :: es' => _ ← happen e; happens es' end.
End server.

(** ** Clients of the process *)
Import Reactor.
Section clients.
Context {K D : Type} `{!Kernel K} `{!Os D} `{!OsSpec D} `{!Serving D}.
Context (httpCallback_ : HttpRequest.t -> HttpResponse.t -> HttpResponse.t).
Context (sys_write : Channel.ptr -> nat -> bytes -> write_result).
Context (sys_readv : Channel.ptr -> nat -> list Z -> Buffer.readv_result).
(** The free space of a send buffer when an answer is written. *)
Context (sndbuf : Z).
Context (getLocalAddr : Z -> bytes) (log_errno : Z -> Z).
Context (m_acceptChannel base : Channel.ptr).
(** What the client of each connection does (Reactor.v), and the channels and
    descriptors the process has of its own, but for the spare one. *)
Context (requests : Channel.ptr -> list request) (pieces : Channel.ptr -> list (list bytes)).
Context (partial : Channel.ptr -> list bytes) (leaves : Channel.ptr -> bool).
Context (guests : gmap Channel.ptr Z) (own : gset Z).
Abbreviation state := (Server.state K D).
Implicit Types s : state.
Implicit Types cr : gmap Channel.ptr (Z * stage).

Abbreviation served := (Reactor.served httpCallback_ sys_readv sndbuf requests pieces partial guests).
Abbreviation answers p := (responses httpCallback_ (requests p)).
Abbreviation allocated s := (TcpServer.allocated (server s)).
Abbreviation turn := (Server.turn httpCallback_ sys_write sys_readv getLocalAddr log_errno m_acceptChannel base).
Abbreviation happens := (Server.happens httpCallback_ sys_write sys_readv getLocalAddr log_errno m_acceptChannel base).
Abbreviation happen := (Server.happen httpCallback_ sys_write sys_readv getLocalAddr log_errno m_acceptChannel base).

(** How many things a client sends, how often it has been reported, and whether
    it has hung up by then. *)
Definition total (p : Channel.ptr) : nat := length (all_pieces pieces partial p).
Definition count (p : Channel.ptr) (past : list Channel.ptr) : nat := count_occ Nat.eq_dec past p.
Definition left_by (past : list Channel.ptr) (p : Channel.ptr) : bool := (total p <? count p past)%nat.

(** What can be reported: the listening socket, as long as there are
    descriptors and numbers for connections, and connections whose clients have
    something to send or to hang up for. *)
Definition may (past : list Channel.ptr) s (p : Channel.ptr) : bool :=
  if decide (p = m_acceptChannel)
  then (TcpServer.m_nextConnId (server s) + 1 <? 2 ^ 31) && (Z.of_nat (size (opened (sys s))) <? 10000)
  else (base <=? p)%nat && (p <? base + length (allocated s))%nat
       && (count p past <? total p + if leaves p then 1 else 0)%nat.
Definition reportable (past : list Channel.ptr) s (ps : list Channel.ptr) : bool :=
  bool_decide (NoDup ps /\ zlen ps <= 1024 /\ Forall (fun p => may past s p = true) ps).
Fixpoint possible (past : list Channel.ptr) (es : list event) s : bool :=
  match es with
  | [] => true
  | e :: es' =>
      match e with Arrives _ => true | Reports ps => reportable past s ps end
      && match happen e s with
         | Ret (_, s1) => possible (past ++ match e with Arrives _ => [] | Reports ps => ps end) es' s1
         | Crash _ => true
         end
  end.
Definition reported (es : list event) : list Channel.ptr := concat (map (fun e => match e with Arrives _ => [] | Reports ps => ps end) es).
Definition arrivals (es : list event) : list bytes := omap (fun e => match e with Arrives a => Some a | Reports _ => None end) es.

Hypothesis takes_whole : forall p k d, zlen d <= sndbuf -> sys_write p k d = Wrote (zlen d).
Hypothesis clients : forall p, client httpCallback_ sys_readv sndbuf requests pieces partial leaves p.
Hypothesis quiet : forall e, log_errno e = e.
Hypothesis guests_first : forall p, is_Some (guests !! p) -> (p < base)%nat.
Hypothesis guests_own : forall p f, guests !! p = Some f -> f ∈ own.
Hypothesis acceptor_guest : is_Some (guests !! m_acceptChannel).

(** *** The invariant *)

(** The descriptors of connections that have not closed them. *)
Definition holds cr (f : Z) : Prop := exists p st, cr !! p = Some (f, st) /\ registered st = true.
Definition stage_after (past : list Channel.ptr) (p : Channel.ptr) (st : stage) : Prop :=
  if left_by past p then st = Closing \/ st = Gone else st = Sending (total p - count p past).

Record books cr (a : Acceptor.t) (k : D) : Prop := {
  bk_ok : os_ok k;
  bk_idle : Acceptor.m_idleFd a ∈ opened k;
  bk_open : forall f, f ∈ opened k ∖ {[Acceptor.m_idleFd a]} <-> f ∈ own \/ holds cr f;
  bk_apart : forall f, holds cr f -> f ∉ own
}.
Record roster (past : list Channel.ptr) cr (sv : TcpServer.t unit) : Prop := {
  ro_inv : TcpServer.inv sv;
  ro_crowd : forall p, is_Some (cr !! p) -> (base <= p < base + length (TcpServer.allocated sv))%nat;
  ro_stage : forall i c, TcpServer.allocated sv !! i = Some c -> exists st, cr !! (base + i)%nat = Some (TcpServer.c_fd c, st)
    /\ stage_after past (base + i)%nat st;
  ro_set : forall i, is_Some (TcpServer.m_connectionsSet sv !! i) <-> exists f n, cr !! (base + i)%nat = Some (f, Sending n);
  ro_past : forall p, p ∈ past -> (p < base + length (TcpServer.allocated sv))%nat
}.
Record business past cr s : Prop := {
  bu_served : served cr (loop s);
  bu_pends : pends cr (loop s);
  bu_books : books cr (acceptor s) (sys s);
  bu_roster : roster past cr (server s)
}.

(** The clients taken from the queue, in their order; some are refused. *)
Definition takes s s1 : Prop := exists handled taken, backlog (sys s) = handled ++ backlog (sys s1)
  /\ taken `sublist_of` handled /\ map TcpServer.c_peer (allocated s1) = map TcpServer.c_peer (allocated s) ++ taken.

Lemma takes_same s s1 : backlog (sys s1) = backlog (sys s) -> allocated s1 = allocated s -> takes s s1.
Proof. unfold takes. intros -> ->. exists [], []. by rewrite app_nil_r. Qed.

Lemma takes_trans s s1 s2 : takes s s1 -> takes s1 s2 -> takes s s2.
Proof.
  intros (h & t & Hh & Ht & Ha) (h' & t' & Hh' & Ht' & Ha'). exists (h ++ h'), (t ++ t').
  rewrite Hh, Hh', Ha', Ha, <- !app_assoc. split_and!; [done|by apply sublist_app|done].
Qed.
(** *** The books and the roster *)

Lemma count_other p q past : q <> p -> count q (past ++ [p]) = count q past.
Proof. intros Hq. unfold count. rewrite count_occ_app. cbn. destruct (Nat.eq_dec p q); [congruence|lia]. Qed.
Lemma count_one p past : count p (past ++ [p]) = S (count p past).
Proof. unfold count. rewrite count_occ_app. cbn. destruct (Nat.eq_dec p p); [lia|done]. Qed.
Lemma count_none p past : p ∉ past -> count p past = 0%nat.
Proof. intros Hp. apply count_occ_not_In. by rewrite <- list_elem_of_In. Qed.

Lemma stage_other p q past st : q <> p -> stage_after past q st -> stage_after (past ++ [p]) q st.
Proof. intros Hq. unfold stage_after, left_by. by rewrite count_other. Qed.

Lemma acceptor_first : (m_acceptChannel < base)%nat.
Proof. by apply guests_first. Qed.

(** A connection that is new. *)
Lemma roster_insert past cr sv sv1 c : roster past cr sv -> TcpServer.inv sv1 ->
  TcpServer.allocated sv1 = TcpServer.allocated sv ++ [c] ->
  TcpServer.m_connectionsSet sv1 = <[length (TcpServer.allocated sv) := c]> (TcpServer.m_connectionsSet sv) ->
  let p := (base + length (TcpServer.allocated sv))%nat in roster past (<[p := (TcpServer.c_fd c, Sending (total p))]> cr) sv1.
Proof.
  intros [Hi Hcr Hst Hset Hp] Hi1 Ha Hs p.
  assert (length (TcpServer.allocated sv1) = S (length (TcpServer.allocated sv))) as Hlen by (rewrite Ha, length_app; cbn; lia).
  split; rewrite ?Hlen; try done.
  - intros q [x Hq]. rewrite lookup_insert_Some in Hq. destruct Hq as [[<- _]|[_ Hq]]; [lia|]. specialize (Hcr q (ex_intro _ x Hq)). lia.
  - intros i d. rewrite Ha, lookup_app_Some. intros [Hd|[Hge Hd]].
    + destruct (Hst i d Hd) as (st & Hq & Hstage). exists st. rewrite lookup_insert_ne; [done|]. apply lookup_lt_Some in Hd. lia.
    + apply list_lookup_singleton_Some in Hd as [Hz <-]. assert ((base + i)%nat = p) as -> by lia. exists (Sending (total p)).
      rewrite lookup_insert_eq. split; [done|]. unfold stage_after, left_by. rewrite count_none; [by rewrite Nat.sub_0_r|].
      intros Hin%Hp. lia.
  - intros i. rewrite Hs. destruct (decide (i = length (TcpServer.allocated sv))) as [->|Hne].
    + rewrite lookup_insert_eq. unfold p. rewrite lookup_insert_eq. split; [intros _; by do 2 eexists|by eexists].
    + rewrite !lookup_insert_ne by lia. apply Hset.
  - intros q Hq%Hp. lia.
Qed.

(** The listening socket is reported. *)
Lemma roster_acceptor past cr sv : roster past cr sv -> roster (past ++ [m_acceptChannel]) cr sv.
Proof.
  intros [Hi Hcr Hst Hset Hp]. pose proof acceptor_first. split; try done.
  - intros i c Hc. destruct (Hst i c Hc) as (st & Hq & Hstage). exists st. split; [done|]. apply stage_other; [lia|done].
  - intros q [Hq%Hp| ->%list_elem_of_singleton]%elem_of_app; [done|lia].
Qed.

(** A connection is reported, and goes from one stage to another. *)
Lemma roster_mark past cr sv sv1 p fd st0 st : roster past cr sv -> cr !! p = Some (fd, st0) -> TcpServer.inv sv1 ->
  TcpServer.allocated sv1 = TcpServer.allocated sv -> stage_after (past ++ [p]) p st ->
  (forall i, is_Some (TcpServer.m_connectionsSet sv1 !! i)
     <-> if decide (p = base + i)%nat then exists n, st = Sending n else is_Some (TcpServer.m_connectionsSet sv !! i)) ->
  roster (past ++ [p]) (mark st p cr) sv1.
Proof.
  intros [Hi Hcr Hst Hset Hp] Hfd Hi1 Ha Hstage Hs. rewrite (mark_insert cr p fd st0) by done.
  split; rewrite ?Ha; try done.
  - intros q [x Hq]. rewrite lookup_insert_Some in Hq. destruct Hq as [[<- _]|[_ Hq]]; apply Hcr; by eexists.
  - intros i c Hc. destruct (Hst i c Hc) as (st1 & Hq & Hstage1). destruct (decide (p = base + i)%nat) as [->|Hne].
    + exists st. rewrite lookup_insert_eq. rewrite Hfd in Hq. injection Hq as -> ->. done.
    + exists st1. rewrite lookup_insert_ne by done. split; [done|]. by apply stage_other.
  - intros i. rewrite Hs. destruct (decide (p = base + i)%nat) as [->|Hne].
    + rewrite lookup_insert_eq. split; [intros [n ->]; by exists fd, n|]. intros (f & n & [= <- ->]). by exists n.
    + rewrite lookup_insert_ne by done. apply Hset.
  - intros q [Hq%Hp| ->%list_elem_of_singleton]%elem_of_app; [done|]. apply Hcr. by eexists.
Qed.

(** The end of a turn. *)
Lemma settle_sending cr p f n : (settle <$> cr) !! p = Some (f, Sending n) <-> cr !! p = Some (f, Sending n).
Proof. rewrite lookup_fmap. destruct (cr !! p) as [[g []]|]; cbn; split; congruence. Qed.

Lemma roster_settle past cr sv : roster past cr sv -> roster past (settle <$> cr) sv.
Proof.
  intros [Hi Hcr Hst Hset Hp]. split; try done.
  - intros q. rewrite lookup_fmap, fmap_is_Some. apply Hcr.
  - intros i c Hc. destruct (Hst i c Hc) as (st & Hq & Hstage). rewrite lookup_fmap, Hq.
    unfold stage_after in *. destruct (left_by _ _); [|subst st; by eexists].
    exists Gone. split; [|by right]. by destruct Hstage as [-> | ->].
  - intros i. rewrite Hset. by setoid_rewrite settle_sending.
Qed.

Lemma holds_mark cr p fd st0 st f : cr !! p = Some (fd, st0) -> registered st = registered st0 ->
  holds (mark st p cr) f <-> holds cr f.
Proof.
  intros Hp Hreg. rewrite (mark_insert cr p fd st0) by done. unfold holds. split; intros (q & st1 & Hq & H1).
  - rewrite lookup_insert_Some in Hq. destruct Hq as [[<- [= <- <-]]|[_ Hq]]; [|by exists q, st1]. exists p, st0. by rewrite <- Hreg.
  - destruct (decide (p = q)) as [->|Hne]; [|exists q, st1; by rewrite lookup_insert_ne].
    rewrite Hp in Hq. injection Hq as -> ->. exists q, st. by rewrite lookup_insert_eq, Hreg.
Qed.

Lemma books_mark cr a k p fd st0 st : books cr a k -> cr !! p = Some (fd, st0) -> registered st = registered st0 -> books (mark st p cr) a k.
Proof.
  intros [Hok Hi Ho Ha] Hp Hreg. split; try done; intros f; rewrite (holds_mark cr p fd st0 st f Hp Hreg); [apply Ho|apply Ha].
Qed.

Lemma holds_insert cr p fd n f : cr !! p = None -> holds (<[p := (fd, Sending n)]> cr) f <-> f = fd \/ holds cr f.
Proof.
  intros Hp. unfold holds. split.
  - intros (q & st & Hq & Hr). rewrite lookup_insert_Some in Hq. destruct Hq as [[_ [= -> _]]|[_ Hq]]; [by left|right; by exists q, st].
  - intros [->|(q & st & Hq & Hr)]; [exists p, (Sending n); by rewrite lookup_insert_eq|].
    exists q, st. rewrite lookup_insert_ne by congruence. done.
Qed.

(** A descriptor for a new connection. *)
Lemma books_insert cr a k k1 p fd n : books cr a k -> cr !! p = None -> os_ok k1 -> fd ∉ opened k -> opened k1 = {[fd]} ∪ opened k ->
  books (<[p := (fd, Sending n)]> cr) a k1.
Proof.
  intros [Hok Hi Ho Ha] Hp Hok1 Hfd Hk. split; try done.
  - rewrite Hk. set_solver.
  - intros f. rewrite (holds_insert cr p fd n f Hp), Hk. specialize (Ho f). assert (fd <> Acceptor.m_idleFd a) by congruence. set_solver.
  - intros f. rewrite (holds_insert cr p fd n f Hp). intros [->|Hf]; [|by apply Ha]. intros Hown. specialize (Ho fd). set_solver.
Qed.

(** Descriptors of connections are closed. *)
Lemma closes_run fds s : os_ok (sys s) -> NoDup fds -> (forall f, f ∈ fds -> f ∈ opened (sys s)) ->
  exists k, closes fds s = Ret (tt, Server.mk (acceptor s) k (server s) (loop s)) /\ os_ok k /\ backlog k = backlog (sys s)
    /\ forall f, f ∈ opened k <-> f ∈ opened (sys s) /\ f ∉ fds.
Proof.
  intros Hok Hnd. revert s Hok. induction Hnd as [|fd fds Hfd Hnd IH]; intros s Hok Hin.
  - exists (sys s). split; [by destruct s|]. split; [done|]. split; [done|]. intros f. rewrite elem_of_nil. naive_solver.
  - destruct (close_open fd (sys s) Hok) as (k1 & E & Hok1 & Ho1 & Hb1 & _); [by apply Hin; left|].
    cbn [closes]. rewrite modify_bind, E. cbn [snd].
    destruct (IH (Server.mk (acceptor s) k1 (server s) (loop s)) Hok1) as (k & E2 & Hok2 & Hb2 & Ho2).
    { intros f Hf. cbn [sys]. rewrite Ho1. assert (f <> fd) by congruence. specialize (Hin f). set_solver. }
    exists k. split; [done|]. split; [done|]. split; [by rewrite Hb2|]. intros f. rewrite Ho2. cbn [sys]. rewrite Ho1. set_solver.
Qed.
(** *** The listening socket *)

(** The poller's descriptors are open, so there are less than it has room for. *)
Lemma map_opened cr s f : served cr (loop s) -> books cr (acceptor s) (sys s) ->
  is_Some (Epoll.channel_map (poller (objects (loop s))) !! f) -> f ∈ opened (sys s).
Proof.
  intros H [_ _ Ho _] [p Hp]. specialize (Ho f).
  destruct (channel_map_known _ _ _ _ _ _ _ cr (loop s) f p H Hp) as [Hg|(st & Hst & Hreg)].
  - specialize (guests_own p f Hg). set_solver.
  - assert (holds cr f) by (by exists p, st). set_solver.
Qed.

Lemma map_room cr s : served cr (loop s) -> books cr (acceptor s) (sys s) -> Z.of_nat (size (opened (sys s))) < 10000 ->
  Z.of_nat (size (Epoll.channel_map (poller (objects (loop s))))) < 10000.
Proof.
  intros H Hb Hlt. rewrite <- size_dom. assert (dom (Epoll.channel_map (poller (objects (loop s)))) ⊆ opened (sys s)) as Hsub.
  { intros f Hf%elem_of_dom. by apply (map_opened cr). }
  apply subseteq_size in Hsub. lia.
Qed.

(** A client is taken: its connection is new. *)
Lemma newConnetion_run past cr s fd peer k : business past cr s -> TcpServer.m_nextConnId (server s) + 1 < 2 ^ 31 ->
  Z.of_nat (size (opened (sys s))) < 10000 -> os_ok k -> fd ∉ opened (sys s) -> opened k = {[fd]} ∪ opened (sys s) ->
  let p := (base + length (allocated s))%nat in
  exists sv l, Server.newConnetion getLocalAddr base fd peer (server s, loop s) = Ret (sv, l)
    /\ business past (<[p := (fd, Sending (total p))]> cr) (Server.mk (acceptor s) k sv l) /\ touches p (loop s) l
    /\ map TcpServer.c_peer (TcpServer.allocated sv) = map TcpServer.c_peer (allocated s) ++ [peer].
Proof.
  intros [H Hpe Hbk Hro] Hid Hsz Hok Hfd Hk p.
  assert (cr !! p = None) as Hp.
  { apply eq_None_not_Some. intros Hs%(ro_crowd past cr _ Hro). lia. }
  destruct (TcpServer.newConnetion_spec getLocalAddr fd peer (server s) (ro_inv _ _ _ Hro) Hid) as (lp & sv & Esv & Hi & _ & Ha & Hs & _).
  destruct (connect_served _ _ _ _ _ _ _ _ clients p fd cr (loop s) H Hp) as (l & El & H1 & Hto & Hpf & _).
  { apply eq_None_not_Some. intros Hg%guests_first. lia. }
  { apply eq_None_not_Some. intros Hm. by apply Hfd, (map_opened cr). }
  { by apply (map_room cr). }
  exists sv, l. split; [|split; [|split; [done|by rewrite Ha, map_app]]].
  - unfold Server.newConnetion. cbn [fst snd]. rewrite Esv. cbn [mbind outcome_bind]. fold p. by rewrite El.
  - split; cbn [loop acceptor sys server]; [done| |by apply (books_insert cr _ (sys s))|by apply (roster_insert past cr (server s) sv _ Hro Hi Ha Hs)].
    destruct Hpe as (ps & Hps & Hnd & Hiff). exists ps. split; [by rewrite Hpf|]. split; [done|]. intros q. rewrite Hiff.
    unfold stage_of. destruct (decide (p = q)) as [<-|Hne]; [|by rewrite lookup_insert_ne]. rewrite lookup_insert_eq, Hp.
    split; intros [=].
Qed.

(** What stays as it is when a channel's event has been handled. *)
Record passes (p : Channel.ptr) s s1 : Prop := {
  pa_length : (length (allocated s) <= length (allocated s1))%nat;
  pa_active : forall q, q <> p -> (q < base + length (allocated s))%nat -> active (loop s) q -> active (loop s1) q;
  pa_same : p <> m_acceptChannel -> sys s1 = sys s /\ allocated s1 = allocated s
}.

Lemma business_acceptor past cr s : business past cr s -> business (past ++ [m_acceptChannel]) cr s.
Proof. intros [H1 H2 H3 H4]. split; try done. by apply roster_acceptor. Qed.

Lemma take_step past cr s : business past cr s -> may past s m_acceptChannel = true ->
  exists s1 cr1, accept getLocalAddr log_errno base s = Ret (tt, s1) /\ business (past ++ [m_acceptChannel]) cr1 s1
    /\ passes m_acceptChannel s s1 /\ takes s s1.
Proof.
  intros Hb Hmay. unfold may in Hmay. rewrite decide_True in Hmay by done.
  apply andb_true_iff in Hmay as [Hid%Z.ltb_lt Hsz%Z.ltb_lt]. pose proof Hb as [H Hpe [Hok Hi Ho Ha] Hro].
  set (x := Acceptor.mk (acceptor s) (objects (loop s)) (sys s) (server s, loop s)). unfold accept. fold x.
  destruct (backlog (sys s)) as [|a b] eqn:Hq.
  - rewrite (Acceptor.accept_none_run _ log_errno id x Hok Hq) by (by rewrite quiet). cbn. exists s, cr.
    split; [by destruct s|]. split; [by apply business_acceptor|]. split; [by split|by apply takes_same].
  - destruct (full (sys s)) eqn:Hf.
    + destruct (Acceptor.accept_full_run (Some (Server.newConnetion getLocalAddr base)) log_errno id a b x Hok Hq Hf Hi (quiet _) ltac:(done))
        as (idle & k & E & Hok1 & Hb1 & Hi1 & Ho1). rewrite E. cbn.
      eexists _, cr. split; [reflexivity|]. split; [|split; [by split|]].
      * apply business_acceptor. split; try done. split; try done. intros f. cbn [Acceptor.m_idleFd acceptor sys]. rewrite Ho1. apply Ho.
      * exists [a], []. cbn [sys server]. rewrite app_nil_r. split; [by rewrite Hq, Hb1|]. split; [apply sublist_nil_l|done].
    + destruct (Acceptor.accept_room_run (Some (Server.newConnetion getLocalAddr base)) log_errno id a b x Hok Hq Hf)
        as (fd & k & _ & Hfd & Hok1 & Ho1 & Hb1 & E). rewrite E.
      destruct (newConnetion_run past cr s fd a k Hb Hid Hsz Hok1 Hfd Ho1) as (sv & l & El & Hb2 & Hto & Hpeers).
      cbn [Acceptor.user x]. rewrite El. cbn. eexists _, _. split; [reflexivity|].
      split; [by apply business_acceptor|]. split.
      * assert (length (TcpServer.allocated sv) = S (length (allocated s))) as Hlen.
        { apply (f_equal length) in Hpeers. rewrite length_app, !length_map in Hpeers. cbn in Hpeers. lia. }
        split; cbn [server loop]; [lia| |done]. intros q _ Hq1 (c & Hc & Hrev). exists c. split; [|done].
        rewrite (to_channels _ _ _ Hto); [done|lia].
      * exists [a], [a]. cbn [sys server]. rewrite Hpeers, Hq, Hb1. by split_and!.
Qed.

Lemma acceptor_step past cr s : business past cr s -> may past s m_acceptChannel = true -> active (loop s) m_acceptChannel ->
  exists s1 cr1, acceptor_event getLocalAddr log_errno m_acceptChannel base s = Ret (tt, s1) /\ business (past ++ [m_acceptChannel]) cr1 s1
    /\ passes m_acceptChannel s s1 /\ takes s s1.
Proof.
  intros Hb Hmay (c & Hc & Hrev). destruct (take_step past cr s Hb Hmay) as (s1 & cr1 & E & Hb1 & Hp1 & Ht1).
  exists s1, cr1. split; [|done]. destruct acceptor_guest as [f Hf].
  destruct (sv_guests _ _ _ _ _ _ _ cr (loop s) (bu_served _ _ _ Hb) _ f Hf) as (c' & Hc' & _ & _ & Hrd).
  rewrite Hc in Hc'. injection Hc' as <-. unfold acceptor_event. rewrite Hc. cbn [deref mbind outcome_bind].
  assert (Channel.handleEvent c = [OnRead]) as -> by (unfold Channel.handleEvent; by rewrite Hrev, Hrd).
  cbn [accepts]. by rewrite (ST_bind_eq _ _ _ _ _ E).
Qed.
(** *** A connection *)

Abbreviation connection_event := (connection_event httpCallback_ sys_write sys_readv base).

Lemma connection_run p s l new sv : Reactor.handleEvent sys_write sys_readv (onMessage httpCallback_) p (loop s) = Ret (tt, l) ->
  m_pendingFunctors l = m_pendingFunctors (loop s) ++ new ->
  removals base new (Server.mk (acceptor s) (sys s) (server s) l) = Ret (tt, Server.mk (acceptor s) (sys s) sv l) ->
  connection_event p s = Ret (tt, Server.mk (acceptor s) (sys s) sv l).
Proof.
  intros E Hpf Er. unfold Server.connection_event. rewrite gets_bind. cbv beta. unfold on_loop, mbind, ST_bind. rewrite E.
  cbn [mbind outcome_bind gets loop]. rewrite Hpf, drop_app_length. exact Er.
Qed.

Lemma passes_touched p s l sv : touches p (loop s) l -> TcpServer.allocated sv = allocated s ->
  passes p s (Server.mk (acceptor s) (sys s) sv l).
Proof.
  intros Hto Ha. split; cbn [server loop sys]; rewrite ?Ha; try done. intros q Hq _ (c & Hc & Hrev). exists c. split; [|done].
  by rewrite (to_channels _ _ _ Hto).
Qed.

(** What a reported client's connection stands at. *)
Lemma may_sending past cr s p : business past cr s -> may past s p = true -> p <> m_acceptChannel ->
  exists i fd n, p = (base + i)%nat /\ cr !! p = Some (fd, Sending n) /\ n = (total p - count p past)%nat
    /\ (count p past < total p + if leaves p then 1 else 0)%nat.
Proof.
  intros Hb Hmay Hp. unfold may in Hmay. rewrite decide_False in Hmay by done.
  apply andb_true_iff in Hmay as [[Hle%Nat.leb_le Hlt%Nat.ltb_lt]%andb_true_iff Hcount%Nat.ltb_lt].
  destruct (lookup_lt_is_Some_2 (allocated s) (p - base)) as [c Hc]; [lia|].
  destruct (ro_stage _ _ _ (bu_roster _ _ _ Hb) _ c Hc) as (st & Hst & Hstage).
  assert ((base + (p - base))%nat = p) as E by lia. rewrite E in *.
  exists (p - base)%nat, (TcpServer.c_fd c), (total p - count p past)%nat. split; [done|]. split; [|done]. rewrite Hst.
  unfold stage_after, left_by in Hstage. rewrite (proj2 (Nat.ltb_ge _ _)) in Hstage; [by rewrite Hstage|]. destruct (leaves p); lia.
Qed.

Lemma read_step past cr s p fd n : business past cr s -> cr !! p = Some (fd, Sending (S n)) -> S n = (total p - count p past)%nat ->
  active (loop s) p ->
  exists s1 cr1, connection_event p s = Ret (tt, s1) /\ business (past ++ [p]) cr1 s1 /\ passes p s s1.
Proof.
  intros [H Hpe Hbk Hro] Hp Hn (c & Hc & Hrev).
  destruct (read_served _ sys_write _ _ _ _ _ _ takes_whole cr (loop s) p fd n c H Hp Hc Hrev) as (l & E & H1 & Hto & Hpf & _).
  eexists _, (mark (Sending n) p cr). split; [|split; [|by apply (passes_touched p s l (server s))]].
  - apply (connection_run p s l []); [exact E|by rewrite app_nil_r|reflexivity].
  - split; cbn [loop acceptor sys server]; [done|by apply (pends_reading cr (loop s) l p fd (S n))|by apply (books_mark cr _ _ p fd (Sending (S n)))|].
    apply (roster_mark past cr (server s) _ p fd (Sending (S n))); try done; [apply Hro| |].
    + unfold stage_after, left_by. rewrite count_one, (proj2 (Nat.ltb_ge _ _)) by lia. f_equal. lia.
    + intros i. destruct (decide _) as [->|]; [|done]. rewrite (ro_set _ _ _ Hro). split; [by eexists|]. intros _. by exists fd, (S n).
Qed.

Lemma hangup_step past cr s p i fd : business past cr s -> p = (base + i)%nat -> cr !! p = Some (fd, Sending 0) ->
  count p past = total p -> leaves p = true -> active (loop s) p ->
  exists s1 cr1, connection_event p s = Ret (tt, s1) /\ business (past ++ [p]) cr1 s1 /\ passes p s s1.
Proof.
  intros [H Hpe Hbk Hro] Hi Hp Hn Hlv (c & Hc & Hrev).
  destruct (hangup_served _ sys_write _ _ _ _ _ _ _ clients cr (loop s) p fd c H Hp Hlv Hc Hrev) as (l & E & H1 & Hto & Hpf & _).
  destruct (TcpServer.removal_spec i (server s) (ro_inv _ _ _ Hro)) as (cn & sv & Esv & Hinv & _ & _ & Ha & Hs & _).
  { apply (ro_set _ _ _ Hro). exists fd, 0%nat. by rewrite <- Hi. }
  eexists _, (mark Closing p cr). split; [|split; [|by apply (passes_touched p s l sv)]].
  - apply (connection_run p s l [(p, FDestroy)]); [exact E|exact Hpf|]. cbn [removals]. rewrite gets_bind. cbn [server].
    assert ((p - base)%nat = i) as -> by lia. rewrite (lift_bind _ _ _ _ Esv), modify_bind. reflexivity.
  - split; cbn [loop acceptor sys server]; [done|by apply (pends_closing cr (loop s) l p fd 0)|by apply (books_mark cr _ _ p fd (Sending 0))|].
    apply (roster_mark past cr (server s) _ p fd (Sending 0)); try done.
    + unfold stage_after, left_by. rewrite count_one, (proj2 (Nat.ltb_lt _ _)) by lia. by left.
    + intros j. rewrite Hs. destruct (decide _) as [Hj|Hj].
      * assert (j = i) as -> by lia. rewrite lookup_delete_eq. split; [by intros [? ?]|by intros [? ?]].
      * rewrite lookup_delete_ne by congruence. done.
Qed.

(** *** A turn *)

Abbreviation handleEvent := (Server.handleEvent httpCallback_ sys_write sys_readv getLocalAddr log_errno m_acceptChannel base).
Abbreviation handle_active := (Server.handle_active httpCallback_ sys_write sys_readv getLocalAddr log_errno m_acceptChannel base).

Lemma visit_step past cr s p : business past cr s -> may past s p = true -> active (loop s) p ->
  exists s1 cr1, handleEvent p s = Ret (tt, s1) /\ business (past ++ [p]) cr1 s1 /\ passes p s s1 /\ takes s s1.
Proof.
  intros Hb Hmay Hact. unfold Server.handleEvent. destruct (decide (p = m_acceptChannel)) as [->|Hp]; [by apply (acceptor_step past cr)|].
  destruct (may_sending past cr s p Hb Hmay Hp) as (i & fd & n & Hi & Hst & Hn & Hlt).
  assert (exists s1 cr1, connection_event p s = Ret (tt, s1) /\ business (past ++ [p]) cr1 s1 /\ passes p s s1) as (s1 & cr1 & E & Hb1 & Hpa).
  { destruct n as [|n]; [|by apply (read_step past cr s p fd n)].
    destruct (leaves p) eqn:Hlv; [|lia]. apply (hangup_step past cr s p i fd); try done. lia. }
  exists s1, cr1. split; [done|]. split; [done|]. split; [done|]. destruct (pa_same _ _ _ Hpa Hp) as [Hsys Ha].
  apply takes_same; [by rewrite Hsys|done].
Qed.

Lemma next_id past cr s : business past cr s -> TcpServer.m_nextConnId (server s) = 1 + zlen (allocated s).
Proof. intros Hb. apply (TcpServer.inv_id _ (ro_inv _ _ _ (bu_roster _ _ _ Hb))). Qed.

Lemma may_passes past cr cr1 s s1 p q : business past cr s -> business (past ++ [p]) cr1 s1 -> passes p s s1 -> q <> p ->
  may past s q = true -> may (past ++ [p]) s1 q = true.
Proof.
  intros Hb Hb1 [Hlen _ Hsame] Hq. unfold may. rewrite count_other, !(next_id _ _ _ Hb), !(next_id _ _ _ Hb1) by done.
  case_decide as Ha; [subst q; destruct (Hsame (not_eq_sym Hq)) as [-> ->]; done|].
  intros [[Hle Hlt%Nat.ltb_lt]%andb_true_iff Hc]%andb_true_iff. rewrite Hle, Hc, (proj2 (Nat.ltb_lt _ _)); [done|lia].
Qed.

Lemma may_known past cr s p : business past cr s -> may past s p = true -> (p < base + length (allocated s))%nat.
Proof.
  intros Hb. unfold may. case_decide as Ha; [subst p; intros _; pose proof acceptor_first; lia|].
  by intros [[_ Hlt%Nat.ltb_lt]%andb_true_iff _]%andb_true_iff.
Qed.

Lemma visits_step ps past cr s : business past cr s -> NoDup ps -> Forall (fun p => may past s p = true /\ active (loop s) p) ps ->
  exists s1 cr1, handle_active ps s = Ret (tt, s1) /\ business (past ++ ps) cr1 s1 /\ takes s s1.
Proof.
  intros Hb Hnd. revert past cr s Hb. induction Hnd as [|p ps Hp Hnd IH]; intros past cr s Hb Hps.
  - exists s, cr. rewrite app_nil_r. split; [done|]. split; [done|]. by apply takes_same.
  - apply Forall_cons in Hps as [[Hmay Hact] Hps]. destruct (visit_step past cr s p Hb Hmay Hact) as (s1 & cr1 & E & Hb1 & Hpa & Ht).
    destruct (IH (past ++ [p]) cr1 s1 Hb1) as (s2 & cr2 & E2 & Hb2 & Ht2).
    + apply Forall_forall. intros q Hq. rewrite Forall_forall in Hps. destruct (Hps q Hq) as [Hmq Haq].
      assert (q <> p) as Hne by (intros ->; done).
      split; [by apply (may_passes past cr cr1 s)|]. apply (pa_active _ _ _ Hpa); [done| |done]. by apply (may_known past cr).
    + exists s2, cr2. rewrite <- app_assoc in Hb2. split; [|split; [done|by apply (takes_trans s s1)]].
      cbn [Server.handle_active]. by rewrite (ST_bind_eq _ _ _ _ _ E).
Qed.
Lemma holder_unique cr s p q f st st' : served cr (loop s) -> cr !! p = Some (f, st) -> cr !! q = Some (f, st') ->
  registered st = true -> registered st' = true -> p = q.
Proof.
  intros H Hp Hq Hr Hr'. pose proof (registered_known _ _ _ _ _ _ guests cr (loop s) f p st H Hp Hr) as Hmp.
  pose proof (registered_known _ _ _ _ _ _ guests cr (loop s) f q st' H Hq Hr') as Hmq. congruence.
Qed.

(** The connections that closed in the turn held different descriptors, which
    nobody holds afterwards. *)
Lemma closings_distinct cr s ps fds : served cr (loop s) -> closings cr ps fds -> NoDup fds
  /\ forall f, holds cr f <-> f ∈ fds \/ holds (settle <$> cr) f.
Proof.
  intros H (Hps & Hnd & Hfds).
  assert (forall p f, p ∈ ps -> fst <$> cr !! p = Some f -> cr !! p = Some (f, Closing)) as Hst.
  { intros p f Hp%Hps. unfold stage_of in Hp. destruct (cr !! p) as [[g st]|]; [|done]. cbn in *. by intros [= ->]; injection Hp as ->. }
  split.
  - clear Hps. induction Hfds as [|p f ps fds Hf Hfds IH]; [constructor|]. apply NoDup_cons in Hnd as [Hp Hnd]. constructor.
    + intros [i Hi]%list_elem_of_lookup. destruct (Forall2_lookup_r _ _ _ _ _ Hfds Hi) as (q & Hq & Hqf).
      apply list_elem_of_lookup_2 in Hq. apply (Hst p) in Hf; [|by left]. apply (Hst q) in Hqf; [|by right].
      by rewrite (holder_unique cr s p q f _ _ H Hf Hqf eq_refl eq_refl) in Hp.
    + apply IH; [done|]. intros q g Hq. apply Hst. by right.
  - intros f. split.
    + intros (p & st & Hp & Hreg). destruct st as [n| | |]; try done.
      * right. exists p, (Sending n). by rewrite settle_sending.
      * left. assert (p ∈ ps) as [i Hi]%list_elem_of_lookup by (apply Hps; unfold stage_of; by rewrite Hp).
        destruct (Forall2_lookup_l _ _ _ _ _ Hfds Hi) as (g & Hg & Hpg). rewrite Hp in Hpg. injection Hpg as ->. by eapply list_elem_of_lookup_2.
    + intros [[i Hi]%list_elem_of_lookup|(p & st & Hp & Hreg)].
      * destruct (Forall2_lookup_r _ _ _ _ _ Hfds Hi) as (p & Hp & Hf). apply Hst in Hf; [|by eapply list_elem_of_lookup_2]. by exists p, Closing.
      * destruct st as [n| | |]; try done; [apply (proj1 (settle_sending cr _ _ _)) in Hp; by exists p, (Sending n)|].
        rewrite lookup_fmap in Hp. destruct (cr !! p) as [[g []]|]; cbn in Hp; congruence.
Qed.

Lemma closings_released cr s ps fds f : served cr (loop s) -> closings cr ps fds -> f ∈ fds -> ~ holds (settle <$> cr) f.
Proof.
  intros H (Hps & _ & Hfds) [i Hi]%list_elem_of_lookup (q & st & Hq & Hreg).
  destruct (Forall2_lookup_r _ _ _ _ _ Hfds Hi) as (p & Hp%list_elem_of_lookup_2%Hps & Hf).
  unfold stage_of in Hp. destruct (cr !! p) as [[g st0]|] eqn:Hc; [|done]. cbn in Hp, Hf. injection Hp as ->. injection Hf as ->.
  destruct st as [n| | |]; try done; [|rewrite lookup_fmap in Hq; destruct (cr !! q) as [[g []]|]; cbn in Hq; congruence].
  apply (proj1 (settle_sending cr _ _ _)) in Hq. pose proof (holder_unique cr s p q f _ _ H Hc Hq eq_refl eq_refl). subst q. congruence.
Qed.

Lemma doPendingFunctors_step past cr s : business past cr s ->
  exists s1, Server.doPendingFunctors sys_write s = Ret (tt, s1) /\ business past (settle <$> cr) s1 /\ at_rest (settle <$> cr) (loop s1)
    /\ takes s s1.
Proof.
  intros [H Hpe [Hok Hi Ho Ha] Hro].
  destruct (doPendingFunctors_served _ sys_write _ _ _ _ _ _ cr (loop s) H Hpe) as (l & ps & fds & E & H1 & Hrest & Hcl & Hrl).
  destruct (closings_distinct cr s ps fds H Hcl) as [Hnd Hh]. pose proof (fun f => closings_released cr s ps fds f H Hcl) as Hgone.
  destruct (closes_run fds (Server.mk (acceptor s) (sys s) (server s) l) Hok Hnd) as (k & Ec & Hok1 & Hb1 & Ho1).
  { intros f Hf. cbn [sys]. specialize (Ho f). specialize (Hh f). set_solver. }
  cbn [acceptor sys server loop] in *. exists (Server.mk (acceptor s) k (server s) l). split; [|split; [|split; [done|by apply takes_same]]].
  - unfold Server.doPendingFunctors. rewrite gets_bind. cbv beta. unfold on_loop. unfold mbind at 1, ST_bind at 1. rewrite E.
    cbn [mbind outcome_bind]. rewrite gets_bind. cbn [loop]. by rewrite Hrl, drop_app_length.
  - split; cbn [acceptor sys server loop]; [done| | |by apply roster_settle].
    + destruct Hrest as [Hpf Hno]. exists []. split; [done|]. split; [constructor|].
      intros p. split; [by intros ?%not_elem_of_nil|by intros ?%Hno].
    + split; [done|apply Ho1; split; [done|] | |].
      * intros Hf. specialize (Hh (Acceptor.m_idleFd (acceptor s))). specialize (Ho (Acceptor.m_idleFd (acceptor s))). set_solver.
      * intros f. specialize (Ho f). specialize (Hh f). specialize (Ho1 f). specialize (Hgone f). specialize (Ha f).
        rewrite elem_of_difference, Ho1. rewrite elem_of_difference in Ho. naive_solver.
      * intros f Hf. apply Ha, Hh. by right.
Qed.

Lemma turn_step past cr s ps : business past cr s -> at_rest cr (loop s) -> reportable past s ps = true ->
  exists s1 cr1, happen (Reports ps) s = Ret (tt, s1) /\ business (past ++ ps) cr1 s1 /\ at_rest cr1 (loop s1) /\ takes s s1.
Proof.
  intros Hb Hrest (Hnd & Hlen & Hmay)%bool_decide_eq_true. rewrite Forall_forall in Hmay.
  destruct (poll_served _ _ _ _ _ _ _ ps cr (loop s) (bu_served _ _ _ Hb) Hnd Hlen) as (w & E & H1 & Hact).
  { intros p Hp. destruct (decide (p = m_acceptChannel)) as [->|Hne]; [by right|left].
    destruct (may_sending past cr s p Hb (Hmay p Hp) Hne) as (_ & fd & n & _ & Hst & _). by exists fd, n. }
  set (l := Reactor.mk w (connections (loop s)) (m_pendingFunctors (loop s)) (freed (loop s)) (released (loop s))) in *.
  set (s0 := Server.mk (acceptor s) (sys s) (server s) l).
  assert (business past cr s0) as Hb0 by (destruct Hb as [_ Hpe Hbk Hro]; by split).
  destruct (visits_step ps past cr s0 Hb0 Hnd) as (s1 & cr1 & E1 & Hb1 & Ht1).
  { apply Forall_and. split; [apply Forall_forall; exact Hmay|exact Hact]. }
  destruct (doPendingFunctors_step _ cr1 s1 Hb1) as (s2 & E2 & Hb2 & Hr2 & Ht2).
  exists s2, (settle <$> cr1). split; [|split; [done|split; [done|by apply (takes_trans s0 s1)]]].
  cbn [Server.happen]. unfold Server.turn. unfold on_loop at 1, mbind at 1, ST_bind at 1. rewrite E. cbn [mbind outcome_bind].
  fold s0. by rewrite (ST_bind_eq _ _ _ _ _ E1).
Qed.

Lemma happens_step es past cr s : business past cr s -> at_rest cr (loop s) -> possible past es s = true ->
  exists s1 cr1, happens es s = Ret (tt, s1) /\ business (past ++ reported es) cr1 s1 /\ at_rest cr1 (loop s1)
    /\ exists handled taken, backlog (sys s) ++ arrivals es = handled ++ backlog (sys s1)
      /\ taken `sublist_of` handled /\ map TcpServer.c_peer (allocated s1) = map TcpServer.c_peer (allocated s) ++ taken.
Proof.
  revert past cr s. induction es as [|[a|ps] es IH]; intros past cr s Hb Hrest Hpo.
  - exists s, cr. rewrite !app_nil_r. split; [done|]. split; [done|]. split; [done|]. exists [], []. by rewrite app_nil_r.
  - cbn [possible Server.happen] in Hpo. rewrite andb_true_l, app_nil_r in Hpo. pose proof Hb as [H Hpe [Hok Hi Ho Ha] Hro].
    destruct (arrive_ok a (sys s) Hok) as (Hok1 & Ho1 & Hb1).
    destruct (IH past cr (Server.mk (acceptor s) (arrive a (sys s)) (server s) (loop s))) as (s1 & cr1 & E & Hbs & Hr1 & h & t & Hh & Ht & Hp); try done.
    { split; try done. split; cbn [sys acceptor]; by rewrite ?Ho1. }
    exists s1, cr1. split; [exact E|]. split; [done|]. split; [done|]. exists h, t. split; [|done].
    cbn [sys] in Hh. rewrite Hb1, <- app_assoc in Hh. exact Hh.
  - cbn [possible] in Hpo. apply andb_true_iff in Hpo as [Hr Hpo].
    destruct (turn_step past cr s ps Hb Hrest Hr) as (s1 & cr1 & E & Hb1 & Hr1 & h & t & Hh & Ht & Hp). rewrite E in Hpo.
    destruct (IH _ cr1 s1 Hb1 Hr1 Hpo) as (s2 & cr2 & E2 & Hb2 & Hr2 & h2 & t2 & Hh2 & Ht2 & Hp2).
    exists s2, cr2. split; [cbn [Server.happens]; by rewrite (ST_bind_eq _ _ _ _ _ E)|].
    split; [cbn [reported map concat]; by rewrite app_assoc|]. split; [done|]. exists (h ++ h2), (t ++ t2).
    rewrite Hh, Hp2, Hp, <- !app_assoc. split_and!; [by rewrite <- Hh2|by apply sublist_app|done].
Qed.

(** A server that has started. *)
Record opens s : Prop := {
  op_loop : loop s = home (objects (loop s));
  op_lodged : lodged guests (objects (loop s));
  op_server : exists name ip pool, server s = TcpServer.mk name ip pool ∅ 1 [] (TcpServer.given (server s)) /\ TcpServer.pool_ok pool;
  op_ok : os_ok (sys s);
  op_idle : Acceptor.m_idleFd (acceptor s) ∈ opened (sys s);
  op_open : forall f, f ∈ opened (sys s) ∖ {[Acceptor.m_idleFd (acceptor s)]} <-> f ∈ own
}.

Lemma opens_business s : opens s -> business [] ∅ s /\ at_rest ∅ (loop s) /\ allocated s = [].
Proof.
  intros [Hl Hlo (name & ip & pool & Hsv & Hpool) Hok Hi Ho].
  destruct (home_served httpCallback_ sys_readv sndbuf requests pieces partial guests _ Hlo) as [H Hrest]. rewrite <- Hl in H, Hrest.
  split; [|split; [done|by rewrite Hsv]]. split; [done| | |].
  - exists []. rewrite Hl. split; [done|]. split; [constructor|]. intros p. split; [by intros ?%not_elem_of_nil|done].
  - assert (forall f, ~ holds ∅ f) as Hno by (by intros f (p & st & Hp & _)).
    split; [done|done| |by intros f ?%Hno]. intros f. rewrite Ho. specialize (Hno f). naive_solver.
  - rewrite Hsv. split; cbn; [| |done| |by intros p ?%not_elem_of_nil].
    + split; [done|done| |]; intros p c Hc; cbn in Hc; [by rewrite lookup_nil in Hc|by rewrite lookup_empty in Hc].
    + by intros p [x Hx].
    + intros i. split; [by intros [x Hx]|by intros (f & n & Hx)].
Qed.

(** What holds of the process after any schedule. *)
Definition conducts (es : list event) s s1 : Prop :=
  let gone i := left_by (reported es) (base + i)%nat in
  (forall i c, allocated s1 !! i = Some c -> let p := (base + i)%nat in
     if gone i
     then connections (loop s1) !! p = None /\ exists t, freed (loop s1) !! p = Some t /\ wire t = answers p
     else exists t more, connections (loop s1) !! p = Some t /\ m_state t = kConnected /\ wire t ++ more = answers p
       /\ ((total p <= count p (reported es) + length (partial p))%nat -> more = []))
  /\ (forall i, is_Some (TcpServer.m_connectionsSet (server s1) !! i) <-> (i < length (allocated s1))%nat /\ gone i = false)
  /\ (forall f, f ∈ opened (sys s1) <-> f = Acceptor.m_idleFd (acceptor s1) \/ f ∈ own
       \/ exists i c, allocated s1 !! i = Some c /\ TcpServer.c_fd c = f /\ gone i = false)
  /\ (exists handled, backlog (sys s) ++ arrivals es = handled ++ backlog (sys s1)
       /\ map TcpServer.c_peer (allocated s1) `sublist_of` handled).

Lemma business_stage past cr s i c : business past cr s -> at_rest cr (loop s) -> allocated s !! i = Some c ->
  cr !! (base + i)%nat = Some (TcpServer.c_fd c, if left_by past (base + i)%nat then Gone
    else Sending (total (base + i)%nat - count (base + i)%nat past)).
Proof.
  intros Hb [_ Hrest] Hc. destruct (ro_stage _ _ _ (bu_roster _ _ _ Hb) i c Hc) as (st & Hst & Hstage). rewrite Hst.
  unfold stage_after in Hstage. destruct (left_by past (base + i)%nat); [|by subst st].
  destruct Hstage as [-> | ->]; [|done]. exfalso. apply (Hrest (base + i)%nat). unfold stage_of. by rewrite Hst.
Qed.

Lemma business_holds past cr s f : business past cr s -> at_rest cr (loop s) ->
  holds cr f <-> exists i c, allocated s !! i = Some c /\ TcpServer.c_fd c = f /\ left_by past (base + i)%nat = false.
Proof.
  intros Hb Hrest. split.
  - intros (p & st & Hp & Hreg). destruct (ro_crowd _ _ _ (bu_roster _ _ _ Hb) p ltac:(by eexists)) as [Hle Hlt].
    destruct (lookup_lt_is_Some_2 (allocated s) (p - base)) as [c Hc]; [lia|]. exists (p - base)%nat, c.
    pose proof (business_stage past cr s _ c Hb Hrest Hc) as Hst. assert ((base + (p - base))%nat = p) as E by lia. rewrite E in *.
    rewrite Hp in Hst. injection Hst as -> ->. split; [done|]. split; [done|]. by destruct (left_by past p).
  - intros (i & c & Hc & <- & Hleft). pose proof (business_stage past cr s i c Hb Hrest Hc) as Hst. rewrite Hleft in Hst. by do 2 eexists.
Qed.

Lemma serves es s : opens s -> possible [] es s = true -> exists s1, happens es s = Ret (tt, s1) /\ conducts es s s1.
Proof.
  intros Hop Hpo. destruct (opens_business s Hop) as (Hb & Hrest & Hnil).
  destruct (happens_step es [] ∅ s Hb Hrest Hpo) as (s1 & cr & E & Hb1 & Hr1 & h & t & Hh & Ht & Hp). cbn [app] in Hb1.
  exists s1. split; [done|]. unfold conducts. cbv zeta. split; [|split; [|split]].
  - intros i c Hc. set (p := (base + i)%nat). pose proof (business_stage _ cr s1 i c Hb1 Hr1 Hc) as Hst. fold p in Hst. destruct (left_by (reported es) p).
    + destruct (gone_left_nothing _ _ _ _ _ _ _ cr (loop s1) p _ (bu_served _ _ _ Hb1) Hst) as (Hcn & _ & u & Hu & _ & Hw). split; [done|by exists u].
    + destruct (still_served _ _ _ _ _ _ _ cr (loop s1) p _ _ (bu_served _ _ _ Hb1) Hst) as (u & Hu & Hcon & more & Hw & Hall).
      exists u, more. split; [done|]. split; [done|]. split; [done|]. intros Hle. apply Hall. lia.
  - intros i. rewrite (ro_set _ _ _ (bu_roster _ _ _ Hb1)). split.
    + intros (f & n & Hst). destruct (ro_crowd _ _ _ (bu_roster _ _ _ Hb1) (base + i)%nat ltac:(by eexists)) as [_ Hlt].
      assert (i < length (allocated s1))%nat as Hi by lia. split; [done|]. destruct (lookup_lt_is_Some_2 _ _ Hi) as [c Hc].
      rewrite (business_stage _ cr s1 i c Hb1 Hr1 Hc) in Hst. by destruct (left_by (reported es) (base + i)%nat).
    + intros [[c Hc]%lookup_lt_is_Some_2 Hleft]. pose proof (business_stage _ cr s1 i c Hb1 Hr1 Hc) as Hst. rewrite Hleft in Hst. by do 2 eexists.
  - intros f. destruct (bu_books _ _ _ Hb1) as [_ Hi Ho _]. specialize (Ho f). rewrite <- (business_holds _ cr s1 f Hb1 Hr1).
    destruct (decide (f = Acceptor.m_idleFd (acceptor s1))) as [->|Hne]; set_solver.
  - exists h. split; [done|]. rewrite Hp, Hnil. exact Ht.
Qed.
End clients.

(** ** From the start *)
Section starting.
Context {K D : Type} `{!Kernel K} `{!Os D} `{!OsSpec D} `{!Serving D}.
Context (m_acceptChannel : Channel.ptr) (toIpPort : bytes -> outcome bytes) (startLoop : nat -> unit).
Context (guests : gmap Channel.ptr Z).
Implicit Types w : world callback (Epoll.t K).
Implicit Types k : D.

(** The channels the loop has before the server is made, and the system that
    has two descriptors left. *)
Record fit (f : Z) w k : Prop := {
  fi_lodged : lodged guests w;
  fi_room : Z.of_nat (size (Epoll.channel_map (poller w))) < 10000;
  fi_new : guests !! m_acceptChannel = None;
  fi_open : forall p fd, guests !! p = Some fd -> fd ∈ opened k;
  fi_ok : os_ok k;
  fi_socket : full k = false;
  fi_idle : full (snd (os_socket f k)) = false
}.

Lemma fit_free f w k fd : fit f w k -> fd ∉ opened k -> Epoll.channel_map (poller w) !! fd = None.
Proof.
  intros [[Hok _ Honly Hg] _ _ Ho _ _ _] Hfd. apply eq_None_not_Some. intros [p Hp].
  destruct (inv_channels _ Hok _ _ Hp) as (c & Hc & Hf & _). destruct (Honly p ltac:(by eexists)) as [g Hgp].
  destruct (Hg p g Hgp) as (c' & Hc' & Hf' & _). cbn [home objects] in Hc'. apply Hfd. apply (Ho p). rewrite Hgp. congruence.
Qed.

(** The channel of the acceptor is one more of the loop's own. *)
Lemma lodged_acceptor w w2 fd c : lodged guests w -> guests !! m_acceptChannel = None -> epoll_inv w2 ->
  Z.of_nat (size (Epoll.channel_map (poller w))) < 10000 ->
  channels w2 = <[m_acceptChannel := c]> (channels w) -> Channel.m_fd c = fd -> Channel.m_readCallBack c = Some OnRead ->
  Epoll.channel_map (poller w) !! fd = None ->
  Epoll.channel_map (poller w2) = <[fd := m_acceptChannel]> (Epoll.channel_map (poller w)) ->
  lodged (<[m_acceptChannel := fd]> guests) w2.
Proof.
  intros [Hok _ Honly Hg] Hnew Hok2 Hroom Hch Hf Hrd Hfree Hmc. split; [done| | |].
  - rewrite Hmc, map_size_insert_None by done. lia.
  - intros p. rewrite Hch. destruct (decide (p = m_acceptChannel)) as [->|Hne]; [rewrite !lookup_insert_eq; by eexists|].
    rewrite !lookup_insert_ne by done. apply Honly.
  - intros p f. unfold guest. cbn [home objects]. rewrite Hch, Hmc. destruct (decide (p = m_acceptChannel)) as [->|Hne].
    + rewrite !lookup_insert_eq. intros [= <-]. exists c. by rewrite lookup_insert_eq.
    + rewrite !lookup_insert_ne by done. intros Hp. destruct (Hg p f Hp) as (d & Hd & Hfd & Hm & Hr). cbn [home objects] in Hd, Hm.
      exists d. split_and!; try done. rewrite lookup_insert_ne by (intros ->; congruence). done.
Qed.

Lemma start_opens addr name ip f w k : InetAddress.family addr = Ret f -> toIpPort addr = Ret ip -> fit f w k ->
  exists s fd, start m_acceptChannel toIpPort startLoop addr name w k = Ret s /\ fd = Acceptor.m_acceptSocket (acceptor s)
    /\ opens (<[m_acceptChannel := fd]> guests) ({[fd]} ∪ opened k) s /\ backlog (sys s) = backlog k.
Proof.
  intros Hf Hip Hfit. pose proof Hfit as [Hlo Hroom Hnew Ho Hok Hs Hi].
  destruct (socket_room f k Hok Hs) as (fd & k1 & Es & _ & Hfd & Hok1 & Ho1 & Hb1). rewrite Es in Hi. cbn [snd] in Hi.
  destruct (open_room k1 Hok1 Hi) as (idle & k2 & Ei & Hidle & Hidn & Hok2 & Ho2 & Hb2).
  set (a0 := Acceptor.mk (Acceptor.mkAcceptor 0 false 0) w k tt).
  pose proof (Acceptor.Acceptor_run m_acceptChannel OnRead addr a0 f fd k1 idle k2 Hf Es Ei Hidle) as Ea.
  destruct (bind_keeps fd (ztake 16 addr) k2 Hok2) as (Hok3 & Ho3 & Hb3). cbn [Acceptor.wld Acceptor.user a0] in Ea.
  set (a1 := Acceptor.mk _ _ _ _) in Ea. pose proof (fit_free f w k fd Hfit Hfd) as Hfree.
  set (c := Channel.setReadCallBack OnRead (Channel.init fd)) in *.
  destruct (Acceptor.listen_run m_acceptChannel OnRead fd idle a1) as (w2 & i & El & Hok4 & Hch & Hmc & _).
  { done. } { apply lookup_insert_eq. } { apply poller_ok_new; [exact (lo_ok _ _ Hlo)|]. apply eq_None_not_Some. intros Hg%(lo_only _ _ Hlo).
    rewrite Hnew in Hg. by destruct Hg. } { exact Hfree. }
  { change (Z.of_nat (size (Epoll.channel_map (poller w))) < 2 ^ 30). change (2 ^ 30) with 1073741824. lia. }
  cbn [Acceptor.os a1 Acceptor.wld channels poller] in Hch, Hmc, El. rewrite insert_insert_eq in Hch.
  change (m_channels (C := callback)) with (@Epoll.channel_map K) in Hmc.
  set (k3 := snd (os_bind fd (ztake 16 addr) k2)) in *. destruct (listen_keeps fd k3 Hok3) as (Hok5 & Ho5 & Hb5).
  eexists (Server.mk _ _ _ _), fd. split; [|split; [|split]].
  - unfold start. fold a0. rewrite Ea. cbn [mbind outcome_bind]. unfold TcpServer.TcpServer. rewrite Hip. cbn [mbind outcome_bind].
    unfold TcpServer.setThreadNum, TcpServer.startListen, EventLoopThreadPool.start. cbn [cassert mbind outcome_bind Z.leb Z.compare].
    cbn. rewrite El. cbn. reflexivity.
  - reflexivity.
  - split; cbn [loop sys acceptor server objects Acceptor.m_idleFd].
    + reflexivity.
    + by apply (lodged_acceptor w w2 fd _ Hlo Hnew Hok4 Hroom Hch).
    + eexists _, _, _. split; [reflexivity|]. split; [done|by left].
    + done.
    + rewrite Ho5, Ho3, Ho2. set_solver.
    + intros g. rewrite Ho5, Ho3, Ho2, Ho1 in *. set_solver.
  - cbn [sys]. by rewrite Hb5, Hb3, Hb2, Hb1.
Qed.
End starting.


(** ** Three clients; there are descriptors for two connections *)
#[global, program] Instance table_serving : Serving Acceptor.table := {
  arrive a k := Acceptor.mkTable (Acceptor.t_open k) (Acceptor.t_next k) (Acceptor.t_wait k ++ [a]) (Acceptor.t_limit k)
}.
Next Obligation. intros a k [H1 H2 H3]. cbn. split; [by split|done]. Qed.
Next Obligation.
  intros f k Hok Hf. cbn in *. unfold Acceptor.t_new. rewrite Hf.
  destruct (Acceptor.table_add k (Acceptor.t_wait k) Hok Hf) as (H1 & H2 & H3). do 2 eexists. split; [reflexivity|]. done.
Qed.
Next Obligation. intros fd a k Hok. cbn in *. done. Qed.
Next Obligation. intros fd k Hok. cbn in *. done. Qed.

(** The first client hangs up in the middle of a request; the third comes when
    there is no descriptor, the fourth when there is one again. *)
Definition schedule : list event :=
  [Arrives (lit "a"); Arrives (lit "b"); Arrives (lit "c"); Reports [0%nat]; Reports [1; 0]%nat; Reports [0; 2; 1]%nat; Reports [2; 1]%nat;
   Arrives (lit "d"); Reports [1%nat]; Reports [1%nat]; Reports [0%nat]].
Definition two_left : Acceptor.table := Acceptor.mkTable ∅ 3 [] 4.
Abbreviation demo_start := (start (K := gmap Z Z) 0 (fun _ => Ret []) (fun _ => tt) (replicate 28 (chr 2)) (lit "s") empty_world two_left).
Abbreviation demo_happens := (Server.happens (K := gmap Z Z) echo_path (fun _ => whole_write) some_readv (fun _ => []) id 0 1).
Abbreviation demo_possible :=
  (possible (K := gmap Z Z) echo_path (fun _ => whole_write) some_readv (fun _ => []) id 0 1 some_pieces some_partial some_leaves).

Lemma two_left_fit : fit 0 ∅ 514 empty_world two_left.
Proof.
  split; [exact empty_lodged|done|done|done| |done|done].
  split; cbn; [done| |done]. by intros fd ?%not_elem_of_empty.
Qed.

Lemma demo_runs : match demo_start with
  | Ret s => demo_possible [] schedule s && match demo_happens schedule s with
      | Ret (_, s1) => bool_decide (map TcpServer.c_peer (TcpServer.allocated (server s1)) = [lit "a"; lit "b"; lit "d"])
      | Crash _ => false
      end
  | Crash _ => false
  end = true.
Proof. vm_compute. reflexivity. Qed.

End Server.
