(* ===== verification/LoopLife.v ===== *)
(** The life of a Reactor/EventLoop: its constructor and destructor with the
    descriptors and channels they own, the loop a thread knows as its own
    (and CurrentThread.h), and the timers it hands to its queue. *)
From S2P Require Import Prelude Cxx Channel Epoll Timer TimerQueue.
From Stdlib Require Import SpecFloat.

(** The descriptors a loop asks for, and close(2). *)
Inductive fd_kind := EpollFd | TimerFd | EventFd.
Class LoopOs (K : Type) := {
  os_create : fd_kind -> K -> Z * K;
  os_gettid : K -> Z;
  os_close : Z -> K -> K
}.
Class LoopOsSpec (K : Type) `{!LoopOs K} := {
  held : K -> gset Z;
  room : K -> nat;
  create_room : forall c k n, room k = S n -> exists fd k', os_create c k = (fd, k') /\ 0 <= fd /\ fd ∉ held k
    /\ held k' = {[fd]} ∪ held k /\ room k' = n;
  close_held : forall fd k, held (os_close fd k) = held k ∖ {[fd]}
}.

Module LoopLife.

(** *** CurrentThread.h: the thread-local cache of the thread id. *)
Definition tid (gettid t_cachedTid : Z) : Z * Z :=
  let t := if t_cachedTid =? 0 then gettid else t_cachedTid in (t, t).

Abbreviation thread := Z.
Abbreviation loop_ptr := nat.
(** [OnOther]: the callback of a channel that is not the loop's own. *)
Inductive callback := OnTimer | OnWakeup | OnOther.

Section life.
Context {K E : Type} `{!LoopOs K} `{!Kernel E}.
(** A new epoll instance; the channels a loop owns. *)
Context (new_epoll : E) (timerfdChannel p_wakeupChannel : Channel.ptr).

(** The parts of [EventLoop] its life is about. *)
Record loop := mkLoop {
  m_looping : bool;
  m_threadId : thread;
  m_epfd : Z;
  m_timerfd : Z;
  m_wakeupFd : Z;
  objects : world callback (Epoll.t E);
  m_callingPendingFunctors : bool
}.

(** The process: [t_loopInThisThread] has a value for the threads where it is
    not null. *)
Record state := mk {
  os : K;
  t_loopInThisThread : gmap thread loop_ptr;
  loops : gmap loop_ptr loop
}.
Abbreviation M := (ST state).
Implicit Types s : state.
Definition set_os k s : state := mk k (t_loopInThisThread s) (loops s).
Definition set_current m s : state := mk (os s) m (loops s).
Definition set_loops m s : state := mk (os s) (t_loopInThisThread s) m.

Definition create (c : fd_kind) : M Z := fun s => let '(fd, k) := os_create c (os s) in Ret (fd, set_os k s).
(** [createEpollFd] and [createTimerfd] only log a failure. *)
Definition createEpollFd : M Z := create EpollFd.
Definition createTimerfd : M Z := create TimerFd.
Definition createEventfd : M Z :=
  evtfd ← create EventFd;
  if evtfd <? 0 then crash ProcessExit else mret evtfd.
Definition close (fd : Z) : M unit := modify (fun s => set_os (os_close fd (os s)) s).

(** A channel the loop owns reads its descriptor. *)
Definition watch (p : Channel.ptr) (cb : callback) (fd : Z) : ST (world callback (Epoll.t E)) unit :=
  _ ← put_channel p (Channel.setReadCallBack cb (Channel.init fd));
  enableReading p.
Definition unwatch (p : Channel.ptr) : ST (world callback (Epoll.t E)) unit :=
  _ ← disableAll p;
  remove p.
Definition within {A} (m : ST (world callback (Epoll.t E)) A) (w : world callback (Epoll.t E))
    : M (world callback (Epoll.t E)) := fun s =>
  '(_, w') ← m w; Ret (w', s).

(** The constructor, at [l] in the thread [t]. *)
Definition EventLoop (t : thread) (l : loop_ptr) : M unit :=
  epfd ← createEpollFd;
  timerfd ← createTimerfd;
  w1 ← within (watch timerfdChannel OnTimer timerfd) (mkWorld ∅ (Epoll.init new_epoll));
  wakeupFd ← createEventfd;
  m ← gets t_loopInThisThread;
  _ ← (match m !! t with Some _ => mret tt | None => modify (set_current (<[t := l]> m)) end);
  w2 ← within (watch p_wakeupChannel OnWakeup wakeupFd) w1;
  modify (fun s => set_loops (<[l := mkLoop false t epfd timerfd wakeupFd w2 false]> (loops s)) s).

(** The destructor, in the thread [t]: its body, then the members in
    reverse order - the timer queue, the epoll, whose destructor is empty. *)
Definition destroy (t : thread) (l : loop_ptr) : M unit :=
  ls ← gets loops;
  lo ← lift (deref (ls !! l));
  _ ← lift (cassert (negb (m_looping lo)));
  w1 ← within (unwatch p_wakeupChannel) (objects lo);
  _ ← close (m_wakeupFd lo);
  _ ← modify (fun s => set_current (delete t (t_loopInThisThread s)) s);
  w2 ← within (unwatch timerfdChannel) w1;
  _ ← close (m_timerfd lo);
  modify (fun s => set_loops (delete l (loops s)) s).

Definition getEventLoopOfCurrentThread (t : thread) s : option loop_ptr := t_loopInThisThread s !! t.
Definition isInloopThread (t : thread) (lo : loop) : bool := m_threadId lo =? t.
(** [runInLoop]: at once in the loop's thread, else queued. *)
Definition runInLoop {S F} (t : thread) (lo : loop) (run queueInLoop : F -> ST S unit) (cb : F) : ST S unit :=
  if isInloopThread t lo then run cb else queueInLoop cb.

(** *** The channels of a loop *)
Abbreviation world := (world callback (Epoll.t E)).
Implicit Types w : world.

Lemma watch_spec w p cb fd : epoll_inv w -> channels w !! p = None -> Epoll.channel_map (poller w) !! fd = None ->
  Z.of_nat (size (Epoll.channel_map (poller w))) < 2 ^ 30 ->
  exists c w', watch p cb fd w = Ret (tt, w') /\ epoll_inv w' /\ channels w' = <[p := c]> (channels w)
    /\ Channel.m_fd c = fd /\ Channel.m_readCallBack c = Some cb
    /\ Epoll.channel_map (poller w') = <[fd := p]> (Epoll.channel_map (poller w))
    /\ watched (Epoll.kernel (poller w')) = <[fd := Channel.kReadEvent]> (watched (Epoll.kernel (poller w))).
Proof.
  intros Hok Hnew Hfd Hsz. set (c0 := Channel.setReadCallBack cb (Channel.init fd)).
  set (w1 := mkWorld (<[p := c0]> (channels w)) (poller w)).
  assert (poller_ok w1) as Hok1 by (by apply (poller_ok_new w p c0)).
  destruct (with_events_spec (fun e => (e .| Channel.kReadEvent)%cxx) w1 p c0 Hok1 (lookup_insert_eq _ _ _))
    as (i & w' & Ew & Hok' & _ & Hch & Hmc & Hint); [by left|].
  eexists _, w'. split; [unfold watch; rewrite put_bind; exact Ew|]. split; [exact Hok'|].
  split; [rewrite Hch; apply insert_insert_eq|]. done.
Qed.

Lemma unwatch_spec w p c : epoll_inv w -> channels w !! p = Some c -> Epoll.channel_map (poller w) !! Channel.m_fd c = Some p ->
  exists w', unwatch p w = Ret (tt, w') /\ epoll_inv w' /\ (forall q, q <> p -> channels w' !! q = channels w !! q)
    /\ Epoll.channel_map (poller w') = delete (Channel.m_fd c) (Epoll.channel_map (poller w))
    /\ watched (Epoll.kernel (poller w')) = delete (Channel.m_fd c) (watched (Epoll.kernel (poller w))).
Proof.
  intros Hok Hc Hm. destruct (inv_channels _ Hok _ _ Hm) as (c' & Hc' & _ & Hi). rewrite Hc in Hc'. injection Hc' as <-.
  assert (poller_ok w) as Hok0 by exact Hok.
  destruct (with_events_spec (fun _ => Channel.kNoneEvent) w p c Hok0 Hc) as (i & w1 & E1 & Hok1 & _ & Hch1 & Hmc1 & Hint1); [by right|].
  set (c1 := Channel.set_index i _) in Hch1. assert (channels w1 !! p = Some c1) as Hc1 by (rewrite Hch1; apply lookup_insert_eq).
  set (w2 := mkWorld (<[p := Channel.set_added false c1]> (channels w1)) (poller w1)).
  assert (poller_ok w2) as Hok2 by (by apply (poller_ok_put w1 p c1)).
  destruct (removeChannel_spec w2 p (Channel.set_added false c1) Hok2 (lookup_insert_eq _ _ _)) as (w3 & E3 & Hok3 & Hch3 & Hmc3 & Hint3);
    [change (m_channels (C:=callback) (poller w1) !! Channel.m_fd c = Some p); by rewrite Hmc1, lookup_insert_eq|done|].
  exists w3. split; [|split; [exact Hok3|]; split; [|split]].
  - unfold unwatch. rewrite (ST_bind_eq _ _ _ _ _ E1). unfold remove. rewrite (ST_bind_eq _ _ _ _ _ (get_channel_run _ _ _ Hc1)).
    rewrite assert_bind by done. rewrite put_bind. exact E3.
  - intros q Hq. rewrite Hch3. cbn [channels w2]. by rewrite lookup_insert_ne, Hch1, lookup_insert_ne.
  - change (@m_channels callback (Epoll.t E) _) with (@Epoll.channel_map E) in *. rewrite Hmc3. cbn [poller w2]. rewrite Hmc1.
    by rewrite delete_insert_eq.
  - change (interest (C:=callback) (poller w3) = delete (Channel.m_fd c) (interest (C:=callback) (poller w))). rewrite Hint3. cbn [poller w2].
    rewrite Hint1. apply delete_insert_eq.
Qed.

(** *** Construction and destruction *)
Context `{!LoopOsSpec K}.
Hypothesis new_epoll_empty : watched new_epoll = ∅.
Hypothesis two_channels : timerfdChannel <> p_wakeupChannel.

Lemma create_bind {B} c fd k s (f : Z -> M B) : os_create c (os s) = (fd, k) -> (create c ≫= f) s = f fd (set_os k s).
Proof. intros Eq. unfold mbind, ST_bind, create. by rewrite Eq. Qed.
Lemma within_bind {B} (m : ST world unit) w w' s (f : world -> M B) : m w = Ret (tt, w') -> (within m w ≫= f) s = f w' s.
Proof. intros Eq. unfold mbind, ST_bind, within. by rewrite Eq. Qed.

(** The objects of a loop: its own two channels among those it watches. *)
Record owns (lo : loop) : Prop := {
  ow_ok : epoll_inv (objects lo);
  ow_fds : m_timerfd lo <> m_wakeupFd lo;
  ow_timer : exists c, channels (objects lo) !! timerfdChannel = Some c /\ Channel.m_fd c = m_timerfd lo
    /\ Channel.m_readCallBack c = Some OnTimer;
  ow_wakeup : exists c, channels (objects lo) !! p_wakeupChannel = Some c /\ Channel.m_fd c = m_wakeupFd lo
    /\ Channel.m_readCallBack c = Some OnWakeup;
  ow_map : Epoll.channel_map (poller (objects lo)) !! m_timerfd lo = Some timerfdChannel
    /\ Epoll.channel_map (poller (objects lo)) !! m_wakeupFd lo = Some p_wakeupChannel;
  ow_kernel : watched (Epoll.kernel (poller (objects lo))) !! m_timerfd lo = Some Channel.kReadEvent
    /\ watched (Epoll.kernel (poller (objects lo))) !! m_wakeupFd lo = Some Channel.kReadEvent
}.

(** The constructor: three new descriptors, the timer and the eventfd watched
    for input, and the thread knows the loop unless it knows another. *)
Lemma EventLoop_spec t l s : (3 <= room (os s))%nat ->
  exists lo s1, EventLoop t l s = Ret (tt, s1) /\ loops s1 = <[l := lo]> (loops s) /\ owns lo
    /\ m_looping lo = false /\ m_threadId lo = t
    /\ t_loopInThisThread s1 = match t_loopInThisThread s !! t with Some _ => t_loopInThisThread s | None => <[t := l]> (t_loopInThisThread s) end
    /\ held (os s1) = {[m_wakeupFd lo]} ∪ ({[m_timerfd lo]} ∪ ({[m_epfd lo]} ∪ held (os s)))
    /\ m_epfd lo ∉ held (os s) /\ m_timerfd lo ∉ {[m_epfd lo]} ∪ held (os s)
    /\ m_wakeupFd lo ∉ {[m_timerfd lo]} ∪ ({[m_epfd lo]} ∪ held (os s)).
Proof.
  intros Hroom. destruct (room (os s)) as [|[|[|n]]] eqn:Hn; [lia..|]. clear Hroom.
  destruct (create_room EpollFd (os s) _ Hn) as (epfd & k1 & Ec1 & _ & Hnew1 & Hh1 & Hn1).
  destruct (create_room TimerFd k1 _ Hn1) as (timerfd & k2 & Ec2 & _ & Hnew2 & Hh2 & Hn2).
  destruct (create_room EventFd k2 _ Hn2) as (wakeupFd & k3 & Ec3 & Hpos & Hnew3 & Hh3 & _).
  assert (epoll_inv (mkWorld (∅ : gmap Channel.ptr (Channel.t callback)) (Epoll.init new_epoll))) as Hok0 by (by apply init_inv).
  destruct (watch_spec _ timerfdChannel OnTimer timerfd Hok0) as (c1 & w1 & Ew1 & Hok1 & Hch1 & Hf1 & Hcb1 & Hmc1 & Hw1); [done..|].
  assert (timerfd <> wakeupFd) as Hne by (intros ->; apply Hnew3; rewrite Hh2; set_solver).
  cbn [poller Epoll.channel_map Epoll.init Epoll.kernel channels] in *. rewrite new_epoll_empty in Hw1.
  destruct (watch_spec w1 p_wakeupChannel OnWakeup wakeupFd Hok1) as (c2 & w2 & Ew2 & Hok2 & Hch2 & Hf2 & Hcb2 & Hmc2 & Hw2).
  { by rewrite Hch1, lookup_insert_ne. }
  { by rewrite Hmc1, lookup_insert_ne. }
  { rewrite Hmc1, map_size_insert_None by done. by rewrite map_size_empty. }
  exists (mkLoop false t epfd timerfd wakeupFd w2 false).
  set (m1 := match t_loopInThisThread s !! t with Some _ => t_loopInThisThread s | None => <[t := l]> (t_loopInThisThread s) end).
  exists (mk k3 m1 (<[l := mkLoop false t epfd timerfd wakeupFd w2 false]> (loops s))). split; [|split_and!; try done].
  - unfold EventLoop, createEpollFd, createTimerfd. rewrite (create_bind _ _ _ _ _ Ec1), (create_bind TimerFd timerfd k2 (set_os k1 s) _ Ec2).
    rewrite (within_bind _ _ _ _ _ Ew1). unfold createEventfd.
    rewrite (ST_bind_eq _ _ _ wakeupFd (set_os k3 (set_os k2 (set_os k1 s)))).
    2: { rewrite (create_bind EventFd wakeupFd k3 (set_os k2 (set_os k1 s)) _ Ec3). by rewrite (proj2 (Z.ltb_ge _ _)) by lia. }
    rewrite gets_bind. cbn [t_loopInThisThread set_os].
    rewrite (ST_bind_eq _ _ _ tt (mk k3 m1 (loops s))); [|unfold m1; by destruct (t_loopInThisThread s !! t)].
    by rewrite (within_bind _ _ _ _ _ Ew2).
  - split; cbn [objects m_timerfd m_wakeupFd]; try done.
    + exists c1. by rewrite Hch2, lookup_insert_ne, Hch1, lookup_insert_eq.
    + exists c2. by rewrite Hch2, lookup_insert_eq.
    + rewrite Hmc2, Hmc1. rewrite lookup_insert_eq, lookup_insert_ne by done. by rewrite lookup_insert_eq.
    + rewrite Hw2, Hw1. rewrite lookup_insert_eq, lookup_insert_ne by done. by rewrite lookup_insert_eq.
  - cbn [os m_wakeupFd m_timerfd m_epfd]. by rewrite Hh3, Hh2, Hh1.
  - cbn [m_timerfd m_epfd]. by rewrite <- Hh1.
  - cbn [m_wakeupFd m_timerfd m_epfd]. by rewrite <- Hh1, <- Hh2.
Qed.

(** The destructor forgets and closes both, but not the epoll descriptor. *)
Lemma loop_destroy_spec t l lo s : loops s !! l = Some lo -> owns lo -> m_looping lo = false ->
  exists s1, destroy t l s = Ret (tt, s1) /\ loops s1 = delete l (loops s)
    /\ t_loopInThisThread s1 = delete t (t_loopInThisThread s)
    /\ held (os s1) = held (os s) ∖ {[m_wakeupFd lo]} ∖ {[m_timerfd lo]}.
Proof.
  intros Hl [Hok Hne (c1 & Hc1 & Hf1 & _) (c2 & Hc2 & Hf2 & _) [Hm1 Hm2] _] Hlo.
  destruct (unwatch_spec _ p_wakeupChannel c2 Hok Hc2) as (w1 & E1 & Hok1 & Hch1 & Hmc1 & _);
    [by rewrite Hf2|].
  destruct (unwatch_spec w1 timerfdChannel c1 Hok1) as (w2 & E2 & _); [by rewrite Hch1|rewrite Hf1, Hmc1, Hf2|].
  { by rewrite lookup_delete_ne. }
  eexists. split; [|split; [|split]].
  - unfold destroy. rewrite gets_bind, Hl. rewrite (lift_bind (deref (Some lo)) _ _ lo) by done.
    rewrite assert_bind by (by rewrite Hlo). rewrite (within_bind _ _ _ _ _ E1). unfold close. rewrite !modify_bind.
    rewrite (within_bind _ _ _ _ _ E2), modify_bind. reflexivity.
  - done.
  - done.
  - cbn [os set_os set_current set_loops]. by rewrite !close_held.
Qed.

(** *** The loops of a process *)

(** What threads do with loops: make one, let it watch another channel or
    forget it, and end one. *)
Inductive life_op :=
| Make (t : thread) (l : loop_ptr) | End (t : thread) (l : loop_ptr)
| Watch (t : thread) (l : loop_ptr) (p : Channel.ptr) (fd : Z) | Unwatch (t : thread) (l : loop_ptr) (p : Channel.ptr).
Definition set_objects w (lo : loop) : loop :=
  mkLoop (m_looping lo) (m_threadId lo) (m_epfd lo) (m_timerfd lo) (m_wakeupFd lo) w (m_callingPendingFunctors lo).
(** The loop [l] changes its objects. *)
Definition in_loop (l : loop_ptr) (m : ST world unit) : M unit :=
  ls ← gets loops;
  lo ← lift (deref (ls !! l));
  w ← within m (objects lo);
  modify (fun s => set_loops (<[l := set_objects w lo]> (loops s)) s).
Definition live (o : life_op) : M unit :=
  match o with
  | Make t l => EventLoop t l
  | End t l => destroy t l
  | Watch t l p fd => in_loop l (watch p OnOther fd)
  | Unwatch t l p => in_loop l (unwatch p)
  end.

(** The loop of the thread [t] is [lo], at [l]. *)
Definition of_thread s (t : thread) (l : loop_ptr) (lo : loop) : Prop := loops s !! l = Some lo /\ isInloopThread t lo = true.
(** A thread makes a loop when it has none and three descriptors are free,
    and uses and ends only its own; a new channel has a new descriptor. *)
Definition orderly s (o : life_op) : Prop :=
  match o with
  | Make t l => t_loopInThisThread s !! t = None /\ loops s !! l = None /\ (3 <= room (os s))%nat
  | End t l => exists lo, of_thread s t l lo
  | Watch t l p fd => exists lo, of_thread s t l lo /\ channels (objects lo) !! p = None
      /\ Epoll.channel_map (poller (objects lo)) !! fd = None
      /\ Z.of_nat (size (Epoll.channel_map (poller (objects lo)))) < 2 ^ 30
  | Unwatch t l p => exists lo, of_thread s t l lo /\ p <> timerfdChannel /\ p <> p_wakeupChannel
      /\ exists c, channels (objects lo) !! p = Some c
         /\ Epoll.channel_map (poller (objects lo)) !! Channel.m_fd c = Some p
  end.
(** The epoll descriptor of the loop that [o] ends. *)
Definition loses s (o : life_op) : gset Z :=
  match o with
  | End _ l => match loops s !! l with Some lo => {[m_epfd lo]} | None => ∅ end
  | _ => ∅
  end.
(** [life k lost s]: from a process with the descriptors of [k] and no loop,
    threads that are orderly came to [s], and [lost] are the epoll
    descriptors of the loops that have ended. *)
Inductive life (k : K) : gset Z -> state -> Prop :=
| life_start : life k ∅ (mk k ∅ ∅)
| life_step lost s o s' : life k lost s -> orderly s o -> live o s = Ret (tt, s') -> life k (loses s o ∪ lost) s'.

Definition fds (lo : loop) : gset Z := {[m_wakeupFd lo]} ∪ ({[m_timerfd lo]} ∪ {[m_epfd lo]}).

Record alive (k : K) (lost : gset Z) s : Prop := {
  al_thread : forall t l, t_loopInThisThread s !! t = Some l <-> exists lo, loops s !! l = Some lo /\ m_threadId lo = t;
  al_owns : forall l lo, loops s !! l = Some lo -> owns lo /\ m_looping lo = false;
  al_held : forall x, x ∈ held (os s) <-> x ∈ held k \/ x ∈ lost \/ exists l lo, loops s !! l = Some lo /\ x ∈ fds lo;
  al_lost : lost ## held k;
  al_three : forall l lo, loops s !! l = Some lo -> m_epfd lo <> m_wakeupFd lo /\ m_epfd lo <> m_timerfd lo /\ fds lo ## held k ∪ lost;
  al_apart : forall l1 l2 lo1 lo2, loops s !! l1 = Some lo1 -> loops s !! l2 = Some lo2 -> l1 <> l2 -> fds lo1 ## fds lo2
}.

Lemma alive_make k lost s t l : alive k lost s -> orderly s (Make t l) ->
  exists s', live (Make t l) s = Ret (tt, s') /\ alive k lost s'.
Proof.
  intros [Hk Ho Hh Hlost H3 Hap] (Ht & Hl & Hroom).
  destruct (EventLoop_spec t l s Hroom) as (lo & s1 & E1 & Hls & How & Hlo & Htid & Hcur & Hhd & Hn1 & Hn2 & Hn3). rewrite Ht in Hcur.
  assert (fds lo ## held (os s)) as Hnew by (unfold fds; set_solver).
  exists s1. split; [done|]. split; rewrite ?Hls.
  - intros t' l'. rewrite Hcur. destruct (decide (l = l')) as [<-|Hne].
    + rewrite lookup_insert_eq. split; [|intros (? & [= <-] & <-); rewrite Htid; apply lookup_insert_eq].
      destruct (decide (t = t')) as [<-|Hnt]; [by exists lo|]. rewrite lookup_insert_ne by done.
      intros (? & Hx & _)%Hk. by rewrite Hl in Hx.
    + rewrite (lookup_insert_ne (loops s)) by done. rewrite <- Hk. destruct (decide (t = t')) as [<-|Hnt]; [|by rewrite lookup_insert_ne].
      rewrite lookup_insert_eq, Ht. split; [intros [= ?]; done|done].
  - intros l' lo' [[<- <-]|[_ H]]%lookup_insert_Some; [done|by apply (Ho l')].
  - intros x. assert (x ∈ held (os s1) <-> x ∈ fds lo \/ x ∈ held (os s)) as -> by (rewrite Hhd; unfold fds; set_solver).
    rewrite Hh. split.
    + intros [H|[H|[H|(l' & lo' & Hl' & H)]]]; [|by left|by right; left|]; right; right.
      * exists l, lo. by rewrite lookup_insert_eq.
      * exists l', lo'. split; [|done]. rewrite lookup_insert_ne; [done|congruence].
    + intros [H|[H|(l' & lo' & [[<- <-]|[_ H']]%lookup_insert_Some & H)]]; [by right; left|by right; right; left|by left|].
      right; right; right. by exists l', lo'.
  - done.
  - intros l' lo' [[<- <-]|[_ H]]%lookup_insert_Some; [|by apply (H3 l')]. split_and!; set_solver.
  - assert (forall l' lo', loops s !! l' = Some lo' -> fds lo ## fds lo') as Hx.
    { intros l' lo' Hl' x Hx1 Hx2. apply (Hnew x Hx1), Hh. right; right. by exists l', lo'. }
    intros l1 l2 lo1 lo2 [[<- <-]|[? H1]]%lookup_insert_Some [[<- <-]|[? H2]]%lookup_insert_Some Hne; [done|by apply (Hx l2)| |by apply (Hap l1 l2)].
    symmetry. by apply (Hx l1).
Qed.

Lemma alive_end k lost s t l : alive k lost s -> orderly s (End t l) ->
  exists s', live (End t l) s = Ret (tt, s') /\ alive k (loses s (End t l) ∪ lost) s'.
Proof.
  intros [Hk Ho Hh Hlost H3 Hap] (lo & Hl & Ht%Z.eqb_eq). destruct (Ho l lo Hl) as [How Hlo]. destruct (H3 l lo Hl) as (He1 & He2 & Hbase).
  destruct (loop_destroy_spec t l lo s Hl How Hlo) as (s1 & E1 & Hls & Hcur & Hhd). exists s1. split; [done|]. cbn [loses]. rewrite Hl.
  assert (t_loopInThisThread s !! t = Some l) as Htl by (apply Hk; by exists lo).
  assert (forall l' lo', delete l (loops s) !! l' = Some lo' -> l <> l' /\ loops s !! l' = Some lo' /\ fds lo ## fds lo') as Hothers.
  { intros l' lo' [Hne Hl']%lookup_delete_Some. split_and!; [done|done|by apply (Hap l l')]. }
  assert (m_wakeupFd lo ∈ fds lo /\ m_timerfd lo ∈ fds lo /\ m_epfd lo ∈ fds lo) as (Iw & It & Ie) by (unfold fds; set_solver).
  assert (forall (X : gset Z) x, fds lo ## X -> x ∈ X -> x <> m_wakeupFd lo /\ x <> m_timerfd lo) as Hout
    by (intros X x HX Hx; split; intros ->; [exact (HX _ Iw Hx)|exact (HX _ It Hx)]).
  split; rewrite ?Hls.
  - intros t' l'. rewrite Hcur. destruct (decide (t = t')) as [<-|Hnt]; [rewrite lookup_delete_eq|rewrite lookup_delete_ne by done; rewrite Hk].
    + split; [done|]. intros (lo' & (Hne & Hl' & _)%Hothers & Ht'). assert (t_loopInThisThread s !! t = Some l') by (apply Hk; by exists lo'). congruence.
    + destruct (decide (l = l')) as [<-|Hne]; [|by rewrite lookup_delete_ne].
      rewrite lookup_delete_eq. split; [intros (lo' & Hl' & Ht'); congruence|by intros (lo' & Hl' & _)].
  - intros l' lo' (_ & H & _)%Hothers. by apply (Ho l').
  - intros x. rewrite Hhd, !elem_of_difference, !elem_of_singleton, elem_of_union, elem_of_singleton, Hh. split.
    + intros [[[H|[H|(l' & lo' & Hl' & H)]] Hx1] Hx2]; [by left|by right; left; right|].
      destruct (decide (l = l')) as [<-|Hne]; [rewrite Hl in Hl'; injection Hl' as <-|right; right; exists l', lo'; by rewrite lookup_delete_ne].
      unfold fds in H. rewrite !elem_of_union, !elem_of_singleton in H. destruct H as [H|[H|H]]; [done|done|by right; left; left].
    + intros Hx. cut ((x ∈ held k \/ x ∈ lost \/ exists l' lo', loops s !! l' = Some lo' /\ x ∈ fds lo')
        /\ x <> m_wakeupFd lo /\ x <> m_timerfd lo); [by intros (? & ? & ?)|].
      destruct Hx as [H|[[->|H]|(l' & lo' & (_ & Hl' & Hd)%Hothers & H)]].
      * split; [by left|apply (Hout _ x Hbase); by apply elem_of_union_l].
      * split; [right; right; by exists l, lo|done].
      * split; [by right; left|apply (Hout _ x Hbase); by apply elem_of_union_r].
      * split; [right; right; by exists l', lo'|by apply (Hout _ x Hd)].
  - apply disjoint_union_l. split; [|done]. apply disjoint_singleton_l. intros H. apply (Hbase _ Ie). by apply elem_of_union_l.
  - intros l' lo' (_ & H & Hd)%Hothers. destruct (H3 l' lo' H) as (? & ? & Hb). split_and!; [done|done|].
    intros x Hx. rewrite !elem_of_union, elem_of_singleton. intros [H'|[->|H']]; [|by apply (Hd _ Ie)|];
      apply (Hb x Hx); [by apply elem_of_union_l|by apply elem_of_union_r].
  - intros l1 l2 lo1 lo2 (_ & H1 & _)%Hothers (_ & H2 & _)%Hothers. by apply Hap.
Qed.

(** A change of a loop's objects that leaves its own two channels. *)
Lemma alive_objects k lost s t l lo m w : alive k lost s -> of_thread s t l lo -> m (objects lo) = Ret (tt, w) ->
  owns (set_objects w lo) -> exists s', in_loop l m s = Ret (tt, s') /\ alive k lost s'.
Proof.
  intros [Hk Ho Hh Hlost H3 Hap] [Hl _] Em How. destruct (Ho l lo Hl) as [_ Hlo].
  exists (set_loops (<[l := set_objects w lo]> (loops s)) s). split.
  { unfold in_loop. rewrite gets_bind, Hl. rewrite (lift_bind (deref (Some lo)) _ _ lo) by done. by rewrite (within_bind _ _ _ _ _ Em). }
  assert (forall l' lo', <[l := set_objects w lo]> (loops s) !! l' = Some lo' ->
    exists lo0, loops s !! l' = Some lo0 /\ fds lo' = fds lo0 /\ m_threadId lo' = m_threadId lo0) as Hold.
  { intros l' lo' [[<- <-]|[_ H]]%lookup_insert_Some; [by exists lo|by exists lo']. }
  assert (forall l' lo0, loops s !! l' = Some lo0 -> exists lo', <[l := set_objects w lo]> (loops s) !! l' = Some lo'
    /\ fds lo' = fds lo0 /\ m_threadId lo' = m_threadId lo0) as Hnew.
  { intros l' lo0 H. destruct (decide (l = l')) as [<-|Hne]; [rewrite Hl in H; injection H as <-; eexists; by rewrite lookup_insert_eq|].
    exists lo0. by rewrite lookup_insert_ne. }
  split; cbn [set_loops loops os t_loopInThisThread].
  - intros t' l'. rewrite Hk. split; intros (lo1 & H1 & H2); [destruct (Hnew _ _ H1) as (lo2 & ? & _ & Eq)|destruct (Hold _ _ H1) as (lo2 & ? & _ & Eq)];
      exists lo2; (split; [done|congruence]).
  - intros l' lo' [[<- <-]|[_ H]]%lookup_insert_Some; [done|by apply (Ho l')].
  - intros x. rewrite Hh. do 2 f_equiv. split; intros (l' & lo1 & H1 & H2); [destruct (Hnew _ _ H1) as (lo2 & ? & Eq & _)|destruct (Hold _ _ H1) as (lo2 & ? & Eq & _)];
      exists l', lo2; (split; [done|by rewrite Eq || rewrite <- Eq]).
  - done.
  - intros l' lo' [[<- <-]|[_ H]]%lookup_insert_Some; [by apply (H3 l lo)|by apply (H3 l')].
  - intros l1 l2 lo1 lo2 (lo1' & H1 & -> & _)%Hold (lo2' & H2 & -> & _)%Hold. by apply Hap.
Qed.

Lemma alive_step k lost s o : alive k lost s -> orderly s o ->
  exists s', live o s = Ret (tt, s') /\ alive k (loses s o ∪ lost) s'.
Proof.
  intros Ha Ho. destruct o as [t l|t l|t l p fd|t l p]; [|by apply alive_end| |]; cbn [loses]; rewrite (left_id_L ∅ (∪)); [by apply alive_make| |].
  - destruct Ho as (lo & Hof & Hp & Hfd & Hsz). pose proof (proj1 (al_owns _ _ _ Ha l lo (proj1 Hof))) as [Hok Hne (c1 & Hc1 & Hr1) (c2 & Hc2 & Hr2) [Hm1 Hm2] Hw].
    destruct (watch_spec _ p OnOther fd Hok Hp Hfd Hsz) as (c & w & Ew & Hok' & Hch & _ & _ & Hmc & Hwk).
    apply (alive_objects k lost s t l lo _ w Ha Hof Ew). split; cbn; rewrite ?Hch, ?Hmc, ?Hwk; [done|done|..].
    + exists c1. rewrite lookup_insert_ne; [done|congruence].
    + exists c2. rewrite lookup_insert_ne; [done|congruence].
    + rewrite !lookup_insert_ne by congruence. done.
    + rewrite !lookup_insert_ne by congruence. done.
  - destruct Ho as (lo & Hof & Hp1 & Hp2 & c & Hc & Hm). pose proof (proj1 (al_owns _ _ _ Ha l lo (proj1 Hof))) as [Hok Hne (c1 & Hc1 & Hr1) (c2 & Hc2 & Hr2) [Hm1 Hm2] Hw].
    destruct (unwatch_spec _ p c Hok Hc Hm) as (w & Ew & Hok' & Hch & Hmc & Hwk).
    apply (alive_objects k lost s t l lo _ w Ha Hof Ew). split; cbn; rewrite ?Hmc, ?Hwk; [done|done|..].
    + exists c1. by rewrite Hch.
    + exists c2. by rewrite Hch.
    + rewrite !lookup_delete_ne by congruence. done.
    + rewrite !lookup_delete_ne by congruence. done.
Qed.

Lemma alive_start k : alive k ∅ (mk k ∅ ∅).
Proof.
  split; cbn; try done.
  - intros t l. split; [done|by intros (? & ? & _)].
  - intros x. split; [by left|]. intros [H|[H|(? & ? & ? & _)]]; [done|set_solver|done].
Qed.
Lemma life_alive k lost s : life k lost s -> alive k lost s.
Proof.
  induction 1 as [|lost s o s' _ IH Ho El]; [apply alive_start|]. destruct (alive_step k lost s o IH Ho) as (s1 & E1 & H1). congruence.
Qed.

(** C21. The loops of a process, as threads make them, let them watch and forget
    channels, and end them. A thread makes a loop when it has none and three
    descriptors are free, and uses and ends only its own. Then no constructor
    or destructor ever fails; while a loop lives the kernel watches its timer
    and its eventfd for input, and the loop a thread knows is the living one
    it made; and the descriptors held are those of the start, three for each
    living loop and none shared, and the epoll descriptor of each loop that
    has ended, which no one closes. *)
Theorem loop_lifetime k lost s : life k lost s ->
  (forall t l, getEventLoopOfCurrentThread t s = Some l <-> exists lo, of_thread s t l lo)
  /\ (forall l lo, loops s !! l = Some lo ->
        watched (Epoll.kernel (poller (objects lo))) !! m_timerfd lo = Some Channel.kReadEvent
        /\ watched (Epoll.kernel (poller (objects lo))) !! m_wakeupFd lo = Some Channel.kReadEvent
        /\ size (fds lo) = 3%nat /\ fds lo ## held k ∪ lost
        /\ forall l' lo', loops s !! l' = Some lo' -> l <> l' -> fds lo ## fds lo')
  /\ lost ## held k
  /\ (forall x, x ∈ held (os s) <-> x ∈ held k \/ x ∈ lost \/ exists l lo, loops s !! l = Some lo /\ x ∈ fds lo)
  /\ forall o, orderly s o -> exists s', live o s = Ret (tt, s') /\ life k (loses s o ∪ lost) s'.
Proof.
  intros H. pose proof (life_alive k lost s H) as Ha. split; [|split; [|split; [|split]]].
  - intros t l. unfold getEventLoopOfCurrentThread, of_thread, isInloopThread. rewrite (al_thread _ _ _ Ha).
    split; intros (lo & Hl & Ht); exists lo; (split; [done|]); by apply Z.eqb_eq.
  - intros l lo Hl. destruct (ow_kernel lo (proj1 (al_owns _ _ _ Ha l lo Hl))). destruct (al_three _ _ _ Ha l lo Hl) as (? & ? & ?).
    pose proof (ow_fds lo (proj1 (al_owns _ _ _ Ha l lo Hl))). split_and!; try done.
    { unfold fds. by rewrite !size_union, !size_singleton by set_solver. }
    intros l' lo' Hl' Hne. by apply (al_apart _ _ _ Ha l l').
  - apply Ha.
  - apply Ha.
  - intros o Ho. destruct (alive_step k lost s o Ha Ho) as (s' & El & _). exists s'. split; [done|]. by apply (life_step k lost s).
Qed.

(** A second loop in the thread is only logged; when it ends, the thread has
    forgotten the first, which lives on. *)
Theorem second_loop_forgets_first t l1 l2 lo s : (3 <= room (os s))%nat -> loops s !! l1 = Some lo -> loops s !! l2 = None ->
  t_loopInThisThread s !! t = Some l1 ->
  exists s1 s2, EventLoop t l2 s = Ret (tt, s1) /\ destroy t l2 s1 = Ret (tt, s2)
    /\ loops s2 !! l1 = Some lo /\ getEventLoopOfCurrentThread t s2 = None.
Proof.
  intros Hroom Hl1 Hl2 Ht. destruct (EventLoop_spec t l2 s Hroom) as (lo2 & s1 & E1 & Hls & How & Hlo & _).
  destruct (loop_destroy_spec t l2 lo2 s1) as (s2 & E2 & Hls2 & Hcur2 & _); [by rewrite Hls, lookup_insert_eq|done|done|].
  exists s1, s2. split_and!; try done.
  - rewrite Hls2, Hls, delete_insert_id by done. done.
  - unfold getEventLoopOfCurrentThread. rewrite Hcur2. apply lookup_delete_eq.
Qed.
End life.

(** ** Witnesses: descriptors drawn above those in use. *)
Definition next_fd (k : gset Z) : Z := foldr Z.max 0 (elements k) + 1.
#[export] Instance fresh_os : LoopOs (gset Z * nat) := {|
  os_create _ k := match k.2 with O => (-1, k) | S n => (next_fd k.1, ({[next_fd k.1]} ∪ k.1, n)) end;
  os_gettid _ := 1;
  os_close fd k := (k.1 ∖ {[fd]}, k.2)
|}.
Lemma next_fd_above (l : list Z) fd : fd ∈ l -> fd <= foldr Z.max 0 l.
Proof. induction 1; cbn; lia. Qed.
#[export] Instance fresh_os_spec : LoopOsSpec (gset Z * nat).
Proof.
  refine {| held := fst; room := snd |}.
  - intros c [k r] n Hn. cbn in Hn. subst r. exists (next_fd k), ({[next_fd k]} ∪ k, n). split_and!; try done.
    + unfold next_fd. induction (elements k); cbn; lia.
    + intros Hin. cbn in Hin. apply elem_of_elements, next_fd_above in Hin. unfold next_fd in Hin. lia.
  - done.
Defined.
Definition few : gset Z * nat := ({[ 0; 1; 2 ]}, 9%nat).

(** A thread makes a loop, watches a channel with it and ends it: the
    descriptors 3, 4 and 5 were taken and 3 stays. *)
Definition after (o : life_op) (s : state) : state :=
  match live (E := gmap Z Z) ∅ 1 2 o s with Ret (_, s') => s' | _ => s end.
Definition made : state := after (Make 7 5) (mk few ∅ ∅).
Definition watching : state := after (Watch 7 5 3 9) made.
Definition ended : state := after (End 7 5) watching.
Ltac the_loop s :=
  let x := eval vm_compute in (loops s !! 5%nat) in lazymatch x with Some ?lo => exists lo end.
Lemma loop_lifetime_witness : life (E := gmap Z Z) ∅ 1 2 few ({[3]} ∪ ∅) ended
  /\ (forall x, x ∈ held (os ended) <-> x ∈ held few \/ x ∈ ({[3]} ∪ ∅ : gset Z)
        \/ exists l lo, loops ended !! l = Some lo /\ x ∈ fds lo).
Proof.
  assert (life (E := gmap Z Z) ∅ 1 2 few ({[3]} ∪ ∅) ended) as H.
  { apply (life_step ∅ 1 2 few ∅ watching (End 7 5)); [|the_loop watching; split; vm_compute; reflexivity|reflexivity].
    change (life (E := gmap Z Z) ∅ 1 2 few (loses made (Watch 7 5 3 9) ∪ ∅) watching).
    apply (life_step ∅ 1 2 few ∅ made (Watch 7 5 3 9)); [|the_loop made; unfold of_thread; split_and!; vm_compute; reflexivity|reflexivity].
    change (life (E := gmap Z Z) ∅ 1 2 few (loses (E := gmap Z Z) (mk few ∅ ∅) (Make 7 5) ∪ ∅) made).
    apply (life_step ∅ 1 2 few ∅ (mk few ∅ ∅) (Make 7 5)); [constructor|split_and!; [done|done|cbn; lia]|reflexivity]. }
  split; [exact H|].
  exact (proj1 (proj2 (proj2 (proj2 (loop_lifetime (E := gmap Z Z) ∅ 1 2 ltac:(done) ltac:(done) few ({[3]} ∪ ∅) ended H))))).
Defined.

Lemma second_loop_forgets_first_witness : exists (s1 s2 s3 : state), EventLoop (E := gmap Z Z) ∅ 1 2 7 5 (mk few ∅ ∅) = Ret (tt, s1)
  /\ EventLoop ∅ 1 2 7 6 s1 = Ret (tt, s2) /\ destroy 1 2 7 6 s2 = Ret (tt, s3)
  /\ is_Some (loops s3 !! 5%nat) /\ getEventLoopOfCurrentThread 7 s3 = None.
Proof.
  destruct (EventLoop_spec (E := gmap Z Z) ∅ 1 2 ltac:(done) ltac:(done) 7 5 (mk few ∅ ∅) ltac:(cbn; lia))
    as (lo & s1 & E1 & Hls & _ & _ & _ & Hcur & _).
  assert (room (os s1) = 6%nat) as Hroom.
  { assert (match EventLoop (E := gmap Z Z) ∅ 1 2 7 5 (mk few ∅ ∅) with Ret (_, s) => room (os s) | _ => 0%nat end = 6%nat) as H
      by (vm_compute; reflexivity).
    by rewrite E1 in H. }
  destruct (second_loop_forgets_first (E := gmap Z Z) ∅ 1 2 ltac:(done) ltac:(done) 7 5 6 lo s1) as (s2 & s3 & E2 & E3 & Hl & Hnone).
  - rewrite Hroom. lia.
  - by rewrite Hls, lookup_insert_eq.
  - by rewrite Hls.
  - rewrite Hcur. by vm_compute.
  - exists s1, s2, s3. split; [exact E1|]. split; [exact E2|]. split; [exact E3|]. split; [by eexists|done].
Defined.
End LoopLife.

(** ** The timers of a loop *)
Module LoopTimers.
Import TimerQueue.
Section timers.
Context (clock : nat -> TimeStamp.t) (runInLoop : ST queue unit -> ST queue unit).

(** [a] is where the timer is allocated. *)
Definition runAt (a : Z) (time : TimeStamp.t) (cb : Z) : ST queue (Z * Z) :=
  addTimer clock runInLoop a cb time (S754_zero false).
Definition runAfter (a : Z) (delay : spec_float) (cb : Z) : ST queue (Z * Z) :=
  n ← now clock;
  time ← lift (TimeStamp.addTime n delay);
  runAt a time cb.
Definition runEvery (a : Z) (interval : spec_float) (cb : Z) : ST queue (Z * Z) :=
  n ← now clock;
  time ← lift (TimeStamp.addTime n interval);
  addTimer clock runInLoop a cb time interval.
End timers.

Section proofs.
Context (clock : nat -> TimeStamp.t) (clock_ok : forall k, 0 <= clock k < 2 ^ 62).

(** The microseconds of a delay given in seconds. *)
Definition micros (delay : spec_float) : outcome Z :=
  TimeStamp.int64_of_double (SFmul 53 1024 delay (TimeStamp.double_of_Z TimeStamp.kMicroSecondsPerSecond)).

Lemma addTime_micros n delay d : 0 <= n < 2 ^ 62 -> micros delay = Ret d -> 0 <= d < 2 ^ 62 ->
  TimeStamp.addTime n delay = Ret (n + d).
Proof.
  change (2 ^ 62) with 4611686018427387904. intros Hn Hd Hr. unfold TimeStamp.addTime, micros in *. rewrite Hd. cbn. unfold s64_add.
  rewrite bool_decide_true; [done|]. lia.
Qed.

(** [addTimer] a delay from now. *)
Lemma later_spec X s a cb delay interval d : inv X s -> heap s !! a = None -> 0 < a < UINTPTR_MAX ->
  micros delay = Ret d -> 0 <= d < 2 ^ 62 -> (SFltb (S754_zero false) interval = true -> interval = delay) ->
  exists s', (n ← now clock; time ← lift (TimeStamp.addTime n delay); addTimer clock (fun m => m) a cb time interval) s
      = Ret ((a, s64 (s_numCreated s + 1)), s')
    /\ inv X s' /\ m_timers s' ≡ₚ (clock (ticks s) + d, a) :: m_timers s
    /\ heap s' !! a = Some (Timer.make cb (clock (ticks s) + d) interval (s64 (s_numCreated s + 1))).
Proof.
  intros Hi Ha Hr Hd Hrange Hrep. pose proof (clock_ok (ticks s)) as Hn. set (s0 := set_ticks (S (ticks s)) s).
  assert (inv X s0) as Hi0 by (destruct Hi; by split).
  destruct (addTimer_inserts clock clock_ok X s0 a cb (clock (ticks s) + d) interval Hi0 Ha Hr) as (s' & E & Hi' & Hp & Hh & _).
  - split; [cbn; change (2 ^ 62) with 4611686018427387904 in *; lia|].
    cbn [Timer.m_repeat Timer.make Timer.m_interval]. intros Hr2%Hrep. subst interval. by exists d.
  - exists s'. split; [|split; [done|]; split; [exact Hp|rewrite Hh; apply lookup_insert_eq]].
    rewrite (ST_bind_eq (now clock) _ s (clock (ticks s)) s0) by done.
    by rewrite (lift_bind _ _ _ _ (addTime_micros _ _ _ Hn Hd Hrange)).
Qed.

(** [runAfter] and [runEvery]: the callback is due [delay] seconds after the
    call, once or, for a positive interval, again and again. *)
Theorem runAfter_due X s a cb delay d : inv X s -> heap s !! a = None -> 0 < a < UINTPTR_MAX ->
  micros delay = Ret d -> 0 <= d < 2 ^ 62 ->
  exists s', runAfter clock (fun m => m) a delay cb s = Ret ((a, s64 (s_numCreated s + 1)), s')
    /\ inv X s' /\ m_timers s' ≡ₚ (clock (ticks s) + d, a) :: m_timers s
    /\ exists t, heap s' !! a = Some t /\ Timer.m_callBack t = cb /\ Timer.repeat t = false.
Proof.
  intros Hi Ha Hr Hd Hrange. destruct (later_spec X s a cb delay (S754_zero false) d Hi Ha Hr Hd Hrange ltac:(done)) as (s' & E & Hi' & Hp & Hh).
  exists s'. split; [exact E|]. split; [done|]. split; [done|]. by eexists.
Qed.

Theorem runEvery_due X s a cb interval d : inv X s -> heap s !! a = None -> 0 < a < UINTPTR_MAX ->
  micros interval = Ret d -> 0 <= d < 2 ^ 62 ->
  exists s', runEvery clock (fun m => m) a interval cb s = Ret ((a, s64 (s_numCreated s + 1)), s')
    /\ inv X s' /\ m_timers s' ≡ₚ (clock (ticks s) + d, a) :: m_timers s
    /\ exists t, heap s' !! a = Some t /\ Timer.m_callBack t = cb /\ Timer.m_interval t = interval
       /\ Timer.repeat t = SFltb (S754_zero false) interval.
Proof.
  intros Hi Ha Hr Hd Hrange. destruct (later_spec X s a cb interval interval d Hi Ha Hr Hd Hrange ltac:(done)) as (s' & E & Hi' & Hp & Hh).
  exists s'. split; [exact E|]. split; [done|]. split; [done|]. by eexists.
Qed.
End proofs.

Lemma runEvery_due_witness : exists s', runEvery demo_clock (fun m => m) 64 one_second 9 demo = Ret ((64, 4), s')
  /\ m_timers s' ≡ₚ (2000000, 64) :: m_timers demo.
Proof.
  destruct (runEvery_due demo_clock demo_clock_ok [] demo 64 9 one_second 1000000 demo_inv) as (s' & E & _ & Hp & _);
    [by vm_compute|by vm_compute|by vm_compute|by vm_compute|]. by exists s'.
Defined.
Lemma runAfter_due_witness : exists s', runAfter demo_clock (fun m => m) 64 one_second 9 demo = Ret ((64, 4), s')
  /\ m_timers s' ≡ₚ (2000000, 64) :: m_timers demo.
Proof.
  destruct (runAfter_due demo_clock demo_clock_ok [] demo 64 9 one_second 1000000 demo_inv) as (s' & E & _ & Hp & _);
    [by vm_compute|by vm_compute|by vm_compute|by vm_compute|]. by exists s'.
Defined.
End LoopTimers.
