(* ===== verification/Examples.v ===== *)
(** The servers under src/example: the static file server of
    static_server_example.cpp, over the cache and the HTTP library, and the echo
    server of tcp_server_example.cpp, over the buffer. *)
From S2P Require Import Prelude Cxx Ordered Buffer HttpRequest HttpResponse.
From S2P Require LFUCache LFUSpec LFURefine.

(** ** What the server asks of its cache *)

(** [get(key, v)] appends the value to [v] and tells whether there was one. *)
Class Cache (S : Type) := {
  cache_get : bytes -> bytes -> ST S (bool * bytes);
  cache_set : bytes -> bytes -> ST S unit
}.

(** [stores n V s]: after [n] calls, every value in the cache is one [V] allows for
    its key. *)
Class CacheSpec (S : Type) `{!Cache S} := {
  stores : Z -> (bytes -> bytes -> Prop) -> S -> Prop;
  get_stored : forall n V s k v, stores n V s -> 0 <= n < 2 ^ 31 - 1 ->
    exists hit v' s', cache_get k v s = Ret ((hit, v'), s') /\ stores (n + 1) V s'
      /\ if hit : bool then exists w, V k w /\ v' = v ++ w else v' = v;
  set_stored : forall n V s k v, stores n V s -> 0 <= n < 2 ^ 31 - 1 -> V k v ->
    exists s', cache_set k v s = Ret (tt, s') /\ stores (n + 1) V s'
}.

(** ** [LFUCache] is such a cache *)
Section lfu.
Import LFUSpec.
Implicit Types (lv : levels) (it : item).

Lemma items_cons f its lv : items ((f, its) :: lv) = its ++ items lv.
Proof. done. Qed.

Lemma items_keep f its lv : items (keep f its lv) = its ++ items lv.
Proof. by destruct its. Qed.

Lemma items_add_level f it lv x : x ∈ items (add_level f it lv) -> x = it \/ x ∈ items lv.
Proof.
  destruct lv as [|[g its] lv]; cbn [add_level]; [rewrite items_cons, elem_of_app, list_elem_of_singleton; intuition|].
  destruct (g =? f + 1); rewrite !items_cons, !elem_of_app; rewrite ?elem_of_cons; [intuition|].
  intros [[?|H]|?]; [auto|by apply not_elem_of_nil in H|by right].
Qed.

(** Every current entry carries a value [V] allows. *)
Definition valued (V : bytes -> bytes -> Prop) lv : Prop :=
  forall K, (K, true) ∈ items lv -> V (LFUCache.LFUCache.key K) (LFUCache.LFUCache.kvalue K).

Lemma extract_valued k its w its' : extract k its = Some (w, its') ->
  (LFUCache.LFUCache.mkKey k w, true) ∈ its /\ forall it, it ∈ its' -> it ∈ its.
Proof.
  revert its'. induction its as [|[[k' v'] live] its IH]; intros its' E; [done|]. cbn in E. destruct live; cbn in E.
  - case_bool_decide as Hk; [injection E as -> ->; subst; split; [by left|]; intros; by right|].
    destruct (extract k its) as [[w1 r]|]; [|done]. injection E as -> <-. destruct (IH r eq_refl) as [H1 H2].
    split; [by right|]. intros it [->|?]%elem_of_cons; [by left|right; auto].
  - destruct (extract k its) as [[w1 r]|]; [|done]. injection E as -> <-. destruct (IH r eq_refl) as [H1 H2].
    split; [by right|]. intros it [->|?]%elem_of_cons; [by left|right; auto].
Qed.

Lemma touch_valued k lv w lv' : touch k lv = Some (w, lv') ->
  (LFUCache.LFUCache.mkKey k w, true) ∈ items lv /\ forall it, it ∈ items lv' -> it ∈ items lv.
Proof.
  revert lv'. induction lv as [|[f its] lv IH]; intros lv' E; [done|]. cbn [touch] in E.
  destruct (extract k its) as [[v its']|] eqn:Ee.
  - injection E as -> <-. destruct (extract_valued _ _ _ _ Ee) as [H1 H2]. rewrite items_cons. split; [apply elem_of_app; by left|].
    intros it. rewrite items_keep, !elem_of_app. intros [?|[->|?]%items_add_level]; auto.
  - destruct (touch k lv) as [[v r]|]; [|done]. injection E as -> <-. destruct (IH r eq_refl) as [H1 H2]. rewrite items_cons.
    split; [apply elem_of_app; by right|]. intros it. rewrite items_cons, !elem_of_app. intros [?|?]; auto.
Qed.

Lemma items_kill k lv K : (K, true) ∈ items (kill k lv) -> (K, true) ∈ items lv.
Proof.
  induction lv as [|[f its] lv IH]; [done|]. cbn [kill map]. fold (kill k lv). rewrite !items_cons, !elem_of_app. intros [H|H]; [left|right; auto].
  apply list_elem_of_In, in_map_iff in H as ([K' l] & E & H). apply list_elem_of_In in H. unfold kill_item in E. cbn in E.
  injection E as <- E. apply andb_true_iff in E as [-> _]. done.
Qed.

Lemma items_evict lv K : (K, true) ∈ items (evict lv) -> (K, true) ∈ items lv.
Proof.
  destruct lv as [|[f its] lv]; [done|]. cbn [evict]. rewrite items_cons, elem_of_app. destruct (last its); [|by right].
  intros H%items_kill. rewrite items_keep, elem_of_app in H. destruct H as [H|H]; [left|by right].
  eapply elem_of_take in H as (i & H & _). by eapply list_elem_of_lookup_2.
Qed.

Lemma valued_set V cap k v lv : valued V lv -> V k v -> valued V (LFUSpec.set cap k v lv).
Proof.
  intros Hv Hk. unfold LFUSpec.set. destruct (cap =? 0); [done|]. intros K [[= ->]|H%items_kill]%items_add_level; [done|].
  apply Hv. destruct (Z.of_nat (live_count lv) =? cap); [by apply items_evict|done].
Qed.
End lfu.

#[export] Instance lfu_cache : Cache LFUCache.LFUCache.cache := {
  cache_get := LFUCache.LFUCache.get;
  cache_set := LFUCache.LFUCache.set
}.

#[export, refine] Instance lfu_cache_spec : CacheSpec LFUCache.LFUCache.cache := {
  stores n V s := exists b0 rest, LFURefine.inv n s b0 rest /\ 0 <= LFUCache.LFUCache.capacity s < 2 ^ 31
    /\ valued V (LFURefine.abs (LFUCache.LFUCache.kmap s) rest)
}.
Proof.
  - intros n V s k v (b0 & rest & Hi & Hc & Hv) Hn.
    destruct (LFURefine.get_refines n s b0 rest k v Hi Hn) as (s' & rest' & [hit v'] & E & Hi' & Hc' & Ha).
    exists hit, v', s'. split; [exact E|]. unfold LFUSpec.get in Ha. destruct (LFUCache.LFUCache.capacity s =? 0).
    { injection Ha as <- <- Ha. split; [|done]. exists b0, rest'. by rewrite Hc', <- Ha. }
    destruct (LFUSpec.touch k _) as [[w lv]|] eqn:Et; injection Ha as <- <- Ha.
    + apply touch_valued in Et as [H1 H2]. split; [|exists w; split; [by apply (Hv _ H1)|done]]. exists b0, rest'. rewrite Hc', <- Ha. split; [done|]. split; [done|].
      intros K HK. by apply Hv, H2.
    + split; [|done]. exists b0, rest'. by rewrite Hc', <- Ha.
  - intros n V s k v (b0 & rest & Hi & Hc & Hv) Hn Hk.
    destruct (LFURefine.set_refines n s b0 rest k v Hi ltac:(lia) Hc) as (s' & rest' & E & Hi' & Hc' & Ha).
    exists s'. split; [exact E|]. exists b0, rest'. rewrite Hc', <- Ha. split; [done|]. split; [done|]. by apply valued_set.
Defined.

(** ** [StaticServer] *)
Module StaticServer.

(** [std::string::rfind] of a character: the last position, or -1 for [npos]. *)
Fixpoint rfind (c : ascii) (l : bytes) : Z :=
  match l with
  | [] => -1
  | x :: l' => let r := rfind c l' in if 0 <=? r then r + 1 else if decide (x = c) then 0 else -1
  end.

(** [std::string::substr(pos)] *)
Definition substr (pos : Z) (l : bytes) : outcome bytes := if zlen l <? pos then Crash UncaughtException else Ret (zdrop pos l).

Definition filepath_of (path : bytes) : bytes :=
  let filepath := lit "./www" ++ cstr path in
  if decide (filepath = lit "./www/") then filepath ++ lit "index.html" else filepath.

Section server.
(** The file system: the size [stat] gives, when it finds the name; the memory
    that [open] and [mmap] of so many bytes give, when they do. *)
Context (stat : bytes -> option Z) (mmap : bytes -> Z -> option bytes).

(** [string(src_addr, size)] of the mapping; [size] is an [int]. A failed [mmap]
    gives the address -1, from which nothing can be read. *)
Definition read_file (filepath : bytes) (st_size : Z) : outcome bytes :=
  let size := s32 st_size in
  if size <? 0 then Crash UncaughtException
  else
    match mmap filepath size with
    | Some mem => if size <=? zlen mem then Ret (ztake size mem) else Crash UndefinedBehaviour
    | None => if size =? 0 then Ret [] else Crash UndefinedBehaviour
    end.

(** The response to a file. *)
Definition answer (filepath context : bytes) (resp : HttpResponse.t) : outcome HttpResponse.t :=
  let dot_pos := s32 (rfind "."%char filepath) in
  let r := HttpResponse.setStatusMessage (HttpResponse.setStatusCode resp HttpResponse.k200Ok) (lit "OK") in
  suffix ← substr (u64 dot_pos) filepath;
  let r := HttpResponse.setContentType r (Mimetype.getMime suffix) in
  let r := HttpResponse.addHeader r (lit "Server") (lit "Muduo") in
  Ret (HttpResponse.setBody r context).

Section cached.
Context {S : Type} `{!Cache S}.

Definition staticRequest (req : HttpRequest.t) (resp : HttpResponse.t) : ST S HttpResponse.t :=
  let filepath := filepath_of (HttpRequest.path_ req) in
  let path := cstr (HttpRequest.path_ req) in
  '(hit, context) ← cache_get path [];
  if hit : bool then lift (answer filepath context resp)
  else
    match stat filepath with
    | Some st_size =>
        context ← lift (read_file filepath st_size);
        _ ← cache_set path context;
        lift (answer filepath context resp)
    | None => mret resp
    end.

(** Requests one after the other. *)
Fixpoint serve_all (reqs : list (HttpRequest.t * HttpResponse.t)) : ST S (list HttpResponse.t) :=
  match reqs with
  | [] => mret []
  | (req, resp) :: reqs' => r ← staticRequest req resp; rs ← serve_all reqs'; mret (r :: rs)
  end.
End cached.

(** *** The server without a cache *)
Definition serve (req : HttpRequest.t) (resp : HttpResponse.t) : outcome HttpResponse.t :=
  let filepath := filepath_of (HttpRequest.path_ req) in
  match stat filepath with
  | Some st_size => context ← read_file filepath st_size; answer filepath context resp
  | None => Ret resp
  end.
Fixpoint serve_each (reqs : list (HttpRequest.t * HttpResponse.t)) : outcome (list HttpResponse.t) :=
  match reqs with
  | [] => Ret []
  | (req, resp) :: reqs' => r ← serve req resp; rs ← serve_each reqs'; Ret (r :: rs)
  end.

Section transparent.
Context {S : Type} `{!Cache S} `{!CacheSpec S}.
Implicit Types s : S.

(** The content of the file of a path. *)
Definition content_of (path context : bytes) : Prop :=
  exists st_size, stat (filepath_of path) = Some st_size /\ read_file (filepath_of path) st_size = Ret context.

Lemma cstr_cstr l : cstr (cstr l) = cstr l.
Proof. clear. induction l as [|c l IH]; [done|]. cbn. case_decide; [done|]. cbn. rewrite decide_False by done. by rewrite IH. Qed.

Lemma filepath_cstr path : filepath_of (cstr path) = filepath_of path.
Proof. clear. unfold filepath_of. by rewrite cstr_cstr. Qed.

Lemma staticRequest_serve n s req resp : stores n content_of s -> 0 <= n < 2 ^ 31 - 2 ->
  match serve req resp with
  | Ret r => exists s', staticRequest req resp s = Ret (r, s') /\ exists m, stores m content_of s' /\ n <= m <= n + 2
  | Crash e => staticRequest req resp s = Crash e
  end.
Proof.
  intros Hs Hn. unfold staticRequest, serve.
  destruct (get_stored n content_of s (cstr (HttpRequest.path_ req)) [] Hs ltac:(lia)) as (hit & v & s1 & E & Hs1 & Hv).
  rewrite (ST_bind_eq _ _ _ _ _ E). destruct hit.
  - destruct Hv as (w & (st_size & Est & Er) & ->). rewrite filepath_cstr in Est, Er. rewrite Est, Er. cbn [mbind outcome_bind app].
    unfold lift. destruct (answer _ w resp) as [r|e]; [|done]. exists s1. split; [done|]. exists (n + 1). split; [done|lia].
  - destruct (stat _) as [st_size|] eqn:Est; [|exists s1; split; [done|]; exists (n + 1); split; [done|lia]].
    destruct (read_file _ st_size) as [w|e] eqn:Er; [|done].
    rewrite (ST_bind_eq _ _ s1 w s1) by done.
    destruct (set_stored (n + 1) content_of s1 (cstr (HttpRequest.path_ req)) w Hs1 ltac:(lia)) as (s2 & E2 & Hs2).
    { exists st_size. by rewrite filepath_cstr. }
    rewrite (ST_bind_eq _ _ _ _ _ E2). cbn [mbind outcome_bind]. unfold lift. destruct (answer _ w resp) as [r|e]; [|done].
    exists s2. split; [done|]. exists (n + 1 + 1). split; [done|lia].
Qed.

Lemma serve_all_each reqs n s : stores n content_of s -> 0 <= n -> n + 2 * zlen reqs < 2 ^ 31 - 1 ->
  match serve_each reqs with
  | Ret rs => exists s', serve_all reqs s = Ret (rs, s')
  | Crash e => serve_all reqs s = Crash e
  end.
Proof.
  revert n s. induction reqs as [|[req resp] reqs IH]; intros n s Hs Hn Hlt; cbn [serve_each serve_all]; [by exists s|].
  rewrite zlen_cons in Hlt. pose proof (zlen_nonneg reqs).
  pose proof (staticRequest_serve n s req resp Hs ltac:(lia)) as Hr. destruct (serve req resp) as [r|e].
  - destruct Hr as (s1 & E & m & Hm & Hle). cbn [mbind outcome_bind]. rewrite (ST_bind_eq _ _ _ _ _ E).
    specialize (IH m s1 Hm ltac:(lia) ltac:(lia)). destruct (serve_each reqs) as [rs|e].
    + destruct IH as (s2 & E2). exists s2. cbn [mbind outcome_bind]. by rewrite (ST_bind_eq _ _ _ _ _ E2).
    + cbn [mbind outcome_bind]. by apply ST_bind_crash.
  - cbn [mbind outcome_bind]. by apply ST_bind_crash.
Qed.
End transparent.
End server.

(** The cache of the server, after [init], allows no value yet. *)
Lemma fresh_stores V : exists s, LFUCache.LFUCache.init LFUCache.LFUCache.static_cache = Ret (tt, s) /\ stores 0 V s.
Proof.
  destruct LFURefine.lfu_init_spec as (s & b0 & E & Hi & Hc & Hk). exists s. split; [done|]. exists b0, []. split; [done|].
  split; [rewrite Hc; lia|]. intros K H. by apply not_elem_of_nil in H.
Qed.

(** C9. The cache cannot be seen: while the files stay as they are, the server with
    its cache answers any sequence of fewer than 2^30 - 1 requests as the server
    that reads the file each time, byte for byte, and fails where that fails. *)
Theorem cache_transparent stat mmap reqs : 2 * zlen reqs < 2 ^ 31 - 1 ->
  match serve_each stat mmap reqs with
  | Ret rs => exists s, (_ ← LFUCache.LFUCache.init; serve_all stat mmap reqs) LFUCache.LFUCache.static_cache = Ret (rs, s)
  | Crash e => (_ ← LFUCache.LFUCache.init; serve_all stat mmap reqs) LFUCache.LFUCache.static_cache = Crash e
  end.
Proof.
  intros Hn. destruct (fresh_stores (content_of stat mmap)) as (s & E & Hs). rewrite (ST_bind_eq _ _ _ _ _ E).
  by apply (serve_all_each stat mmap reqs 0 s Hs).
Qed.

(** *** A directory with one page *)
Definition www (name : bytes) : option Z := if decide (name = lit "./www/index.html") then Some 5 else None.
Definition page (name : bytes) (size : Z) : option bytes := if size =? 0 then None else Some (lit "hello").
Definition get_path (p : bytes) : HttpRequest.t * HttpResponse.t :=
  (HttpRequest.mk HttpRequest.kGet HttpRequest.kHttp11 p [] 0 [], HttpResponse.init false).

Lemma cache_transparent_witness : 2 * zlen [get_path (lit "/"); get_path (lit "/x"); get_path (lit "/")] < 2 ^ 31 - 1 /\
  exists rs s, (_ ← LFUCache.LFUCache.init; serve_all www page [get_path (lit "/"); get_path (lit "/x"); get_path (lit "/")])
    LFUCache.LFUCache.static_cache = Ret (rs, s) /\ map HttpResponse.body_ rs = [lit "hello"; []; lit "hello"].
Proof.
  split; [reflexivity|]. set (reqs := [get_path (lit "/"); get_path (lit "/x"); get_path (lit "/")]).
  assert (exists rs, serve_each www page reqs = Ret rs /\ map HttpResponse.body_ rs = [lit "hello"; []; lit "hello"]) as (rs & Er & Hb)
    by (eexists; vm_compute; split; reflexivity).
  pose proof (cache_transparent www page reqs eq_refl) as H. rewrite Er in H. destruct H as [s E].
  exists rs, s. split; [exact E|exact Hb].
Defined.

(** The path is not looked at: a request can name any file. *)
Lemma path_escapes : filepath_of (lit "/../../etc/passwd") = lit "./www/../../etc/passwd".
Proof. reflexivity. Qed.
End StaticServer.

(** ** [EchoServer] *)
Module EchoServer.

(** A [const char*] read as a string: up to the first NUL, which has to be in the
    array. *)
Definition string_at (i : Z) (b : Buffer.t) : outcome bytes :=
  let l := zdrop i (Buffer.m_buffer b) in if decide (NUL ∈ l) then Ret (cstr l) else Crash UndefinedBehaviour.

(** [on_message]: what is sent, and the buffer left. *)
Definition on_message (b : Buffer.t) : outcome (bytes * Buffer.t) :=
  message ← string_at (Buffer.peek b) b;
  b' ← Buffer.retrieve b (Buffer.readableBytes b);
  Ret (message, b').

(** Messages that arrive one after the other, and the answers. *)
Fixpoint session (messages : list bytes) (b : Buffer.t) : outcome (list bytes) :=
  match messages with
  | [] => Ret []
  | m :: messages' =>
      b1 ← Buffer.append b m;
      '(r, b2) ← on_message b1;
      rs ← session messages' b2;
      Ret (r :: rs)
  end.

(** A message without NUL is answered by itself followed by whatever the buffer
    holds after it, up to a NUL; without one the read leaves the array. *)
Theorem echo_answers b : Buffer.wf b -> NUL ∉ Buffer.content b ->
  let stale := zdrop (Buffer.m_writerIndex b) (Buffer.m_buffer b) in
  on_message b = if decide (NUL ∈ stale) then Ret (Buffer.content b ++ cstr stale, Buffer.retrieveAll b) else Crash UndefinedBehaviour.
Proof.
  intros Hwf Hn stale. unfold on_message, string_at.
  assert (zdrop (Buffer.peek b) (Buffer.m_buffer b) = Buffer.content b ++ stale) as ->.
  { destruct Hwf as [H1 H2 H3 _]. unfold Buffer.kCheapPrepend in H1. unfold Buffer.size in H3. unfold stale, Buffer.content, Buffer.range, Buffer.peek, Buffer.beginWrite.
    rewrite !zdrop_zslice by lia. by rewrite <- zslice_split by lia. }
  destruct (decide (NUL ∈ stale)) as [Hs|Hs].
  - rewrite decide_True by (apply elem_of_app; by right). cbn [mbind outcome_bind]. rewrite cstr_app by done.
    unfold Buffer.retrieve. rewrite cassert_true by (apply Z.leb_le; lia). cbn [mbind outcome_bind]. by rewrite Z.ltb_irrefl.
  - by rewrite decide_False by (rewrite elem_of_app; tauto).
Qed.

(** The second message is answered with the end of the first. *)
Lemma echo_leaks : (b ← Buffer.init 16; session [lit "hello"; lit "hi"] b) = Ret [lit "hello"; lit "hillo"].
Proof. vm_compute. reflexivity. Qed.

(** A buffer filled to its last byte. *)
Definition full : Buffer.t := Buffer.mk (replicate 8 NUL ++ lit "full") 8 12.

Lemma echo_answers_witness : Buffer.wf full /\ NUL ∉ Buffer.content full /\ on_message full = Crash UndefinedBehaviour.
Proof.
  assert (Buffer.wf full) as Hw by (split; vm_compute; discriminate).
  assert (NUL ∉ Buffer.content full) as Hn by by_compute.
  split; [exact Hw|]. split; [exact Hn|]. rewrite (echo_answers full Hw Hn). reflexivity.
Defined.
End EchoServer.
