(* ===== verification/Webbench.v ===== *)
(** src/webbench: the load generator that comes with the server.  The request
    it builds in arrays of fixed size, what its clients count, how the results
    are gathered; and that the server understands the request. *)
From S2P Require Import Prelude Cxx Ordered Buffer HttpRequest HttpContext HttpResponse Tcp HttpServer.

Module Webbench.

(** ** C strings in arrays *)
Definition zeros (n : Z) : bytes := replicate (Z.to_nat n) NUL.

(** Reading past the end of an array, or writing there, is undefined. *)
Definition c_string (a : bytes) : outcome bytes := if decide (NUL ∈ a) then Ret (cstr a) else Crash UndefinedBehaviour.
Definition strcpy (a s : bytes) : outcome bytes := write_at 0 (s ++ [NUL]) a.
Definition strcat (a s : bytes) : outcome bytes := d ← c_string a; write_at (zlen d) (s ++ [NUL]) a.
Definition strncpy (a s : bytes) (n : Z) : outcome bytes := write_at 0 (ztake n s ++ zeros (n - zlen s)) a.
Definition strcat_if (b : bool) (a s : bytes) : outcome bytes := if b then strcat a s else Ret a.

Definition tolower (c : ascii) : ascii := if bool_decide (65 <= ord c <= 90) then chr (ord c + 32) else c.
(** [strncasecmp(p, s, strlen(p)) == 0], for [p] in lower case. *)
Definition starts_with (p s : bytes) : bool := is_prefix p (map tolower s).

(** ** The options *)
Definition METHOD_GET : Z := 0.
Definition METHOD_HEAD : Z := 1.
Definition METHOD_OPTIONS : Z := 2.
Definition METHOD_TRACE : Z := 3.
Definition PROGRAM_VERSION : bytes := lit "1.5".
Definition REQUEST_SIZE : Z := 2048.
(** Of sys/param.h. *)
Definition MAXHOSTNAMELEN : Z := 64.

Record options := mkOptions {
  http10 : Z;
  method : Z;
  clients : Z;
  force : bool;
  force_reload : bool;
  proxyport : Z;
  proxyhost : option bytes;
  benchtime : Z
}.
Definition defaults : options := mkOptions 1 METHOD_GET 1 false false 80 None 30.
Definition set_http10 (v : Z) (o : options) : options :=
  mkOptions v (method o) (clients o) (force o) (force_reload o) (proxyport o) (proxyhost o) (benchtime o).
Definition set_method (v : Z) (o : options) : options :=
  mkOptions (http10 o) v (clients o) (force o) (force_reload o) (proxyport o) (proxyhost o) (benchtime o).
Definition set_clients (v : Z) (o : options) : options :=
  mkOptions (http10 o) (method o) v (force o) (force_reload o) (proxyport o) (proxyhost o) (benchtime o).
Definition set_force (o : options) : options :=
  mkOptions (http10 o) (method o) (clients o) true (force_reload o) (proxyport o) (proxyhost o) (benchtime o).
Definition set_reload (o : options) : options :=
  mkOptions (http10 o) (method o) (clients o) (force o) true (proxyport o) (proxyhost o) (benchtime o).
Definition set_proxy (port : Z) (h : option bytes) (o : options) : options :=
  mkOptions (http10 o) (method o) (clients o) (force o) (force_reload o) port h (benchtime o).
Definition set_benchtime (v : Z) (o : options) : options :=
  mkOptions (http10 o) (method o) (clients o) (force o) (force_reload o) (proxyport o) (proxyhost o) v.

(** ** [build_request] *)

(** The version the method and the options need. *)
Definition need_version (o : options) : Z :=
  let v := http10 o in
  let v := if force_reload o && bool_decide (is_Some (proxyhost o)) && (v <? 1) then 1 else v in
  let v := if (method o =? METHOD_HEAD) && (v <? 1) then 1 else v in
  let v := if (method o =? METHOD_OPTIONS) && (v <? 2) then 2 else v in
  if (method o =? METHOD_TRACE) && (v <? 2) then 2 else v.

Definition method_word (m : Z) : bytes :=
  if m =? METHOD_HEAD then lit "HEAD" else if m =? METHOD_OPTIONS then lit "OPTIONS" else if m =? METHOD_TRACE then lit "TRACE" else lit "GET".

(** The host, and the port when the URL names one, from what follows [://]. *)
Definition host_port (host rest : bytes) (port : Z) : outcome (bytes * Z) :=
  let colon := find_pos ":"%char rest in
  let slash := find_pos "/"%char rest in
  if (colon <? zlen rest) && (colon <? slash)
  then
    host ← strncpy host rest colon;
    tmp ← strncpy (zeros 10) (zdrop (colon + 1) rest) (slash - colon - 1);
    s ← c_string tmp;
    let p := atoi s in
    Ret (host, if p =? 0 then 80 else p)
  else
    host ← strncpy host rest slash;
    Ret (host, port).

(** A status to [exit] with, or the options, the host and the request. *)
Definition build_request (o : options) (url : bytes) : outcome (Z + options * bytes * bytes) :=
  let o := set_http10 (need_version o) o in
  let host := zeros MAXHOSTNAMELEN in
  request ← strcpy (zeros REQUEST_SIZE) (method_word (method o));
  request ← strcat request (lit " ");
  let i := search_pos (lit "://") url in
  if i =? zlen url then Ret (inl 2)
  else if 1500 <? zlen url then Ret (inl 2)
  else if bool_decide (proxyhost o = None) && negb (starts_with (lit "http://") url) then Ret (inl 2)
  else
    let rest := zdrop (i + 3) url in
    let slash := find_pos "/"%char rest in
    if slash =? zlen rest then Ret (inl 2)
    else
      '(o, host, request) ←
        match proxyhost o with
        | None =>
            '(host, port) ← host_port host rest (proxyport o);
            request ← strcat request (zdrop slash rest);
            Ret (set_proxy port None o, host, request)
        | Some _ => request ← strcat request url; Ret (o, host, request)
        end;
      request ← strcat_if (http10 o =? 1) request (lit " HTTP/1.0");
      request ← strcat_if (http10 o =? 2) request (lit " HTTP/1.1");
      request ← strcat request CRLF;
      request ← strcat_if (0 <? http10 o) request (lit "User-Agent: WebBench " ++ PROGRAM_VERSION ++ CRLF);
      request ←
        (if bool_decide (proxyhost o = None) && (0 <? http10 o)
         then
           request ← strcat request (lit "Host: ");
           h ← c_string host;
           request ← strcat request h;
           strcat request CRLF
         else Ret request);
      request ← strcat_if (force_reload o && bool_decide (is_Some (proxyhost o))) request (lit "Pragma: no-cache" ++ CRLF);
      request ← strcat_if (1 <? http10 o) request (lit "Connection: close" ++ CRLF);
      request ← strcat_if (0 <? http10 o) request CRLF;
      Ret (inr (o, host, request)).

(** ** Strings in their arrays *)
Definition padded (n : Z) (s : bytes) : bytes := s ++ zeros (n - zlen s).

Lemma zlen_zeros n : zlen (zeros n) = Z.max 0 n.
Proof. unfold zeros, zlen. rewrite length_replicate. lia. Qed.

Lemma zeros_cons n : 0 < n -> zeros n = NUL :: zeros (n - 1).
Proof. intros Hn. unfold zeros. replace (Z.to_nat n) with (S (Z.to_nat (n - 1))) by lia. done. Qed.

Lemma zlen_padded n s : zlen s <= n -> zlen (padded n s) = n.
Proof. intros Hs. unfold padded. rewrite zlen_app, zlen_zeros. lia. Qed.

Lemma c_string_padded n s : NUL ∉ s -> zlen s < n -> c_string (padded n s) = Ret s.
Proof.
  intros Hn Hs. unfold c_string, padded. rewrite zeros_cons by lia. rewrite decide_True by set_solver.
  rewrite cstr_app by done. cbn. by rewrite app_nil_r.
Qed.

(** A full array has no terminator. *)
Lemma c_string_full n s : NUL ∉ s -> zlen s = n -> c_string (padded n s) = Crash UndefinedBehaviour.
Proof.
  intros Hn Hs. unfold c_string, padded. replace (n - zlen s) with 0 by lia. cbn. rewrite app_nil_r. by rewrite decide_False.
Qed.

Lemma write_padded n s d : zlen s + zlen d <= n -> write_at (zlen s) d (padded n s) = Ret (padded n (s ++ d)).
Proof.
  intros Hs. pose proof (zlen_nonneg s). pose proof (zlen_nonneg d). unfold padded.
  rewrite write_at_ok by (rewrite ?zlen_app, ?zlen_zeros; lia). rewrite ztake_app_exact by done. f_equal.
  rewrite <- zdrop_zdrop, zdrop_app_exact by (done || lia). rewrite <- app_assoc. do 2 f_equal.
  unfold zdrop, zeros. rewrite drop_replicate, zlen_app. f_equal. lia.
Qed.

Lemma padded_nul n s : zlen s < n -> padded n (s ++ [NUL]) = padded n s.
Proof.
  intros Hs. unfold padded. rewrite zlen_app, <- app_assoc. change (zlen [NUL]) with 1. rewrite (zeros_cons (n - zlen s)) by lia.
  do 3 f_equal. lia.
Qed.

Lemma strcat_padded n s d : NUL ∉ s -> zlen (s ++ d) < n -> strcat (padded n s) d = Ret (padded n (s ++ d)).
Proof.
  intros Hn Hs. rewrite zlen_app in Hs. pose proof (zlen_nonneg d). unfold strcat. rewrite c_string_padded by (done || lia).
  cbn [mbind outcome_bind]. rewrite write_padded by (rewrite zlen_app; change (zlen [NUL]) with 1; lia).
  rewrite app_assoc. f_equal. apply padded_nul. rewrite zlen_app. lia.
Qed.

Lemma padded_nil n : padded n [] = zeros n.
Proof. unfold padded. rewrite zlen_nil, Z.sub_0_r. done. Qed.

Lemma strcpy_zeros n s : zlen s < n -> strcpy (zeros n) s = Ret (padded n s).
Proof.
  intros Hs. rewrite <- padded_nil, <- (padded_nul n s) by done. apply (write_padded n [] (s ++ [NUL])).
  rewrite zlen_app, zlen_nil. change (zlen [NUL]) with 1. lia.
Qed.

(** The first [n] characters of a string go into an array if they fit. *)
Lemma strncpy_zeros n s d : 0 <= n -> strncpy (zeros n) (s ++ d) (zlen s) = if zlen s <=? n then Ret (padded n s) else Crash UndefinedBehaviour.
Proof.
  intros Hn. unfold strncpy. rewrite ztake_app_exact by done. pose proof (zlen_nonneg s). pose proof (zlen_nonneg d).
  assert (zeros (zlen s - zlen (s ++ d)) = []) as -> by (unfold zeros; rewrite zlen_app; by replace (Z.to_nat _) with 0%nat by lia).
  rewrite app_nil_r. destruct (Z.leb_spec (zlen s) n) as [Hs|Hs].
  - rewrite <- padded_nil. by apply (write_padded n [] s).
  - unfold write_at. rewrite bool_decide_false; [done|]. rewrite zlen_zeros. lia.
Qed.

(** ** URLs *)
Definition port_text (port : option bytes) : bytes := match port with Some d => ":"%char :: d | None => [] end.
Definition url_of (h : bytes) (port : option bytes) (target : bytes) : bytes := lit "http://" ++ h ++ port_text port ++ target.

Record located (h : bytes) (port : option bytes) (target : bytes) : Prop := {
  lc_host : "/"%char ∉ h /\ ":"%char ∉ h /\ NUL ∉ h;
  lc_port : "/"%char ∉ port_text port /\ NUL ∉ port_text port;
  lc_target : (exists t, target = "/"%char :: t) /\ NUL ∉ target;
  lc_short : zlen (url_of h port target) <= 1500
}.

(** What fits into the arrays for the host and the port, the host with its
    terminator when it is read again. *)
Definition fits (v : Z) (h : bytes) (port : option bytes) : bool :=
  (zlen h <=? if 0 <? v then 63 else 64) && match port with Some d => zlen d <=? 9 | None => true end.
Definition port_number (dflt : Z) (port : option bytes) : Z :=
  match port with Some d => if atoi d =? 0 then 80 else atoi d | None => dflt end.

Lemma host_port_run h port target dflt : located h port target ->
  host_port (zeros MAXHOSTNAMELEN) (h ++ port_text port ++ target) dflt
  = if (zlen h <=? 64) && match port with Some d => zlen d <=? 9 | None => true end
    then Ret (padded MAXHOSTNAMELEN h, port_number dflt port) else Crash UndefinedBehaviour.
Proof.
  intros [(Hs & Hc & Hn) (Hps & Hpn) [[t ->] Ht] _]. unfold host_port. pose proof (zlen_nonneg h).
  destruct port as [d|]; cbn [port_text app].
  - rewrite find_pos_app by done. assert (find_pos "/"%char (h ++ ":"%char :: d ++ "/"%char :: t) = zlen h + 1 + zlen d) as ->.
    { change (h ++ ":"%char :: d ++ "/"%char :: t) with (h ++ (":"%char :: d) ++ "/"%char :: t). rewrite app_assoc, find_pos_app; [rewrite zlen_app, zlen_cons; lia|].
      rewrite elem_of_app. naive_solver. }
    pose proof (zlen_nonneg d). pose proof (zlen_nonneg (d ++ "/"%char :: t)).
    rewrite !(proj2 (Z.ltb_lt _ _)) by (rewrite ?zlen_app, ?zlen_cons; lia). cbn [andb].
    rewrite strncpy_zeros by done. unfold MAXHOSTNAMELEN. destruct (zlen h <=? 64); [|done]. cbn [mbind outcome_bind andb].
    replace (zlen h + 1 + zlen d - zlen h - 1) with (zlen d) by lia.
    rewrite <- zdrop_zdrop, zdrop_app_exact by (done || lia). change (zdrop 1 (":"%char :: ?x)) with x.
    change (zdrop 1 (":"%char :: d ++ "/"%char :: t)) with (d ++ "/"%char :: t). rewrite strncpy_zeros by done.
    assert (NUL ∉ d) as Hd by (intros Hin; apply Hpn; by right).
    destruct (Z.leb_spec (zlen d) 10) as [H10|H10]; cbn [mbind outcome_bind].
    + destruct (Z.leb_spec (zlen d) 9) as [H9|H9]; [rewrite c_string_padded by (done || lia); done|]. by rewrite c_string_full by (done || lia).
    + by rewrite (proj2 (Z.leb_gt _ _)) by lia.
  - rewrite (find_pos_app "/"%char h t) by done.
    assert ((find_pos ":"%char (h ++ "/"%char :: t) <? zlen h) = false) as ->.
    { apply Z.ltb_ge. clear - Hc. induction h as [|x h IH]; [apply (find_pos_range _ ("/"%char :: t))|]. cbn [app find_pos]. rewrite zlen_cons.
      rewrite decide_False by set_solver. assert (":"%char ∉ h) as Hh by set_solver. specialize (IH Hh). lia. }
    rewrite andb_false_r, strncpy_zeros, andb_true_r by done. unfold MAXHOSTNAMELEN. by destruct (zlen h <=? 64).
Qed.

(** ** The request *)

(** The text, piece by piece. *)
Definition request_text (o : options) (h target : bytes) : bytes :=
  let v := need_version o in
  let opt (b : bool) (x : bytes) := if b then x else [] in
  let s := ((method_word (method o) ++ lit " ") ++ target) ++ opt (v =? 1) (lit " HTTP/1.0") in
  let s := (s ++ opt (v =? 2) (lit " HTTP/1.1")) ++ CRLF in
  let s := s ++ opt (0 <? v) (lit "User-Agent: WebBench " ++ PROGRAM_VERSION ++ CRLF) in
  let s := if 0 <? v then ((s ++ lit "Host: ") ++ h) ++ CRLF else s in
  let s := s ++ opt (1 <? v) (lit "Connection: close" ++ CRLF) in
  s ++ opt (0 <? v) CRLF.

(** A string that fits into the array of the request. *)
Definition held (s : bytes) : Prop := NUL ∉ s /\ zlen s < REQUEST_SIZE.

Lemma held_app s d : held (s ++ d) -> held s.
Proof. intros [Hn Hs]. rewrite zlen_app in Hs. pose proof (zlen_nonneg d). split; [set_solver|lia]. Qed.

Lemma strcat_held s d : held (s ++ d) -> strcat (padded REQUEST_SIZE s) d = Ret (padded REQUEST_SIZE (s ++ d)).
Proof. intros [Hn Hs]. apply strcat_padded; [set_solver|done]. Qed.

Lemma strcat_if_held (b : bool) s d : held (s ++ (if b then d else [])) ->
  strcat_if b (padded REQUEST_SIZE s) d = Ret (padded REQUEST_SIZE (s ++ (if b then d else []))).
Proof. destruct b; [apply strcat_held|]. intros _. cbn. by rewrite app_nil_r. Qed.

Lemma zlen_url h port target : zlen (url_of h port target) = 7 + zlen h + zlen (port_text port) + zlen target.
Proof. unfold url_of. rewrite !zlen_app. change (zlen (lit "http://")) with 7. lia. Qed.

(** A prefix of a text that fits. *)
Ltac held_prefix F := repeat first [exact F | apply held_app in F].

Ltac append F b :=
  cbn [mbind outcome_bind http10 set_proxy set_http10 proxyhost force_reload];
  first [rewrite strcat_held by (destruct b; held_prefix F) | rewrite strcat_if_held by (destruct b; held_prefix F)];
  cbn [mbind outcome_bind http10 set_proxy set_http10 proxyhost force_reload].

Ltac literal_lengths := repeat match goal with
  |- context [zlen (lit ?x)] => let n := eval vm_compute in (zlen (lit x)) in change (zlen (lit x)) with n end.

Lemma request_held o h port target : located h port target -> held (request_text o h target).
Proof.
  intros [(_ & _ & Hh) _ [_ Ht] Hs]. rewrite zlen_url in Hs. pose proof (zlen_nonneg (port_text port)).
  assert (NUL ∉ method_word (method o) /\ zlen (method_word (method o)) <= 7) as [Hm Hmz].
  { unfold method_word. repeat case_match; split; by_compute. }
  unfold request_text, held, REQUEST_SIZE, PROGRAM_VERSION. pose proof (zlen_nonneg h).
  destruct (need_version o =? 1), (need_version o =? 2), (0 <? need_version o), (1 <? need_version o);
    (split; [rewrite !not_elem_of_app; repeat split; try done; by_compute|]);
    rewrite !zlen_app, ?zlen_nil; literal_lengths; change (zlen CRLF) with 2; lia.
Qed.

(** The scheme ends where it should. *)
Lemma url_scheme h port target : search_pos (lit "://") (url_of h port target) = 4
  /\ zdrop (4 + 3) (url_of h port target) = h ++ port_text port ++ target
  /\ starts_with (lit "http://") (url_of h port target) = true.
Proof. done. Qed.

Lemma target_at h port target : located h port target ->
  find_pos "/"%char (h ++ port_text port ++ target) = zlen (h ++ port_text port).
Proof.
  intros [(Hs & _) (Hps & _) [[t ->] _] _]. rewrite app_assoc. apply find_pos_app. rewrite elem_of_app. naive_solver.
Qed.

Lemma build_request_run o h port target : proxyhost o = None -> located h port target ->
  build_request o (url_of h port target)
  = if fits (need_version o) h port
    then Ret (inr (set_proxy (port_number (proxyport o) port) None (set_http10 (need_version o) o),
                   padded MAXHOSTNAMELEN h, padded REQUEST_SIZE (request_text o h target)))
    else Crash UndefinedBehaviour.
Proof.
  intros Hno Hl.
  pose proof (request_held o h port target Hl) as F. destruct (url_scheme h port target) as (Hi & Hrest & Hsch).
  pose proof (target_at h port target Hl) as Hslash. pose proof (zlen_url h port target) as Hlen.
  pose proof (zlen_nonneg h). pose proof (zlen_nonneg (port_text port)). destruct Hl as [Hh Hp [[t Ht] Hnt] Hsh] eqn:El. clear El.
  assert (1 <= zlen target) as Htl by (rewrite Ht, zlen_cons; pose proof (zlen_nonneg t); lia).
  unfold build_request. cbn [method proxyhost proxyport http10 set_http10 force_reload].
  rewrite Hno, Hi, Hrest, Hsch, Hslash. unfold fits. unfold request_text in *. set (v := need_version o) in *. cbv zeta in F |- *.
  rewrite (proj2 (Z.eqb_neq 4 _)), (proj2 (Z.ltb_ge _ _)), (proj2 (Z.eqb_neq _ _)) by (rewrite ?zlen_app; lia).
  assert (zlen (method_word (method o)) < REQUEST_SIZE) as Hm by (unfold method_word; repeat case_match; by_compute).
  rewrite strcpy_zeros by done. cbn [mbind outcome_bind]. append F (0 <? v). rewrite host_port_run by done.
  destruct (match port with Some d => zlen d <=? 9 | None => true end); [rewrite !andb_true_r|by rewrite !andb_false_r].
  destruct (Z.leb_spec (zlen h) 64) as [H64|H64]; [|destruct (0 <? v); by rewrite (proj2 (Z.leb_gt _ _)) by lia].
  cbn [mbind outcome_bind]. rewrite (app_assoc h), zdrop_app_exact by done. do 5 append F (0 <? v).
  rewrite bool_decide_true, (bool_decide_false (is_Some None)), andb_false_r, andb_true_l by (done || by intros [? ?]).
  destruct (0 <? v) eqn:Hv.
  - append F true. destruct (Z.leb_spec (zlen h) 63) as [H63|H63].
    + rewrite c_string_padded by (unfold MAXHOSTNAMELEN; naive_solver lia). cbn [mbind outcome_bind]. do 2 append F true.
      rewrite andb_false_r. change (strcat_if false ?r ?d) with (Ret r). append F true. change (strcat_if true ?r ?d) with (strcat r d). by append F true.
    + by rewrite c_string_full by (unfold MAXHOSTNAMELEN; naive_solver lia).
  - rewrite (proj2 (Z.leb_le _ _)) by done. cbn [mbind outcome_bind]. rewrite andb_false_r. change (strcat_if false ?r ?d) with (Ret r).
    append F false. change (strcat_if false ?r ?d) with (Ret r). cbn [mbind outcome_bind]. by rewrite !app_nil_r.
Qed.


(** ** What the server makes of it *)
Import HttpServer.

(** The request as the server reads it. *)
Definition asked (o : options) (h path query : bytes) : request :=
  mkRequest (if method o =? METHOD_HEAD then HttpRequest.kHead else HttpRequest.kGet) path query
    (if need_version o =? 1 then HttpRequest.kHttp10 else HttpRequest.kHttp11)
    ([(lit "User-Agent", lit "WebBench 1.5"); (lit "Host", h)] ++ if need_version o =? 1 then [] else [(lit "Connection", lit "close")]).

(** Methods the server knows, and a version that has fields. *)
Definition served (o : options) : bool :=
  negb (method o =? METHOD_OPTIONS) && negb (method o =? METHOD_TRACE) && (1 <=? need_version o).

Lemma need_version_range o : 0 <= http10 o <= 2 -> 0 <= need_version o <= 2.
Proof. intros Hv. unfold need_version. repeat case_match; lia. Qed.

Lemma asked_text o h path query : 0 <= http10 o <= 2 -> served o = true -> request_text o h (path ++ query) = text (asked o h path query).
Proof.
  intros Hv%need_version_range Hs. unfold served in Hs. apply andb_true_iff in Hs as [[Hm1 Hm2]%andb_true_iff H1%Z.leb_le].
  apply negb_true_iff in Hm1, Hm2. unfold request_text, asked, method_word, text. rewrite Hm1, Hm2.
  assert (need_version o = 1 \/ need_version o = 2) as [-> | ->] by lia; destruct (method o =? METHOD_HEAD);
    cbn [Z.eqb Pos.eqb Z.ltb Z.compare Pos.compare Pos.compare_cont q_method q_path q_query q_version q_headers];
    unfold HttpContext.render, HttpContext.request_line, HttpContext.render_header, PROGRAM_VERSION;
    rewrite <- !app_assoc; cbn [map concat app fst snd]; rewrite <- !app_assoc; cbn [app]; rewrite <- ?app_assoc; reflexivity.
Qed.

Lemma asked_closes o h path query : wants_close (understood (asked o h path query)) = true.
Proof. unfold asked. destruct (need_version o =? 1); by vm_compute. Qed.

(** The first line of the request. *)
Definition first_line (o : options) (target : bytes) : bytes :=
  ((method_word (method o) ++ lit " ") ++ target) ++ (if need_version o =? 1 then lit " HTTP/1.0" else [])
  ++ (if need_version o =? 2 then lit " HTTP/1.1" else []).

Lemma request_first_line o h target : exists more, request_text o h target = first_line o target ++ CRLF ++ more.
Proof. unfold request_text, first_line. destruct (0 <? need_version o); eexists; rewrite <- !app_assoc; reflexivity. Qed.

Lemma first_line_no_CR o target : CR ∉ target -> CR ∉ first_line o target.
Proof.
  intros Ht. unfold first_line. rewrite !not_elem_of_app.
  assert (CR ∉ method_word (method o)) by (unfold method_word; repeat case_match; by_compute).
  repeat case_match; repeat split; try done; by_compute.
Qed.

Lemma setMethod_init m : HttpRequest.setMethod HttpRequest.init m
  = Ret (negb (bool_decide (HttpRequest.method_of m = HttpRequest.kInvalid)), HttpRequest.mk (HttpRequest.method_of m) HttpRequest.kUnknown [] [] 0 []).
Proof. reflexivity. Qed.

Lemma unserved_line o target : served o = false -> 0 <= http10 o <= 2 -> " "%char ∉ target ->
  exists r, HttpContext.processRequestLine HttpRequest.init (first_line o target) = Ret (false, r).
Proof.
  intros Hs Hv%need_version_range Ht. unfold HttpContext.processRequestLine, first_line.
  set (rest := (if need_version o =? 1 then _ else _) ++ _). rewrite <- !app_assoc. change (lit " ") with [" "%char]. cbn [app].
  assert (" "%char ∉ method_word (method o)) as Hm by (unfold method_word; repeat case_match; by_compute).
  rewrite find_pos_app by done. rewrite (proj2 (Z.eqb_neq _ _)) by (rewrite zlen_app, zlen_cons; pose proof (zlen_nonneg (target ++ rest)); lia).
  rewrite ztake_app_exact by done. destruct (decide (HttpRequest.method_of (method_word (method o)) = HttpRequest.kInvalid)) as [E|E].
  - rewrite setMethod_init, (bool_decide_true _ E). by eexists.
  - assert (need_version o = 0) as Hz.
    { unfold method_word in E. unfold served in Hs. unfold METHOD_HEAD, METHOD_OPTIONS, METHOD_TRACE in *. 
      destruct (method o =? 1) eqn:E0, (method o =? 2) eqn:E1, (method o =? 3) eqn:E2; try done; try lia; cbn [negb andb] in Hs; lia. }
    rewrite setMethod_init, (bool_decide_false _ E). cbn [negb mbind outcome_bind]. rewrite cons_middle, app_assoc, (zdrop_app_exact _ _ (zlen (method_word (method o)) + 1)) by (by rewrite zlen_app).
    assert (rest = []) as -> by (unfold rest; by rewrite Hz). rewrite app_nil_r, find_pos_none by done. rewrite Z.eqb_refl. by eexists.
Qed.

Lemma unserved_parse o target more : served o = false -> 0 <= http10 o <= 2 -> " "%char ∉ target -> CR ∉ target ->
  exists r, HttpContext.parse HttpContext.init (first_line o target ++ CRLF ++ more) receiveTime
    = Ret (false, HttpContext.mk HttpContext.kExpectRequestLine r, first_line o target ++ CRLF ++ more).
Proof.
  intros Hs Hv Hsp Hcr. destruct (unserved_line o target Hs Hv Hsp) as [r E]. exists r. unfold HttpContext.parse.
  cbn [HttpContext.loop]. unfold HttpContext.step. cbn [HttpContext.init HttpContext.state_ HttpContext.request_].
  rewrite HttpContext.split_line_line by (by apply first_line_no_CR). by rewrite E.
Qed.

Lemma asked_well_formed o h path query : CR ∉ h -> HttpRequest.trimmed h ->
  " "%char ∉ path /\ "?"%char ∉ path /\ CR ∉ path ->
  " "%char ∉ query /\ CR ∉ query /\ match query with [] => True | c :: _ => c = "?"%char end ->
  well_formed (asked o h path query).
Proof.
  intros Hh Ht Hp Hq. unfold asked. split; cbn [q_method q_path q_query q_version q_headers]; 
    [by destruct (method o =? METHOD_HEAD)|by destruct (need_version o =? 1)|done|done|].
  constructor; [repeat split; by_compute|]. constructor; [cbn [fst snd]; refine (conj _ (conj _ (conj Hh Ht))); by_compute|].
  destruct (need_version o =? 1); [constructor|]. constructor; [repeat split; by_compute|constructor].
Qed.

Lemma fits_enough v h port : fits 1 h port = true -> fits v h port = true /\ zlen h < MAXHOSTNAMELEN.
Proof.
  unfold fits, MAXHOSTNAMELEN. intros [Hh%Z.leb_le ->]%andb_true_iff. cbn in Hh. rewrite andb_true_r. split; [|lia].
  apply Z.leb_le. destruct (0 <? v); lia.
Qed.

(** C35. The load generator and the server together: the bytes webbench writes
    for a URL (http:// in lower case, no proxy) are one whole request to the
    server, with nothing left over; it answers that request and shuts the
    connection down, so that the client's reading of the answer ends too - if
    its callback leaves the response closing that was made so; only the methods
    the server does not know and HTTP/0.9 are refused with a 400. *)
Theorem webbench_served httpCallback_ o h port path query b
    (Hno : proxyhost o = None) (Hv : 0 <= http10 o <= 2) (Hl : located h port (path ++ query))
    (Hfit : fits 1 h port = true) (Hh : CR ∉ h /\ HttpRequest.trimmed h)
    (Hpath : " "%char ∉ path /\ "?"%char ∉ path /\ CR ∉ path)
    (Hquery : " "%char ∉ query /\ CR ∉ query /\ match query with [] => True | c :: _ => c = "?"%char end)
    (Hclose : forall req resp, HttpResponse.closeConnection_ resp = true -> HttpResponse.closeConnection_ (httpCallback_ req resp) = true)
    (Hsmall : small httpCallback_ (asked o h path query)) (Hb : Buffer.wf b) :
  exists o' host request, build_request o (url_of h port (path ++ query)) = Ret (inr (o', host, request)) /\ c_string host = Ret h
    /\ exists sent, c_string request = Ret sent /\ (served o = true -> sent = text (asked o h path query))
    /\ (Buffer.content b = sent -> exists c b',
      onMessage httpCallback_ (Some HttpContext.init) b = Ret (Some c, b',
        [TcpConnection.USend (if served o then HttpResponse.render (response httpCallback_ (asked o h path query)) else bad_request);
         TcpConnection.UShutdown])
      /\ Buffer.content b' = if served o then [] else sent).
Proof.
  destruct Hh as [Hh Htr]. pose proof (fits_enough (need_version o) h port Hfit) as [Hv63 H63].
  rewrite (build_request_run o h port (path ++ query)) by done. rewrite Hv63. do 3 eexists. split; [reflexivity|].
  pose proof (request_held o h port (path ++ query) Hl) as [Hnul Hlen].
  split; [apply c_string_padded; [apply Hl|done]|]. exists (request_text o h (path ++ query)). split; [by apply c_string_padded|].
  split; [by apply asked_text|]. intros Hc. destruct (served o) eqn:Hs.
  - rewrite (asked_text o h path query Hv Hs) in Hc. rewrite <- (app_nil_r (text _)) in Hc.
    destruct (onMessage_answers httpCallback_ (asked o h path query) [] b) as (b' & E & _ & Hc'); try done; [by apply asked_well_formed|].
    exists HttpContext.init, b'. split; [|done]. rewrite E. unfold answer.
    assert (HttpResponse.closeConnection_ (response httpCallback_ (asked o h path query)) = true) as ->; [|done].
    apply Hclose. cbn. apply asked_closes.
  - destruct (request_first_line o h (path ++ query)) as [more Hm]. rewrite Hm in *.
    destruct (unserved_parse o (path ++ query) more Hs Hv) as (r & Hp); [set_solver|set_solver|]. rewrite <- Hc in Hp.
    destruct (onMessage_refuses httpCallback_ _ b _ _ Hb Hp eq_refl) as (b' & E & _ & Hc' & _). eexists _, b'. split; [exact E|]. by rewrite Hc'.
Qed.


Lemma webbench_served_witness :
  let sent := request_text defaults (lit "localhost") (lit "/a") in
  exists o host request, build_request defaults (lit "http://localhost/a") = Ret (inr (o, host, request)) /\ c_string request = Ret sent
    /\ exists c b', onMessage echo_path (Some HttpContext.init) (Buffer.mk (replicate 8 NUL ++ sent) 8 (8 + zlen sent))
         = Ret (Some c, b', [TcpConnection.USend (HttpResponse.render (response echo_path (asked defaults (lit "localhost") (lit "/a") []))); TcpConnection.UShutdown])
       /\ Buffer.content b' = [].
Proof.
  intros sent.
  destruct (webbench_served echo_path defaults (lit "localhost") None (lit "/a") [] (Buffer.mk (replicate 8 NUL ++ sent) 8 (8 + zlen sent)))
    as (o' & host & request & E & _ & sent' & Es & Hb); [done|done| |done|split; by_compute|by_compute|repeat split; by_compute|by intros req resp|by vm_compute|split; vm_compute; congruence|].
  - split; [by_compute|by_compute|split; [by eexists|by_compute]|done].
  - exists o', host, request. split; [exact E|]. assert (sent' = sent) as ->.
    { vm_compute in E. injection E as <- <- <-. vm_compute in Es. injection Es as <-. reflexivity. }
    split; [exact Es|]. destruct Hb as [_ Hb]. destruct Hb as (c & b' & Eb & Hc); [by vm_compute|].
    change (served defaults) with true in Eb, Hc. cbv iota in Eb, Hc. exists c, b'. exact (conj Eb Hc).
Defined.

(** ** [benchcore]: requests until the alarm *)
Inductive syscall := CResolve | CSocket | CConnect | CWrite | CShutdown | CRead | CClose.
#[export] Instance syscall_eq_dec : EqDecision syscall.
Proof. solve_decision. Defined.

(** The counters of a client, and the calls it has made with their answers, the
    last one first. *)
Record progress := mkProgress { speed : Z; failed : Z; received : Z; trace : list (syscall * Z) }.
Definition idle : progress := mkProgress 0 0 0 [].

(** Adding past the range of [int] is undefined. *)
Definition int_add (a b : Z) : outcome Z := if bool_decide (- 2 ^ 31 <= a + b < 2 ^ 31) then Ret (a + b) else Crash UndefinedBehaviour.

Section core.
(** What the [k]-th system call answers, whether the alarm has gone off by then,
    whether [inet_addr] reads the host as an address, the length of the request,
    and the options that matter. *)
Context (answer : nat -> syscall -> Z) (alarm : nat -> bool) (numeric : bool) (rlen : Z) (http09 force : bool).
Abbreviation M := (ST progress).
Implicit Types s : progress.

Definition call (c : syscall) : M Z := fun s =>
  let a := answer (length (trace s)) c in Ret (a, mkProgress (speed s) (failed s) (received s) ((c, a) :: trace s)).
Definition timerexpired : M bool := gets (fun s => alarm (length (trace s))).
Definition fail : M unit := fun s => n ← int_add (failed s) 1; Ret (tt, mkProgress (speed s) n (received s) (trace s)).
Definition succeed : M unit := fun s => n ← int_add (speed s) 1; Ret (tt, mkProgress n (failed s) (received s) (trace s)).
Definition add_bytes (i : Z) : M unit := fun s => n ← int_add (received s) i; Ret (tt, mkProgress (speed s) (failed s) n (trace s)).

(** The answer is read to its end or until the alarm; [false] when a read
    fails. *)
Fixpoint read_all (fuel : nat) : M bool :=
  match fuel with
  | O => crash FuelExhausted
  | S fuel' =>
      t ← timerexpired;
      if (t : bool) then mret true
      else
        i ← call CRead;
        if i <? 0 then _ ← fail; _ ← call CClose; mret false
        else if i =? 0 then mret true
        else _ ← add_bytes i; read_all fuel'
  end.

(** [gethostbyname], here [CResolve], answers 0 for no host. The socket of a
    connection that is refused is not closed. *)
Definition Socket : M Z :=
  found ← (if numeric then mret true else hp ← call CResolve; mret (negb (hp =? 0)));
  if negb found then mret (-1)
  else
    sock ← call CSocket;
    if sock <? 0 then mret sock
    else
      c ← call CConnect;
      if c <? 0 then mret (-1) else mret sock.

(** One request. *)
Definition attempt (fuel : nat) : M unit :=
  s ← Socket;
  if s <? 0 then fail
  else
    n ← call CWrite;
    if negb (n =? rlen) then _ ← fail; _ ← call CClose; mret tt
    else
      r ← (if http09 then call CShutdown else mret 0);
      if negb (r =? 0) then _ ← fail; _ ← call CClose; mret tt
      else
        ok ← (if force then mret true else read_all fuel);
        if negb ok then mret tt
        else
          c ← call CClose;
          if negb (c =? 0) then fail else succeed.

(** [while(1)]; at the end the request the alarm interrupted is not counted. *)
Fixpoint benchcore (fuel : nat) : M unit :=
  match fuel with
  | O => crash FuelExhausted
  | S fuel' =>
      t ← timerexpired;
      if (t : bool)
      then
        n ← gets failed;
        if 0 <? n then modify (fun s => mkProgress (speed s) (failed s - 1) (received s) (trace s)) else mret tt
      else _ ← attempt fuel'; benchcore fuel'
  end.
End core.

(** ** [bench]: the clients' lines are gathered *)

(** What a client writes into the pipe. *)
Definition line (r : Z * Z * Z) : bytes := let '(s, f, b) := r in dec s ++ lit " " ++ dec f ++ lit " " ++ dec b ++ [LF].

(** One [%d] of [fscanf], and the rest. A number that is no [int] is
    undefined. *)
Definition scan_int (l : bytes) : outcome (option (Z * bytes)) :=
  let l := skip_space l in
  let signed := match l with c :: _ => bool_decide (c = "-"%char) || bool_decide (c = "+"%char) | [] => false end in
  let rest := if signed then zdrop 1 l else l in
  let digits := digit_prefix rest in
  if decide (digits = []) then Ret None
  else if bool_decide (in_s 32 (atoi l)) then Ret (Some (atoi l, zdrop (zlen digits) rest))
  else Crash UndefinedBehaviour.

(** [fscanf(f, "%d %d %d", &i, &j, &k)]: how many were read; the others keep
    their values. *)
Definition fscanf (l : bytes) (i j k : option Z) : outcome (Z * (option Z * option Z * option Z) * bytes) :=
  x ← scan_int l;
  match x with
  | None => Ret (if decide (skip_space l = []) then -1 else 0, (i, j, k), l)
  | Some (i', l1) =>
      y ← scan_int l1;
      match y with
      | None => Ret (1, (Some i', j, k), l1)
      | Some (j', l2) =>
          z ← scan_int l2;
          match z with
          | None => Ret (2, (Some i', Some j', k), l2)
          | Some (k', l3) => Ret (3, (Some i', Some j', Some k'), l3)
          end
      end
  end.

(** The loop of the parent: what it returns, and the sums.  [i], [j] and [k]
    are used as [fscanf] left them. *)
Fixpoint gather (fuel : nat) (clients : Z) (l : bytes) (i j k : option Z) (speed failed bytes : Z) : outcome (option Z * (Z * Z * Z)) :=
  match fuel with
  | O => Crash FuelExhausted
  | S fuel' =>
      '(n, (i, j, k), l) ← fscanf l i j k;
      if n <? 2 then Ret (i, (speed, failed, bytes))
      else
        di ← deref i; dj ← deref j; dk ← deref k;
        speed ← int_add speed di;
        failed ← int_add failed dj;
        bytes ← int_add bytes dk;
        let clients := clients - 1 in
        if clients =? 0 then Ret (i, (speed, failed, bytes)) else gather fuel' clients l i j k speed failed bytes
  end.

(** The forks of the parent, until one gives no process: the index and the last
    answer. *)
Fixpoint forks (fork : nat -> Z) (n i : nat) (pid : Z) : nat * Z :=
  match n with
  | O => (i, pid)
  | S n' => let pid := fork i in if pid <=? 0 then (i, pid) else forks fork n' (S i) pid
  end.

(** [bench] in the process that started it: the status, and the sums when it
    prints them; [None] where the process goes on as a client. *)
Definition bench (clients sock pipe : Z) (fork : nat -> Z) (opened : bool) (content : bytes) : outcome (option (Z * option (Z * Z * Z))) :=
  if sock <? 0 then Ret (Some (1, None))
  else if negb (pipe =? 0) then Ret (Some (3, None))
  else
    let '(i, pid) := forks fork (Z.to_nat clients) 0 0 in
    if pid <? 0 then Ret (Some (3, None))
    else if pid =? 0 then Ret None
    else if negb opened then Ret (Some (3, None))
    else
      '(i, sums) ← gather (S (length content)) clients content (Some (Z.of_nat i)) None None 0 0 0;
      status ← deref i;
      Ret (Some (status, Some sums)).

(** ** [main]: the options *)

(** What [getopt_long] finds: an option of one letter, perhaps with an
    argument, or one that only sets a flag. *)
Inductive parsed :=
| Letter (c : ascii) (optarg : bytes)
| LongForce | LongReload | LongGet | LongHead | LongOptions | LongTrace.

(** The position of the last [c], -1 where [strrchr] gives none. *)
Definition rfind_pos (c : ascii) (s : bytes) : Z := zlen s - 1 - find_pos c (rev s).
Definition atoi_int (s : bytes) : outcome Z := if bool_decide (in_s 32 (atoi s)) then Ret (atoi s) else Crash UndefinedBehaviour.

(** [case 'p']. *)
Definition proxy_option (optarg : bytes) (o : options) : outcome (Z + options) :=
  let tmp := rfind_pos ":"%char optarg in
  if tmp =? -1 then Ret (inr (set_proxy (proxyport o) (Some optarg) o))
  else if tmp =? 0 then Ret (inl 2)
  else if tmp =? zlen optarg - 1 then Ret (inl 2)
  else port ← atoi_int (zdrop (tmp + 1) optarg); Ret (inr (set_proxy port (Some (ztake tmp optarg)) o)).

(** One round of the loop: a status to end with, or the options. *)
Definition option_step (p : parsed) (o : options) : outcome (Z + options) :=
  match p with
  | LongForce => Ret (inr (set_force o))
  | LongReload => Ret (inr (set_reload o))
  | LongGet => Ret (inr (set_method METHOD_GET o))
  | LongHead => Ret (inr (set_method METHOD_HEAD o))
  | LongOptions => Ret (inr (set_method METHOD_OPTIONS o))
  | LongTrace => Ret (inr (set_method METHOD_TRACE o))
  | Letter c optarg =>
      if decide (c = "f"%char) then Ret (inr (set_force o))
      else if decide (c = "r"%char) then Ret (inr (set_reload o))
      else if decide (c = "9"%char) then Ret (inr (set_http10 0 o))
      else if decide (c = "1"%char) then Ret (inr (set_http10 1 o))
      else if decide (c = "2"%char) then Ret (inr (set_http10 2 o))
      else if decide (c = "V"%char) then Ret (inl 0)
      else if decide (c = "t"%char) then t ← atoi_int optarg; Ret (inr (set_benchtime t o))
      else if decide (c = "p"%char) then proxy_option optarg o
      else if decide (c = ":"%char \/ c = "h"%char \/ c = "?"%char) then Ret (inl 2)
      else if decide (c = "c"%char) then n ← atoi_int optarg; Ret (inr (set_clients n o))
      else Ret (inr o)
  end.

Fixpoint option_loop (ps : list parsed) (o : options) : outcome (Z + options) :=
  match ps with
  | [] => Ret (inr o)
  | p :: ps => r ← option_step p o; match r with inl status => Ret (inl status) | inr o => option_loop ps o end
  end.

(** Up to [bench]: the options, the host and the request it works with. *)
Definition main (argc : Z) (ps : list parsed) (url : option bytes) : outcome (Z + options * bytes * bytes) :=
  if argc =? 1 then Ret (inl 2)
  else
    r ← option_loop ps defaults;
    match r, url with
    | inl status, _ => Ret (inl status)
    | inr _, None => Ret (inl 2)
    | inr o, Some url =>
        let o := if clients o =? 0 then set_clients 1 o else o in
        let o := if benchtime o =? 0 then set_benchtime 60 o else o in
        build_request o url
    end.

(** ** What a client counts *)
Definition tally (f : syscall * Z -> Z) (tr : list (syscall * Z)) : Z := foldr (fun x n => f x + n) 0 tr.
Arguments tally : simpl never.
Definition one (b : bool) : Z := if b then 1 else 0.
(** Requests tried, sockets opened, connections refused, sockets closed, bytes
    read. *)
Definition tried (x : syscall * Z) : bool := bool_decide (x.1 = CSocket) || bool_decide (x.1 = CResolve) && (x.2 =? 0).
Definition opening (x : syscall * Z) : bool := bool_decide (x.1 = CSocket) && (0 <=? x.2).
Definition refusal (x : syscall * Z) : bool := bool_decide (x.1 = CConnect) && (x.2 <? 0).
Definition closing (x : syscall * Z) : bool := bool_decide (x.1 = CClose).
Definition tries : list (syscall * Z) -> Z := tally (fun x => one (tried x)).
Definition opened : list (syscall * Z) -> Z := tally (fun x => one (opening x)).
Definition refused : list (syscall * Z) -> Z := tally (fun x => one (refusal x)).
Definition closed : list (syscall * Z) -> Z := tally (fun x => one (closing x)).
Definition bytes_read : list (syscall * Z) -> Z := tally (fun x => if bool_decide (x.1 = CRead) then Z.max 0 x.2 else 0).
(** The buffer [read] is given. *)
Definition BUF_SIZE : Z := 1500.

Section counts.
Context (answer : nat -> syscall -> Z) (alarm : nat -> bool) (numeric : bool) (rlen : Z) (http09 force : bool).
(** The alarm has gone off at the [N]-th call; no [read] gives more than its
    buffer holds, and all of them less than 2 GiB. *)
Context (N : nat).
Hypothesis alarm_rings : forall k, (N <= k)%nat -> alarm k = true.
Hypothesis reads_small : forall k, answer k CRead <= BUF_SIZE.
Hypothesis room : BUF_SIZE * Z.of_nat N < 2 ^ 31.
Implicit Types s : progress.

Lemma tries_length tr : 0 <= tries tr <= zlen tr.
Proof. unfold tries, tally, one. induction tr as [|x tr IH]; [done|]. rewrite zlen_cons. cbn [foldr]. destruct (tried x); lia. Qed.

Lemma bytes_read_bound tr : Forall (fun x => x.1 = CRead -> x.2 <= BUF_SIZE) tr -> 0 <= bytes_read tr <= BUF_SIZE * zlen tr.
Proof.
  unfold bytes_read, tally, BUF_SIZE. induction 1 as [|x tr Hx _ IH]; [unfold zlen; cbn; lia|]. rewrite zlen_cons. cbn [foldr].
  case_bool_decide as H; [specialize (Hx H)|]; lia.
Qed.

Lemma tally_cons f x tr : tally f (x :: tr) = f x + tally f tr.
Proof. done. Qed.

(** [d] requests are under way, with [e] sockets in use. *)
Record under_way (d e : Z) s : Prop := {
  uw_count : speed s + failed s + d = tries (trace s);
  uw_open : opened (trace s) = closed (trace s) + refused (trace s) + e;
  uw_bytes : received s = bytes_read (trace s);
  uw_answers : Forall (fun x => x.1 = CRead -> x.2 <= BUF_SIZE) (trace s);
  uw_positive : 0 <= speed s /\ 0 <= failed s
}.

Abbreviation call := (call answer).
Definition said (c : syscall) s : Z := answer (length (trace s)) c.
Definition after (c : syscall) s : progress :=
  mkProgress (speed s) (failed s) (received s) ((c, said c s) :: trace s).
Lemma call_run c s : call c s = Ret (said c s, after c s).
Proof. done. Qed.

Lemma after_way c d e s : under_way d e s -> (c = CRead -> said c s <= 0) ->
  let x := (c, said c s) in
  under_way (d + one (tried x)) (e + one (opening x) - one (refusal x) - one (closing x)) (after c s).
Proof.
  intros [H1 H2 H3 H4 H5] Hr x. unfold after, tries, opened, refused, closed, bytes_read in *.
  split; unfold tries, opened, refused, closed, bytes_read; cbn [speed failed received trace]; rewrite ?tally_cons; fold x; [lia|lia| |constructor; [|done]|done].
  - cbn [fst snd x]. case_bool_decide as Hc; [specialize (Hr Hc)|]; lia.
  - cbn [fst snd x]. intros ->. apply reads_small.
Qed.

(** The same with the changes [d'] and [e'] worked out. *)
Lemma after_step c d e d' e' s : under_way d e s -> (c = CRead -> said c s <= 0) ->
  d' = d + one (tried (c, said c s)) -> e' = e + one (opening (c, said c s)) - one (refusal (c, said c s)) - one (closing (c, said c s)) ->
  under_way d' e' (after c s).
Proof. intros H Hr -> ->. by apply after_way. Qed.

(** What a call counts for. *)
Ltac count_call :=
  unfold tried, opening, refusal, closing, one; cbn [fst snd]; repeat (case_bool_decide; try done); cbn; try lia; repeat case_match; lia.

Lemma after_close d e s : under_way d (e + 1) s -> under_way d e (after CClose s).
Proof. intros H. apply (after_step CClose d (e + 1)); [done|done| |]; count_call. Qed.

Lemma after_other c d e s : under_way d e s -> (c = CRead /\ said c s <= 0) \/ c = CWrite \/ c = CShutdown -> under_way d e (after c s).
Proof. intros H Hc. apply (after_step c d e); [done|naive_solver| |]; destruct Hc as [[-> _]|[-> | ->]]; count_call. Qed.

(** A socket that is connected, or a failure that leaves none in use. *)
Lemma Socket_run s : under_way 0 0 s ->
  exists r s1, Socket answer numeric s = Ret (r, s1) /\ under_way 1 (one (0 <=? r)) s1
    /\ (length (trace s) < length (trace s1) <= length (trace s) + 3)%nat.
Proof.
  intros H. unfold Socket.
  assert (exists found s0, (if numeric then mret true else hp ← call CResolve; mret (negb (hp =? 0))) s = Ret (found, s0)
    /\ under_way (one (negb found)) 0 s0 /\ (length (trace s) <= length (trace s0) <= S (length (trace s)))%nat
    /\ (found = false -> length (trace s0) = S (length (trace s)))) as (found & s0 & E0 & H0 & Hl0 & Hf).
  { destruct numeric; [exists true, s; split; [done|]; split; [done|]; split; [lia|done]|].
    exists (negb (said CResolve s =? 0)), (after CResolve s). split; [done|]. split; [|split; [cbn; lia|done]].
    apply (after_step CResolve 0 0); [done|done|rewrite negb_involutive|]; count_call. }
  rewrite (ST_bind_eq _ _ _ _ _ E0). destruct found; cbn [negb one] in *.
  2: { exists (-1), s0. split; [done|]. split; [done|lia]. }
  rewrite (ST_bind_eq _ _ _ _ _ (call_run CSocket s0)). set (sock := said CSocket s0). set (s1 := after CSocket s0).
  assert (under_way 1 (one (0 <=? sock)) s1) as H1.
  { apply (after_step CSocket 0 0); [done|done| |fold sock]; count_call. }
  assert (length (trace s1) = S (length (trace s0))) as Hl1 by done.
  destruct (Z.ltb_spec sock 0) as [Hn|Hn]; [exists sock, s1; split; [done|]; split; [done|lia]|].
  rewrite (proj2 (Z.leb_le _ _)) in H1 by done. rewrite (ST_bind_eq _ _ _ _ _ (call_run CConnect s1)). set (c := said CConnect s1).
  assert (under_way 1 (1 - one (c <? 0)) (after CConnect s1)) as H2.
  { apply (after_step CConnect 1 1); [done|done| |fold c]; count_call. }
  destruct (c <? 0); [exists (-1)|exists sock]; (exists (after CConnect s1); split; [done|]; split; [|cbn; lia]); [exact H2|].
  by rewrite (proj2 (Z.leb_le _ _)).
Qed.

Definition lost s : progress := mkProgress (speed s) (failed s + 1) (received s) (trace s).
Definition won s : progress := mkProgress (speed s + 1) (failed s) (received s) (trace s).

Lemma count_range d e s n : under_way d e s -> 0 <= d -> (length (trace s) <= N + 6)%nat -> 0 <= n <= speed s + failed s -> int_add n 1 = Ret (n + 1).
Proof.
  intros [H1 _ _ _ _] Hd Hl Hn. unfold int_add. rewrite bool_decide_true; [done|].
  pose proof (tries_length (trace s)). unfold BUF_SIZE in *. change (2 ^ 31) with 2147483648 in *. unfold zlen in *. lia.
Qed.

Lemma fail_run d e s : under_way (d + 1) e s -> 0 <= d -> (length (trace s) <= N + 6)%nat -> fail s = Ret (tt, lost s) /\ under_way d e (lost s).
Proof.
  intros H Hd Hl. pose proof H as [H1 H2 H3 H4 [H5 H6]]. unfold fail. rewrite (count_range (d + 1) e s) by (done || lia).
  split; [done|]. split; cbn; try done; lia.
Qed.

Lemma succeed_run d e s : under_way (d + 1) e s -> 0 <= d -> (length (trace s) <= N + 6)%nat -> succeed s = Ret (tt, won s) /\ under_way d e (won s).
Proof.
  intros H Hd Hl. pose proof H as [H1 H2 H3 H4 [H5 H6]]. unfold succeed. rewrite (count_range (d + 1) e s) by (done || lia).
  split; [done|]. split; cbn; try done; lia.
Qed.

(** Bytes are read. *)
Definition gained s : progress := mkProgress (speed s) (failed s) (received s + said CRead s) ((CRead, said CRead s) :: trace s).

Lemma gain_run d e s : under_way d e s -> 0 < said CRead s -> (length (trace s) < N)%nat ->
  add_bytes (said CRead s) (after CRead s) = Ret (tt, gained s) /\ under_way d e (gained s).
Proof.
  intros [H1 H2 H3 H4 H5] Hp Hl. pose proof (bytes_read_bound _ H4). pose proof (reads_small (length (trace s))) as Ha. fold (said CRead s) in Ha.
  unfold BUF_SIZE in *. change (2 ^ 31) with 2147483648 in *. unfold zlen in *. split.
  - unfold add_bytes, int_add. rewrite bool_decide_true; [done|]. cbn [after received]. change (2 ^ 31) with 2147483648. lia.
  - split; unfold gained; cbn [speed failed received trace]; unfold tries, opened, refused, closed, bytes_read in *; rewrite ?tally_cons;
      [count_call|count_call|cbn [fst snd]; rewrite bool_decide_true by done; lia|by constructor|done].
Qed.

(** A round under way costs at most a close more. *)
Lemma close_fail_run d e s : under_way (d + 1) (e + 1) s -> 0 <= d -> (length (trace s) <= N + 6)%nat ->
  exists s', (_ ← fail; _ ← call CClose; mret tt) s = Ret (tt, s') /\ under_way d e s' /\ length (trace s') = S (length (trace s)).
Proof.
  intros H Hd Hl. destruct (fail_run d (e + 1) s H Hd Hl) as [E H1]. rewrite (ST_bind_eq _ _ _ _ _ E).
  exists (after CClose (lost s)). split; [done|]. split; [by apply after_close|done].
Qed.

Lemma read_all_run fuel s : under_way 1 1 s -> (N - length (trace s) < fuel)%nat -> (length (trace s) <= N + 4)%nat ->
  exists ok s', read_all answer alarm fuel s = Ret (ok, s') /\ under_way (one ok) (one ok) s'
    /\ (length (trace s) <= length (trace s') <= N + 4)%nat.
Proof.
  revert s. induction fuel as [|fuel IH]; intros s H Hfuel Hl; [lia|]. cbn [read_all]. unfold timerexpired. rewrite gets_bind. cbv beta.
  destruct (alarm (length (trace s))) eqn:Ha; [exists true, s; split; [done|]; split; [exact H|lia]|].
  assert (length (trace s) < N)%nat as Hlt by (apply Nat.nle_gt; intros Hge%alarm_rings; congruence).
  rewrite (ST_bind_eq _ _ _ _ _ (call_run CRead s)).
  destruct (Z.ltb_spec (said CRead s) 0) as [Hn|Hn]; [|destruct (Z.eqb_spec (said CRead s) 0) as [Hz|Hz]].
  - pose proof (after_other CRead 1 1 s H ltac:(auto with lia)) as H1.
    destruct (close_fail_run 0 0 (after CRead s) H1 ltac:(lia)) as (s' & E & H2 & Hl2); [cbn; lia|].
    exists false, s'. split; [|split; [exact H2|rewrite Hl2; cbn; lia]].
    revert E. unfold mbind, ST_bind. destruct (fail _) as [[[] s1]|]; [|done]. destruct (call CClose s1) as [[x s2]|]; [|done]. by intros [= ->].
  - exists true, (after CRead s). split; [done|]. split; [|cbn; lia]. apply after_other; [exact H|left; split; [done|lia]].
  - destruct (gain_run 1 1 s H ltac:(lia) Hlt) as [E H1]. rewrite (ST_bind_eq _ _ _ _ _ E).
    destruct (IH (gained s) H1) as (ok & s' & E2 & H2 & Hl2); [cbn; lia|cbn; lia|]. exists ok, s'. split; [done|]. split; [done|].
    cbn [gained trace length] in Hl2. lia.
Qed.

(** The end of a request whose answer was read. *)
Lemma close_run s : under_way 1 1 s -> (length (trace s) <= N + 4)%nat ->
  exists s', (c ← call CClose; if negb (c =? 0) then fail else succeed) s = Ret (tt, s') /\ under_way 0 0 s'
    /\ length (trace s') = S (length (trace s)).
Proof.
  intros H Hl. rewrite (ST_bind_eq _ _ _ _ _ (call_run CClose s)).
  pose proof (after_close 1 0 s H) as H1.
  destruct (said CClose s =? 0); cbn [negb].
  - destruct (succeed_run 0 0 (after CClose s) H1 ltac:(lia)) as [E H2]; [cbn; lia|]. by eexists.
  - destruct (fail_run 0 0 (after CClose s) H1 ltac:(lia)) as [E H2]; [cbn; lia|]. by eexists.
Qed.

Lemma attempt_run fuel s : under_way 0 0 s -> (length (trace s) < N)%nat -> (N < fuel)%nat ->
  exists s', attempt answer alarm numeric rlen http09 force fuel s = Ret (tt, s') /\ under_way 0 0 s'
    /\ (length (trace s) < length (trace s') <= N + 5)%nat.
Proof.
  intros H Hlt Hfuel. unfold attempt. destruct (Socket_run s H) as (r0 & s1 & E1 & H1 & Hl1). rewrite (ST_bind_eq _ _ _ _ _ E1).
  destruct (Z.ltb_spec r0 0) as [Hn|Hn].
  { rewrite (proj2 (Z.leb_gt _ _)) in H1 by done. destruct (fail_run 0 0 s1 H1 ltac:(lia)) as [E H2]; [lia|].
    eexists. split; [exact E|]. split; [done|cbn; lia]. }
  rewrite (proj2 (Z.leb_le _ _)) in H1 by done. cbn [one] in H1.
  rewrite (ST_bind_eq _ _ _ _ _ (call_run CWrite s1)).
  pose proof (after_other CWrite 1 1 s1 H1 ltac:(auto)) as H2. set (s2 := after CWrite s1) in *.
  assert (length (trace s2) = S (length (trace s1))) as Hl2 by done.
  destruct (negb (said CWrite s1 =? rlen)).
  { destruct (close_fail_run 0 0 s2 H2 ltac:(lia)) as (s' & E & H3 & Hl); [lia|]. exists s'. split; [done|]. split; [done|lia]. }
  assert (exists r s3, (if http09 then call CShutdown else mret 0) s2 = Ret (r, s3) /\ under_way 1 1 s3
    /\ (length (trace s2) <= length (trace s3) <= S (length (trace s2)))%nat) as (r & s3 & E3 & H3 & Hl3).
  { destruct http09; [|by exists 0, s2; split; [|split; [|lia]]]. exists (said CShutdown s2), (after CShutdown s2). split; [done|].
    split; [apply after_other; auto|cbn; lia]. }
  rewrite (ST_bind_eq _ _ _ _ _ E3). destruct (negb (r =? 0)).
  { destruct (close_fail_run 0 0 s3 H3 ltac:(lia)) as (s' & E & H4 & Hl); [lia|]. exists s'. split; [done|]. split; [done|lia]. }
  assert (exists ok s4, (if force then mret true else read_all answer alarm fuel) s3 = Ret (ok, s4) /\ under_way (one ok) (one ok) s4
    /\ (length (trace s3) <= length (trace s4) <= N + 4)%nat) as (ok & s4 & E4 & H4 & Hl4).
  { destruct force; [exists true, s3; split; [done|]; split; [exact H3|lia]|]. apply read_all_run; [done|lia|lia]. }
  rewrite (ST_bind_eq _ _ _ _ _ E4). destruct ok; cbn [negb].
  - destruct (close_run s4 H4) as (s' & E & H5 & Hl); [lia|]. exists s'. split; [done|]. split; [done|lia].
  - exists s4. split; [done|]. split; [exact H4|lia].
Qed.

Lemma benchcore_run fuel s : under_way 0 0 s -> (length (trace s) <= N + 5)%nat -> (N - length (trace s) + N + 1 < fuel)%nat ->
  exists s' raw, benchcore answer alarm numeric rlen http09 force fuel s = Ret (tt, s') /\ under_way 0 0 (mkProgress (speed s') raw (received s') (trace s'))
    /\ failed s' = Z.max 0 (raw - 1) /\ (length (trace s') <= N + 5)%nat.
Proof.
  revert s. induction fuel as [|fuel IH]; intros s H Hl Hfuel; [lia|]. cbn [benchcore]. unfold timerexpired. rewrite gets_bind. cbv beta.
  destruct (alarm (length (trace s))) eqn:Ha.
  - rewrite gets_bind. pose proof (uw_positive _ _ _ H) as [_ Hf]. destruct (Z.ltb_spec 0 (failed s)).
    + eexists _, (failed s). split; [reflexivity|]. cbn. split; [by destruct s|split; [lia|done]].
    + exists s, (failed s). split; [done|]. split; [by destruct s|split; [lia|done]].
  - assert (length (trace s) < N)%nat as Hlt by (apply Nat.nle_gt; intros Hge%alarm_rings; congruence).
    destruct (attempt_run fuel s H Hlt) as (s1 & E & H1 & Hl1); [lia|]. rewrite (ST_bind_eq _ _ _ _ _ E). apply IH; [done|lia|lia].
Qed.
End counts.



(** Once 2 GiB have been read the sum is no [int]. *)
Lemma bytes_overflow i s : 0 < i <= BUF_SIZE -> 2 ^ 31 <= received s + i -> add_bytes i s = Crash UndefinedBehaviour.
Proof. intros Hi H. unfold add_bytes, int_add. by rewrite bool_decide_false by (change (2 ^ 31) with 2147483648 in *; lia). Qed.

(** ** The lines of the clients *)
Lemma dec_pos n : 0 <= n -> dec n = udec n.
Proof. intros Hn. unfold dec. by rewrite decide_False by lia. Qed.

Lemma skip_space_dec n d : 0 <= n -> skip_space (dec n ++ d) = dec n ++ d.
Proof.
  intros Hn. rewrite dec_pos by done. pose proof (udec_digits n) as Hd. pose proof (udec_nonempty n) as Hne.
  destruct (udec n) as [|c l]; [done|]. inversion_clear Hd as [|? ? Hc _]. cbn. by rewrite (isdigit_not_space c Hc).
Qed.

Lemma scan_int_dec l n d : skip_space l = dec n ++ d -> 0 <= n < 2 ^ 31 ->
  match d with c :: _ => isdigit c = false | [] => True end -> scan_int l = Ret (Some (n, d)).
Proof.
  intros Hl Hn Hd. unfold scan_int. rewrite Hl. pose proof (atoi_dec n d Hd) as Ha. rewrite dec_pos in * by lia.
  pose proof (udec_digits n) as Hdig. pose proof (udec_nonempty n) as Hne. pose proof (digit_prefix_app _ d Hdig Hd) as Hp.
  assert (match udec n ++ d with c :: _ => bool_decide (c = "-"%char) || bool_decide (c = "+"%char) | [] => false end = false) as ->.
  { destruct (udec n) as [|c l']; [done|]. inversion_clear Hdig as [|? ? Hc _]. cbn.
    destruct (isdigit_not_sign c Hc) as (?&?&_). by rewrite !bool_decide_false. }
  rewrite Hp, decide_False by done. rewrite Ha, bool_decide_true by (unfold in_s; lia). by rewrite zdrop_app_exact.
Qed.

Lemma scan_int_end l : skip_space l = [] -> scan_int l = Ret None.
Proof. intros Hl. unfold scan_int. by rewrite Hl. Qed.

(** Of results: the sums, the speed of the last. *)
Definition total (f : Z * Z * Z -> Z) (rs : list (Z * Z * Z)) : Z := foldr (fun r n => f r + n) 0 rs.
Definition last_speed (rs : list (Z * Z * Z)) (d : Z) : Z := match last rs with Some (s, _, _) => s | None => d end.
Definition speed_of (r : Z * Z * Z) : Z := r.1.1.
Definition failed_of (r : Z * Z * Z) : Z := r.1.2.
Definition bytes_of (r : Z * Z * Z) : Z := r.2.
(** What a client counts is not negative. *)
Definition counted (r : Z * Z * Z) : Prop := 0 <= speed_of r /\ 0 <= failed_of r /\ 0 <= bytes_of r.

Lemma total_nonneg f rs : (forall r, counted r -> 0 <= f r) -> Forall counted rs -> 0 <= total f rs.
Proof. intros Hf. unfold total. induction 1 as [|r rs Hr _ IH]; cbn; [lia|]. specialize (Hf r Hr). lia. Qed.

#[export] Instance total_proper f : Proper ((≡ₚ) ==> eq) (total f).
Proof. unfold total. induction 1; cbn; lia. Qed.

Lemma skip_space_lines rs : Forall counted rs -> skip_space (concat (map line rs)) = concat (map line rs).
Proof.
  destruct 1 as [|[[s f] b] rs [Hs _] _]; [done|]. cbn [map concat]. unfold line. rewrite <- !app_assoc. by apply skip_space_dec.
Qed.

(** One line is read. *)
Lemma fscanf_line l s f b more i j k : counted (s, f, b) -> s < 2 ^ 31 /\ f < 2 ^ 31 /\ b < 2 ^ 31 ->
  skip_space l = line (s, f, b) ++ more -> fscanf l i j k = Ret (3, (Some s, Some f, Some b), LF :: more).
Proof.
  unfold counted, speed_of, failed_of, bytes_of. cbn [fst snd]. intros (H1 & H2 & H3) (H4 & H5 & H6) Hl.
  unfold line in Hl. rewrite <- !app_assoc in Hl. unfold fscanf.
  rewrite (scan_int_dec l s _ Hl) by (done || by cbn). cbn [mbind outcome_bind].
  rewrite (scan_int_dec _ f (lit " " ++ dec b ++ [LF] ++ more)) by (by apply (skip_space_dec f)) || (by cbn) || done. cbn [mbind outcome_bind].
  rewrite (scan_int_dec _ b ([LF] ++ more)) by (by apply (skip_space_dec b)) || (by cbn) || done. done.
Qed.

Lemma fscanf_end l i j k : skip_space l = [] -> fscanf l i j k = Ret (-1, (i, j, k), l).
Proof. intros Hl. unfold fscanf. rewrite scan_int_end by done. cbn. by rewrite decide_True. Qed.

Lemma int_add_small a b : 0 <= a -> 0 <= b -> a + b < 2 ^ 31 -> int_add a b = Ret (a + b).
Proof. intros Ha Hb Hs. unfold int_add. rewrite bool_decide_true; [done|]. change (2 ^ 31) with 2147483648 in *. lia. Qed.

Lemma gather_run rs : Forall counted rs -> forall fuel c l i j k s f b,
  skip_space l = concat (map line rs) -> (length rs < fuel)%nat -> Z.of_nat (length rs) <= c -> 0 < c ->
  0 <= s /\ 0 <= f /\ 0 <= b ->
  s + total speed_of rs < 2 ^ 31 /\ f + total failed_of rs < 2 ^ 31 /\ b + total bytes_of rs < 2 ^ 31 ->
  gather fuel c l (Some i) j k s f b
  = Ret (Some (last_speed rs i), (s + total speed_of rs, f + total failed_of rs, b + total bytes_of rs)).
Proof.
  induction 1 as [|[[s' f'] b'] rs Hr Hrs IH]; intros fuel c l i j k s f b Hl Hfuel Hc Hpos Hn Ht; (destruct fuel as [|fuel]; [cbn in Hfuel; lia|]).
  { cbn [gather]. rewrite fscanf_end by done. cbn. by rewrite !Z.add_0_r. }
  cbn [total foldr] in *. fold (total speed_of rs) (total failed_of rs) (total bytes_of rs) in *.
  pose proof (total_nonneg speed_of rs ltac:(by intros ? (?&?&?)) Hrs) as T1. pose proof (total_nonneg failed_of rs ltac:(by intros ? (?&?&?)) Hrs) as T2.
  pose proof (total_nonneg bytes_of rs ltac:(by intros ? (?&?&?)) Hrs) as T3. pose proof Hr as (R1 & R2 & R3).
  unfold speed_of at 1, failed_of at 1, bytes_of at 1 in Ht. unfold speed_of, failed_of, bytes_of in R1, R2, R3. cbn [fst snd] in *.
  cbn [gather]. cbn [map concat] in Hl. rewrite (fscanf_line l s' f' b' _ _ _ _ Hr ltac:(lia) Hl). cbn [mbind outcome_bind deref]. change (3 <? 2) with false. cbv iota.
  rewrite !int_add_small by lia. cbn [mbind outcome_bind]. unfold speed_of at 2, failed_of at 2, bytes_of at 2. cbn [fst snd].
  destruct (Z.eqb_spec (c - 1) 0) as [Hz|Hz].
  - cbn [length] in Hc. destruct rs; [|cbn in Hc; lia]. cbn. by rewrite !Z.add_0_r.
  - rewrite IH; [|by apply skip_space_lines|cbn in Hfuel; lia|cbn [length] in Hc; lia|lia|lia|lia].
    rewrite !Z.add_assoc. unfold last_speed. rewrite last_cons. by destruct (last rs) as [[[? ?] ?]|].
Qed.

Lemma forks_all fork n i pid : (forall k, 0 < fork k) -> 0 < pid \/ (0 < n)%nat ->
  exists pid', forks fork n i pid = ((n + i)%nat, pid') /\ 0 < pid'.
Proof.
  intros Hf. revert i pid. induction n as [|n IH]; intros i pid Hp; cbn [forks]; [exists pid; split; [done|lia]|].
  rewrite (proj2 (Z.leb_gt _ _)) by done. destruct (IH (S i) (fork i)) as (pid' & E & Hpos); [by left|]. exists pid'. rewrite E. split; [f_equal; lia|done].
Qed.

Lemma lines_length rs : (length rs <= length (concat (map line rs)))%nat.
Proof.
  induction rs as [|[[s f] b] rs IH]; [done|]. cbn [map concat length]. unfold line at 1. rewrite !length_app.
  change (length [LF]) with 1%nat. lia.
Qed.

(** The parent adds up what the clients report, in whatever order their
    lines come through the pipe, also when some of them died without one; the
    status it ends with is the speed of the last line, or the number of clients
    when there is none. *)
Theorem bench_totals clients sock fork rs (Hsock : 0 <= sock) (Hfork : forall k, 0 < fork k)
    (Hclients : 0 < clients /\ Z.of_nat (length rs) <= clients) (Hcounted : Forall counted rs)
    (Hroom : total speed_of rs < 2 ^ 31 /\ total failed_of rs < 2 ^ 31 /\ total bytes_of rs < 2 ^ 31) :
  bench clients sock 0 fork true (concat (map line rs))
  = Ret (Some (last_speed rs clients, Some (total speed_of rs, total failed_of rs, total bytes_of rs)))
  /\ (forall rs', rs' ≡ₚ rs -> (total speed_of rs', total failed_of rs', total bytes_of rs') = (total speed_of rs, total failed_of rs, total bytes_of rs)).
Proof.
  split.
  - unfold bench. rewrite (proj2 (Z.ltb_ge _ _)) by done. cbn [negb Z.eqb].
    destruct (forks_all fork (Z.to_nat clients) 0 0 Hfork) as (pid & -> & Hpid); [lia|].
    rewrite (proj2 (Z.ltb_ge _ _)), (proj2 (Z.eqb_neq _ _)) by lia. cbn [negb].
    rewrite (gather_run rs Hcounted) by (done || lia || (by apply skip_space_lines) || (pose proof (lines_length rs); lia)).
    cbn [mbind outcome_bind deref]. rewrite Nat.add_0_r, Z2Nat.id by lia. done.
  - intros rs' Hp. by rewrite Hp.
Qed.

(** Two of three clients report. *)
Lemma bench_totals_witness :
  bench 3 4 0 (fun k => 100 + Z.of_nat k) true (lit "120 1 4096" ++ [LF] ++ lit "7 0 512" ++ [LF]) = Ret (Some (7, Some (127, 1, 4608))).
Proof.
  apply (bench_totals 3 4 (fun k => 100 + Z.of_nat k) [(120, 1, 4096); (7, 0, 512)]); [done|lia|done|by repeat constructor|done].
Defined.

(** ** What goes wrong *)

(** Without a proxy [-r] changes nothing that is sent. *)
Lemma reload_ignored o h port target : proxyhost o = None -> located h port target -> fits (need_version o) h port = true ->
  exists o1 o2 host request, build_request o (url_of h port target) = Ret (inr (o1, host, request))
    /\ build_request (set_reload o) (url_of h port target) = Ret (inr (o2, host, request)).
Proof.
  intros Hno Hl Hf. assert (need_version (set_reload o) = need_version o) as Hv.
  { unfold need_version, set_reload. cbn [http10 force_reload proxyhost method]. rewrite Hno. by destruct (force_reload o). }
  rewrite !build_request_run by done. rewrite Hv, Hf. do 4 eexists. split; [done|]. do 3 f_equal. unfold request_text. by rewrite Hv.
Qed.

(** A negative number of clients is let through, and makes the program a client
    of its own that prints nothing. *)
Lemma negative_clients clients sock fork opened content : clients < 0 -> 0 <= sock -> bench clients sock 0 fork opened content = Ret None.
Proof. intros Hc Hs. unfold bench. rewrite (proj2 (Z.ltb_ge _ _)) by done. cbn [negb Z.eqb]. by rewrite Z2Nat.nonpos by lia. Qed.

(** A host of 64 characters and more, and a port of ten digits and more. *)
Example long_host : build_request defaults (lit "http://" ++ replicate 64 "h"%char ++ lit "/") = Crash UndefinedBehaviour
  /\ build_request defaults (lit "http://localhost:0000000080/") = Crash UndefinedBehaviour.
Proof. split; vm_compute; reflexivity. Qed.

(** Two numbers of a line that breaks off are enough to add the third. *)
Example broken_line : bench 1 4 0 (fun _ => 7) true (lit "5 1") = Crash UndefinedBehaviour.
Proof. reflexivity. Qed.

(** The proxy's host and port are read back. *)
Lemma proxy_option_reads h port o : h <> [] -> 0 <= port < 2 ^ 31 ->
  proxy_option (h ++ ":"%char :: dec port) o = Ret (inr (set_proxy port (Some h) o)).
Proof.
  intros Hh Hp. unfold proxy_option, rfind_pos. rewrite dec_pos by lia. pose proof (udec_digits port) as Hd. pose proof (udec_nonempty port) as Hne.
  assert (":"%char ∉ rev (udec port)) as Hc.
  { apply Forall_rev in Hd. rewrite Forall_forall in Hd. intros Hin. by specialize (Hd _ Hin). }
  rewrite rev_app_distr. cbn [rev]. rewrite <- app_assoc. cbn [app]. rewrite find_pos_app by done.
  assert (0 < zlen h /\ 0 < zlen (udec port)) as [H1 H2] by (unfold zlen; destruct h, (udec port); cbn; done || lia).
  rewrite zlen_app, zlen_cons. assert (zlen (rev (udec port)) = zlen (udec port)) as -> by (unfold zlen; by rewrite length_rev).
  replace (zlen h + (1 + zlen (udec port)) - 1 - zlen (udec port)) with (zlen h) by lia.
  rewrite !(proj2 (Z.eqb_neq _ _)) by lia. rewrite ztake_app_exact by done.
  rewrite (cons_middle _ h), app_assoc, zdrop_app_exact by (by rewrite zlen_app).
  unfold atoi_int. pose proof (atoi_dec port [] I) as Ha. rewrite app_nil_r, dec_pos in Ha by lia. rewrite Ha. by rewrite bool_decide_true by (unfold in_s; lia).
Qed.
End Webbench.
