(* ===== verification/HttpExample.v ===== *)
(** The callbacks of src/example/http_server_example.cpp: a parser of their own
    for every message, where HttpServer keeps one for the connection. *)
From S2P Require Import Prelude Cxx Ordered Buffer HttpRequest HttpContext HttpResponse Tcp HttpServer.
Import HttpServer.

Module HttpExample.

(** The body of every answer. *)
Definition welcome : bytes := lit "welcome!" ++ [LF].
Definition greeting (close : bool) : HttpResponse.t :=
  HttpResponse.setBody (HttpResponse.setStatusCode (HttpResponse.init close) HttpResponse.k200Ok) welcome.

(** What the callbacks ask of the connection; the log statements are left out. *)
Definition onRequest (req : HttpRequest.t) : outcome (list TcpConnection.user_op) :=
  let connection := HttpRequest.getHeader req (lit "Connection") in
  let close := bool_decide (connection = lit "close") || bool_decide (connection = lit "Close")
    || (bool_decide (HttpRequest.getVersion req = HttpRequest.kHttp10) && negb (bool_decide (connection = lit "Keep-Alive"))) in
  let response := greeting close in
  buf ← Buffer.init Buffer.kInitialSize;
  buf ← HttpResponse.appendToBuffer response buf;
  Ret (TcpConnection.USend (Buffer.content buf) :: if HttpResponse.closeConnection response then [TcpConnection.UShutdown] else []).

(** [now] is what [TimeStamp::now] gives. *)
Definition on_message (now : Z) (buffer : Buffer.t) : outcome (Buffer.t * list TcpConnection.user_op) :=
  '(ok, context, buffer) ← HttpContext.parseRequest (HttpContext.fuel_for buffer) HttpContext.init buffer now;
  let refused := if (ok : bool) then [] else [TcpConnection.USend bad_request; TcpConnection.UShutdown] in
  if HttpContext.gotAll context
  then answer ← onRequest (HttpContext.request context); Ret (buffer, refused ++ answer)
  else Ret (buffer, refused).

(** The answer to a request. *)
Definition closes (req : HttpRequest.t) : bool :=
  wants_close req || bool_decide (HttpRequest.getHeader req (lit "Connection") = lit "Close").
Definition greets (req : HttpRequest.t) : list TcpConnection.user_op :=
  TcpConnection.USend (HttpResponse.render (greeting (closes req))) :: if closes req then [TcpConnection.UShutdown] else [].

Lemma onRequest_greets req : onRequest req = Ret (greets req).
Proof.
  unfold onRequest, greets, closes, wants_close.
  set (close := bool_decide _ || bool_decide _ || _).
  assert (bool_decide (HttpRequest.getHeader req (lit "Connection") = lit "close")
    || (bool_decide (HttpRequest.getVersion req = HttpRequest.kHttp10) && negb (bool_decide (HttpRequest.getHeader req (lit "Connection") = lit "Keep-Alive")))
    || bool_decide (HttpRequest.getHeader req (lit "Connection") = lit "Close") = close) as ->.
  { unfold close. clear. repeat match goal with |- context [bool_decide ?P] => destruct (bool_decide P) end; reflexivity. }
  by destruct close; vm_compute.
Qed.

(** A message and the parser, on the bytes. *)
Lemma on_message_parse now b ok c r : Buffer.wf b -> HttpContext.parse HttpContext.init (Buffer.content b) now = Ret (ok, c, r) ->
  exists b', Buffer.wf b' /\ Buffer.content b' = r /\ on_message now b
    = Ret (b', (if ok then [] else [TcpConnection.USend bad_request; TcpConnection.UShutdown])
               ++ if HttpContext.gotAll c then greets (HttpContext.request c) else []).
Proof.
  intros Hb Hp. pose proof (HttpContext.parseRequest_refines (HttpContext.fuel_for b) HttpContext.init b now Hb) as H.
  rewrite HttpContext.fuel_of_content in H by done. unfold HttpContext.parse in Hp. rewrite Hp in H.
  destruct H as (b' & E & Hb' & Hc & _). exists b'. split; [done|]. split; [done|]. unfold on_message.
  rewrite HttpContext.fuel_of_content, E by done. cbn [mbind outcome_bind].
  destruct (HttpContext.gotAll c); [by rewrite onRequest_greets|by rewrite app_nil_r].
Qed.

(** ** Requests in one message, and in two *)
Abbreviation fields_ok hs := (Forall (fun h => ":"%char ∉ h.1 /\ CR ∉ h.1 /\ CR ∉ h.2 /\ HttpRequest.trimmed h.2) hs).

(** Fields without the empty line that ends them. *)
Lemma loop_fields n hs r time : fields_ok hs -> (length hs < n)%nat ->
  exists r', HttpContext.loop n (HttpContext.mk HttpContext.kExpectHeaders r) (concat (map HttpContext.render_header hs)) time
    = Ret (true, HttpContext.mk HttpContext.kExpectHeaders r', []).
Proof.
  intros Hhs. revert n r. induction Hhs as [|h hs (Hc & Hk & Hv & Ht) Hhs IH]; intros [|n] r Hn; cbn [length] in Hn; [lia| |lia|].
  - by eexists.
  - cbn [HttpContext.loop map concat]. unfold HttpContext.step. cbn [HttpContext.state_ HttpContext.request_].
    assert (HttpContext.render_header h ++ concat (map HttpContext.render_header hs)
      = (h.1 ++ ":"%char :: " "%char :: h.2) ++ CRLF ++ concat (map HttpContext.render_header hs)) as ->.
    { unfold HttpContext.render_header at 1. rewrite <- !app_assoc. cbn [app]. by rewrite <- app_assoc. }
    rewrite HttpContext.split_line_line by (assert (CR <> ":"%char) by done; assert (CR <> " "%char) by done; set_solver).
    rewrite HttpContext.header_line_render by done. cbn [mbind outcome_bind]. apply IH. lia.
Qed.

(** No method ends in a colon. *)
Lemma method_of_colon k : HttpRequest.method_of (k ++ [":"%char]) = HttpRequest.kInvalid.
Proof.
  unfold HttpRequest.method_of. repeat case_decide; try done;
  match goal with H : _ ++ _ = lit ?x |- _ => apply (f_equal last) in H; rewrite last_snoc in H; by vm_compute in H end.
Qed.

(** A line of fields, or the empty line, is no request line. *)
Lemma field_line_refused h : " "%char ∉ h.1 -> ":"%char ∉ h.1 ->
  exists r, HttpContext.processRequestLine HttpRequest.init (h.1 ++ ":"%char :: " "%char :: h.2) = Ret (false, r).
Proof.
  intros Hs Hc. unfold HttpContext.processRequestLine. rewrite cons_middle, app_assoc.
  rewrite find_pos_app by set_solver. pose proof (zlen_nonneg h.2).
  rewrite (proj2 (Z.eqb_neq _ _)) by (rewrite !zlen_app, !zlen_cons; lia). rewrite ztake_app_exact by done.
  unfold HttpRequest.setMethod. rewrite method_of_colon. by eexists.
Qed.

Lemma fields_refused hs now : Forall (fun h => " "%char ∉ h.1) hs -> fields_ok hs ->
  exists c, HttpContext.parse HttpContext.init (concat (map HttpContext.render_header hs) ++ CRLF) now
    = Ret (false, c, concat (map HttpContext.render_header hs) ++ CRLF) /\ HttpContext.gotAll c = false.
Proof.
  intros Hs Hhs. unfold HttpContext.parse. cbn [HttpContext.loop]. unfold HttpContext.step. cbn [HttpContext.init HttpContext.state_ HttpContext.request_].
  destruct hs as [|h hs]; [by eexists|]. inversion_clear Hs as [|? ? Hsp _]. inversion_clear Hhs as [|? ? (Hc & Hk & Hv & _) _].
  cbn [map concat]. assert ((HttpContext.render_header h ++ concat (map HttpContext.render_header hs)) ++ CRLF
    = (h.1 ++ ":"%char :: " "%char :: h.2) ++ CRLF ++ concat (map HttpContext.render_header hs) ++ CRLF) as ->.
  { unfold HttpContext.render_header at 1. rewrite <- !app_assoc. cbn [app]. by rewrite <- app_assoc. }
  rewrite HttpContext.split_line_line by (assert (CR <> ":"%char) by done; assert (CR <> " "%char) by done; set_solver).
  destruct (field_line_refused h Hsp Hc) as [r ->]. by eexists.
Qed.

(** A request is answered only when one message holds all of it: cut after
    any of its lines, its first part is consumed in silence, and the rest,
    which a parser of the connection would have completed, is refused with a
    400 and stays in the buffer. *)
Theorem one_message_only q hs1 hs2 now b b1 b2 rest (Hq : well_formed q) (Hhs : q_headers q = hs1 ++ hs2)
    (Hnames : Forall (fun h => " "%char ∉ h.1) hs2) (Hwf : Buffer.wf b /\ Buffer.wf b1 /\ Buffer.wf b2)
    (Hb : Buffer.content b = text q ++ rest)
    (Hb1 : Buffer.content b1 = HttpContext.request_line (q_method q) (q_path q) (q_query q) (q_version q) ++ CRLF
      ++ concat (map HttpContext.render_header hs1))
    (Hb2 : Buffer.content b2 = concat (map HttpContext.render_header hs2) ++ CRLF) :
  text q = Buffer.content b1 ++ Buffer.content b2
  /\ (exists b' r, on_message now b = Ret (b', greets r) /\ Buffer.content b' = rest
      /\ HttpRequest.method_ r = q_method q /\ HttpRequest.path_ r = q_path q)
  /\ (exists b1', on_message now b1 = Ret (b1', []) /\ Buffer.content b1' = [])
  /\ exists b2', on_message now b2 = Ret (b2', [TcpConnection.USend bad_request; TcpConnection.UShutdown])
      /\ Buffer.content b2' = Buffer.content b2.
Proof.
  destruct Hwf as (W & W1 & W2). pose proof (HttpContext.r_headers _ _ _ _ _ Hq) as Hok. rewrite Hhs, Forall_app in Hok. destruct Hok as [Hok1 Hok2].
  split; [|split; [|split]].
  - unfold text, HttpContext.render. by rewrite Hhs, Hb1, Hb2, map_app, concat_app, <- !app_assoc.
  - pose proof (HttpContext.parse_render _ _ _ _ _ rest now Hq) as Hp. unfold text in Hb. rewrite <- Hb in Hp.
    destruct (on_message_parse now b _ _ _ W Hp) as (b' & _ & Hc & E). eexists b', _. split; [exact E|done].
  - destruct (loop_fields (length (Buffer.content b1)) hs1 (HttpRequest.mk (q_method q) (q_version q) (q_path q) (q_query q) now []) now Hok1) as [r' Hl].
    { rewrite Hb1, !length_app. pose proof (HttpContext.length_render_headers hs1). change (length CRLF) with 2%nat. lia. }
    pose proof (HttpContext.split_line_line _ (concat (map HttpContext.render_header hs1)) (HttpContext.request_line_no_CR _ _ _ _ _ Hq)) as Hsplit.
    rewrite <- Hb1 in Hsplit. assert (HttpContext.parse HttpContext.init (Buffer.content b1) now = Ret (true, HttpContext.mk HttpContext.kExpectHeaders r', [])) as Hp.
    { unfold HttpContext.parse. cbn [HttpContext.loop]. unfold HttpContext.step. cbn [HttpContext.init HttpContext.state_ HttpContext.request_].
      rewrite Hsplit.
      rewrite (HttpContext.processRequestLine_render _ _ _ _ _ _ Hq) by (done || by right). exact Hl. }
    destruct (on_message_parse now b1 _ _ _ W1 Hp) as (b1' & _ & Hc & E). by exists b1'.
  - destruct (fields_refused hs2 now Hnames Hok2) as (c & Hp & Hg). rewrite <- Hb2 in Hp.
    destruct (on_message_parse now b2 _ _ _ W2 Hp) as (b2' & _ & Hc & E). rewrite Hg in E. by exists b2'.
Qed.

(** A request with one field, cut before the field. *)
Definition hello : request := mkRequest HttpRequest.kGet (lit "/") [] HttpRequest.kHttp11 [(lit "Host", lit "a")].
Definition holding (s : bytes) : Buffer.t := Buffer.mk (replicate 8 NUL ++ s) 8 (8 + zlen s).

Lemma one_message_only_witness :
  (exists b', on_message 7 (holding (lit "GET / HTTP/1.1" ++ CRLF)) = Ret (b', []) /\ Buffer.content b' = [])
  /\ exists b', on_message 7 (holding (lit "Host: a" ++ CRLF ++ CRLF)) = Ret (b', [TcpConnection.USend bad_request; TcpConnection.UShutdown])
    /\ Buffer.content b' = lit "Host: a" ++ CRLF ++ CRLF.
Proof.
  apply (one_message_only hello [] [(lit "Host", lit "a")] 7 (holding (text hello)) (holding (lit "GET / HTTP/1.1" ++ CRLF))
    (holding (lit "Host: a" ++ CRLF ++ CRLF)) []); [|done|by repeat constructor; by_compute|repeat split; vm_compute; congruence|by vm_compute..].
  split; try done; [repeat split; by_compute..|]. by repeat constructor; by_compute.
Defined.
End HttpExample.
